(* ===== verification/_CoqProject ===== *)
-Q . S2P
Prelude.v
Utf8.v
Buffers.v
Testing.v
NbtTag.v
NbtSpec.v
NbtWrite.v
NbtRead.v
NbtCorrect.v
NbtLimits.v
Capacity.v
NbtApi.v
NbtTests.v
ProtocolError.v
Varint.v
Fields.v
Packets.v
PacketCapacity.v
Codec.v
ConnState.v
Display.v
NbtLargeTests.v
Md5.v
Offline.v
Json.v
JsonRead.v
JsonParse.v
ProtocolTests.v
Connection.v
Session.v
Lifetime.v
Timed.v
Slow.v
Server.v
Host.v
Footprint.v
Clock.v
Shutdown.v
Main.v
NetTests.v
NetIntegration.v
