(* ===== verification/Prelude.v ===== *)
(** * Pyrite: the protocol stack of a Minecraft server, verified

    Pyrite is a Rust workspace of four crates under [src/crates/]: [nbt] (the
    binary tag format), [protocol] (variable-length integers, field codecs,
    packets, the framing codec), [net] (one connection, its state machine, the
    accept loop) and [server] (the executable).  This library models all four
    and proves what each promises to the one above it.  Every definition follows
    the Rust function of the same name.

    ** How the program fits together

    The executable checks its options ([Main]) and hands a listener to the
    accept loop ([Server], and with the connections it serves [Host]), which
    admits a bounded number of connections and drains them at shutdown.  Each
    connection ([Connection]) reads frames through
    the codec ([Codec]), dispatches them by protocol state ([ConnState]), decodes
    their bodies as packets ([Packets], built from [Fields], [Varint] and the NBT
    files) and answers through the same codec; a login derives an identity from
    the name ([Offline]) and switches the codec to compression half way.

    ** The files, in dependency order

    - [Prelude] (this file): outcomes and the state-and-error monad, bytes and
      big-endian integers, wrap-around at a width, the weakest-precondition
      rules and the tactics the other files use.
    - [Utf8]: UTF-8 validation and characters, as the standard library decides
      them; strings are lists of bytes that are valid.
    - [Buffers]: the [Buf] and [BufMut] traits as classes, their laws, the
      instance on plain byte lists, and three relations with their hint
      databases: [sim] (a generic routine simulates the one on a byte list),
      [writes] (a routine appends an encoding, or fails) and [parses] (a routine
      reads an encoding off the front).
    - [NbtTag] ([nbt/src/tag.rs], [macros.rs], [error.rs]): tags, compounds, lists.
    - [NbtSpec]: the reference encoding, validity and size of a document; no code.
    - [NbtWrite] ([write.rs]), [NbtRead] ([read.rs]): writer and reader.
    - [NbtCorrect], [NbtLimits]: reader against reference encoding, and limits.
    - [Capacity], [PacketCapacity]: the room the NBT readers and the packet decoders
      ask for, of [Vec::with_capacity], [vec![0u8; len]] and [copy_to_bytes], in a
      buffer that records the requests.
    - [NbtApi] ([lib.rs]): everything the public interface of [nbt] can build.
    - [ProtocolError] ([protocol/src/error.rs]): its errors, states and directions.
    - [Varint] ([varint.rs]), [Fields] ([buf.rs]), [Packets] ([packets/*.rs],
      [text.rs], [version.rs]): every wire field and packet.  The class
      [PacketLaws] is what a packet promises to the codec.
    - [Codec] ([codec.rs]): [PacketCodec], [decode], [decompress], [encode].
    - [ConnState] ([net/src/state.rs], [error.rs]), [Offline] ([offline.rs]),
      [Connection] ([connection.rs], [config.rs]): the connection.
    - [Display] (the [thiserror] attributes of the three [error.rs]): what every
      error prints.  [Json], [JsonRead] ([text.rs], [packets/status.rs]): the
      documents the derived [Serialize] and [Deserialize] implementations write and
      read; the class [Serde] is a type that has both, [SerdeLaws] that they agree.
      [JsonParse] and [Md5]: a reader of compact JSON and the digest of RFC 1321, for
      concrete runs.
    - [Session]: whole conversations, the abstract loop that [run] implements.
    - [Lifetime]: how many packets a connection may exchange.  [Timed]: the read loop
      under a clock, with the read timeout as a deadline.  [Slow]: the same loop when the
      socket takes its time to accept the replies.
    - [Server] ([net/src/server.rs]): the accept loop over abstract tasks; [Host]:
      the same loop with its tasks serving real connections, one turn at a time.
      [Footprint]: how many bytes all the connections hold together.  [Clock]: the
      loop with sockets opened at given times and their connections as in [Timed].
      [Shutdown]: [serve] on that clock, from the sockets to the end of the drain.
    - [Main] ([server/src/main.rs]): [main] from its options to its last line.
    - [Testing], [NbtTests], [NbtLargeTests], [ProtocolTests], [NetTests]: the unit
      tests of the source, each a proposition under its own name, on the model;
      [NetIntegration]: the integration tests of [crates/net/tests].

    ** Conventions

    A fallible call that mutates state is a function [S -> outcome E A * S]: what
    an erroring call has consumed or written stays so.  [Panic] is a Rust panic;
    [Diverge] is a model out of fuel, and the theorems exclude both.  Integers
    are [Z]; where the code casts, wraps, saturates or checks, so does the
    definition ([wrap], [sign], [saturating_mul], [checked_mul], the [try_from]
    functions); [usize] has 64 bits.  Floats are their bit patterns.  Requests
    for room ([Vec::with_capacity], [vec![0u8; len]]) are calls of the class [Buf],
    which no buffer notices but the metered one of [Capacity]; the reservations of the frame buffer
    are recorded, because theorems bound both.

    Code outside the repository is a parameter: the buffer traits through their
    laws, zlib as [inflate] and [deflate] (a stream inflates to some bytes and
    perhaps an error), MD5, the printing and parsing of a JSON document, the [Debug]
    of a string, the display of a socket address, binding a socket.
    The laws assumed are those of [BufLaws], [BufMutLaws] and [ExternalsLaws]:
    inflating what was deflated gives it back, a digest has sixteen bytes,
    printing JSON returns; and [reads_what_it_prints], where JSON is read: a printed
    document within [serde_json]'s recursion limit parses to itself.  [tokio_util]'s [Framed] is described by its documented
    contract: a read buffer the decoder is asked about before every read, leftover
    bytes at the end of the stream an error, a write buffer emptied by a flush.
    The transport is a list of arrivals (bytes, end, error, silence past the
    timeout) and an oracle for failing flushes.  [Timed] takes the silence out of the
    environment's hands: deliveries carry times, and the deadline of each call of
    [next] decides; handling a packet takes no time there.

    ** Fuel

    The NBT reader recurses with the bytes left plus two: every payload, body and
    entry but the last takes a byte, and the readers are proved to return.  The
    VarInt writers have their length bound (5 and 10).  The read loop has the
    bytes still to come plus one, since every frame takes at least one; the
    conversation of [Session] has the length of the stream plus one, the JSON
    reader of [JsonParse] the length of its text.

    ** What the theorems show

    - NBT: the readers accept exactly the encodings of valid documents (depth, tag
      budget, distinct names, typed lists, UTF-8), return on every input, never
      panic, consume exactly the document, and reject every truncation; the
      writer writes the reference encoding of exactly the documents that fit; the
      two round-trip; a compound is a finite map; what the writer emits beyond the
      reader's budget is refused.
    - Wire fields: round trips, exact behaviour on every branch, shortest form, and
      agreement of the peeking and the consuming VarInt decoders.
    - Packets and frames: every packet survives encoding, framing, compression and
      back; decoding does not depend on how the stream is cut; no input panics,
      inflates past its declared size or reserves without bound, in frames, packets
      or documents; an encoder that fails emits nothing; the JSON documents read back
      as what was written.
    - Connections: serving returns on any input with the invariants intact; [run]
      implements the abstract conversation; a status exchange, a login and a
      refused login are followed from the client's bytes to the server's and back;
      each handler's answers and refusals; a status connection never becomes a
      login, and a client that does not log in is gone within three read timeouts,
      while one that keeps sending Login Start is served for ever, and one that never
      reads holds its connection as soon as its replies exceed its socket buffer.
    - Interfaces: every value the public functions of [nbt] can produce is well
      typed and keeps its invariants; an error's message tells which error it is;
      serialising a text component loses nothing.
    - Server: permits are conserved, refusals happen exactly at the cap, the
      outcome is truthful; the loop with its connections refines the loop without
      them; no peer can make a task panic; connections are isolated from each other
      under every interleaving, and hold a bounded number of bytes between them; a
      drain ends with every permit back; a shutdown returns within its grace period and
      tells what it abandons; a silent peer makes no noise in the log;
      clients that never log in cannot keep a newcomer out;
      [main] never listens publicly by accident and accounts for every socket.

    ** Not modelled

    Setting up the logger and parsing the command line; [PartialEq] on floats; the
    scheduler beyond the order of turns in [Host]; how long handling a packet takes,
    but for the flush of its replies in [Slow] ([Clock], [Shutdown] and [Host] run
    connections whose sockets accept their replies at once); the growth of a vector past the
    room it was given, which is the allocator's, and the room [decompress] asks for,
    a constant at most; the wall-clock bound of one test.

    ** Open

    [Clock] and [Shutdown] over the connections of [Slow]: the drain's bound does not
    depend on how connections end, but its refinement would need a task that never
    finishes. *)

From stdpp Require Import base list numbers sorting strings.
From Stdlib Require Import Strings.Byte.

Open Scope Z_scope.

(** ** Results and effects *)

(** What a call ends with: Rust's [Ok] and [Err], a panic (the release profile
    aborts the process on one), or the model running out of fuel. *)
Inductive outcome (E A : Type) : Type :=
  | Ok (a : A)
  | Err (e : E)
  | Panic
  | Diverge.
Arguments Ok {E A} a.
Arguments Err {E A} e.
Arguments Panic {E A}.
Arguments Diverge {E A}.

(** A call that mutates a state [S] through [&mut] references and returns a
    [Result<A, E>].  The state is kept on every exit: what an erroring call
    has already consumed or written stays consumed or written. *)
Definition M (S E A : Type) : Type := S -> outcome E A * S.

Definition ret {S E A} (a : A) : M S E A := fun s => (Ok a, s).
Definition throw {S E A} (e : E) : M S E A := fun s => (Err e, s).
Definition panic {S E A} : M S E A := fun s => (Panic, s).
Definition diverge {S E A} : M S E A := fun s => (Diverge, s).

Definition bind {S E A B} (m : M S E A) (k : A -> M S E B) : M S E B :=
  fun s => match m s with
           | (Ok a, s') => k a s'
           | (Err e, s') => (Err e, s')
           | (Panic, s') => (Panic, s')
           | (Diverge, s') => (Diverge, s')
           end.

(** [map_err], and the [From] conversion that the [?] operator applies. *)
Definition map_err {S E E' A} (f : E -> E') (m : M S E A) : M S E' A :=
  fun s => match m s with
           | (Ok a, s') => (Ok a, s')
           | (Err e, s') => (Err (f e), s')
           | (Panic, s') => (Panic, s')
           | (Diverge, s') => (Diverge, s')
           end.

(** A call on one field of the state, reached through a lens. *)
Definition zoom {S T E A} (get : S -> T) (set : T -> S -> S) (m : M T E A) : M S E A :=
  fun s => let (r, t) := m (get s) in (r, set t s).

(** An [Option] whose [None] is turned into an error by [ok_or_else]. *)
Definition ok_or {S E A} (e : E) (o : option A) : M S E A :=
  match o with Some a => ret a | None => throw e end.

(** A pure [Result]. *)
Definition lift {S E A} (r : outcome E A) : M S E A := fun s => (r, s).

Declare Scope pyrite_scope.
Delimit Scope pyrite_scope with pyrite.
Notation "'let!' x ':=' m 'in' k" := (bind m (fun x => k))
  (at level 10, x pattern, m at level 100, k at level 200) : pyrite_scope.
Notation "'do!' m ';' k" := (bind m (fun _ => k))
  (at level 10, m at level 100, k at level 200) : pyrite_scope.
Open Scope pyrite_scope.

(** [for item in items { f(item)?; }] *)
Fixpoint for_each {S E A} (f : A -> M S E unit) (items : list A) : M S E unit :=
  match items with
  | [] => ret tt
  | x :: xs => do! f x; for_each f xs
  end.

(** [for _ in 0..n { items.push(f()?); }] *)
Fixpoint repeat_push {S E A} (f : M S E A) (n : nat) (items : list A) : M S E (list A) :=
  match n with
  | O => ret items
  | S n' => let! x := f in repeat_push f n' (items ++ [x])
  end.

(** A call that returned, with a value or an error. *)
Definition returns {E A} (r : outcome E A) : Prop :=
  match r with Ok _ | Err _ => True | Panic | Diverge => False end.

(** [wp m Q s]: from [s] the call returns, neither panicking nor running out of
    fuel, and a returned value and the state it leaves satisfy [Q]. *)
Definition wp {S E A} (m : M S E A) (Q : A -> S -> Prop) (s : S) : Prop :=
  match m s with
  | (Ok a, s') => Q a s'
  | (Err _, _) => True
  | (Panic, _) | (Diverge, _) => False
  end.

Section Effects.
Context {S E A B : Type}.

Lemma wp_ret (a : A) (Q : A -> S -> Prop) s : Q a s -> wp (E:=E) (ret a) Q s.
Proof. done. Qed.

Lemma wp_bind (m : M S E A) (k : A -> M S E B) Q s :
  wp m (fun a => wp (k a) Q) s -> wp (bind m k) Q s.
Proof. unfold wp, bind. by destruct (m s) as [[] ?]. Qed.

Lemma wp_mono (m : M S E A) (Q Q' : A -> S -> Prop) s :
  wp m Q s -> (forall a s', Q a s' -> Q' a s') -> wp m Q' s.
Proof. unfold wp. destruct (m s) as [[] ?]; auto. Qed.

Lemma wp_returns (m : M S E A) Q s : wp m Q s -> returns (fst (m s)).
Proof. unfold wp. by destruct (m s) as [[] ?]. Qed.

Lemma wp_ok (m : M S E A) Q s a s' : wp m Q s -> m s = (Ok a, s') -> Q a s'.
Proof. unfold wp. intros HQ Hm. by rewrite Hm in HQ. Qed.

Lemma wp_map_err {E'} (f : E -> E') (m : M S E A) Q s : wp m Q s -> wp (map_err f m) Q s.
Proof. unfold wp, map_err. by destruct (m s) as [[] ?]. Qed.

Lemma bind_ok (m : M S E A) (k : A -> M S E B) s a s' :
  m s = (Ok a, s') -> bind m k s = k a s'.
Proof. unfold bind. by intros ->. Qed.

Lemma bind_err (m : M S E A) (k : A -> M S E B) s e s' :
  m s = (Err e, s') -> bind m k s = (Err e, s').
Proof. unfold bind. by intros ->. Qed.

Lemma bind_ok_inv (m : M S E A) (k : A -> M S E B) s b s' :
  bind m k s = (Ok b, s') -> exists a s1, m s = (Ok a, s1) /\ k a s1 = (Ok b, s').
Proof. unfold bind. destruct (m s) as [[] ?]; naive_solver. Qed.

Lemma map_err_ok {E'} (f : E -> E') (m : M S E A) s a s' :
  map_err f m s = (Ok a, s') <-> m s = (Ok a, s').
Proof. unfold map_err. destruct (m s) as [[] ?]; naive_solver. Qed.
End Effects.

(** The loop that fills a vector, with an invariant on the vector so far. *)
Lemma wp_repeat_push {S E A} (f : M S E A) (I : list A -> S -> Prop) total :
  (forall items s, (length items < total)%nat -> I items s ->
    wp f (fun a s' => I (items ++ [a]) s') s) ->
  forall n items s, (length items + n = total)%nat -> I items s ->
    wp (repeat_push f n items) (fun items' s' => length items' = total /\ I items' s') s.
Proof.
  intros Hf n. induction n as [|n IH]; intros items s Hn HI; cbn [repeat_push].
  - unfold wp, ret. split; [lia|done].
  - assert (length items < total)%nat as Hlt by (rewrite <- Hn; apply Nat.lt_add_pos_r, Nat.lt_0_succ).
    apply wp_bind. eapply wp_mono; [by apply Hf|]. intros a s' HI'.
    apply IH; [|done]. rewrite length_app. cbn [length]. lia.
Qed.

(** ** Machine integers

    An integer of the source is a [Z]; the width shows where the source
    converts, shifts or adds. *)

(** [x as uW]. *)
Definition wrap (w x : Z) : Z := x mod 2 ^ w.

(** [x as iW]. *)
Definition sign (w x : Z) : Z := (x + 2 ^ (w - 1)) mod 2 ^ w - 2 ^ (w - 1).

Definition in_unsigned (w x : Z) : bool := (0 <=? x) && (x <? 2 ^ w).
Definition in_signed (w x : Z) : bool := (- 2 ^ (w - 1) <=? x) && (x <? 2 ^ (w - 1)).

(** [uW::try_from] and [iW::try_from]. *)
Definition try_unsigned (w x : Z) : option Z := if in_unsigned w x then Some x else None.
Definition try_signed (w x : Z) : option Z := if in_signed w x then Some x else None.

(** The width of [usize]; the source targets 64-bit machines. *)
Definition usize_bits : Z := 64.

(** [usize::try_from] on a signed value. *)
Definition usize_try_from (x : Z) : option Z := if 0 <=? x then Some x else None.

(** [usize::checked_mul] and [usize::saturating_mul]. *)
Definition checked_mul (a b : Z) : option Z :=
  if a * b <? 2 ^ usize_bits then Some (a * b) else None.
Definition saturating_mul (a b : Z) : Z := Z.min (a * b) (2 ^ usize_bits - 1).

(** ** Bytes *)

#[export] Instance byte_eq_dec : EqDecision byte := Byte.byte_eq_dec.

Definition byte_val (b : byte) : Z := Z.of_N (Byte.to_N b).

Definition byte_of (z : Z) : byte :=
  match Byte.of_N (Z.to_N (wrap 8 z)) with Some b => b | None => x00 end.

(** Big-endian conversions: [n] bytes of an integer, and back. *)
Fixpoint be_bytes (n : nat) (z : Z) : list byte :=
  match n with
  | O => []
  | S n' => be_bytes n' (z / 256) ++ [byte_of z]
  end.

Definition be_val (bs : list byte) : Z := fold_left (fun acc b => acc * 256 + byte_val b) bs 0.

(** The bytes of an ASCII literal. *)
Definition bytes_of (s : String.string) : list byte := String.list_byte_of_string s.

(** The length of a slice, as the [usize] the source compares. *)
Definition len {A} (l : list A) : Z := Z.of_nat (length l).

(** ** Lemmas *)

Lemma byte_val_range b : 0 <= byte_val b < 256.
Proof.
  unfold byte_val. pose proof (Byte.to_N_bounded b). lia.
Qed.

Lemma byte_of_val b : byte_of (byte_val b) = b.
Proof.
  unfold byte_of, wrap. rewrite Z.mod_small by (apply byte_val_range).
  unfold byte_val. rewrite N2Z.id, Byte.of_to_N. done.
Qed.

Lemma byte_val_of z : byte_val (byte_of z) = z mod 256.
Proof.
  unfold byte_of, byte_val, wrap. change (2 ^ 8) with 256.
  pose proof (Z.mod_pos_bound z 256 ltac:(lia)) as Hz.
  destruct (Byte.of_N (Z.to_N (z mod 256))) eqn:E.
  - apply Byte.to_of_N in E. rewrite E. lia.
  - apply Byte.of_N_None_iff in E. lia.
Qed.

Lemma byte_val_inj b1 b2 : byte_val b1 = byte_val b2 -> b1 = b2.
Proof. intros E. rewrite <- (byte_of_val b1), <- (byte_of_val b2). by rewrite E. Qed.

Lemma length_be_bytes n z : length (be_bytes n z) = n.
Proof. revert z. induction n; intros; simpl; [done|]. rewrite length_app, IHn. simpl. lia. Qed.

Lemma be_val_snoc bs b : be_val (bs ++ [b]) = be_val bs * 256 + byte_val b.
Proof. unfold be_val. by rewrite fold_left_app. Qed.

Lemma be_val_be_bytes n z : be_val (be_bytes n z) = z mod 256 ^ Z.of_nat n.
Proof.
  revert z. induction n; intros z.
  - cbn. by rewrite Z.mod_1_r.
  - cbn [be_bytes]. rewrite be_val_snoc, IHn, byte_val_of, Nat2Z.inj_succ, Z.pow_succ_r by lia.
    rewrite (Z.rem_mul_r z 256) by lia. lia.
Qed.

Lemma be_val_range bs : 0 <= be_val bs < 256 ^ len bs.
Proof.
  unfold len. induction bs as [|b bs IH] using rev_ind; [cbn; lia|].
  rewrite be_val_snoc, length_app, Nat2Z.inj_add. cbn [length]. rewrite Z.pow_add_r by lia.
  pose proof (byte_val_range b). change (256 ^ Z.of_nat 1) with 256. nia.
Qed.

Lemma be_bytes_be_val bs : be_bytes (length bs) (be_val bs) = bs.
Proof.
  induction bs as [|b bs IH] using rev_ind; [done|].
  rewrite length_app, Nat.add_comm. cbn. rewrite be_val_snoc.
  pose proof (byte_val_range b).
  rewrite Z.div_add_l, (Z.div_small (byte_val b)), Z.add_0_r, IH by lia.
  f_equal. f_equal. apply byte_val_inj. rewrite byte_val_of.
  rewrite Z.add_comm, Z.mod_add by lia. by apply Z.mod_small.
Qed.

Lemma len_nil {A} : len (@nil A) = 0.
Proof. done. Qed.

Lemma len_cons {A} (x : A) l : len (x :: l) = 1 + len l.
Proof. unfold len. cbn [length]. lia. Qed.

Lemma len_app {A} (l k : list A) : len (l ++ k) = len l + len k.
Proof. unfold len. rewrite length_app. lia. Qed.

Lemma len_nonneg {A} (l : list A) : 0 <= len l.
Proof. unfold len. lia. Qed.

Lemma len_be_bytes n z : len (be_bytes n z) = Z.of_nat n.
Proof. unfold len. by rewrite length_be_bytes. Qed.

Arguments len : simpl never.
Arguments be_bytes : simpl never.
Arguments be_val : simpl never.
Arguments Z.pow : simpl never.

Lemma in_unsigned_spec w x : in_unsigned w x = true <-> 0 <= x < 2 ^ w.
Proof. unfold in_unsigned. lia. Qed.

Lemma in_signed_spec w x : in_signed w x = true <-> - 2 ^ (w - 1) <= x < 2 ^ (w - 1).
Proof. unfold in_signed. lia. Qed.

Lemma pow2_double w : 0 < w -> 2 ^ w = 2 * 2 ^ (w - 1).
Proof. intros Hw. rewrite <- Z.pow_succ_r by lia. f_equal. lia. Qed.

Lemma wrap_small w x : in_unsigned w x = true -> wrap w x = x.
Proof. rewrite in_unsigned_spec. apply Z.mod_small. Qed.

Lemma wrap_range w x : 0 <= w -> 0 <= wrap w x < 2 ^ w.
Proof. intros. apply Z.mod_pos_bound. by apply Z.pow_pos_nonneg. Qed.

Lemma sign_range w x : 0 < w -> in_signed w (sign w x) = true.
Proof.
  intros Hw. rewrite in_signed_spec. unfold sign.
  pose proof (pow2_double w Hw).
  pose proof (Z.pow_pos_nonneg 2 (w - 1) ltac:(lia) ltac:(lia)).
  pose proof (Z.mod_pos_bound (x + 2 ^ (w - 1)) (2 ^ w) ltac:(lia)). lia.
Qed.

Lemma sign_wrap w x : 0 < w -> in_signed w x = true -> sign w (wrap w x) = x.
Proof.
  intros Hw. rewrite in_signed_spec. intros Hx. unfold sign, wrap.
  pose proof (pow2_double w Hw).
  pose proof (Z.pow_pos_nonneg 2 (w - 1) ltac:(lia) ltac:(lia)).
  rewrite Z.add_mod_idemp_l by lia. rewrite Z.mod_small; lia.
Qed.

Lemma wrap_sign w x : 0 < w -> wrap w (sign w x) = wrap w x.
Proof.
  intros Hw. unfold sign, wrap.
  pose proof (Z.pow_pos_nonneg 2 w ltac:(lia) ltac:(lia)).
  rewrite Zminus_mod_idemp_l. f_equal. lia.
Qed.

Lemma sign_wrap_unsigned w x : 0 < w -> 0 <= x < 2 ^ w -> wrap w (sign w x) = x.
Proof. intros Hw Hx. rewrite wrap_sign by done. by apply Z.mod_small. Qed.

(** Reading back what was written, at a width. *)
Lemma be_unsigned n x :
  in_unsigned (8 * Z.of_nat n) x = true -> be_val (be_bytes n x) = x.
Proof.
  rewrite in_unsigned_spec, be_val_be_bytes. rewrite Z.pow_mul_r by lia. apply Z.mod_small.
Qed.

Lemma be_signed n x :
  (0 < n)%nat -> in_signed (8 * Z.of_nat n) x = true ->
  sign (8 * Z.of_nat n) (be_val (be_bytes n x)) = x.
Proof.
  intros Hn Hx. rewrite be_val_be_bytes. replace (256 ^ Z.of_nat n) with (2 ^ (8 * Z.of_nat n)).
  - apply sign_wrap; [lia|done].
  - by rewrite Z.pow_mul_r by lia.
Qed.

Lemma be_val_unsigned bs n : length bs = n -> in_unsigned (8 * Z.of_nat n) (be_val bs) = true.
Proof.
  intros <-. rewrite in_unsigned_spec. pose proof (be_val_range bs) as H.
  unfold len in H. rewrite Z.pow_mul_r by lia. done.
Qed.

Lemma be_bytes_wrap n z : be_bytes n (z mod 2 ^ (8 * Z.of_nat n)) = be_bytes n z.
Proof.
  rewrite <- (be_bytes_be_val (be_bytes n (z mod _))), <- (be_bytes_be_val (be_bytes n z)).
  rewrite !length_be_bytes, !be_val_be_bytes, Z.pow_mul_r by lia. change (2 ^ 8) with 256.
  rewrite Z.mod_mod; [done|]. pose proof (Z.pow_pos_nonneg 256 (Z.of_nat n)). lia.
Qed.

Lemma be_bytes_sign bs n :
  (0 < n)%nat -> length bs = n -> be_bytes n (sign (8 * Z.of_nat n) (be_val bs)) = bs.
Proof.
  intros Hn Hl. rewrite <- be_bytes_wrap.
  change (sign (8 * Z.of_nat n) (be_val bs) mod 2 ^ (8 * Z.of_nat n))
    with (wrap (8 * Z.of_nat n) (sign (8 * Z.of_nat n) (be_val bs))).
  rewrite wrap_sign by lia. unfold wrap. rewrite be_bytes_wrap, <- Hl. apply be_bytes_be_val.
Qed.
