(* ===== verification/Utf8.v ===== *)
(** * UTF-8 strings, as the Rust standard library checks and decodes them.

    A Rust [str] is its UTF-8 bytes.  [from_utf8] is the check behind
    [String::from_utf8], with the error it reports; [chars] is [str::chars]. *)

From S2P Require Import Prelude.
From stdpp Require Import base list numbers.
From Stdlib Require Import Strings.Byte.

Open Scope Z_scope.

(** [std::str::Utf8Error]. *)
Record Utf8Error := mkUtf8Error { valid_up_to : Z; error_len : option Z }.

Module Utf8.

(** A continuation byte: [(b as i8) < -64]. *)
Definition is_cont (b : byte) : bool := (128 <=? byte_val b) && (byte_val b <=? 191).

(** The second byte a three-byte sequence may have. *)
Definition second3 (first b : byte) : bool :=
  let f := byte_val first in
  let v := byte_val b in
  ((f =? 224) && (160 <=? v) && (v <=? 191))
  || ((225 <=? f) && (f <=? 236) && (128 <=? v) && (v <=? 191))
  || ((f =? 237) && (128 <=? v) && (v <=? 159))
  || ((238 <=? f) && (f <=? 239) && (128 <=? v) && (v <=? 191)).

(** The second byte a four-byte sequence may have. *)
Definition second4 (first b : byte) : bool :=
  let f := byte_val first in
  let v := byte_val b in
  ((f =? 240) && (144 <=? v) && (v <=? 191))
  || ((241 <=? f) && (f <=? 243) && (128 <=? v) && (v <=? 191))
  || ((f =? 244) && (128 <=? v) && (v <=? 143)).

(** The length a first byte announces; zero when it starts no character. *)
Definition char_width (b : byte) : Z :=
  let v := byte_val b in
  if v <=? 127 then 1
  else if (194 <=? v) && (v <=? 223) then 2
  else if (224 <=? v) && (v <=? 239) then 3
  else if (240 <=? v) && (v <=? 244) then 4
  else 0.

(** The validation loop; [at_] is the offset the current character starts at. *)
Fixpoint validate (at_ : Z) (bs : list byte) : option Utf8Error :=
  let fail n := Some (mkUtf8Error at_ n) in
  match bs with
  | [] => None
  | b0 :: r0 =>
    let w := char_width b0 in
    if w =? 1 then validate (at_ + 1) r0
    else if w =? 2 then
      match r0 with
      | [] => fail None
      | b1 :: r1 => if is_cont b1 then validate (at_ + 2) r1 else fail (Some 1)
      end
    else if w =? 3 then
      match r0 with
      | [] => fail None
      | b1 :: r1 =>
        if second3 b0 b1 then
          match r1 with
          | [] => fail None
          | b2 :: r2 => if is_cont b2 then validate (at_ + 3) r2 else fail (Some 2)
          end
        else fail (Some 1)
      end
    else if w =? 4 then
      match r0 with
      | [] => fail None
      | b1 :: r1 =>
        if second4 b0 b1 then
          match r1 with
          | [] => fail None
          | b2 :: r2 =>
            if is_cont b2 then
              match r2 with
              | [] => fail None
              | b3 :: r3 => if is_cont b3 then validate (at_ + 4) r3 else fail (Some 3)
              end
            else fail (Some 2)
          end
        else fail (Some 1)
      end
    else fail (Some 1)
  end.

(** [String::from_utf8]. *)
Definition from_utf8 (bs : list byte) : outcome Utf8Error (list byte) :=
  match validate 0 bs with None => Ok bs | Some e => Err e end.

(** The invariant of Rust's [str]: its bytes are valid UTF-8. *)
Definition valid (bs : list byte) : bool :=
  match validate 0 bs with None => true | Some _ => false end.

(** [str::chars]: the scalar values of a valid string. *)
Fixpoint chars (bs : list byte) : list Z :=
  match bs with
  | [] => []
  | b0 :: r0 =>
    let w := char_width b0 in
    let c n b := Z.shiftl (Z.land (byte_val b) 63) n in
    match r0 with
    | b1 :: r1 =>
      if w =? 2 then Z.lor (Z.shiftl (Z.land (byte_val b0) 31) 6) (c 0 b1) :: chars r1
      else match r1 with
      | b2 :: r2 =>
        if w =? 3 then
          Z.lor (Z.shiftl (Z.land (byte_val b0) 15) 12) (Z.lor (c 6 b1) (c 0 b2)) :: chars r2
        else match r2 with
        | b3 :: r3 =>
          if w =? 4 then
            Z.lor (Z.shiftl (Z.land (byte_val b0) 7) 18)
              (Z.lor (c 12 b1) (Z.lor (c 6 b2) (c 0 b3))) :: chars r3
          else byte_val b0 :: chars r0
        | [] => byte_val b0 :: chars r0
        end
      | [] => byte_val b0 :: chars r0
      end
    | [] => byte_val b0 :: chars r0
    end
  end.

(** [char::is_ascii_alphanumeric] and [char::is_ascii]. *)
Definition is_ascii_alphanumeric (c : Z) : bool :=
  ((48 <=? c) && (c <=? 57)) || ((65 <=? c) && (c <=? 90)) || ((97 <=? c) && (c <=? 122)).

Definition is_ascii (b : byte) : bool := byte_val b <? 128.

(** The UTF-16 code units of a string: what the protocol counts. *)
Definition units_of (cs : list Z) : Z := foldr (fun c n => (if c <? 65536 then 1 else 2) + n) 0 cs.
Definition utf16_units (s : list byte) : Z := units_of (chars s).

(** ** Lemmas *)

Lemma from_utf8_ok bs : valid bs = true -> from_utf8 bs = Ok bs.
Proof. unfold valid, from_utf8. by destruct (validate 0 bs). Qed.

Lemma from_utf8_inv bs s : from_utf8 bs = Ok s -> s = bs /\ valid bs = true.
Proof. unfold valid, from_utf8. destruct (validate 0 bs); naive_solver. Qed.

Lemma from_utf8_returns bs : returns (from_utf8 bs).
Proof. unfold from_utf8. by destruct (validate 0 bs). Qed.

Lemma char_width_ascii b : is_ascii b = true -> char_width b = 1.
Proof. unfold is_ascii, char_width. intros. case_match; lia. Qed.

Lemma validate_ascii at_ bs : forallb is_ascii bs = true -> validate at_ bs = None.
Proof.
  revert at_. induction bs as [|b bs IH]; intros at_ H; [done|].
  cbn [forallb] in H. apply andb_prop in H as [Hb H].
  cbn [validate]. rewrite char_width_ascii by done. by apply IH.
Qed.

Lemma valid_ascii bs : forallb is_ascii bs = true -> valid bs = true.
Proof. intros. unfold valid. by rewrite validate_ascii. Qed.

Lemma char_width_cases b :
  char_width b = 0 \/ char_width b = 1 \/ char_width b = 2 \/ char_width b = 3 \/ char_width b = 4.
Proof. unfold char_width. repeat case_match; lia. Qed.

Lemma char_width_1 b : char_width b = 1 -> is_ascii b = true.
Proof. unfold char_width, is_ascii. intros. repeat case_match; lia. Qed.

Lemma chars_ascii bs : forallb is_ascii bs = true -> chars bs = map byte_val bs.
Proof.
  induction bs as [|b bs IH]; intros H; [done|].
  cbn [forallb] in H. apply andb_prop in H as [Hb H].
  cbn [chars map]. rewrite char_width_ascii by done. rewrite IH by done.
  destruct bs as [|? [|? [|? ?]]]; done.
Qed.

(** ** Characters and bytes *)

Lemma lor_ge a b : 0 <= a -> 0 <= b -> a <= Z.lor a b.
Proof.
  intros. assert (Z.land a (Z.ldiff b a) = 0) as Hd.
  { apply Z.bits_inj'. intros i Hi. rewrite Z.land_spec, Z.ldiff_spec, Z.bits_0.
    by destruct (Z.testbit a i), (Z.testbit b i). }
  assert (Z.lor a b = a + Z.ldiff b a) as ->.
  { rewrite Z.add_nocarry_lxor, Z.lxor_lor by done.
    apply Z.bits_inj'. intros i Hi. rewrite !Z.lor_spec, Z.ldiff_spec.
    by destruct (Z.testbit a i), (Z.testbit b i). }
  pose proof (proj2 (Z.ldiff_nonneg b a)). lia.
Qed.

(** The shape of valid UTF-8: a character, then valid UTF-8. *)
Lemma validate_cons at_ b0 r0 :
  validate at_ (b0 :: r0) = None ->
  (char_width b0 = 1 /\ exists at', validate at' r0 = None)
  \/ (exists b1 r1 at', r0 = b1 :: r1 /\ char_width b0 = 2 /\ validate at' r1 = None)
  \/ (exists b1 b2 r2 at', r0 = b1 :: b2 :: r2 /\ char_width b0 = 3
      /\ second3 b0 b1 = true /\ validate at' r2 = None)
  \/ (exists b1 b2 b3 r3 at', r0 = b1 :: b2 :: b3 :: r3 /\ char_width b0 = 4
      /\ second4 b0 b1 = true /\ validate at' r3 = None).
Proof.
  cbn [validate]. intros Hv.
  destruct (char_width_cases b0) as [E|[E|[E|[E|E]]]]; rewrite E in Hv; cbn in Hv; [done|..].
  - left. eauto.
  - right. left. repeat case_match; naive_solver.
  - right. right. left. repeat case_match; naive_solver.
  - right. right. right. repeat case_match; simplify_eq; try done. do 5 eexists. eauto.
Qed.

Lemma four_byte_char b0 b1 b2 b3 :
  second4 b0 b1 = true ->
  65536 <= Z.lor (Z.shiftl (Z.land (byte_val b0) 7) 18)
    (Z.lor (Z.shiftl (Z.land (byte_val b1) 63) 12)
      (Z.lor (Z.shiftl (Z.land (byte_val b2) 63) 6) (Z.shiftl (Z.land (byte_val b3) 63) 0))).
Proof.
  intros Hs. assert (forall x k n, 0 <= n -> 0 <= Z.shiftl (Z.land (byte_val x) (Z.ones n)) k) as Hn.
  { intros. apply Z.shiftl_nonneg, Z.land_nonneg. left. apply byte_val_range. }
  pose proof (Hn b0 18 3 ltac:(lia)) as H0. pose proof (Hn b1 12 6 ltac:(lia)) as H1.
  pose proof (Hn b2 6 6 ltac:(lia)) as H2. pose proof (Hn b3 0 6 ltac:(lia)) as H3.
  change (Z.ones 3) with 7 in H0. change (Z.ones 6) with 63 in *.
  set (t := Z.lor (Z.shiftl (Z.land (byte_val b2) 63) 6) _).
  assert (0 <= t) by (apply Z.lor_nonneg; done).
  pose proof (lor_ge (Z.shiftl (Z.land (byte_val b1) 63) 12) t H1 ltac:(done)) as Ht.
  assert (65536 <= Z.shiftl (Z.land (byte_val b0) 7) 18
    \/ 65536 <= Z.shiftl (Z.land (byte_val b1) 63) 12) as [Hl|Hl].
  { clear -Hs. unfold second4 in Hs.
    destruct (Z.eq_dec (byte_val b0) 240) as [E|E].
    - right. rewrite E in Hs. cbn in Hs.
      destruct b1; try discriminate Hs; vm_compute; discriminate.
    - left. assert (241 <= byte_val b0 <= 244) by lia. clear Hs.
      assert (byte_val b0 = 241 \/ byte_val b0 = 242 \/ byte_val b0 = 243 \/ byte_val b0 = 244)
        as [->|[->|[->| ->]]] by lia; done. }
  - pose proof (lor_ge _ (Z.lor (Z.shiftl (Z.land (byte_val b1) 63) 12) t) H0). lia.
  - rewrite Z.lor_comm. pose proof (lor_ge (Z.lor (Z.shiftl (Z.land (byte_val b1) 63) 12) t)
      (Z.shiftl (Z.land (byte_val b0) 7) 18)). lia.
Qed.

Lemma masked_nonneg b k n : 0 <= n -> 0 <= Z.shiftl (Z.land (byte_val b) (Z.ones n)) k.
Proof. intros. apply Z.shiftl_nonneg, Z.land_nonneg. left. apply byte_val_range. Qed.

Lemma two_byte_char b0 b1 :
  char_width b0 = 2 ->
  128 <= Z.lor (Z.shiftl (Z.land (byte_val b0) 31) 6) (Z.shiftl (Z.land (byte_val b1) 63) 0).
Proof.
  intros Hw. pose proof (masked_nonneg b0 6 5 ltac:(lia)) as H0.
  pose proof (masked_nonneg b1 0 6 ltac:(lia)) as H1. pose proof (lor_ge _ _ H0 H1).
  change (Z.ones 5) with 31 in *. change (Z.ones 6) with 63 in *.
  assert (128 <= Z.shiftl (Z.land (byte_val b0) 31) 6); [|lia].
  clear -Hw. destruct b0; try discriminate Hw; vm_compute; discriminate.
Qed.

Lemma three_byte_char b0 b1 b2 :
  second3 b0 b1 = true ->
  128 <= Z.lor (Z.shiftl (Z.land (byte_val b0) 15) 12)
    (Z.lor (Z.shiftl (Z.land (byte_val b1) 63) 6) (Z.shiftl (Z.land (byte_val b2) 63) 0)).
Proof.
  intros Hs. pose proof (masked_nonneg b0 12 4 ltac:(lia)) as H0.
  pose proof (masked_nonneg b1 6 6 ltac:(lia)) as H1. pose proof (masked_nonneg b2 0 6 ltac:(lia)) as H2.
  change (Z.ones 4) with 15 in *. change (Z.ones 6) with 63 in *.
  pose proof (lor_ge _ _ H1 H2) as H3.
  set (t := Z.lor (Z.shiftl (Z.land (byte_val b1) 63) 6) _) in *.
  pose proof (lor_ge _ t H0 ltac:(lia)). pose proof (lor_ge t _ ltac:(lia) H0). rewrite Z.lor_comm in H4.
  assert (128 <= Z.shiftl (Z.land (byte_val b0) 15) 12
    \/ 128 <= Z.shiftl (Z.land (byte_val b1) 63) 6) as [Hl|Hl]; [|lia..].
  clear -Hs. unfold second3 in Hs. destruct (Z.eq_dec (byte_val b0) 224) as [E|E].
  - right. rewrite E in Hs. cbn in Hs. destruct b1; try discriminate Hs; vm_compute; discriminate.
  - left. assert ((225 <=? byte_val b0) && (byte_val b0 <=? 239) = true) as Hb by lia. clear Hs E.
    destruct b0; try discriminate Hb; vm_compute; discriminate.
Qed.

(** A valid string starts with a character, and the rest is valid. *)
Lemma chars_cons at_ b0 r0 :
  validate at_ (b0 :: r0) = None ->
  exists c w tail at', chars (b0 :: r0) = c :: chars tail /\ validate at' tail = None
    /\ (length tail < length (b0 :: r0))%nat /\ len (b0 :: r0) = w + len tail
    /\ ((w = 1 /\ c = byte_val b0 /\ c < 128 /\ tail = r0)
        \/ (2 <= w <= 3 /\ 128 <= c) \/ (w = 4 /\ 65536 <= c)).
Proof.
  intros Hv. apply validate_cons in Hv as [(E & at' & Hv)|[(b1 & r1 & at' & -> & E & Hv)
    |[(b1 & b2 & r2 & at' & -> & E & Hs & Hv)|(b1 & b2 & b3 & r3 & at' & -> & E & Hs & Hv)]]].
  - exists (byte_val b0), 1, r0, at'. rewrite len_cons. cbn [length chars]. rewrite E.
    pose proof (char_width_1 _ E). unfold is_ascii in *.
    split_and!; [by destruct r0 as [|? [|? [|? ?]]]|done|lia|lia|left; split_and!; lia || done].
  - eexists _, 2, r1, at'. rewrite !len_cons. cbn [length chars]. rewrite E.
    split_and!; [done|done|lia|lia|]. right. left. split; [lia|by apply two_byte_char].
  - eexists _, 3, r2, at'. rewrite !len_cons. cbn [length chars]. rewrite E.
    split_and!; [done|done|lia|lia|]. right. left. split; [lia|by apply three_byte_char].
  - eexists _, 4, r3, at'. rewrite !len_cons. cbn [length chars]. rewrite E.
    split_and!; [done|done|lia|lia|]. right. right. split; [lia|by apply four_byte_char].
Qed.

(** At most three bytes per UTF-16 code unit. *)
Lemma utf8_units n s at_ :
  (length s <= n)%nat -> validate at_ s = None -> len s <= 3 * utf16_units s.
Proof.
  unfold utf16_units. revert s at_.
  induction n as [|n IH]; intros [|b0 r0] at_ Hn Hv; try done; [cbn in Hn; lia|].
  apply chars_cons in Hv as (c & w & tail & at' & -> & Hv & Hl & -> & Hc).
  apply IH in Hv; [|lia]. cbn [units_of foldr]. fold (units_of (chars tail)).
  destruct (Z.ltb_spec c 65536); lia.
Qed.

Lemma utf8_units_valid s : valid s = true -> len s <= 3 * utf16_units s.
Proof.
  unfold valid. intros Hs. destruct (validate 0 s) eqn:E; [done|].
  by eapply utf8_units.
Qed.

(** Only bytes below 128 decode to characters below 128. *)
Lemma ascii_chars n s at_ :
  (length s <= n)%nat -> validate at_ s = None ->
  forallb (fun c => c <? 128) (chars s) = true -> forallb is_ascii s = true.
Proof.
  revert s at_. induction n as [|n IH]; intros [|b0 r0] at_ Hn Hv; try done; [cbn in Hn; lia|].
  apply chars_cons in Hv as (c & w & tail & at' & -> & Hv & Hl & _ & Hc). cbn [forallb].
  intros [Hc' Hall]%andb_prop. destruct Hc as [(_ & -> & ? & ->)|[Hc|Hc]]; [|lia..].
  rewrite (IH r0 at' ltac:(lia) Hv Hall). unfold is_ascii. by rewrite Hc'.
Qed.

Lemma ascii_chars_valid s :
  valid s = true -> forallb (fun c => c <? 128) (chars s) = true -> forallb is_ascii s = true.
Proof.
  unfold valid. intros Hs. destruct (validate 0 s) eqn:E; [done|]. by eapply ascii_chars.
Qed.

End Utf8.

(** ** The order of [str]: lexicographic on bytes *)

Fixpoint str_leb (a b : list byte) : bool :=
  match a, b with
  | [], _ => true
  | _ :: _, [] => false
  | x :: a', y :: b' =>
    if byte_val x <? byte_val y then true
    else if byte_val y <? byte_val x then false
    else str_leb a' b'
  end.

Definition str_le (a b : list byte) : Prop := str_leb a b = true.

#[export] Instance str_le_dec : RelDecision str_le.
Proof. intros a b. unfold str_le. apply _. Defined.

#[export] Instance str_le_total : Total str_le.
Proof.
  unfold str_le. intros a. induction a as [|x a IH]; intros [|y b]; cbn; [auto..|].
  repeat case_match; try lia; auto.
Qed.

#[export] Instance str_le_trans : Transitive str_le.
Proof.
  unfold str_le. intros a. induction a as [|x a IH]; intros [|y b] [|z c]; cbn; try done.
  repeat case_match; try lia; eauto.
Qed.

#[export] Instance str_le_antisym : AntiSymm (=) str_le.
Proof.
  unfold str_le. intros a. induction a as [|x a IH]; intros [|y b]; cbn; try done.
  repeat case_match; intros; try done; try lia.
  f_equal; [apply byte_val_inj; lia|auto].
Qed.

