(* ===== verification/Buffers.v ===== *)
(** * The byte-buffer interface ([bytes::Buf] and [bytes::BufMut]).

    Every decoder of the source is generic over [B: Buf] and every encoder over
    [B: BufMut]; so are their models.  The operations are those the source
    calls, the laws are the documented behaviour of the [bytes] crate, and
    [slice_buf] and [vec_buf] are the instances for a byte slice and a growable
    vector. *)

From S2P Require Import Prelude.
From stdpp Require Import base list numbers.
From Stdlib Require Import Strings.Byte.

Open Scope Z_scope.

(** Readers.  [None] is the documented panic of a read past the end.  What a
    decoder runs in also holds the allocator it asks for room in advance:
    [buf_with_capacity n] is a call of [Vec::with_capacity(n)] and [buf_zeroed n]
    the allocation of [vec![0u8; n]], which no buffer notices. *)
Class Buf (B : Type) := {
  remaining : B -> Z;
  buf_get_u8 : B -> option (Z * B);
  buf_get_i8 : B -> option (Z * B);
  buf_get_u16 : B -> option (Z * B);
  buf_get_i16 : B -> option (Z * B);
  buf_get_i32 : B -> option (Z * B);
  buf_get_i64 : B -> option (Z * B);
  buf_get_u128 : B -> option (Z * B);
  buf_get_f32 : B -> option (Z * B);
  buf_get_f64 : B -> option (Z * B);
  buf_copy_to_slice : nat -> B -> option (list byte * B);
  buf_copy_to_bytes : nat -> B -> option (list byte * B);
  buf_with_capacity : Z -> B -> B;
  buf_zeroed : Z -> B -> B;
}.

(** A read of [n] bytes, [view] being the bytes a buffer still holds. *)
Definition reads {B A} (view : B -> list byte) (n : nat) (dec : list byte -> A)
    (get : B -> option (A * B)) : Prop :=
  forall b,
    if decide (n <= length (view b))%nat
    then exists b', get b = Some (dec (take n (view b)), b') /\ view b' = drop n (view b)
    else get b = None.

(** The documented behaviour: big-endian reads that consume what they return.
    A float is its bit pattern. *)
Class BufLaws (B : Type) `{Buf B} := {
  view : B -> list byte;
  remaining_view b : remaining b = len (view b);
  get_u8_reads : reads view 1 be_val buf_get_u8;
  get_i8_reads : reads view 1 (fun bs => sign 8 (be_val bs)) buf_get_i8;
  get_u16_reads : reads view 2 be_val buf_get_u16;
  get_i16_reads : reads view 2 (fun bs => sign 16 (be_val bs)) buf_get_i16;
  get_i32_reads : reads view 4 (fun bs => sign 32 (be_val bs)) buf_get_i32;
  get_i64_reads : reads view 8 (fun bs => sign 64 (be_val bs)) buf_get_i64;
  get_u128_reads : reads view 16 be_val buf_get_u128;
  get_f32_reads : reads view 4 be_val buf_get_f32;
  get_f64_reads : reads view 8 be_val buf_get_f64;
  copy_to_slice_reads n : reads view n (fun bs => bs) (buf_copy_to_slice n);
  copy_to_bytes_reads n : reads view n (fun bs => bs) (buf_copy_to_bytes n);
  with_capacity_view n b : view (buf_with_capacity n b) = view b;
  zeroed_view n b : view (buf_zeroed n b) = view b;
}.

(** Writers into a growable buffer. *)
Class BufMut (B : Type) := {
  buf_put_u8 : Z -> B -> B;
  buf_put_i8 : Z -> B -> B;
  buf_put_u16 : Z -> B -> B;
  buf_put_i16 : Z -> B -> B;
  buf_put_i32 : Z -> B -> B;
  buf_put_i64 : Z -> B -> B;
  buf_put_u128 : Z -> B -> B;
  buf_put_f32 : Z -> B -> B;
  buf_put_f64 : Z -> B -> B;
  buf_put_slice : list byte -> B -> B;
}.

Class BufMutLaws (B : Type) `{BufMut B} := {
  written : B -> list byte;
  put_u8_written v b : written (buf_put_u8 v b) = written b ++ be_bytes 1 v;
  put_i8_written v b : written (buf_put_i8 v b) = written b ++ be_bytes 1 v;
  put_u16_written v b : written (buf_put_u16 v b) = written b ++ be_bytes 2 v;
  put_i16_written v b : written (buf_put_i16 v b) = written b ++ be_bytes 2 v;
  put_i32_written v b : written (buf_put_i32 v b) = written b ++ be_bytes 4 v;
  put_i64_written v b : written (buf_put_i64 v b) = written b ++ be_bytes 8 v;
  put_u128_written v b : written (buf_put_u128 v b) = written b ++ be_bytes 16 v;
  put_f32_written v b : written (buf_put_f32 v b) = written b ++ be_bytes 4 v;
  put_f64_written v b : written (buf_put_f64 v b) = written b ++ be_bytes 8 v;
  put_slice_written bs b : written (buf_put_slice bs b) = written b ++ bs;
}.

(** ** The calls, as effects on the buffer *)

Definition call {B E A} (get : B -> option (A * B)) : M B E A :=
  fun b => match get b with Some (a, b') => (Ok a, b') | None => (Panic, b) end.

Definition act {B E} (put : B -> B) : M B E unit := fun b => (Ok tt, put b).

Section Calls.
Context {B E : Type} `{Buf B} `{BufMut B}.

(** [src.remaining()] and [src.has_remaining()], which leave the buffer alone. *)
Definition get_remaining : M B E Z := fun b => (Ok (remaining b), b).
Definition has_remaining : M B E bool := fun b => (Ok (0 <? remaining b), b).

Definition get_u8 : M B E Z := call buf_get_u8.
Definition get_i8 : M B E Z := call buf_get_i8.
Definition get_u16 : M B E Z := call buf_get_u16.
Definition get_i16 : M B E Z := call buf_get_i16.
Definition get_i32 : M B E Z := call buf_get_i32.
Definition get_i64 : M B E Z := call buf_get_i64.
Definition get_u128 : M B E Z := call buf_get_u128.
Definition get_f32 : M B E Z := call buf_get_f32.
Definition get_f64 : M B E Z := call buf_get_f64.
Definition copy_to_slice (n : nat) : M B E (list byte) := call (buf_copy_to_slice n).
Definition copy_to_bytes (n : nat) : M B E (list byte) := call (buf_copy_to_bytes n).

(** [Vec::with_capacity(n)]: the vector it makes is empty, whatever [n] is. *)
Definition with_capacity (n : Z) : M B E unit := act (buf_with_capacity n).

(** The allocation of [vec![0u8; n]]; what fills the vector is a call of its own. *)
Definition zeroed (n : Z) : M B E unit := act (buf_zeroed n).

Definition put_u8 (v : Z) : M B E unit := act (buf_put_u8 v).
Definition put_i8 (v : Z) : M B E unit := act (buf_put_i8 v).
Definition put_u16 (v : Z) : M B E unit := act (buf_put_u16 v).
Definition put_i16 (v : Z) : M B E unit := act (buf_put_i16 v).
Definition put_i32 (v : Z) : M B E unit := act (buf_put_i32 v).
Definition put_i64 (v : Z) : M B E unit := act (buf_put_i64 v).
Definition put_u128 (v : Z) : M B E unit := act (buf_put_u128 v).
Definition put_f32 (v : Z) : M B E unit := act (buf_put_f32 v).
Definition put_f64 (v : Z) : M B E unit := act (buf_put_f64 v).
Definition put_slice (bs : list byte) : M B E unit := act (buf_put_slice bs).
End Calls.

(** ** Instances: a byte slice, a growable vector *)

Definition slice_read {A} (n : nat) (dec : list byte -> A) (bs : list byte) :
    option (A * list byte) :=
  if decide (n <= length bs)%nat then Some (dec (take n bs), drop n bs) else None.

#[export] Instance slice_buf : Buf (list byte) := {|
  remaining := len;
  buf_get_u8 := slice_read 1 be_val;
  buf_get_i8 := slice_read 1 (fun bs => sign 8 (be_val bs));
  buf_get_u16 := slice_read 2 be_val;
  buf_get_i16 := slice_read 2 (fun bs => sign 16 (be_val bs));
  buf_get_i32 := slice_read 4 (fun bs => sign 32 (be_val bs));
  buf_get_i64 := slice_read 8 (fun bs => sign 64 (be_val bs));
  buf_get_u128 := slice_read 16 be_val;
  buf_get_f32 := slice_read 4 be_val;
  buf_get_f64 := slice_read 8 be_val;
  buf_copy_to_slice n := slice_read n (fun bs => bs);
  buf_copy_to_bytes n := slice_read n (fun bs => bs);
  buf_with_capacity _ bs := bs;
  buf_zeroed _ bs := bs;
|}.

#[export] Instance vec_buf : BufMut (list byte) := {|
  buf_put_u8 v b := b ++ be_bytes 1 v;
  buf_put_i8 v b := b ++ be_bytes 1 v;
  buf_put_u16 v b := b ++ be_bytes 2 v;
  buf_put_i16 v b := b ++ be_bytes 2 v;
  buf_put_i32 v b := b ++ be_bytes 4 v;
  buf_put_i64 v b := b ++ be_bytes 8 v;
  buf_put_u128 v b := b ++ be_bytes 16 v;
  buf_put_f32 v b := b ++ be_bytes 4 v;
  buf_put_f64 v b := b ++ be_bytes 8 v;
  buf_put_slice bs b := b ++ bs;
|}.

Lemma slice_read_reads {A} n (dec : list byte -> A) :
  reads (fun b => b) n dec (slice_read n dec).
Proof. intros b. unfold slice_read. case_decide; eauto. Qed.

#[export] Instance slice_buf_laws : BufLaws (list byte).
Proof.
  refine {| view := fun b => b |};
    solve [done | apply slice_read_reads | intros; apply slice_read_reads].
Defined.

#[export] Instance vec_buf_laws : BufMutLaws (list byte).
Proof. refine {| written := fun b => b |}; done. Defined.

(** ** Simulation: a generic call behaves as the same call on plain bytes

    [sim abs m f]: through the abstraction [abs] (the [view] of a reader, the
    [written] bytes of a writer), [m] returns what [f] returns and leaves what
    [f] leaves.  Every codec is shown to simulate its instance on byte lists,
    so its properties need to be proved on byte lists only. *)
Definition sim {S T E A} (abs : S -> T) (m : M S E A) (f : M T E A) : Prop :=
  forall s, fst (m s) = fst (f (abs s)) /\ abs (snd (m s)) = snd (f (abs s)).

Create HintDb sim.

Section Sim.
Context {S T E : Type} (abs : S -> T).

Lemma sim_ret {A} (a : A) : sim (E:=E) abs (ret a) (ret a).
Proof. by intros s. Qed.

Lemma sim_throw {A} (e : E) : sim (A:=A) abs (throw e) (throw e).
Proof. by intros s. Qed.

Lemma sim_panic {A} : sim (E:=E) (A:=A) abs panic panic.
Proof. by intros s. Qed.

Lemma sim_diverge {A} : sim (E:=E) (A:=A) abs diverge diverge.
Proof. by intros s. Qed.

Lemma sim_lift {A} (r : outcome E A) : sim abs (lift r) (lift r).
Proof. by intros s. Qed.

Lemma sim_ok_or {A} (e : E) (o : option A) : sim abs (ok_or e o) (ok_or e o).
Proof. by destruct o. Qed.

Lemma sim_bind {A B} (m : M S E A) f (k : A -> M S E B) g :
  sim abs m f -> (forall a, sim abs (k a) (g a)) -> sim abs (bind m k) (bind f g).
Proof.
  intros Hm Hk s. unfold bind. destruct (Hm s) as [H1 H2].
  destruct (m s) as [r s'], (f (abs s)) as [r' t']. cbn in H1, H2. subst.
  destruct r'; try done. apply Hk.
Qed.

Lemma sim_map_err {E' A} (h : E -> E') (m : M S E A) f :
  sim abs m f -> sim abs (map_err h m) (map_err h f).
Proof.
  intros Hm s. unfold map_err. destruct (Hm s) as [H1 H2].
  destruct (m s) as [r s'], (f (abs s)) as [r' t']. cbn in H1, H2. subst. by destruct r'.
Qed.

Lemma sim_for_each {A} (f : A -> M S E unit) g items :
  (forall a, sim abs (f a) (g a)) -> sim abs (for_each f items) (for_each g items).
Proof.
  intros Hf. induction items; cbn [for_each]; [apply sim_ret|]. by apply sim_bind.
Qed.

Lemma sim_for_each_Forall {A} (f : A -> M S E unit) g items :
  Forall (fun a => sim abs (f a) (g a)) items -> sim abs (for_each f items) (for_each g items).
Proof. induction 1; cbn [for_each]; [apply sim_ret|]. by apply sim_bind. Qed.

Lemma sim_repeat_push {A} (f : M S E A) g n items :
  sim abs f g -> sim abs (repeat_push f n items) (repeat_push g n items).
Proof.
  intros Hf. revert items. induction n; intros; cbn [repeat_push]; [apply sim_ret|].
  by apply sim_bind.
Qed.
End Sim.

Lemma sim_zoom {S T S' T' E A} (absS : S -> S') (absT : T -> T') get set get' set'
    (m : M T E A) (f : M T' E A) :
  (forall s, absT (get s) = get' (absS s)) ->
  (forall t s, absS (set t s) = set' (absT t) (absS s)) ->
  sim absT m f -> sim absS (zoom get set m) (zoom get' set' f).
Proof.
  intros Hg Hs Hm s. unfold zoom. destruct (Hm (get s)) as [H1 H2]. rewrite Hg in *.
  destruct (m (get s)) as [r t], (f (get' (absS s))) as [r' t']. cbn in *. subst.
  by rewrite Hs.
Qed.

#[export] Hint Resolve sim_ret sim_throw sim_panic sim_diverge sim_lift sim_ok_or : sim.

(** Discharges a simulation by following the structure of the program. *)
Ltac sim_step :=
  match goal with
  | |- sim _ (bind _ _) (bind _ _) => apply sim_bind; [|intros ?]
  | |- sim _ (map_err _ _) (map_err _ _) => apply sim_map_err
  | |- sim _ (for_each _ _) (for_each _ _) => solve [apply sim_for_each; intros ?; simulate]
  | |- sim _ (repeat_push _ _ _) (repeat_push _ _ _) => apply sim_repeat_push
  | |- sim _ (if ?c then _ else _) _ => destruct c
  | |- sim _ (match ?x with _ => _ end) _ => destruct x
  | |- sim _ _ _ => solve [eauto with sim]
  end
with simulate := repeat sim_step.

Section CallSims.
Context {B : Type} `{BufLaws B}.

Lemma sim_call {E A} n (dec : list byte -> A) get :
  reads view n dec get -> sim (E:=E) view (call get) (call (slice_read n dec)).
Proof.
  intros Hr b. specialize (Hr b). unfold call, slice_read.
  case_decide; [destruct Hr as (b' & -> & ?)|rewrite Hr]; done.
Qed.

Lemma sim_get_remaining {E} : sim (E:=E) view get_remaining get_remaining.
Proof. intros b. cbn. by rewrite remaining_view. Qed.
Lemma sim_has_remaining {E} : sim (E:=E) view has_remaining has_remaining.
Proof. intros b. cbn. by rewrite remaining_view. Qed.
Lemma sim_get_u8 {E} : sim (E:=E) view get_u8 get_u8.
Proof. apply sim_call, get_u8_reads. Qed.
Lemma sim_get_i8 {E} : sim (E:=E) view get_i8 get_i8.
Proof. apply sim_call, get_i8_reads. Qed.
Lemma sim_get_u16 {E} : sim (E:=E) view get_u16 get_u16.
Proof. apply sim_call, get_u16_reads. Qed.
Lemma sim_get_i16 {E} : sim (E:=E) view get_i16 get_i16.
Proof. apply sim_call, get_i16_reads. Qed.
Lemma sim_get_i32 {E} : sim (E:=E) view get_i32 get_i32.
Proof. apply sim_call, get_i32_reads. Qed.
Lemma sim_get_i64 {E} : sim (E:=E) view get_i64 get_i64.
Proof. apply sim_call, get_i64_reads. Qed.
Lemma sim_get_u128 {E} : sim (E:=E) view get_u128 get_u128.
Proof. apply sim_call, get_u128_reads. Qed.
Lemma sim_get_f32 {E} : sim (E:=E) view get_f32 get_f32.
Proof. apply sim_call, get_f32_reads. Qed.
Lemma sim_get_f64 {E} : sim (E:=E) view get_f64 get_f64.
Proof. apply sim_call, get_f64_reads. Qed.
Lemma sim_copy_to_slice {E} n : sim (E:=E) view (copy_to_slice n) (copy_to_slice n).
Proof. apply sim_call, copy_to_slice_reads. Qed.
Lemma sim_copy_to_bytes {E} n : sim (E:=E) view (copy_to_bytes n) (copy_to_bytes n).
Proof. apply sim_call, copy_to_bytes_reads. Qed.
Lemma sim_with_capacity {E} n : sim (E:=E) view (with_capacity n) (with_capacity n).
Proof. intros b. cbn. by rewrite with_capacity_view. Qed.
Lemma sim_zeroed {E} n : sim (E:=E) view (zeroed n) (zeroed n).
Proof. intros b. cbn. by rewrite zeroed_view. Qed.
End CallSims.

Section PutSims.
Context {B : Type} `{BufMutLaws B}.

Lemma sim_put_u8 {E} v : sim (E:=E) written (put_u8 v) (put_u8 v).
Proof. intros b. cbn. by rewrite put_u8_written. Qed.
Lemma sim_put_i8 {E} v : sim (E:=E) written (put_i8 v) (put_i8 v).
Proof. intros b. cbn. by rewrite put_i8_written. Qed.
Lemma sim_put_u16 {E} v : sim (E:=E) written (put_u16 v) (put_u16 v).
Proof. intros b. cbn. by rewrite put_u16_written. Qed.
Lemma sim_put_i16 {E} v : sim (E:=E) written (put_i16 v) (put_i16 v).
Proof. intros b. cbn. by rewrite put_i16_written. Qed.
Lemma sim_put_i32 {E} v : sim (E:=E) written (put_i32 v) (put_i32 v).
Proof. intros b. cbn. by rewrite put_i32_written. Qed.
Lemma sim_put_i64 {E} v : sim (E:=E) written (put_i64 v) (put_i64 v).
Proof. intros b. cbn. by rewrite put_i64_written. Qed.
Lemma sim_put_u128 {E} v : sim (E:=E) written (put_u128 v) (put_u128 v).
Proof. intros b. cbn. by rewrite put_u128_written. Qed.
Lemma sim_put_f32 {E} v : sim (E:=E) written (put_f32 v) (put_f32 v).
Proof. intros b. cbn. by rewrite put_f32_written. Qed.
Lemma sim_put_f64 {E} v : sim (E:=E) written (put_f64 v) (put_f64 v).
Proof. intros b. cbn. by rewrite put_f64_written. Qed.
Lemma sim_put_slice {E} bs : sim (E:=E) written (put_slice bs) (put_slice bs).
Proof. intros b. cbn. by rewrite put_slice_written. Qed.
End PutSims.

#[export] Hint Resolve sim_get_remaining sim_has_remaining sim_get_u8 sim_get_i8 sim_get_u16
  sim_get_i16 sim_get_i32 sim_get_i64 sim_get_u128 sim_get_f32 sim_get_f64
  sim_copy_to_slice sim_copy_to_bytes sim_with_capacity sim_zeroed : sim.
#[export] Hint Resolve sim_put_u8 sim_put_i8 sim_put_u16 sim_put_i16 sim_put_i32 sim_put_i64
  sim_put_u128 sim_put_f32 sim_put_f64 sim_put_slice : sim.

(** ** Reads of a byte slice *)

(** A slice does not notice an allocation. *)
Lemma slice_zeroed {E A} n (m : M (list byte) E A) l : (do! zeroed n; m) l = m l.
Proof. done. Qed.

Lemma wp_zeroed {E A} n (m : M (list byte) E A) Q l : wp m Q l -> wp (do! zeroed n; m) Q l.
Proof. done. Qed.

Section SliceReads.
Context {E A : Type} (n : nat) (dec : list byte -> A).

Lemma slice_call_app bs rest :
  length bs = n -> call (E:=E) (slice_read n dec) (bs ++ rest) = (Ok (dec bs), rest).
Proof.
  intros <-. unfold call, slice_read. rewrite length_app.
  rewrite decide_True by lia. by rewrite take_app_length, drop_app_length.
Qed.

Lemma wp_slice_call (Q : A -> list byte -> Prop) l :
  Z.of_nat n <= len l ->
  (forall bs rest, length bs = n -> l = bs ++ rest -> Q (dec bs) rest) ->
  wp (call (E:=E) (slice_read n dec)) Q l.
Proof.
  unfold len. intros Hn HQ. unfold wp, call, slice_read. rewrite decide_True by lia.
  apply HQ; [rewrite length_take; lia|by rewrite take_drop].
Qed.

(** The bounds check that precedes every fixed-width read of the source. *)
Lemma wp_checked_call {C} (e : E) (k : A -> M (list byte) E C) (Q : C -> list byte -> Prop) w l :
  w = Z.of_nat n ->
  (forall bs rest, length bs = n -> l = bs ++ rest -> wp (k (dec bs)) Q rest) ->
  wp (let! r := get_remaining in if r <? w then throw e
      else let! v := call (slice_read n dec) in k v) Q l.
Proof.
  intros -> HQ. apply wp_bind. change (wp (if len l <? Z.of_nat n then throw e
    else bind (call (slice_read n dec)) k) Q l).
  case_match; [done|].
  apply wp_bind, wp_slice_call; [lia|]. intros. by apply HQ.
Qed.
End SliceReads.

(** ** Writers: what they append, and when

    [writes_if P ok m bs]: into any vector, [m] appends [bs] when [ok] holds
    and otherwise fails with an error satisfying [P]. *)
Definition writes_if {E} (P : E -> Prop) (ok : bool) (m : M (list byte) E unit)
    (bs : list byte) : Prop :=
  forall out, if ok then m out = (Ok tt, out ++ bs)
              else exists e out', m out = (Err e, out') /\ P e.

Section Writers.
Context {E : Type} (P : E -> Prop).

Lemma writes_ret : writes_if P true (ret tt) [].
Proof. intros out. by rewrite app_nil_r. Qed.

Lemma writes_throw e bs : P e -> writes_if P false (throw e) bs.
Proof. intros He out. by exists e, out. Qed.

Lemma writes_seq ok1 ok2 m1 m2 bs1 bs2 :
  writes_if P ok1 m1 bs1 -> writes_if P ok2 m2 bs2 ->
  writes_if P (ok1 && ok2) (do! m1; m2) (bs1 ++ bs2).
Proof.
  intros H1 H2 out. specialize (H1 out). destruct ok1; cbn.
  - rewrite (bind_ok _ _ _ _ _ H1). rewrite app_assoc. apply H2.
  - destruct H1 as (e & out' & H1 & ?). exists e, out'. by rewrite (bind_err _ _ _ _ _ H1).
Qed.

Lemma writes_checked {A} (ok : bool) (e : E) (o : option A) (k : A -> M (list byte) E unit) bs :
  (if ok then exists a, o = Some a /\ writes_if P true (k a) bs else o = None /\ P e) ->
  writes_if P ok (let! a := ok_or e o in k a) bs.
Proof.
  intros Hok out. destruct ok.
  - destruct Hok as (a & -> & Hk). apply Hk.
  - destruct Hok as [-> He]. by exists e, out.
Qed.

Lemma writes_for_each {A} (f : A -> M (list byte) E unit) ok enc items :
  Forall (fun a => writes_if P (ok a) (f a) (enc a)) items ->
  writes_if P (forallb ok items) (for_each f items) (flat_map enc items).
Proof.
  induction 1; [apply writes_ret|]. cbn. by apply writes_seq.
Qed.
End Writers.

Lemma writes_act {E} (P : E -> Prop) put bs :
  (forall out, put out = out ++ bs) -> writes_if P true (act put) bs.
Proof. intros Hp out. unfold act. by rewrite Hp. Qed.


(** What a writer proved into a vector does to any buffer. *)
Lemma writes_through {B} `{BufMutLaws B} {E} (P : E -> Prop) ok m f bs (dst : B) :
  sim written m f -> writes_if P ok f bs ->
  match m dst with
  | (Ok _, dst') => ok = true /\ written dst' = written dst ++ bs
  | (Err e, _) => ok = false /\ P e
  | _ => False
  end.
Proof.
  intros Hs Hw. specialize (Hs dst) as [H1 H2]. specialize (Hw (written dst)).
  destruct (m dst) as [r dst']. cbn in H1, H2. subst r. destruct ok.
  - rewrite Hw in *. by split.
  - destruct Hw as (e & out' & Hw & ?). by rewrite Hw.
Qed.

Lemma writes_through_ok {B} `{BufMutLaws B} {E} (P : E -> Prop) m f bs (dst : B) :
  sim written m f -> writes_if P true f bs ->
  exists dst', m dst = (Ok tt, dst') /\ written dst' = written dst ++ bs.
Proof.
  intros Hs Hw. pose proof (writes_through P true m f bs dst Hs Hw) as Hm.
  destruct (m dst) as [[[]|e| |] dst']; try easy. exists dst'. by destruct Hm.
Qed.

(** [parses m bs a]: in front of anything, [m] consumes exactly [bs] and
    returns [a]. *)
Definition parses {E A} (m : M (list byte) E A) (bs : list byte) (a : A) : Prop :=
  forall rest, m (bs ++ rest) = (Ok a, rest).

Section Parses.
Context {E : Type}.

Lemma parses_ret {A} (a : A) : parses (E:=E) (ret a) [] a.
Proof. by intros rest. Qed.

Lemma parses_bind {A B} (m : M (list byte) E A) (k : A -> M (list byte) E B) bs1 bs2 a b :
  parses m bs1 a -> parses (k a) bs2 b -> parses (bind m k) (bs1 ++ bs2) b.
Proof. intros Hm Hk rest. rewrite <- app_assoc. rewrite (bind_ok _ _ _ _ _ (Hm _)). apply Hk. Qed.

(** A call that looks at the buffer and consumes nothing. *)
Lemma parses_peek {A B} (m : M (list byte) E A) (k : A -> M (list byte) E B) bs b :
  (forall rest, exists a, m (bs ++ rest) = (Ok a, bs ++ rest)
    /\ k a (bs ++ rest) = (Ok b, rest)) ->
  parses (bind m k) bs b.
Proof. intros Hm rest. destruct (Hm rest) as (a & Ha & Hk). by rewrite (bind_ok _ _ _ _ _ Ha). Qed.

Lemma parses_map_err {E' A} (f : E -> E') (m : M (list byte) E A) bs a :
  parses m bs a -> parses (map_err f m) bs a.
Proof. intros Hm rest. by apply map_err_ok. Qed.

Lemma parses_call {A} n (dec : list byte -> A) bs :
  length bs = n -> parses (E:=E) (call (slice_read n dec)) bs (dec bs).
Proof. intros Hn rest. by apply slice_call_app. Qed.

(** A fixed-width read behind its bounds check. *)
Lemma parses_checked {A B} n (dec : list byte -> A) w (e : E) (k : A -> M (list byte) E B) bs bs' b :
  w = Z.of_nat n -> length bs = n -> parses (k (dec bs)) bs' b ->
  parses (let! r := get_remaining in if r <? w then throw e
          else let! v := call (slice_read n dec) in k v) (bs ++ bs') b.
Proof.
  intros -> Hn Hk. apply parses_peek. intros rest. eexists. split; [done|].
  cbn [remaining slice_buf]. pose proof (len_nonneg bs'). pose proof (len_nonneg rest).
  rewrite (proj2 (Z.ltb_ge _ _)) by (rewrite !len_app; unfold len at 1; lia).
  rewrite <- app_assoc. rewrite (bind_ok _ _ _ _ _ (slice_call_app _ _ _ _ Hn)). apply Hk.
Qed.

Lemma parses_repeat_push {A} (f : M (list byte) E A) (enc : A -> list byte) xs acc :
  Forall (fun x => parses f (enc x) x) xs ->
  parses (repeat_push f (length xs) acc) (flat_map enc xs) (acc ++ xs).
Proof.
  intros Hxs. revert acc. induction Hxs as [|x xs Hx Hxs IH]; intros acc.
  - rewrite app_nil_r. apply parses_ret.
  - cbn [repeat_push length flat_map]. eapply parses_bind; [done|].
    replace (acc ++ x :: xs) with ((acc ++ [x]) ++ xs) by (by rewrite <- app_assoc). apply IH.
Qed.
End Parses.

(** What a reader proved on slices does on any buffer. *)
Lemma parses_through {B} `{BufLaws B} {E A} (m : M B E A) f bs a (src : B) rest :
  sim view m f -> parses f bs a -> view src = bs ++ rest ->
  exists src', m src = (Ok a, src') /\ view src' = rest.
Proof.
  intros Hs Hp Hv. specialize (Hs src) as [H1 H2]. rewrite Hv, Hp in H1, H2.
  destruct (m src) as [r src']. cbn in *. subst. by exists src'.
Qed.

Lemma wp_through {B} `{BufLaws B} {E A} (m : M B E A) f Q (src : B) :
  sim view m f -> wp f Q (view src) -> wp m (fun a src' => Q a (view src')) src.
Proof.
  intros Hs Hw. specialize (Hs src) as [H1 H2]. unfold wp in *.
  destruct (m src) as [r src'], (f (view src)) as [r' l']. cbn in *. by subst.
Qed.
