(* ===== verification/Testing.v ===== *)
(** * Running the source's unit tests on the model

    A test of the source becomes a proposition made of its assertions.  This file
    has the assertions' vocabulary and the tactic that evaluates them. *)

From S2P Require Import Prelude Buffers.
From stdpp Require Import base list numbers.
From Stdlib Require Import Strings.Byte.

(** [matches!(e, p)]. *)
Declare Scope test_scope.
Notation "e 'matches' p" := (match e with p => True | _ => False end)
  (at level 70, p pattern at level 10, no associativity) : test_scope.

(** [for x in l { .. }], the body asserting [P x]. *)
Fixpoint for_all {A} (P : A -> Prop) (l : list A) : Prop :=
  match l with
  | [] => True
  | x :: l => P x /\ for_all P l
  end.

(** [from..], [n] indices. *)
Fixpoint indices (n : nat) (from : Z) : list Z :=
  match n with
  | O => []
  | S n => from :: indices n (from + 1)%Z
  end.

(** [let x = r.unwrap(); ..]: a test whose [unwrap] panics fails. *)
Definition unwrapped {E A} (r : outcome E A) (k : A -> Prop) : Prop :=
  match r with
  | Ok a => k a
  | _ => False
  end.

(** The same for a call on a buffer, which the rest of the test goes on using. *)
Definition unwrapped_with {S E A} (r : outcome E A * S) (k : A -> S -> Prop) : Prop :=
  unwrapped (fst r) (fun a => k a (snd r)).

(** What a sequence of writes leaves in an empty buffer. *)
Definition buffer {E} (m : M (list byte) E unit) (k : list byte -> Prop) : Prop :=
  unwrapped_with (m []) (fun _ bs => k bs).

(** The bytes of an array literal. *)
Definition octets (l : list Z) : list byte := map byte_of l.

(** A raw string literal of the source, its quotes written as apostrophes. *)
Definition raw_string (s : String.string) : list byte :=
  map (fun b => match b with x27 => x22 | b => b end) (bytes_of s).

(** [&buf[from..to]]. *)
Definition slice {A} (from to : nat) (l : list A) : list A := drop from (take to l).

(** Evaluates every assertion of a conjunction of tests. *)
Ltac run_tests :=
  vm_compute; repeat match goal with |- _ /\ _ => split end;
  first [exact I | reflexivity | discriminate].
