(* ===== verification/NbtTag.v ===== *)
(** * The NBT value tree ([crates/nbt/src/tag.rs], [error.rs], [macros.rs]).

    Tags, compounds and lists, the operations of [NbtCompound] and [NbtList],
    and the errors of the crate.  A compound refines a finite map from names to
    tags ([as_map]). *)

From S2P Require Import Prelude Utf8.
From stdpp Require Import base list numbers gmap.
From Stdlib Require Import Strings.Byte.

Open Scope Z_scope.

(** ** Data *)

Inductive TagId :=
  | TagId_End | TagId_Byte | TagId_Short | TagId_Int | TagId_Long | TagId_Float
  | TagId_Double | TagId_ByteArray | TagId_String | TagId_List | TagId_Compound
  | TagId_IntArray | TagId_LongArray.

#[export] Instance TagId_eq_dec : EqDecision TagId.
Proof. solve_decision. Defined.

(** [self as u8]: the discriminant. *)
Definition tag_id_u8 (id : TagId) : Z :=
  match id with
  | TagId_End => 0 | TagId_Byte => 1 | TagId_Short => 2 | TagId_Int => 3 | TagId_Long => 4
  | TagId_Float => 5 | TagId_Double => 6 | TagId_ByteArray => 7 | TagId_String => 8
  | TagId_List => 9 | TagId_Compound => 10 | TagId_IntArray => 11 | TagId_LongArray => 12
  end.

(** Maximum nesting depth, and maximum number of tags of a decoded document. *)
Definition MAX_DEPTH : Z := 512.
Definition MAX_TOTAL_NODES : Z := Z.shiftl 1 16.

Inductive NbtError :=
  | NbtError_UnexpectedEof
  | NbtError_UnknownTag (id : Z)
  | NbtError_RootNotCompound (id : TagId)
  | NbtError_DepthExceeded (max : Z)
  | NbtError_NegativeLength (declared : Z)
  | NbtError_LengthExceedsInput (declared remaining : Z)
  | NbtError_InvalidListElementType (id : TagId)
  | NbtError_HeterogeneousList (expected found : TagId)
  | NbtError_TooManyNodes (max : Z)
  | NbtError_DuplicateKey (name : list byte)
  | NbtError_ArrayTooLong (len : Z)
  | NbtError_StringTooLong (len : Z)
  | NbtError_InvalidUtf8 (error : Utf8Error).

(** [TagId::try_from]. *)
Definition tag_id_try_from (value : Z) : outcome NbtError TagId :=
  match value with
  | 0 => Ok TagId_End | 1 => Ok TagId_Byte | 2 => Ok TagId_Short | 3 => Ok TagId_Int
  | 4 => Ok TagId_Long | 5 => Ok TagId_Float | 6 => Ok TagId_Double | 7 => Ok TagId_ByteArray
  | 8 => Ok TagId_String | 9 => Ok TagId_List | 10 => Ok TagId_Compound
  | 11 => Ok TagId_IntArray | 12 => Ok TagId_LongArray
  | other => Err (NbtError_UnknownTag other)
  end.

(** The two containers, over the type of the values they hold. *)
Record NbtCompound_of (T : Type) := mkCompound { entries : list (list byte * T) }.
Record NbtList_of (T : Type) := mkList { element_type : TagId; items : list T }.
Arguments mkCompound {T} _.
Arguments entries {T} _.
Arguments mkList {T} _ _.
Arguments element_type {T} _.
Arguments items {T} _.

#[local] Unset Elimination Schemes.

(** A value: integers by their mathematical value, floats by their bit pattern,
    strings by their UTF-8 bytes. *)
Inductive NbtTag :=
  | NbtTag_Byte (value : Z)
  | NbtTag_Short (value : Z)
  | NbtTag_Int (value : Z)
  | NbtTag_Long (value : Z)
  | NbtTag_Float (bits : Z)
  | NbtTag_Double (bits : Z)
  | NbtTag_ByteArray (value : list byte)
  | NbtTag_String (value : list byte)
  | NbtTag_List (value : NbtList_of NbtTag)
  | NbtTag_Compound (value : NbtCompound_of NbtTag)
  | NbtTag_IntArray (values : list Z)
  | NbtTag_LongArray (values : list Z).

#[local] Set Elimination Schemes.

Abbreviation NbtCompound := (NbtCompound_of NbtTag).
Abbreviation NbtList := (NbtList_of NbtTag).

(** [NbtTag::id]. *)
Definition tag_id (t : NbtTag) : TagId :=
  match t with
  | NbtTag_Byte _ => TagId_Byte | NbtTag_Short _ => TagId_Short | NbtTag_Int _ => TagId_Int
  | NbtTag_Long _ => TagId_Long | NbtTag_Float _ => TagId_Float
  | NbtTag_Double _ => TagId_Double | NbtTag_ByteArray _ => TagId_ByteArray
  | NbtTag_String _ => TagId_String | NbtTag_List _ => TagId_List
  | NbtTag_Compound _ => TagId_Compound | NbtTag_IntArray _ => TagId_IntArray
  | NbtTag_LongArray _ => TagId_LongArray
  end.

(** The conversions [impl From<..> for NbtTag], one for each type of the table
    of [impl_from!] and one for [&str]. *)
Definition nbt_from_i8 (value : Z) : NbtTag := NbtTag_Byte value.
Definition nbt_from_i16 (value : Z) : NbtTag := NbtTag_Short value.
Definition nbt_from_i32 (value : Z) : NbtTag := NbtTag_Int value.
Definition nbt_from_i64 (value : Z) : NbtTag := NbtTag_Long value.
Definition nbt_from_f32 (bits : Z) : NbtTag := NbtTag_Float bits.
Definition nbt_from_f64 (bits : Z) : NbtTag := NbtTag_Double bits.
Definition nbt_from_bytes (value : list byte) : NbtTag := NbtTag_ByteArray value.
Definition nbt_from_string (value : list byte) : NbtTag := NbtTag_String value.
Definition nbt_from_vec_i32 (values : list Z) : NbtTag := NbtTag_IntArray values.
Definition nbt_from_vec_i64 (values : list Z) : NbtTag := NbtTag_LongArray values.
Definition nbt_from_list (value : NbtList) : NbtTag := NbtTag_List value.
Definition nbt_from_compound (value : NbtCompound) : NbtTag := NbtTag_Compound value.
Definition nbt_from_str (value : list byte) : NbtTag := NbtTag_String value.

(** ** Operations of a compound *)

Definition compound_new : NbtCompound := mkCompound [].

(** The first entry whose key is [name] takes the value; no such entry, no change. *)
Fixpoint replace_first (es : list (list byte * NbtTag)) (name : list byte) (value : NbtTag) :
    option (list (list byte * NbtTag)) :=
  match es with
  | [] => None
  | (key, v) :: es' =>
    if decide (key = name) then Some ((key, value) :: es')
    else match replace_first es' name value with
         | Some es'' => Some ((key, v) :: es'')
         | None => None
         end
  end.

Definition compound_insert (c : NbtCompound) (name : list byte) (value : NbtTag) : NbtCompound :=
  match replace_first (entries c) name value with
  | Some es => mkCompound es
  | None => mkCompound (entries c ++ [(name, value)])
  end.

Definition compound_push (c : NbtCompound) (name : list byte) (value : NbtTag) : NbtCompound :=
  mkCompound (entries c ++ [(name, value)]).

Fixpoint find_entry (es : list (list byte * NbtTag)) (name : list byte) : option NbtTag :=
  match es with
  | [] => None
  | (key, v) :: es' => if decide (key = name) then Some v else find_entry es' name
  end.

Definition compound_get (c : NbtCompound) (name : list byte) : option NbtTag :=
  find_entry (entries c) name.

Definition compound_len (c : NbtCompound) : Z := len (entries c).
Definition compound_is_empty (c : NbtCompound) : bool :=
  match entries c with [] => true | _ => false end.

(** [compound! { name => value, ... }]. *)
Definition compound_macro (pairs : list (list byte * NbtTag)) : NbtCompound :=
  fold_left (fun c '(name, value) => compound_insert c name value) pairs compound_new.

(** The names of a compound, in the order it iterates them. *)
Definition keys (c : NbtCompound) : list (list byte) := map fst (entries c).

(** ** Operations of a list *)

Definition list_empty : NbtList := mkList TagId_End [].

(** The loop of [NbtList::new]: the first item of another type. *)
Fixpoint first_mismatch (et : TagId) (ts : list NbtTag) : option TagId :=
  match ts with
  | [] => None
  | t :: ts' => if decide (tag_id t = et) then first_mismatch et ts' else Some (tag_id t)
  end.

Definition list_new (ts : list NbtTag) : outcome NbtError NbtList :=
  match ts with
  | [] => Ok list_empty
  | first :: _ =>
    let et := tag_id first in
    match first_mismatch et ts with
    | Some found => Err (NbtError_HeterogeneousList et found)
    | None => Ok (mkList et ts)
    end
  end.

Definition list_from_parts (et : TagId) (ts : list NbtTag) : NbtList := mkList et ts.

Definition list_len (l : NbtList) : Z := len (items l).
Definition list_is_empty (l : NbtList) : bool :=
  match items l with [] => true | _ => false end.

(** [list![ value, ... ]]. *)
Definition list_macro (ts : list NbtTag) : outcome NbtError NbtList :=
  match ts with [] => list_new [] | _ => list_new ts end.

(** ** The abstract compound: a finite map *)

#[export] Instance byte_countable : Countable byte :=
  inj_countable' byte_val byte_of byte_of_val.

Definition as_map (c : NbtCompound) : gmap (list byte) NbtTag := list_to_map (entries c).

(** ** Induction over the tree *)

Section NbtTagInd.
Variable P : NbtTag -> Prop.
Hypothesis HByte : forall v, P (NbtTag_Byte v).
Hypothesis HShort : forall v, P (NbtTag_Short v).
Hypothesis HInt : forall v, P (NbtTag_Int v).
Hypothesis HLong : forall v, P (NbtTag_Long v).
Hypothesis HFloat : forall v, P (NbtTag_Float v).
Hypothesis HDouble : forall v, P (NbtTag_Double v).
Hypothesis HByteArray : forall v, P (NbtTag_ByteArray v).
Hypothesis HString : forall v, P (NbtTag_String v).
Hypothesis HList : forall et ts, Forall P ts -> P (NbtTag_List (mkList et ts)).
Hypothesis HCompound : forall es,
  Forall (fun e => P (snd e)) es -> P (NbtTag_Compound (mkCompound es)).
Hypothesis HIntArray : forall v, P (NbtTag_IntArray v).
Hypothesis HLongArray : forall v, P (NbtTag_LongArray v).

Fixpoint NbtTag_tree_ind (t : NbtTag) : P t :=
  match t with
  | NbtTag_Byte v => HByte v
  | NbtTag_Short v => HShort v
  | NbtTag_Int v => HInt v
  | NbtTag_Long v => HLong v
  | NbtTag_Float v => HFloat v
  | NbtTag_Double v => HDouble v
  | NbtTag_ByteArray v => HByteArray v
  | NbtTag_String v => HString v
  | NbtTag_List (mkList et ts) =>
      HList et ts ((fix go ts : Forall P ts :=
        match ts with
        | [] => Forall_nil_2 _
        | t :: ts' => Forall_cons_2 _ _ _ (NbtTag_tree_ind t) (go ts')
        end) ts)
  | NbtTag_Compound (mkCompound es) =>
      HCompound es ((fix go es : Forall (fun e => P (snd e)) es :=
        match es with
        | [] => Forall_nil_2 _
        | (n, t) :: es' => Forall_cons_2 _ (n, t) _ (NbtTag_tree_ind t) (go es')
        end) es)
  | NbtTag_IntArray v => HIntArray v
  | NbtTag_LongArray v => HLongArray v
  end.
End NbtTagInd.

(** ** Lemmas *)

Lemma tag_id_try_from_u8 id : tag_id_try_from (tag_id_u8 id) = Ok id.
Proof. by destruct id. Qed.

Lemma tag_id_try_from_inv v id : tag_id_try_from v = Ok id -> v = tag_id_u8 id.
Proof.
  unfold tag_id_try_from. destruct v as [|p|]; [by intros [= <-]| |done].
  do 4 (try (destruct p as [p|p|]); try done); by intros [= <-].
Qed.

Lemma tag_id_try_from_returns v : returns (tag_id_try_from v).
Proof. unfold tag_id_try_from. repeat case_match; done. Qed.

Lemma tag_id_u8_range id : in_unsigned 8 (tag_id_u8 id) = true.
Proof. by destruct id. Qed.

Lemma tag_id_not_end t : tag_id t <> TagId_End.
Proof. by destruct t. Qed.

Lemma replace_first_None es name value :
  replace_first es name value = None <-> name ∉ map fst es.
Proof.
  induction es as [|[k v] es IH]; cbn; [split; [set_solver|done]|].
  rewrite not_elem_of_cons. case_decide; [naive_solver|].
  destruct (replace_first es name value); naive_solver.
Qed.

Lemma replace_first_keys es name value es' :
  replace_first es name value = Some es' -> map fst es' = map fst es.
Proof.
  revert es'. induction es as [|[k v] es IH]; intros es'; cbn; [done|].
  case_decide; [by intros [= <-]|]. destruct (replace_first es name value); [|done].
  intros [= <-]. cbn. f_equal. by apply IH.
Qed.

Lemma replace_first_map es name value es' :
  replace_first es name value = Some es' ->
  (list_to_map es' : gmap (list byte) NbtTag) = <[name := value]> (list_to_map es).
Proof.
  revert es'. induction es as [|[k v] es IH]; intros es'; cbn; [done|].
  case_decide as Hk; [subst; intros [= <-]; cbn; by rewrite insert_insert_eq|].
  destruct (replace_first es name value); [|done]. intros [= <-]. cbn.
  rewrite (IH _ eq_refl). by rewrite insert_insert_ne by done.
Qed.

Lemma list_to_map_snoc_new (es : list (list byte * NbtTag)) name value :
  name ∉ map fst es ->
  (list_to_map (es ++ [(name, value)]) : gmap (list byte) NbtTag)
  = <[name := value]> (list_to_map es).
Proof.
  induction es as [|[k v] es IH]; cbn; [done|]. rewrite not_elem_of_cons. intros [Hk Hn].
  rewrite IH by done. by rewrite insert_insert_ne by done.
Qed.

Lemma find_entry_map es name :
  find_entry es name = (list_to_map es : gmap (list byte) NbtTag) !! name.
Proof.
  induction es as [|[k v] es IH]; cbn; [done|].
  case_decide as Hk; [subst; by rewrite lookup_insert_eq|]. by rewrite lookup_insert_ne.
Qed.

Lemma keys_insert c name value :
  keys (compound_insert c name value)
  = if decide (name ∈ keys c) then keys c else keys c ++ [name].
Proof.
  unfold keys, compound_insert. destruct (replace_first _ _ _) eqn:E.
  - rewrite decide_True.
    + cbn. by eapply replace_first_keys.
    + apply dec_stable. intros Hn. apply replace_first_None with (value:=value) in Hn. congruence.
  - apply replace_first_None in E. rewrite decide_False by done. cbn. by rewrite map_app.
Qed.

Lemma first_mismatch_None et ts :
  first_mismatch et ts = None <-> Forall (fun t => tag_id t = et) ts.
Proof.
  induction ts; cbn; [done|]. rewrite Forall_cons. case_decide; naive_solver.
Qed.

(** A list whose items all have the type it declares. *)
Definition homogeneous (l : NbtList) : Prop :=
  Forall (fun t => tag_id t = element_type l) (items l).

Lemma first_mismatch_Some et ts found :
  first_mismatch et ts = Some found ->
  exists pre t post, ts = pre ++ t :: post /\ found = tag_id t /\ tag_id t <> et
    /\ Forall (fun t => tag_id t = et) pre.
Proof.
  induction ts as [|t ts IH]; cbn; [done|]. case_decide as Ht.
  - intros (pre & t' & post & -> & ? & ? & ?)%IH. exists (t :: pre), t', post. auto.
  - intros [= <-]. by exists [], t, ts.
Qed.

Lemma as_map_insert c name value :
  as_map (compound_insert c name value) = <[name := value]> (as_map c).
Proof.
  unfold as_map, compound_insert. destruct (replace_first _ _ _) eqn:E; cbn.
  - by apply replace_first_map.
  - apply list_to_map_snoc_new. by eapply replace_first_None.
Qed.

Lemma NoDup_keys_insert c name value : NoDup (keys c) -> NoDup (keys (compound_insert c name value)).
Proof.
  intros Hc. rewrite keys_insert. case_decide; [done|].
  apply NoDup_app. split_and!; [done|set_solver|apply NoDup_singleton].
Qed.

Lemma fold_insert_spec pairs c :
  let c' := fold_left (fun c '(name, value) => compound_insert c name value) pairs c in
  as_map c' = list_to_map (reverse pairs) ∪ as_map c
  /\ (NoDup (keys c) -> NoDup (keys c')).
Proof.
  cbn zeta. revert c. induction pairs as [|[n v] pairs IH]; intros c; cbn [fold_left].
  - by rewrite reverse_nil, list_to_map_nil, (left_id_L ∅ (∪)).
  - destruct (IH (compound_insert c n v)) as [IH1 IH2]. split.
    + rewrite IH1, as_map_insert, reverse_cons, list_to_map_app, list_to_map_cons, list_to_map_nil.
      rewrite insert_empty, <- (assoc_L (∪)). by rewrite <- insert_union_singleton_l.
    + intros Hc. apply IH2. by apply NoDup_keys_insert.
Qed.

(** ** Properties *)

(** C35: [NbtCompound::insert] implements the update of a finite map from names
    to tags, [get] its lookup: the refinement holds for every compound, one
    holding duplicate names included.  Insertion keeps the order of the names,
    a new one going last, and never makes a name occur twice. *)
Theorem compound_refines_map (c : NbtCompound) (name : list byte) (value : NbtTag) :
  as_map (compound_insert c name value) = <[name := value]> (as_map c)
  /\ (forall n, compound_get c n = as_map c !! n)
  /\ keys (compound_insert c name value)
     = (if decide (name ∈ keys c) then keys c else keys c ++ [name])
  /\ (NoDup (keys c) -> NoDup (keys (compound_insert c name value))).
Proof.
  split_and!; [apply as_map_insert| |apply keys_insert|apply NoDup_keys_insert].
  intros n. apply find_entry_map.
Qed.

(** The [compound!] macro builds a compound without duplicate names in
    which a name is bound to the last value given for it. *)
Theorem compound_macro_spec (pairs : list (list byte * NbtTag)) :
  as_map (compound_macro pairs) = list_to_map (reverse pairs)
  /\ NoDup (keys (compound_macro pairs)).
Proof.
  destruct (fold_insert_spec pairs compound_new) as [H1 H2]. split.
  - unfold compound_macro. rewrite H1. apply (right_id_L ∅ (∪)).
  - apply H2. constructor.
Qed.

(** [NbtList::new] succeeds on exactly the sequences whose tags share one
    type, keeping the items and declaring that type ([End] for no items), and
    otherwise reports the first tag that differs from the head. *)
Theorem list_new_spec (ts : list NbtTag) :
  match list_new ts with
  | Ok l => items l = ts /\ homogeneous l /\ (element_type l = TagId_End <-> ts = [])
  | Err e => exists first pre t post,
      ts = first :: pre ++ t :: post
      /\ Forall (fun t' => tag_id t' = tag_id first) pre
      /\ tag_id t <> tag_id first
      /\ e = NbtError_HeterogeneousList (tag_id first) (tag_id t)
  | Panic | Diverge => False
  end.
Proof.
  unfold list_new. destruct ts as [|first ts].
  { split_and!; [done|constructor|done]. }
  destruct (first_mismatch _ _) eqn:E.
  - cbn in E. rewrite decide_True in E by done.
    apply first_mismatch_Some in E as (pre & t' & post & -> & -> & ? & ?).
    by exists first, pre, t', post.
  - apply first_mismatch_None in E. split_and!; [done|done|].
    split; [|done]. intros Hend. by destruct (tag_id_not_end first).
Qed.
