(* ===== verification/NbtSpec.v ===== *)
(** * The reference encoding of NBT, and what makes a document valid.

    [enc_payload] is the wire format as a function of the tree, with no state,
    no errors and no limits; the writer and the reader are proved against it.
    [valid_document] collects the invariants of the types of the source and
    the limits of the codec. *)

From S2P Require Import Prelude Utf8 NbtTag.
From stdpp Require Import base list numbers.
From Stdlib Require Import Strings.Byte.

Open Scope Z_scope.

(** ** The wire format *)

Definition enc_string (s : list byte) : list byte := be_bytes 2 (len s) ++ s.

Fixpoint enc_payload (t : NbtTag) : list byte :=
  match t with
  | NbtTag_Byte v => be_bytes 1 v
  | NbtTag_Short v => be_bytes 2 v
  | NbtTag_Int v => be_bytes 4 v
  | NbtTag_Long v => be_bytes 8 v
  | NbtTag_Float v => be_bytes 4 v
  | NbtTag_Double v => be_bytes 8 v
  | NbtTag_ByteArray v => be_bytes 4 (len v) ++ v
  | NbtTag_String v => enc_string v
  | NbtTag_List l =>
      be_bytes 1 (tag_id_u8 (element_type l)) ++ be_bytes 4 (len (items l))
      ++ flat_map enc_payload (items l)
  | NbtTag_Compound c =>
      flat_map (fun '(name, t) =>
        be_bytes 1 (tag_id_u8 (tag_id t)) ++ enc_string name ++ enc_payload t) (entries c)
      ++ be_bytes 1 0
  | NbtTag_IntArray vs => be_bytes 4 (len vs) ++ flat_map (be_bytes 4) vs
  | NbtTag_LongArray vs => be_bytes 4 (len vs) ++ flat_map (be_bytes 8) vs
  end.

Definition enc_entry (e : list byte * NbtTag) : list byte :=
  be_bytes 1 (tag_id_u8 (tag_id (snd e))) ++ enc_string (fst e) ++ enc_payload (snd e).

(** A compound's body: its entries, then the terminating [End]. *)
Definition enc_body (es : list (list byte * NbtTag)) : list byte :=
  flat_map enc_entry es ++ be_bytes 1 0.

Definition enc_network (c : NbtCompound) : list byte := be_bytes 1 10 ++ enc_body (entries c).
Definition enc_named (name : list byte) (c : NbtCompound) : list byte :=
  be_bytes 1 10 ++ enc_string name ++ enc_body (entries c).

(** ** Validity *)

(** [P] holds of every tag of a tree, each taken at its wire nesting depth. *)
Fixpoint every_tag (P : Z -> NbtTag -> bool) (depth : Z) (t : NbtTag) : bool :=
  P depth t &&
  match t with
  | NbtTag_List l => forallb (every_tag P (depth + 1)) (items l)
  | NbtTag_Compound c => forallb (fun '(_, t) => every_tag P (depth + 1) t) (entries c)
  | _ => true
  end.

(** The values are values of the types of the source: integers in range,
    floats as bit patterns, strings as UTF-8. *)
Definition well_typed (t : NbtTag) : bool :=
  match t with
  | NbtTag_Byte v => in_signed 8 v
  | NbtTag_Short v => in_signed 16 v
  | NbtTag_Int v => in_signed 32 v
  | NbtTag_Long v => in_signed 64 v
  | NbtTag_Float v => in_unsigned 32 v
  | NbtTag_Double v => in_unsigned 64 v
  | NbtTag_ByteArray _ => true
  | NbtTag_String v => Utf8.valid v
  | NbtTag_List _ => true
  | NbtTag_Compound c => forallb (fun '(name, _) => Utf8.valid name) (entries c)
  | NbtTag_IntArray vs => forallb (in_signed 32) vs
  | NbtTag_LongArray vs => forallb (in_signed 64) vs
  end.

(** The invariants [NbtCompound] and [NbtList] keep behind their interfaces. *)
Definition well_built (t : NbtTag) : bool :=
  match t with
  | NbtTag_List l => forallb (fun t => bool_decide (tag_id t = element_type l)) (items l)
  | NbtTag_Compound c => bool_decide (NoDup (keys c))
  | _ => true
  end.

(** What the wire format can carry: length prefixes and the depth limit. *)
Definition fits (depth : Z) (t : NbtTag) : bool :=
  (depth <=? MAX_DEPTH) &&
  match t with
  | NbtTag_ByteArray v => len v <? 2 ^ 31
  | NbtTag_String v => len v <? 2 ^ 16
  | NbtTag_List l => len (items l) <? 2 ^ 31
  | NbtTag_Compound c =>
      (depth + 1 <=? MAX_DEPTH) && forallb (fun '(name, _) => len name <? 2 ^ 16) (entries c)
  | NbtTag_IntArray vs => len vs <? 2 ^ 31
  | NbtTag_LongArray vs => len vs <? 2 ^ 31
  | _ => true
  end.

(** The number of tags of a tree, itself included. *)
Fixpoint tag_count (t : NbtTag) : Z :=
  1 + match t with
      | NbtTag_List l => foldr (fun t n => tag_count t + n) 0 (items l)
      | NbtTag_Compound c => foldr (fun '(_, t) n => tag_count t + n) 0 (entries c)
      | _ => 0
      end.

Definition items_count (ts : list NbtTag) : Z := foldr (fun t n => tag_count t + n) 0 ts.
Definition entries_count (es : list (list byte * NbtTag)) : Z :=
  foldr (fun '(_, t) n => tag_count t + n) 0 es.

(** A root compound opens level 1: as a tag it stands at depth 0. *)
Definition document_typed (c : NbtCompound) : bool :=
  every_tag (fun _ => well_typed) 0 (NbtTag_Compound c).
Definition document_built (c : NbtCompound) : bool :=
  every_tag (fun _ => well_built) 0 (NbtTag_Compound c).
Definition document_fits (c : NbtCompound) : bool := every_tag fits 0 (NbtTag_Compound c).
Definition document_small (c : NbtCompound) : bool := entries_count (entries c) <=? MAX_TOTAL_NODES.

Definition valid_document (c : NbtCompound) : bool :=
  document_typed c && document_built c && document_fits c && document_small c.

(** ** Lemmas *)

Lemma enc_payload_compound c : enc_payload (NbtTag_Compound c) = enc_body (entries c).
Proof. cbn. unfold enc_body. f_equal. apply flat_map_ext. by intros [n t]. Qed.
