(* ===== verification/NbtWrite.v ===== *)
(** * Encoding NBT documents ([crates/nbt/src/write.rs]).

    The writer, generic over the output buffer, and its agreement with the
    reference encoding: which documents it writes, what bytes it appends. *)

From S2P Require Import Prelude Utf8 Buffers NbtTag NbtSpec.
From stdpp Require Import base list numbers.
From Stdlib Require Import Strings.Byte Btauto.

Open Scope Z_scope.

Section Write.
Context {B : Type} `{BufMut B}.

Definition write_nbt_string (value : list byte) : M B NbtError unit :=
  let length := len value in
  let! n := ok_or (NbtError_StringTooLong length) (try_unsigned 16 length) in
  do! put_u16 n;
  put_slice value.

Definition array_len (length : Z) : M B NbtError Z :=
  ok_or (NbtError_ArrayTooLong length) (try_signed 32 length).

(** [write_compound_body], over the function that writes one payload. *)
Definition write_compound_body_with (write_payload : NbtTag -> Z -> M B NbtError unit)
    (value : NbtCompound) (depth : Z) : M B NbtError unit :=
  if depth >? MAX_DEPTH then throw (NbtError_DepthExceeded MAX_DEPTH)
  else
    do! for_each (fun '(name, tag) =>
          do! put_u8 (tag_id_u8 (tag_id tag));
          do! write_nbt_string name;
          write_payload tag depth) (entries value);
    put_u8 (tag_id_u8 TagId_End).

Fixpoint write_payload (tag : NbtTag) (depth : Z) {struct tag} : M B NbtError unit :=
  if depth >? MAX_DEPTH then throw (NbtError_DepthExceeded MAX_DEPTH)
  else
    match tag with
    | NbtTag_Byte value => put_i8 value
    | NbtTag_Short value => put_i16 value
    | NbtTag_Int value => put_i32 value
    | NbtTag_Long value => put_i64 value
    | NbtTag_Float value => put_f32 value
    | NbtTag_Double value => put_f64 value
    | NbtTag_ByteArray value =>
        let! n := array_len (len value) in
        do! put_i32 n;
        put_slice value
    | NbtTag_String value => write_nbt_string value
    | NbtTag_List list =>
        do! put_u8 (tag_id_u8 (element_type list));
        let! n := array_len (list_len list) in
        do! put_i32 n;
        for_each (fun item => write_payload item (depth + 1)) (items list)
    | NbtTag_Compound compound => write_compound_body_with write_payload compound (depth + 1)
    | NbtTag_IntArray values =>
        let! n := array_len (len values) in
        do! put_i32 n;
        for_each put_i32 values
    | NbtTag_LongArray values =>
        let! n := array_len (len values) in
        do! put_i32 n;
        for_each put_i64 values
    end.

Definition write_compound_body (value : NbtCompound) (depth : Z) : M B NbtError unit :=
  write_compound_body_with write_payload value depth.

Definition write_network_root (value : NbtCompound) : M B NbtError unit :=
  do! put_u8 (tag_id_u8 TagId_Compound);
  write_compound_body value 1.

Definition write_named_root (name : list byte) (value : NbtCompound) : M B NbtError unit :=
  do! put_u8 (tag_id_u8 TagId_Compound);
  do! write_nbt_string name;
  write_compound_body value 1.
End Write.

(** ** The generic writer simulates the writer into a vector *)

Section WriteSim.
Context {B : Type} `{BufMutLaws B}.

Lemma sim_write_nbt_string s : sim written (write_nbt_string s) (write_nbt_string s).
Proof. unfold write_nbt_string. simulate. Qed.
Hint Resolve sim_write_nbt_string : sim.

Lemma sim_write_compound_body_with wp wp' c depth :
  Forall (fun e => forall d, sim written (wp (snd e) d) (wp' (snd e) d)) (entries c) ->
  sim written (write_compound_body_with wp c depth) (write_compound_body_with wp' c depth).
Proof.
  intros Hc. unfold write_compound_body_with. simulate.
  apply sim_for_each_Forall. eapply Forall_impl; [|exact Hc]. intros [n t] Ht. simulate.
Qed.

Lemma sim_write_payload t depth : sim written (write_payload t depth) (write_payload t depth).
Proof.
  revert depth. induction t using NbtTag_tree_ind; intros depth; cbn [write_payload];
    unfold array_len; simulate.
  - apply sim_for_each_Forall. eapply Forall_impl; [|eassumption]. auto.
  - by apply sim_write_compound_body_with.
Qed.

Lemma sim_write_network_root c : sim written (write_network_root c) (write_network_root c).
Proof.
  unfold write_network_root, write_compound_body. simulate.
  apply sim_write_compound_body_with, Forall_forall. intros. apply sim_write_payload.
Qed.

Lemma sim_write_named_root n c : sim written (write_named_root n c) (write_named_root n c).
Proof.
  unfold write_named_root, write_compound_body. simulate.
  apply sim_write_compound_body_with, Forall_forall. intros. apply sim_write_payload.
Qed.
End WriteSim.

(** ** The writer into a vector, against the reference encoding *)

(** The errors the writer can end with. *)
Definition write_error (e : NbtError) : Prop :=
  match e with
  | NbtError_DepthExceeded max => max = MAX_DEPTH
  | NbtError_StringTooLong n => 2 ^ 16 <= n
  | NbtError_ArrayTooLong n => 2 ^ 31 <= n
  | _ => False
  end.

Abbreviation writes := (writes_if write_error).

Lemma writes_ext ok ok' m bs : ok = ok' -> writes ok m bs -> writes ok' m bs.
Proof. by intros ->. Qed.

Lemma writes_put_u8 v : writes true (put_u8 v) (be_bytes 1 v).
Proof. by apply writes_act. Qed.

Lemma writes_nbt_string s : writes (len s <? 2 ^ 16) (write_nbt_string s) (enc_string s).
Proof.
  pose proof (len_nonneg s). apply writes_checked. unfold try_unsigned, in_unsigned.
  destruct (Z.ltb_spec (len s) (2 ^ 16)).
  - exists (len s). split; [by rewrite (proj2 (Z.leb_le _ _))|].
    apply (writes_seq _ true true); by apply writes_act.
  - rewrite andb_false_r. by split.
Qed.

(** A length prefix, then the elements. *)
Lemma writes_prefixed ok n m bs :
  0 <= n -> writes ok m bs ->
  writes ((n <? 2 ^ 31) && ok) (let! n' := array_len n in do! put_i32 n'; m) (be_bytes 4 n ++ bs).
Proof.
  intros Hn Hm. unfold array_len, try_signed, in_signed.
  change (2 ^ (32 - 1)) with (2 ^ 31). rewrite (proj2 (Z.leb_le _ n)) by lia.
  destruct (Z.ltb_spec n (2 ^ 31)).
  - apply (writes_seq _ true ok); [by apply writes_act|done].
  - by apply writes_throw.
Qed.

Lemma writes_ints n put w vs :
  0 <= n -> (forall v, writes true (put v) (be_bytes w v)) ->
  writes (n <? 2 ^ 31) (let! n' := array_len n in do! put_i32 n'; for_each put vs)
    (be_bytes 4 n ++ flat_map (be_bytes w) vs).
Proof.
  intros Hn Hput. rewrite <- (andb_true_r (n <? _)). apply writes_prefixed; [done|].
  eapply writes_ext; [|apply (writes_for_each _ _ (fun _ => true))].
  - by induction vs.
  - by apply Forall_forall.
Qed.

Lemma writes_guarded ok depth m bs :
  writes ok m bs ->
  writes ((depth <=? MAX_DEPTH) && ok)
    (if depth >? MAX_DEPTH then throw (NbtError_DepthExceeded MAX_DEPTH) else m) bs.
Proof.
  intros Hm. rewrite Z.gtb_ltb. destruct (Z.ltb_spec MAX_DEPTH depth), (Z.leb_spec depth MAX_DEPTH);
    try lia; [by apply writes_throw|done].
Qed.

Lemma flat_map_singletons {A} (f : A -> list byte) l : flat_map f l = concat (map f l).
Proof. apply flat_map_concat_map. Qed.

Lemma writes_compound_body_with wp (c : NbtCompound) depth :
  Forall (fun e => writes (every_tag fits depth (snd e)) (wp (snd e) depth) (enc_payload (snd e)))
    (entries c) ->
  writes ((depth <=? MAX_DEPTH) && forallb (fun '(name, _) => len name <? 2 ^ 16) (entries c)
          && forallb (fun '(_, t) => every_tag fits depth t) (entries c))
    (write_compound_body_with wp c depth) (enc_body (entries c)).
Proof.
  intros Hc. rewrite <- andb_assoc. apply writes_guarded.
  rewrite <- (andb_true_r (_ && _)). apply writes_seq; [|apply writes_put_u8].
  eapply writes_ext; [|apply (writes_for_each _ _
    (fun e => (len (fst e) <? 2 ^ 16) && every_tag fits depth (snd e)) enc_entry)].
  - clear Hc. induction (entries c) as [|[n t] es IH]; [done|]. cbn. rewrite IH.
    cbn [fst snd]. btauto.
  - eapply Forall_impl; [|exact Hc]. intros [n t] Ht.
    apply (writes_seq _ true); [apply writes_put_u8|].
    apply writes_seq; [apply writes_nbt_string|apply Ht].
Qed.

Lemma writes_payload t depth :
  writes (every_tag fits depth t) (write_payload t depth) (enc_payload t).
Proof.
  revert depth. induction t as [v|v|v|v|v|v|v|v|et ts IH|es IH|vs|vs] using NbtTag_tree_ind;
    intros depth; cbn [every_tag write_payload]; unfold fits at 1; cbn match;
    rewrite <- ?andb_assoc; apply writes_guarded; try (by apply writes_act).
  - cbn [enc_payload]. apply writes_prefixed; [apply len_nonneg|by apply writes_act].
  - rewrite andb_true_r. apply writes_nbt_string.
  - cbn [enc_payload]. apply (writes_seq _ true); [apply writes_put_u8|].
    apply writes_prefixed; [apply len_nonneg|]. apply writes_for_each.
    eapply Forall_impl; [|exact IH]. intros t Ht. apply Ht.
  - rewrite (andb_assoc (depth + 1 <=? _)), enc_payload_compound.
    apply writes_compound_body_with. eapply Forall_impl; [|exact IH]. intros e He. apply He.
  - cbn [enc_payload]. rewrite andb_true_r.
    apply writes_ints; [apply len_nonneg|intros; by apply writes_act].
  - cbn [enc_payload]. rewrite andb_true_r.
    apply writes_ints; [apply len_nonneg|intros; by apply writes_act].
Qed.

Lemma writes_body c :
  writes (document_fits c) (write_compound_body c 1) (enc_body (entries c)).
Proof.
  eapply writes_ext; [|apply writes_compound_body_with, Forall_forall; intros; apply writes_payload].
  unfold document_fits. cbn [every_tag]. unfold fits at 2. by rewrite <- andb_assoc.
Qed.

Lemma writes_network_root c :
  writes (document_fits c) (write_network_root c) (enc_network c).
Proof. apply (writes_seq _ true); [apply writes_put_u8|apply writes_body]. Qed.

Lemma writes_named_root name c :
  writes ((len name <? 2 ^ 16) && document_fits c) (write_named_root name c) (enc_named name c).
Proof.
  apply (writes_seq _ true); [apply writes_put_u8|].
  apply writes_seq; [apply writes_nbt_string|apply writes_body].
Qed.

(** ** Properties *)

(** C26: [write_network_root] succeeds on exactly the documents that fit the
    wire format (nesting, name, string and array lengths), and then appends
    their encoding to whatever the buffer held; on any other document it
    returns an error naming the limit that was broken.  It always returns. *)
Theorem write_network_root_spec {B} `{BufMutLaws B} (dst : B) (value : NbtCompound) :
  match write_network_root value dst with
  | (Ok _, dst') => document_fits value = true /\ written dst' = written dst ++ enc_network value
  | (Err e, _) => document_fits value = false /\ write_error e
  | _ => False
  end.
Proof. eapply writes_through; [apply sim_write_network_root|apply writes_network_root]. Qed.

(** [write_named_root] succeeds on exactly the documents that fit, under a
    name that fits, and then appends the file form of the document. *)
Theorem write_named_root_spec {B} `{BufMutLaws B} (dst : B) (name : list byte)
    (value : NbtCompound) :
  match write_named_root name value dst with
  | (Ok _, dst') =>
      (len name <? 2 ^ 16) && document_fits value = true
      /\ written dst' = written dst ++ enc_named name value
  | (Err e, _) => (len name <? 2 ^ 16) && document_fits value = false /\ write_error e
  | _ => False
  end.
Proof. eapply writes_through; [apply sim_write_named_root|apply writes_named_root]. Qed.
