(* ===== verification/NbtRead.v ===== *)
(** * Decoding NBT documents ([crates/nbt/src/read.rs]).

    The reader, generic over the input buffer, with the running tag count it
    threads through the recursion.  [fuel] bounds the recursion of the model;
    the entry points take enough of it for every input. *)

From S2P Require Import Prelude Utf8 Buffers NbtTag NbtSpec.
From stdpp Require Import base list numbers sorting.
From Stdlib Require Import Strings.Byte.

Open Scope Z_scope.

(** The cap on the room asked for before an element has been read. *)
Definition MAX_PREALLOC_ELEMENTS : Z := 64.

(** The loop over [names.windows(2)]: the first name equal to its successor. *)
Fixpoint equal_window (names : list (list byte)) : option (list byte) :=
  match names with
  | a :: (b :: _) as rest => if decide (a = b) then Some a else equal_window rest
  | _ => None
  end.

Definition reject_duplicate_keys (compound : NbtCompound) : outcome NbtError unit :=
  if compound_len compound <? 2 then Ok tt
  else
    let names := merge_sort str_le (map fst (entries compound)) in
    match equal_window names with
    | Some name => Err (NbtError_DuplicateKey name)
    | None => Ok tt
    end.

(** The smallest number of bytes an element of a list can occupy. *)
Definition min_element_size (element_type : TagId) : Z :=
  match element_type with
  | TagId_End => 0
  | TagId_Byte => 1
  | TagId_Short => 2
  | TagId_Int | TagId_Float => 4
  | TagId_Long | TagId_Double => 8
  | _ => 1
  end.

Section Read.
Context {B : Type} `{Buf B}.

Definition read_tag_id : M B NbtError TagId :=
  let! more := has_remaining in
  if negb more then throw NbtError_UnexpectedEof
  else
    let! v := get_u8 in
    lift (tag_id_try_from v).

Definition read_nbt_string : M B NbtError (list byte) :=
  let! r := get_remaining in
  if r <? 2 then throw NbtError_UnexpectedEof
  else
    let! length := get_u16 in
    let! r := get_remaining in
    if r <? length then throw (NbtError_LengthExceedsInput length r)
    else
      do! zeroed length;
      let! bytes := copy_to_slice (Z.to_nat length) in
      map_err NbtError_InvalidUtf8 (lift (Utf8.from_utf8 bytes)).

Definition read_length (min_size : Z) : M B NbtError Z :=
  let! r := get_remaining in
  if r <? 4 then throw NbtError_UnexpectedEof
  else
    let! declared := get_i32 in
    let! length := ok_or (NbtError_NegativeLength declared) (usize_try_from declared) in
    let! r := get_remaining in
    let! required := ok_or (NbtError_LengthExceedsInput length r) (checked_mul length min_size) in
    if required >? r then throw (NbtError_LengthExceedsInput required r)
    else ret length.

(** The [fixed!] macro: a fixed-width value, after checking the input holds it. *)
Definition fixed (size : Z) (get : M B NbtError Z) (variant : Z -> NbtTag) : M B NbtError NbtTag :=
  let! r := get_remaining in
  if r <? size then throw NbtError_UnexpectedEof
  else
    let! v := get in
    ret (variant v).

(** A read of [src], in the state that also holds the count [nodes]. *)
Definition on_src {A} (m : M B NbtError A) : M (B * Z) NbtError A :=
  zoom fst (fun b s => (b, snd s)) m.

(** [*nodes += 1], and the check against the budget. *)
Definition count_node : M (B * Z) NbtError unit :=
  fun s =>
    let nodes := snd s + 1 in
    if nodes >? MAX_TOTAL_NODES
    then (Err (NbtError_TooManyNodes MAX_TOTAL_NODES), (fst s, nodes))
    else (Ok tt, (fst s, nodes)).

Fixpoint read_payload (fuel : nat) (id : TagId) (depth : Z) {struct fuel} :
    M (B * Z) NbtError NbtTag :=
  match fuel with
  | O => diverge
  | S fuel =>
    if depth >? MAX_DEPTH then throw (NbtError_DepthExceeded MAX_DEPTH)
    else
      do! count_node;
      match id with
      | TagId_End => throw (NbtError_InvalidListElementType TagId_End)
      | TagId_Byte => on_src (fixed 1 get_i8 NbtTag_Byte)
      | TagId_Short => on_src (fixed 2 get_i16 NbtTag_Short)
      | TagId_Int => on_src (fixed 4 get_i32 NbtTag_Int)
      | TagId_Long => on_src (fixed 8 get_i64 NbtTag_Long)
      | TagId_Float => on_src (fixed 4 get_f32 NbtTag_Float)
      | TagId_Double => on_src (fixed 8 get_f64 NbtTag_Double)
      | TagId_ByteArray =>
          let! length := on_src (read_length 1) in
          let! bytes := on_src (copy_to_bytes (Z.to_nat length)) in
          ret (NbtTag_ByteArray bytes)
      | TagId_String =>
          let! s := on_src read_nbt_string in
          ret (NbtTag_String s)
      | TagId_List =>
          let! element_type := on_src read_tag_id in
          let! length := on_src (read_length (min_element_size element_type)) in
          if bool_decide (element_type = TagId_End) && negb (length =? 0)
          then throw (NbtError_InvalidListElementType TagId_End)
          else
            do! on_src (with_capacity (Z.min length MAX_PREALLOC_ELEMENTS));
            let! items :=
              repeat_push (read_payload fuel element_type (depth + 1)) (Z.to_nat length) [] in
            ret (NbtTag_List (list_from_parts element_type items))
      | TagId_Compound =>
          let! c := read_compound_body fuel (depth + 1) in
          ret (NbtTag_Compound c)
      | TagId_IntArray =>
          let! length := on_src (read_length 4) in
          do! on_src (with_capacity (Z.min length MAX_PREALLOC_ELEMENTS));
          let! values := on_src (repeat_push get_i32 (Z.to_nat length) []) in
          ret (NbtTag_IntArray values)
      | TagId_LongArray =>
          let! length := on_src (read_length 8) in
          do! on_src (with_capacity (Z.min length MAX_PREALLOC_ELEMENTS));
          let! values := on_src (repeat_push get_i64 (Z.to_nat length) []) in
          ret (NbtTag_LongArray values)
      end
  end

with read_compound_body (fuel : nat) (depth : Z) {struct fuel} :
    M (B * Z) NbtError NbtCompound :=
  match fuel with
  | O => diverge
  | S fuel =>
    if depth >? MAX_DEPTH then throw (NbtError_DepthExceeded MAX_DEPTH)
    else read_entries fuel depth compound_new
  end

(** The [loop] of [read_compound_body]. *)
with read_entries (fuel : nat) (depth : Z) (compound : NbtCompound) {struct fuel} :
    M (B * Z) NbtError NbtCompound :=
  match fuel with
  | O => diverge
  | S fuel =>
    let! id := on_src read_tag_id in
    if decide (id = TagId_End) then
      do! lift (reject_duplicate_keys compound);
      ret compound
    else
      let! name := on_src read_nbt_string in
      let! value := read_payload fuel id depth in
      read_entries fuel depth (compound_push compound name value)
  end.

(** A root body: depth 1, a fresh tag count, and fuel for the bytes left. *)
Definition read_root_body : M B NbtError NbtCompound :=
  fun b =>
    let (r, s) := read_compound_body (S (S (Z.to_nat (remaining b)))) 1 (b, 0) in
    (r, fst s).

Definition read_network_root : M B NbtError NbtCompound :=
  let! id := read_tag_id in
  if decide (id <> TagId_Compound) then throw (NbtError_RootNotCompound id)
  else read_root_body.

Definition read_named_root : M B NbtError (list byte * NbtCompound) :=
  let! id := read_tag_id in
  if decide (id <> TagId_Compound) then throw (NbtError_RootNotCompound id)
  else
    let! name := read_nbt_string in
    let! compound := read_root_body in
    ret (name, compound).

Definition read_optional_network_root : M B NbtError (option NbtCompound) :=
  let! id := read_tag_id in
  match id with
  | TagId_End => ret None
  | TagId_Compound =>
      let! compound := read_root_body in
      ret (Some compound)
  | other => throw (NbtError_RootNotCompound other)
  end.
End Read.

(** ** The generic reader simulates the reader of a slice *)

Section ReadSim.
Context {B : Type} `{BufLaws B}.

Definition view_nodes (s : B * Z) : list byte * Z := (view (fst s), snd s).

Lemma sim_read_tag_id : sim view read_tag_id read_tag_id.
Proof. unfold read_tag_id. simulate. Qed.
Lemma sim_read_nbt_string : sim view read_nbt_string read_nbt_string.
Proof. unfold read_nbt_string. simulate. Qed.
Lemma sim_read_length n : sim view (read_length n) (read_length n).
Proof. unfold read_length. simulate. Qed.
Lemma sim_fixed n get get' f :
  sim view get get' -> sim view (fixed n get f) (fixed n get' f).
Proof. intros. unfold fixed. simulate. Qed.
Lemma sim_count_node : sim view_nodes count_node count_node.
Proof. intros [b n]. unfold count_node. cbn. by case_match. Qed.

Lemma sim_on_src {A} (m : M B NbtError A) f :
  sim view m f -> sim view_nodes (on_src m) (on_src f).
Proof. by apply sim_zoom. Qed.
Hint Resolve sim_read_tag_id sim_read_nbt_string sim_read_length sim_fixed sim_count_node
  sim_on_src sim_repeat_push sim_with_capacity : sim.

Lemma sim_read_bodies n :
  (forall id d, sim view_nodes (read_payload n id d) (read_payload n id d))
  /\ (forall d, sim view_nodes (read_compound_body n d) (read_compound_body n d))
  /\ (forall d c, sim view_nodes (read_entries n d c) (read_entries n d c)).
Proof.
  induction n as [|n (IHp & IHb & IHe)]; [split_and!; intros; apply sim_diverge|].
  split_and!; intros; cbn [read_payload read_compound_body read_entries]; simulate.
Qed.

Lemma sim_read_root_body : sim view read_root_body read_root_body.
Proof.
  intros b. unfold read_root_body. cbn [remaining slice_buf]. rewrite remaining_view.
  destruct (sim_read_bodies (S (S (Z.to_nat (len (view b)))))) as (_ & Hb & _).
  specialize (Hb 1 (b, 0)) as [H1 H2]. unfold view_nodes in H2. cbn [fst snd] in *.
  repeat destruct (read_compound_body _ _ _). cbn in *. by simplify_eq.
Qed.
Hint Resolve sim_read_root_body : sim.

Lemma sim_read_network_root : sim view read_network_root read_network_root.
Proof. unfold read_network_root. simulate. Qed.
Lemma sim_read_named_root : sim view read_named_root read_named_root.
Proof. unfold read_named_root. simulate. Qed.
Lemma sim_read_optional_network_root :
  sim view read_optional_network_root read_optional_network_root.
Proof. unfold read_optional_network_root. simulate. Qed.
End ReadSim.
