(* ===== verification/NbtCorrect.v ===== *)
(** * Correctness of the NBT codec.

    The reader accepts exactly the valid documents' encodings, never panics and
    always returns; the writer's output reads back.  Proved on byte slices and
    carried to every buffer by simulation. *)

From S2P Require Import Prelude Utf8 Buffers NbtTag NbtSpec NbtWrite NbtRead.
From stdpp Require Import base list numbers sorting strings.
From Stdlib Require Import Strings.Byte Btauto.

Open Scope Z_scope.

(** Every invariant and limit of one tag. *)
Definition node_valid (depth : Z) (t : NbtTag) : bool := well_typed t && well_built t && fits depth t.
Abbreviation valid_tag := (every_tag node_valid).

Definition valid_entry (depth : Z) (e : list byte * NbtTag) : bool :=
  Utf8.valid (fst e) && (len (fst e) <? 2 ^ 16) && valid_tag depth (snd e).

Definition valid_body (depth : Z) (c : NbtCompound) : bool :=
  (depth <=? MAX_DEPTH) && bool_decide (NoDup (keys c)) && forallb (valid_entry depth) (entries c).

(** ** Duplicate names *)

Lemma equal_window_NoDup names :
  StronglySorted str_le names -> equal_window names = None -> NoDup names.
Proof.
  induction 1 as [|a names Hs IH Ha]; intros Hw; [constructor|].
  destruct names as [|b names]; [apply NoDup_singleton|]. cbn in Hw. case_decide as Hab; [done|].
  constructor; [|by apply IH]. intros Hin. apply Hab.
  apply Forall_cons in Ha as [Hab' _]. apply (anti_symm str_le); [done|].
  apply elem_of_cons in Hin as [->|Hin]; [done|].
  inversion Hs as [|? ? _ Hb]; subst. rewrite Forall_forall in Hb. by apply Hb.
Qed.

Lemma equal_window_Some names a :
  equal_window names = Some a -> exists pre post, names = pre ++ a :: a :: post.
Proof.
  induction names as [|x names IH]; [done|]. cbn. destruct names as [|y names]; [done|].
  case_decide; [subst; intros [= ->]; by exists [], names|].
  intros (pre & post & Hn)%IH. exists (x :: pre), post. by rewrite Hn.
Qed.

Lemma reject_duplicate_keys_ok c : reject_duplicate_keys c = Ok tt <-> NoDup (keys c).
Proof.
  unfold reject_duplicate_keys, compound_len. fold (keys c).
  assert (len (entries c) = len (keys c)) as -> by (unfold len, keys; by rewrite length_map).
  destruct (Z.ltb_spec (len (keys c)) 2) as [Hlt|Hge].
  - split; [intros _|done]. unfold len in Hlt.
    destruct (keys c) as [|? [|? ?]]; [constructor|apply NoDup_singleton|cbn in Hlt; lia].
  - pose proof (merge_sort_Permutation str_le (keys c)) as Hp.
    assert (StronglySorted str_le (merge_sort str_le (keys c))) as Hs
      by (apply StronglySorted_merge_sort; apply _).
    destruct (equal_window _) eqn:E; split; try done.
    + intros Hnd. rewrite <- Hp in Hnd. apply equal_window_Some in E as (pre & post & E).
      rewrite E in Hnd. apply NoDup_app in Hnd as (_ & _ & Hnd).
      inversion Hnd as [|? ? Hnin]; subst. destruct Hnin. by left.
    + intros _. rewrite <- Hp. by eapply equal_window_NoDup.
Qed.

(** ** What the field readers accept *)

Section Fields.
Implicit Types l rest : list byte.

Lemma wp_read_tag_id l :
  wp read_tag_id (fun id l' => l = be_bytes 1 (tag_id_u8 id) ++ l') l.
Proof.
  unfold read_tag_id. apply wp_bind. unfold wp at 1. cbn -[get_u8 Z.ltb].
  destruct (Z.ltb_spec 0 (len l)); cbn [negb]; [|done].
  apply wp_bind, wp_slice_call; [lia|]. intros bs rest Hbs ->.
  pose proof (tag_id_try_from_returns (be_val bs)).
  unfold wp, lift. destruct (tag_id_try_from _) eqn:E; try done.
  apply tag_id_try_from_inv in E. by rewrite <- E, <- Hbs, be_bytes_be_val.
Qed.

Lemma wp_read_nbt_string l :
  wp read_nbt_string
    (fun s l' => l = enc_string s ++ l' /\ Utf8.valid s = true /\ len s < 2 ^ 16) l.
Proof.
  unfold read_nbt_string. apply wp_checked_call; [done|]. intros bs l1 Hbs ->.
  pose proof (be_val_unsigned bs 2 Hbs) as Hr. apply in_unsigned_spec in Hr.
  apply wp_bind. unfold wp at 1. cbn -[copy_to_slice Z.ltb].
  destruct (Z.ltb_spec (len l1) (be_val bs)); [done|].
  apply wp_zeroed, wp_bind, wp_slice_call; [lia|]. intros s l2 Hs ->. apply wp_map_err.
  pose proof (Utf8.from_utf8_returns s).
  unfold wp, lift. destruct (Utf8.from_utf8 s) eqn:E; try done.
  apply Utf8.from_utf8_inv in E as [-> ?].
  assert (len s = be_val bs) as Hlen by (unfold len; lia).
  split_and!; [|done|lia]. unfold enc_string. by rewrite Hlen, <- Hbs, be_bytes_be_val, app_assoc.
Qed.

Lemma wp_read_length size l :
  wp (read_length size)
    (fun n l' => l = be_bytes 4 n ++ l' /\ 0 <= n < 2 ^ 31 /\ n * size <= len l') l.
Proof.
  unfold read_length. apply wp_checked_call; [done|]. intros bs l1 Hbs ->.
  pose proof (sign_range 32 (be_val bs) ltac:(lia)) as Hr. apply in_signed_spec in Hr.
  change (2 ^ (32 - 1)) with (2 ^ 31) in Hr.
  unfold usize_try_from. destruct (Z.leb_spec 0 (sign 32 (be_val bs))); [|done].
  unfold checked_mul, wp, bind. cbn -[Z.gtb Z.ltb].
  destruct (Z.ltb_spec (sign 32 (be_val bs) * size) (2 ^ usize_bits)); cbn -[Z.gtb]; [|done].
  rewrite Z.gtb_ltb.
  destruct (Z.ltb_spec (len l1) (sign 32 (be_val bs) * size)); [done|]. cbn.
  split_and!; try lia. f_equal. symmetry. apply (be_bytes_sign bs 4); [lia|done].
Qed.

Lemma wp_fixed n w dec f l :
  w = Z.of_nat n ->
  wp (fixed w (call (slice_read n dec)) f)
    (fun t l' => exists bs, length bs = n /\ l = bs ++ l' /\ t = f (dec bs)) l.
Proof.
  intros Hw. unfold fixed. apply wp_checked_call; [done|]. intros bs rest Hbs ->. by exists bs.
Qed.

(** The unchecked reads of an array, after the check of its length. *)
Lemma wp_int_array n total l :
  (0 < n)%nat -> Z.of_nat total * Z.of_nat n <= len l ->
  wp (E:=NbtError)
    (repeat_push (call (slice_read n (fun bs => sign (8 * Z.of_nat n) (be_val bs)))) total [])
    (fun vs l' => length vs = total /\ l = flat_map (be_bytes n) vs ++ l'
      /\ forallb (in_signed (8 * Z.of_nat n)) vs = true) l.
Proof.
  intros Hn Hl.
  eapply wp_mono; [apply (wp_repeat_push _ (fun vs l' => l = flat_map (be_bytes n) vs ++ l'
    /\ forallb (in_signed (8 * Z.of_nat n)) vs = true
    /\ (Z.of_nat total - len vs) * Z.of_nat n <= len l') total)|].
  - intros vs l1 Hvs (-> & Hall & Hl1). unfold len in Hl1 at 1.
    apply wp_slice_call; [nia|]. intros bs rest Hbs ->. rewrite flat_map_app, forallb_app, Hall.
    cbn [flat_map forallb]. rewrite app_nil_r, be_bytes_sign, sign_range by (done || lia).
    split_and!; [by rewrite <- app_assoc|done|].
    rewrite len_app, len_cons, len_nil in *. rewrite len_app in Hl1. unfold len in *. nia.
  - done.
  - split_and!; [done|done|]. rewrite len_nil. lia.
  - intros vs l' (? & ? & ? & ?). done.
Qed.
End Fields.

(** ** The recursion *)

Lemma wp_on_src {A} (m : M (list byte) NbtError A) (Q : A -> list byte * Z -> Prop) l k :
  wp m (fun a l' => Q a (l', k)) l -> wp (on_src m) Q (l, k).
Proof. unfold wp, on_src, zoom. cbn. by destruct (m l) as [[] ?]. Qed.

(** Room asked for in advance changes nothing that is read. *)
Lemma on_src_capacity {A} n (m : M (list byte * Z) NbtError A) s :
  (do! on_src (with_capacity n); m) s = m s.
Proof. by destruct s. Qed.

Lemma wp_capacity {A} n (m : M (list byte * Z) NbtError A) Q s :
  wp m Q s -> wp (do! on_src (with_capacity n); m) Q s.
Proof. unfold wp. by rewrite on_src_capacity. Qed.

Lemma wp_count_node (Q : unit -> list byte * Z -> Prop) l k :
  (k + 1 <= MAX_TOTAL_NODES -> Q tt (l, k + 1)) -> wp (count_node (B:=list byte)) Q (l, k).
Proof.
  intros HQ. unfold wp, count_node. cbn [fst snd]. rewrite Z.gtb_ltb.
  destruct (Z.ltb_spec MAX_TOTAL_NODES (k + 1)); [done|]. by apply HQ.
Qed.

Lemma items_count_app ts ts' : items_count (ts ++ ts') = items_count ts + items_count ts'.
Proof. unfold items_count. induction ts; cbn; lia. Qed.

Lemma forallb_entries_split depth (es : list (list byte * NbtTag)) :
  forallb (valid_entry depth) es
  = forallb (fun '(name, _) => Utf8.valid name) es
    && forallb (fun '(name, _) => len name <? 2 ^ 16) es
    && forallb (fun '(_, t) => valid_tag depth t) es.
Proof.
  induction es as [|[n t] es IH]; [done|]. cbn [forallb]. rewrite IH. unfold valid_entry.
  cbn [fst snd]. btauto.
Qed.

Lemma valid_tag_compound depth c :
  valid_tag depth (NbtTag_Compound c) = (depth <=? MAX_DEPTH) && valid_body (depth + 1) c.
Proof.
  unfold valid_body. rewrite forallb_entries_split. cbn [every_tag].
  unfold node_valid at 1, fits. cbn [well_typed well_built]. btauto.
Qed.

Lemma valid_tag_list depth et ts :
  valid_tag depth (NbtTag_List (mkList et ts))
  = (depth <=? MAX_DEPTH) && (len ts <? 2 ^ 31)
    && forallb (fun t => bool_decide (tag_id t = et)) ts && forallb (valid_tag (depth + 1)) ts.
Proof.
  cbn [every_tag]. unfold node_valid at 1, fits. cbn [well_typed well_built items element_type].
  btauto.
Qed.

(** What the three mutually recursive readers return, from bytes [l] and count [k]. *)
Definition payload_post (id : TagId) (depth k : Z) (l : list byte) (t : NbtTag)
    (s : list byte * Z) : Prop :=
  tag_id t = id /\ l = enc_payload t ++ fst s /\ valid_tag depth t = true
  /\ snd s = k + tag_count t /\ snd s <= MAX_TOTAL_NODES.

Definition body_post (depth k : Z) (l : list byte) (c : NbtCompound) (s : list byte * Z) : Prop :=
  l = enc_body (entries c) ++ fst s /\ valid_body depth c = true
  /\ snd s = k + entries_count (entries c) /\ snd s <= MAX_TOTAL_NODES.

Definition entries_post (depth k : Z) (l : list byte) (es : list (list byte * NbtTag))
    (c : NbtCompound) (s : list byte * Z) : Prop :=
  exists es', entries c = es ++ es' /\ l = enc_body es' ++ fst s
    /\ forallb (valid_entry depth) es' = true /\ NoDup (keys c)
    /\ snd s = k + entries_count es' /\ snd s <= MAX_TOTAL_NODES.

(** A tag without children: what is left to check of [payload_post]. *)
Lemma payload_post_leaf id depth k l t l' :
  depth <= MAX_DEPTH -> k + 1 <= MAX_TOTAL_NODES ->
  tag_id t = id -> l = enc_payload t ++ l' -> node_valid depth t = true ->
  tag_count t = 1 -> valid_tag depth t = node_valid depth t && true ->
  payload_post id depth k l t (l', k + 1).
Proof.
  intros ? ? ? ? Hn Hc Hv. unfold payload_post. cbn [fst snd]. rewrite Hc, Hv, Hn.
  by split_and!.
Qed.

Lemma fits_depth depth : depth <= MAX_DEPTH -> (depth <=? MAX_DEPTH) = true.
Proof. lia. Qed.

Section Leaves.
Context (depth k : Z) (l : list byte).
Hypothesis Hdepth : depth <= MAX_DEPTH.
Hypothesis Hk : k + 1 <= MAX_TOTAL_NODES.

Lemma wp_scalar id n w dec f :
  w = Z.of_nat n ->
  (forall bs, length bs = n ->
    tag_id (f (dec bs)) = id /\ enc_payload (f (dec bs)) = bs
    /\ node_valid depth (f (dec bs)) = true /\ tag_count (f (dec bs)) = 1
    /\ valid_tag depth (f (dec bs)) = node_valid depth (f (dec bs)) && true) ->
  wp (on_src (fixed w (call (slice_read n dec)) f)) (payload_post id depth k l) (l, k + 1).
Proof.
  intros Hw Hf. apply wp_on_src. eapply wp_mono; [by apply wp_fixed|].
  intros t l' (bs & Hbs & -> & ->). destruct (Hf bs Hbs) as (? & He & ? & ? & ?).
  apply payload_post_leaf; try done. by rewrite He.
Qed.

Lemma wp_signed id n w f :
  w = Z.of_nat n -> (0 < n)%nat ->
  (forall v, tag_id (f v) = id /\ enc_payload (f v) = be_bytes n v /\ tag_count (f v) = 1
    /\ node_valid depth (f v)
       = in_signed (8 * Z.of_nat n) v && true && ((depth <=? MAX_DEPTH) && true)
    /\ valid_tag depth (f v) = node_valid depth (f v) && true) ->
  wp (on_src (fixed w (call (slice_read n (fun bs => sign (8 * Z.of_nat n) (be_val bs)))) f))
    (payload_post id depth k l) (l, k + 1).
Proof.
  intros Hw Hn Hf. apply wp_scalar; [done|]. intros bs Hbs.
  destruct (Hf (sign (8 * Z.of_nat n) (be_val bs))) as (? & He & ? & Hv & ?).
  split_and!; try done; [rewrite He; by apply be_bytes_sign|].
  rewrite Hv, sign_range by lia. by rewrite fits_depth.
Qed.

Lemma wp_bits id n w f :
  w = Z.of_nat n ->
  (forall v, tag_id (f v) = id /\ enc_payload (f v) = be_bytes n v /\ tag_count (f v) = 1
    /\ node_valid depth (f v)
       = in_unsigned (8 * Z.of_nat n) v && true && ((depth <=? MAX_DEPTH) && true)
    /\ valid_tag depth (f v) = node_valid depth (f v) && true) ->
  wp (on_src (fixed w (call (slice_read n be_val)) f)) (payload_post id depth k l) (l, k + 1).
Proof.
  intros Hw Hf. apply wp_scalar; [done|]. intros bs Hbs.
  destruct (Hf (be_val bs)) as (? & He & ? & Hv & ?).
  split_and!; try done; [rewrite He, <- Hbs; apply be_bytes_be_val|].
  rewrite Hv, be_val_unsigned by done. by rewrite fits_depth.
Qed.

Lemma wp_byte_array :
  wp (let! length := on_src (read_length 1) in
      let! bytes := on_src (copy_to_bytes (Z.to_nat length)) in
      ret (NbtTag_ByteArray bytes)) (payload_post TagId_ByteArray depth k l) (l, k + 1).
Proof.
  apply wp_bind, wp_on_src. eapply wp_mono; [apply wp_read_length|].
  intros n l1 (-> & Hn & Hl1). apply wp_bind, wp_on_src, wp_slice_call; [lia|].
  intros bs rest Hbs ->.
  assert (len bs = n) as Hlen by (unfold len; lia).
  apply payload_post_leaf; try done.
  - cbn. by rewrite Hlen, <- app_assoc.
  - unfold node_valid, fits. cbn. rewrite fits_depth by done. lia.
Qed.

Lemma wp_string :
  wp (let! s := on_src read_nbt_string in ret (NbtTag_String s))
    (payload_post TagId_String depth k l) (l, k + 1).
Proof.
  apply wp_bind, wp_on_src. eapply wp_mono; [apply wp_read_nbt_string|].
  intros s l1 (-> & Hs & Hlen). apply payload_post_leaf; try done.
  unfold node_valid, fits. cbn. rewrite fits_depth, Hs by done. lia.
Qed.

Lemma wp_ints id n w f :
  w = Z.of_nat n -> (0 < n)%nat ->
  (forall vs, tag_id (f vs) = id /\ tag_count (f vs) = 1
    /\ enc_payload (f vs) = be_bytes 4 (len vs) ++ flat_map (be_bytes n) vs
    /\ node_valid depth (f vs)
       = forallb (in_signed (8 * Z.of_nat n)) vs && true
         && ((depth <=? MAX_DEPTH) && (len vs <? 2 ^ 31))
    /\ valid_tag depth (f vs) = node_valid depth (f vs) && true) ->
  wp (let! length := on_src (read_length w) in
      let! values := on_src (repeat_push
        (call (slice_read n (fun bs => sign (8 * Z.of_nat n) (be_val bs)))) (Z.to_nat length) []) in
      ret (f values)) (payload_post id depth k l) (l, k + 1).
Proof.
  intros -> Hn Hf. apply wp_bind, wp_on_src. eapply wp_mono; [apply wp_read_length|].
  intros m l1 (-> & Hm & Hl1). apply wp_bind, wp_on_src.
  eapply wp_mono; [apply wp_int_array; [done|lia]|]. intros vs l2 (Hvs & -> & Hall).
  destruct (Hf vs) as (? & ? & He & Hv & ?).
  assert (len vs = m) as Hlen by (unfold len; lia).
  apply payload_post_leaf; try done.
  - by rewrite He, Hlen, <- app_assoc.
  - rewrite Hv, Hall, fits_depth by done. cbn. lia.
Qed.
End Leaves.

Section Recursion.
Context (n : nat).
Hypothesis IHp : forall id depth k l,
  len l + 3 <= Z.of_nat n -> k <= MAX_TOTAL_NODES ->
  wp (read_payload n id depth) (payload_post id depth k l) (l, k).
Hypothesis IHb : forall depth k l,
  len l + 2 <= Z.of_nat n -> k <= MAX_TOTAL_NODES ->
  wp (read_compound_body n depth) (body_post depth k l) (l, k).
Hypothesis IHe : forall depth k l es,
  depth <= MAX_DEPTH -> len l + 1 <= Z.of_nat n -> k <= MAX_TOTAL_NODES ->
  wp (read_entries n depth (mkCompound es)) (entries_post depth k l es) (l, k).

(** The element loop of a list. *)
Lemma wp_list_items et depth k l total :
  len l + 3 <= Z.of_nat n -> k <= MAX_TOTAL_NODES ->
  wp (repeat_push (read_payload n et (depth + 1)) total [])
    (fun ts s => length ts = total /\ l = flat_map enc_payload ts ++ fst s
      /\ forallb (fun t => bool_decide (tag_id t = et)) ts = true
      /\ forallb (valid_tag (depth + 1)) ts = true
      /\ snd s = k + items_count ts /\ snd s <= MAX_TOTAL_NODES) (l, k).
Proof.
  intros Hl Hk. apply (wp_repeat_push _ (fun ts s => l = flat_map enc_payload ts ++ fst s
    /\ forallb (fun t => bool_decide (tag_id t = et)) ts = true
    /\ forallb (valid_tag (depth + 1)) ts = true
    /\ snd s = k + items_count ts /\ snd s <= MAX_TOTAL_NODES)).
  - intros ts [l1 k1] _ (Hl1 & Hid & Hv & Hk1 & Hmax). cbn [fst snd] in *.
    assert (len l1 <= len l) by (rewrite Hl1, len_app; pose proof (len_nonneg (flat_map enc_payload ts)); lia).
    eapply wp_mono; [apply IHp; lia|]. intros t [l2 k2] (Ht & Hl2 & Hvt & Hk2 & Hmax2).
    cbn [fst snd] in *. rewrite flat_map_app, !forallb_app, items_count_app, Hid, Hv.
    cbn [flat_map forallb items_count foldr]. rewrite app_nil_r, Hvt, bool_decide_true by done.
    split_and!; try done; [by rewrite Hl1, Hl2, <- app_assoc|]. cbn. lia.
  - done.
  - cbn. split_and!; try done. lia.
Qed.

Lemma wp_payload_step id depth k l :
  len l + 3 <= Z.of_nat (S n) -> k <= MAX_TOTAL_NODES ->
  wp (read_payload (S n) id depth) (payload_post id depth k l) (l, k).
Proof.
  intros Hl Hk. cbn [read_payload]. rewrite Z.gtb_ltb.
  destruct (Z.ltb_spec MAX_DEPTH depth) as [|Hd]; [done|].
  apply wp_bind, wp_count_node. intros Hk1.
  destruct id; try done.
  - apply (wp_signed depth k l Hd Hk1 _ 1 1); [done|lia|done].
  - apply (wp_signed depth k l Hd Hk1 _ 2 2); [done|lia|done].
  - apply (wp_signed depth k l Hd Hk1 _ 4 4); [done|lia|done].
  - apply (wp_signed depth k l Hd Hk1 _ 8 8); [done|lia|done].
  - by apply (wp_bits depth k l Hd Hk1 _ 4 4).
  - by apply (wp_bits depth k l Hd Hk1 _ 8 8).
  - by apply wp_byte_array.
  - by apply wp_string.
  - apply wp_bind, wp_on_src. eapply wp_mono; [apply wp_read_tag_id|]. intros et l1 Hl1.
    apply wp_bind, wp_on_src. eapply wp_mono; [apply wp_read_length|].
    intros m l2 (Hl2 & Hm & _).
    destruct (bool_decide (et = TagId_End) && negb (m =? 0)); [done|].
    assert (len l = 5 + len l2) as Hlen
      by (rewrite Hl1, Hl2, !len_app, !len_be_bytes; lia).
    apply wp_capacity, wp_bind. eapply wp_mono; [apply wp_list_items; lia|].
    intros ts [l3 k3] (Hts & Hl3 & Hid & Hv & Hk3 & Hmax). cbn [fst snd] in *.
    assert (len ts = m) as Hlts by (unfold len; lia).
    apply wp_ret. unfold payload_post. cbn [fst snd]. unfold list_from_parts. rewrite valid_tag_list, Hid, Hv.
    split_and!; try done.
    + cbn [enc_payload element_type items]. by rewrite Hlts, Hl1, Hl2, Hl3, <- !app_assoc.
    + rewrite fits_depth by done. lia.
    + cbn [tag_count items]. fold (items_count ts). lia.
  - apply wp_bind. eapply wp_mono; [apply IHb; lia|].
    intros c [l1 k1] (Hl1 & Hv & Hk2 & Hmax). cbn [fst snd] in *.
    apply wp_ret. unfold payload_post. cbn [fst snd]. rewrite enc_payload_compound, valid_tag_compound, Hv.
    split_and!; try done; [by rewrite fits_depth|].
    cbn [tag_count]. fold (entries_count (entries c)). lia.
  - apply (wp_ints depth k l Hd Hk1 _ 4 4); [done|lia|done].
  - apply (wp_ints depth k l Hd Hk1 _ 8 8); [done|lia|done].
Qed.

Lemma wp_body_step depth k l :
  len l + 2 <= Z.of_nat (S n) -> k <= MAX_TOTAL_NODES ->
  wp (read_compound_body (S n) depth) (body_post depth k l) (l, k).
Proof.
  intros Hl Hk. cbn [read_compound_body]. rewrite Z.gtb_ltb.
  destruct (Z.ltb_spec MAX_DEPTH depth) as [|Hd]; [done|].
  eapply wp_mono; [apply IHe; lia|]. intros c [l1 k1] (es & Hes & Hl1 & Hv & Hnd & ? & ?).
  cbn [app fst snd] in *. unfold body_post, valid_body. cbn [fst snd]. rewrite Hes.
  split_and!; try done. by rewrite fits_depth, bool_decide_true, Hv by done.
Qed.

Lemma wp_entries_step depth k l es :
  depth <= MAX_DEPTH -> len l + 1 <= Z.of_nat (S n) -> k <= MAX_TOTAL_NODES ->
  wp (read_entries (S n) depth (mkCompound es)) (entries_post depth k l es) (l, k).
Proof.
  intros Hd Hl Hk. cbn [read_entries]. apply wp_bind, wp_on_src.
  eapply wp_mono; [apply wp_read_tag_id|]. intros id l1 Hl1. case_decide as Hid.
  - subst id. destruct (reject_duplicate_keys _) as [[]|e| |] eqn:E; cbn; try done.
    + apply reject_duplicate_keys_ok in E. exists []. rewrite app_nil_r. cbn.
      split_and!; try done. lia.
    + all: unfold reject_duplicate_keys in E; repeat case_match; done.
    + all: unfold reject_duplicate_keys in E; repeat case_match; done.
  - apply wp_bind, wp_on_src. eapply wp_mono; [apply wp_read_nbt_string|].
    intros name l2 (Hl2 & Hname & Hnlen).
    assert (len l = 3 + len name + len l2) as Hlen.
    { rewrite Hl1, Hl2. unfold enc_string. rewrite !len_app, !len_be_bytes. lia. }
    pose proof (len_nonneg name).
    apply wp_bind. eapply wp_mono; [apply IHp; lia|].
    intros t [l3 k3] (Ht & Hl3 & Hvt & Hk3 & Hmax). cbn [fst snd] in *.
    assert (len l3 <= len l2) by (rewrite Hl3, len_app; pose proof (len_nonneg (enc_payload t)); lia).
    eapply wp_mono; [apply IHe; lia|]. intros c [l4 k4] (es' & Hes & Hl4 & Hv & Hnd & Hk4 & ?).
    cbn [fst snd] in *. exists ((name, t) :: es'). cbn [fst snd].
    split_and!; try done.
    + by rewrite Hes, <- app_assoc.
    + rewrite Hl1, Hl2, Hl3, Hl4, <- Ht. unfold enc_body. cbn [flat_map].
      unfold enc_entry at 2. cbn [fst snd]. by rewrite <- !app_assoc.
    + cbn [forallb]. unfold valid_entry at 1. cbn [fst snd]. rewrite Hname, Hvt, Hv. lia.
    + cbn. fold (entries_count es'). lia.
Qed.
End Recursion.

(** Soundness and safety of the recursion, from enough fuel. *)
Lemma wp_readers n :
  (forall id depth k l, len l + 3 <= Z.of_nat n -> k <= MAX_TOTAL_NODES ->
    wp (read_payload n id depth) (payload_post id depth k l) (l, k))
  /\ (forall depth k l, len l + 2 <= Z.of_nat n -> k <= MAX_TOTAL_NODES ->
    wp (read_compound_body n depth) (body_post depth k l) (l, k))
  /\ (forall depth k l es, depth <= MAX_DEPTH -> len l + 1 <= Z.of_nat n ->
    k <= MAX_TOTAL_NODES ->
    wp (read_entries n depth (mkCompound es)) (entries_post depth k l es) (l, k)).
Proof.
  induction n as [|n (IHp & IHb & IHe)].
  - split_and!; intros; pose proof (len_nonneg l); lia.
  - split_and!; intros; [by apply wp_payload_step|by apply wp_body_step|by apply wp_entries_step].
Qed.

(** ** Completeness: every valid document's encoding is read back *)

Lemma parses_tag_id id : parses read_tag_id (be_bytes 1 (tag_id_u8 id)) id.
Proof.
  apply parses_peek. intros rest. eexists. split; [done|]. cbn [remaining slice_buf].
  pose proof (len_nonneg rest).
  rewrite (proj2 (Z.ltb_lt _ _)) by (rewrite len_app, len_be_bytes; lia). cbn [negb].
  unfold get_u8. cbn [buf_get_u8 slice_buf]. rewrite (bind_ok _ _ _ _ _ (slice_call_app _ _ _ _ (length_be_bytes 1 _))).
  rewrite (be_unsigned 1) by apply tag_id_u8_range. unfold lift. by rewrite tag_id_try_from_u8.
Qed.

Lemma parses_nbt_string s :
  Utf8.valid s = true -> len s < 2 ^ 16 -> parses read_nbt_string (enc_string s) s.
Proof.
  intros Hs Hlen. pose proof (len_nonneg s). unfold read_nbt_string, enc_string.
  apply parses_checked; [done|apply length_be_bytes|].
  rewrite (be_unsigned 2) by (apply in_unsigned_spec; cbn; lia).
  apply parses_peek. intros rest. eexists. split; [done|]. cbn [remaining slice_buf].
  pose proof (len_nonneg rest). rewrite (proj2 (Z.ltb_ge _ _)) by (rewrite len_app; lia).
  unfold copy_to_slice. cbn [buf_copy_to_slice slice_buf].
  rewrite slice_zeroed, (bind_ok _ _ _ _ _ (slice_call_app (Z.to_nat (len s)) _ s rest ltac:(unfold len; lia))).
  apply map_err_ok. unfold lift. by rewrite Utf8.from_utf8_ok.
Qed.

(** The check of a length depends on what follows it. *)
Lemma read_length_enc size n rest :
  0 <= n < 2 ^ 31 -> 0 <= size <= 8 -> n * size <= len rest ->
  read_length size (be_bytes 4 n ++ rest) = (Ok n, rest).
Proof.
  intros Hn Hsize Hfit. unfold read_length.
  assert (sign 32 (be_val (be_bytes 4 n)) = n) as Hdec
    by (apply (be_signed 4); [lia|apply in_signed_spec; cbn; lia]).
  pose proof (len_nonneg rest).
  rewrite (bind_ok _ _ _ (len (be_bytes 4 n ++ rest)) (be_bytes 4 n ++ rest)) by done.
  rewrite len_app, len_be_bytes. rewrite (proj2 (Z.ltb_ge _ _)) by lia.
  unfold get_i32. cbn [buf_get_i32 slice_buf].
  rewrite (bind_ok _ _ _ _ _ (slice_call_app 4 _ _ rest (length_be_bytes 4 n))), Hdec.
  unfold usize_try_from. rewrite (proj2 (Z.leb_le _ _)) by lia.
  unfold checked_mul. change (2 ^ usize_bits) with 18446744073709551616.
  unfold bind. cbn -[Z.gtb Z.ltb]. rewrite (proj2 (Z.ltb_lt _ _)) by nia.
  cbn -[Z.gtb]. rewrite Z.gtb_ltb. by rewrite (proj2 (Z.ltb_ge _ _)) by lia.
Qed.

Lemma on_src_ok {A} (m : M (list byte) NbtError A) l k a l' :
  m l = (Ok a, l') -> on_src m (l, k) = (Ok a, (l', k)).
Proof. intros Hm. unfold on_src, zoom. cbn. by rewrite Hm. Qed.

Lemma parses_fixed n w dec f bs :
  w = Z.of_nat n -> length bs = n ->
  parses (fixed w (call (slice_read n dec)) f) bs (f (dec bs)).
Proof.
  intros Hw Hn. rewrite <- (app_nil_r bs) at 1. apply parses_checked; [done..|apply parses_ret].
Qed.

Lemma tag_count_pos t : 1 <= tag_count t.
Proof.
  induction t as [v|v|v|v|v|v|v|v|et ts IH|es IH|vs|vs] using NbtTag_tree_ind; cbn; try lia.
  - induction IH; cbn in *; lia.
  - induction IH as [|[n t] es]; cbn in *; lia.
Qed.

(** Every payload takes at least the bytes the reader's size check assumes. *)
Lemma enc_payload_min t : min_element_size (tag_id t) <= len (enc_payload t).
Proof.
  destruct t; cbn [tag_id min_element_size enc_payload]; unfold enc_string;
    rewrite ?len_app, ?len_be_bytes;
    repeat match goal with |- context [len ?l] => pose proof (len_nonneg l); generalize dependent (len l); intros end;
    lia.
Qed.

Lemma enc_items_min et ts :
  forallb (fun t => bool_decide (tag_id t = et)) ts = true ->
  len ts * min_element_size et <= len (flat_map enc_payload ts).
Proof.
  induction ts as [|t ts IH]; cbn [forallb flat_map]; [done|].
  intros [Ht%bool_decide_eq_true_1 Hts]%andb_prop. specialize (IH Hts). subst et.
  rewrite len_cons, len_app. pose proof (enc_payload_min t). lia.
Qed.

Lemma flat_map_be_len n vs : len (flat_map (be_bytes n) vs) = len vs * Z.of_nat n.
Proof.
  induction vs as [|v vs IH]; [done|]. cbn [flat_map]. rewrite len_app, len_cons, len_be_bytes, IH. lia.
Qed.

Lemma min_element_size_bound et : 0 <= min_element_size et <= 8.
Proof. destruct et; cbn; lia. Qed.

Definition payload_parses (t : NbtTag) : Prop :=
  forall depth n k rest,
    valid_tag depth t = true -> k + tag_count t <= MAX_TOTAL_NODES ->
    len (enc_payload t ++ rest) + 3 <= Z.of_nat n ->
    read_payload n (tag_id t) depth (enc_payload t ++ rest, k) = (Ok t, (rest, k + tag_count t)).

(** The two guards at the head of [read_payload] let a valid tag through. *)
Lemma read_guards_ok {A} depth k l (m : M (list byte * Z) NbtError A) :
  depth <= MAX_DEPTH -> k + 1 <= MAX_TOTAL_NODES ->
  (if depth >? MAX_DEPTH then throw (NbtError_DepthExceeded MAX_DEPTH)
   else do! count_node; m) (l, k) = m (l, k + 1).
Proof.
  intros Hd Hk. rewrite Z.gtb_ltb, (proj2 (Z.ltb_ge _ _)) by done.
  unfold bind, count_node. cbn [fst snd]. by rewrite Z.gtb_ltb, (proj2 (Z.ltb_ge _ _)) by done.
Qed.

Lemma valid_tag_node depth t : valid_tag depth t = true -> node_valid depth t = true.
Proof. destruct t; cbn [every_tag]; by intros [? _]%andb_prop. Qed.

Lemma valid_tag_depth depth t : valid_tag depth t = true -> depth <= MAX_DEPTH.
Proof.
  intros Hv%valid_tag_node. unfold node_valid, fits in Hv.
  apply andb_prop in Hv as [_ [Hd _]%andb_prop]. lia.
Qed.

(** A payload whose reader is one field read. *)
Lemma read_field_ok {A} (m : M (list byte) NbtError A) (f : A -> NbtTag) bs a rest k :
  parses m bs a ->
  (let! x := on_src m in ret (f x)) (bs ++ rest, k) = (Ok (f a), (rest, k)).
Proof. intros Hm. by rewrite (bind_ok _ _ _ _ _ (on_src_ok _ _ k _ _ (Hm rest))). Qed.

Lemma parses_ints n vs :
  (0 < n)%nat -> forallb (in_signed (8 * Z.of_nat n)) vs = true ->
  parses (E:=NbtError)
    (repeat_push (call (slice_read n (fun bs => sign (8 * Z.of_nat n) (be_val bs)))) (length vs) [])
    (flat_map (be_bytes n) vs) vs.
Proof.
  intros Hn Hvs. apply (parses_repeat_push _ _ vs []), Forall_forall. intros v Hv rest.
  rewrite slice_call_app by apply length_be_bytes. rewrite be_signed; [done|done|].
  rewrite forallb_forall in Hvs. by apply Hvs, list_elem_of_In.
Qed.

(** An integer array: the length, checked against the input, then the elements. *)
Lemma read_ints_ok n w (f : list Z -> NbtTag) vs rest k :
  w = Z.of_nat n -> (0 < n <= 8)%nat -> len vs < 2 ^ 31 ->
  forallb (in_signed (8 * Z.of_nat n)) vs = true ->
  (let! length := on_src (read_length w) in
   let! values := on_src (repeat_push
     (call (slice_read n (fun bs => sign (8 * Z.of_nat n) (be_val bs)))) (Z.to_nat length) []) in
   ret (f values)) ((be_bytes 4 (len vs) ++ flat_map (be_bytes n) vs) ++ rest, k)
  = (Ok (f vs), (rest, k)).
Proof.
  intros -> Hn Hlen Hvs. pose proof (len_nonneg vs). pose proof (len_nonneg rest).
  rewrite <- app_assoc. erewrite bind_ok.
  2: { apply on_src_ok, read_length_enc; try lia. rewrite len_app, flat_map_be_len. lia. }
  replace (Z.to_nat (len vs)) with (length vs) by (unfold len; lia).
  apply read_field_ok. apply parses_ints; [lia|done].
Qed.

Lemma read_list_items et depth n ts : forall acc k rest,
  Forall payload_parses ts ->
  forallb (fun t => bool_decide (tag_id t = et)) ts = true ->
  forallb (valid_tag depth) ts = true ->
  k + items_count ts <= MAX_TOTAL_NODES -> k <= MAX_TOTAL_NODES ->
  len (flat_map enc_payload ts ++ rest) + 3 <= Z.of_nat n ->
  repeat_push (read_payload n et depth) (length ts) acc (flat_map enc_payload ts ++ rest, k)
  = (Ok (acc ++ ts), (rest, k + items_count ts)).
Proof.
  induction ts as [|t ts IH]; intros acc k rest HF Hid Hv Hk Hk0 Hn.
  - cbn. by rewrite app_nil_r, Z.add_0_r.
  - apply Forall_cons in HF as [Ht HF]. cbn [forallb] in Hid, Hv.
    apply andb_prop in Hid as [Hid%bool_decide_eq_true_1 Hids]. apply andb_prop in Hv as [Hvt Hv].
    cbn [items_count foldr] in *. fold (items_count ts) in *.
    cbn [repeat_push length flat_map]. cbn [flat_map] in Hn. rewrite <- app_assoc in *. subst et.
    assert (0 <= items_count ts) as Hpos.
    { clear. unfold items_count. induction ts; cbn; [lia|]. pose proof (tag_count_pos a). lia. }
    erewrite bind_ok by (apply (Ht depth n k); [done|lia|done]).
    rewrite IH; try done; try lia.
    + f_equal; [by rewrite <- app_assoc|f_equal; lia].
    + rewrite len_app in Hn. pose proof (len_nonneg (enc_payload t)). lia.
Qed.

Lemma entries_count_pos es : 0 <= entries_count es.
Proof.
  unfold entries_count. induction es as [|[n t] es]; cbn; [lia|]. pose proof (tag_count_pos t). lia.
Qed.

Lemma fuel_pos {A} (l : list A) c n : len l + c <= Z.of_nat n -> 0 < c -> exists n', n = S n'.
Proof. intros. pose proof (len_nonneg l). exists (pred n). lia. Qed.

(** Valid entries are read up to the [End], where the names are compared. *)
Lemma read_entries_then depth es' : forall es n k rest,
  Forall (fun e => payload_parses (snd e)) es' ->
  forallb (valid_entry depth) es' = true ->
  k + entries_count es' <= MAX_TOTAL_NODES ->
  len (enc_body es' ++ rest) + 1 <= Z.of_nat n ->
  read_entries n depth (mkCompound es) (enc_body es' ++ rest, k)
  = (do! lift (reject_duplicate_keys (mkCompound (es ++ es'))); ret (mkCompound (es ++ es')))
      (rest, k + entries_count es').
Proof.
  induction es' as [|[name t] es' IH]; intros es n k rest HF Hv Hk Hn;
    (destruct (fuel_pos _ _ _ Hn) as [n' ->]; [lia|]; rename n' into n); cbn [read_entries].
  - erewrite bind_ok by (apply on_src_ok, (parses_tag_id TagId_End)).
    rewrite decide_True by done. rewrite app_nil_r in *. cbn [entries_count foldr].
    by rewrite Z.add_0_r.
  - apply Forall_cons in HF as [Ht HF]. cbn [forallb] in Hv. apply andb_prop in Hv as [Hve Hv].
    unfold valid_entry in Hve. cbn [fst snd] in *.
    apply andb_prop in Hve as [[Hname Hnlen]%andb_prop Hvt].
    cbn [entries_count foldr] in *. fold (entries_count es') in *.
    pose proof (entries_count_pos es').
    unfold enc_body in *. cbn [flat_map] in *. unfold enc_entry at 1 in Hn. unfold enc_entry at 1.
    cbn [fst snd] in *. rewrite <- !app_assoc in *.
    erewrite bind_ok by (apply on_src_ok, parses_tag_id).
    rewrite decide_False by apply tag_id_not_end.
    erewrite bind_ok by (apply on_src_ok, parses_nbt_string; [done|lia]).
    rewrite !len_app, len_be_bytes in Hn. unfold enc_string in Hn. rewrite len_app, len_be_bytes in Hn.
    pose proof (len_nonneg name). pose proof (len_nonneg (enc_payload t)).
    erewrite bind_ok by (apply (Ht depth n k); [done|lia|rewrite !len_app; lia]).
    unfold compound_push. cbn [entries].
    rewrite (app_assoc (flat_map enc_entry es') (be_bytes 1 0) rest). fold (enc_body es').
    rewrite IH; try done; try lia; [by rewrite <- app_assoc, Z.add_assoc|].
    unfold enc_body. rewrite !len_app. lia.
Qed.

Lemma read_entries_ok depth es' es n k rest :
  Forall (fun e => payload_parses (snd e)) es' ->
  forallb (valid_entry depth) es' = true ->
  NoDup (keys (mkCompound (es ++ es'))) ->
  k + entries_count es' <= MAX_TOTAL_NODES ->
  len (enc_body es' ++ rest) + 1 <= Z.of_nat n ->
  read_entries n depth (mkCompound es) (enc_body es' ++ rest, k)
  = (Ok (mkCompound (es ++ es')), (rest, k + entries_count es')).
Proof.
  intros HF Hv Hnd Hk Hn. rewrite read_entries_then by done.
  by rewrite (proj2 (reject_duplicate_keys_ok _) Hnd).
Qed.

Lemma read_body_ok depth c n k rest :
  Forall (fun e => payload_parses (snd e)) (entries c) ->
  valid_body depth c = true -> k + entries_count (entries c) <= MAX_TOTAL_NODES ->
  len (enc_body (entries c) ++ rest) + 2 <= Z.of_nat n ->
  read_compound_body n depth (enc_body (entries c) ++ rest, k)
  = (Ok c, (rest, k + entries_count (entries c))).
Proof.
  intros HF Hv Hk Hn. destruct (fuel_pos _ _ _ Hn) as [n' ->]; [lia|].
  apply andb_prop in Hv as [[Hd Hnd%bool_decide_eq_true_1]%andb_prop Hv].
  cbn [read_compound_body]. rewrite Z.gtb_ltb, (proj2 (Z.ltb_ge _ _)) by lia.
  unfold compound_new. destruct c as [es]. cbn [entries] in *.
  apply (read_entries_ok depth es []); try done; lia.
Qed.

Lemma read_fixed_ok n w dec f bs v rest k :
  w = Z.of_nat n -> length bs = n -> dec bs = v ->
  on_src (fixed w (call (slice_read n dec)) f) (bs ++ rest, k) = (Ok (f v), (rest, k)).
Proof. intros Hw Hn <-. by apply on_src_ok, parses_fixed. Qed.

(** Only an empty list declares elements of type [End]. *)
Lemma end_list_empty et ts :
  forallb (fun t => bool_decide (tag_id t = et)) ts = true ->
  bool_decide (et = TagId_End) && negb (len ts =? 0) = false.
Proof.
  destruct ts as [|t ts]; [by rewrite andb_false_r|].
  cbn [forallb]. intros [Hid%bool_decide_eq_true_1 _]%andb_prop.
  rewrite bool_decide_false; [done|]. subst et. apply tag_id_not_end.
Qed.

Lemma payload_parses_all t : payload_parses t.
Proof.
  induction t as [v|v|v|v|v|v|v|v|et ts IH|es IH|vs|vs] using NbtTag_tree_ind;
    intros depth n k rest Hv Hk Hn;
    pose proof (valid_tag_depth _ _ Hv) as Hd; pose proof (valid_tag_node _ _ Hv) as Hnode;
    (destruct (fuel_pos _ _ _ Hn) as [n' ->]; [lia|]; rename n' into n);
    match type of Hk with k + tag_count ?t <= _ => pose proof (tag_count_pos t) end;
    cbn [read_payload tag_id]; rewrite read_guards_ok by lia;
    unfold node_valid, fits in Hnode; cbn [well_typed well_built] in Hnode;
    rewrite ?andb_true_r in Hnode; apply andb_prop in Hnode as [Hty Hfit].
  - apply (read_fixed_ok 1); [done..|apply (be_signed 1); [lia|done]].
  - apply (read_fixed_ok 2); [done..|apply (be_signed 2); [lia|done]].
  - apply (read_fixed_ok 4); [done..|apply (be_signed 4); [lia|done]].
  - apply (read_fixed_ok 8); [done..|apply (be_signed 8); [lia|done]].
  - apply (read_fixed_ok 4); [done..|by apply (be_unsigned 4)].
  - apply (read_fixed_ok 8); [done..|by apply (be_unsigned 8)].
  - cbn [enc_payload]. rewrite <- app_assoc. erewrite bind_ok.
    2: { apply on_src_ok, read_length_enc; try lia; rewrite ?len_app;
         pose proof (len_nonneg rest); pose proof (len_nonneg v); lia. }
    apply read_field_ok. apply (parses_call _ (fun bs => bs)). unfold len. lia.
  - apply read_field_ok. apply parses_nbt_string; [done|lia].
  - rewrite valid_tag_list in Hv. apply andb_prop in Hv as [[_ Hid]%andb_prop Hv].
    cbn [enc_payload element_type items tag_count] in *. fold (items_count ts) in *.
    rewrite <- !app_assoc in *. erewrite bind_ok by (apply on_src_ok, parses_tag_id).
    pose proof (enc_items_min et ts Hid). pose proof (min_element_size_bound et).
    pose proof (len_nonneg rest). pose proof (len_nonneg ts).
    erewrite bind_ok.
    2: { apply on_src_ok, read_length_enc; try lia; rewrite ?len_app; lia. }
    rewrite !len_app, !len_be_bytes in Hn.
    rewrite (end_list_empty et ts Hid), on_src_capacity.
    replace (Z.to_nat (len ts)) with (length ts) by (unfold len; lia).
    erewrite bind_ok by (apply read_list_items; try done; rewrite ?len_app; lia).
    unfold ret, list_from_parts. cbn [app]. by rewrite Z.add_assoc.
  - rewrite valid_tag_compound in Hv. apply andb_prop in Hv as [_ Hv].
    rewrite enc_payload_compound in *. cbn [tag_count entries] in *. fold (entries_count es) in *.
    erewrite bind_ok by (apply (read_body_ok (depth + 1) (mkCompound es)); try done; cbn [entries]; lia).
    unfold ret. cbn [entries]. by rewrite Z.add_assoc.
  - apply (read_ints_ok 4); [done|lia|lia|done].
  - apply (read_ints_ok 8); [done|lia|lia|done].
Qed.

(** ** Root documents *)

Lemma forallb_andb {A} (P Q : A -> bool) l :
  forallb (fun a => P a && Q a) l = forallb P l && forallb Q l.
Proof. induction l as [|a l IH]; [done|]. cbn [forallb]. rewrite IH. btauto. Qed.

Lemma forallb_ext_Forall {A} (P Q : A -> bool) l :
  Forall (fun a => P a = Q a) l -> forallb P l = forallb Q l.
Proof. induction 1 as [|a l Ha _ IH]; [done|]. cbn. by rewrite Ha, IH. Qed.

Lemma every_tag_andb P Q depth t :
  every_tag (fun d t => P d t && Q d t) depth t = every_tag P depth t && every_tag Q depth t.
Proof.
  revert depth. induction t as [v|v|v|v|v|v|v|v|et ts IH|es IH|vs|vs] using NbtTag_tree_ind;
    intros depth; cbn [every_tag items entries]; try btauto.
  - rewrite (forallb_ext_Forall _ (fun t => every_tag P (depth + 1) t && every_tag Q (depth + 1) t)),
      forallb_andb; [btauto|]. eapply Forall_impl; [exact IH|]. auto.
  - rewrite (forallb_ext_Forall _ (fun '(_, t) => every_tag P (depth + 1) t && every_tag Q (depth + 1) t)).
    + clear IH. assert (forallb (fun '(_, t) => every_tag P (depth + 1) t && every_tag Q (depth + 1) t) es
        = forallb (fun '(_, t) => every_tag P (depth + 1) t) es
          && forallb (fun '(_, t) => every_tag Q (depth + 1) t) es) as ->; [|btauto].
      induction es as [|[n t] es IH]; [done|]. cbn [forallb]. rewrite IH. btauto.
    + eapply Forall_impl; [exact IH|]. intros [n t] Ht. apply Ht.
Qed.

Lemma valid_document_body c : valid_document c = valid_body 1 c && document_small c.
Proof.
  unfold valid_document, document_typed, document_built, document_fits.
  rewrite <- (every_tag_andb (fun _ => well_typed) (fun _ => well_built)).
  rewrite <- (every_tag_andb (fun _ t => well_typed t && well_built t) fits).
  by rewrite (valid_tag_compound 0).
Qed.

Lemma wp_root_body l :
  wp read_root_body (fun c l' => l = enc_body (entries c) ++ l' /\ valid_document c = true) l.
Proof.
  unfold read_root_body, wp. cbn [remaining slice_buf]. pose proof (len_nonneg l).
  destruct (wp_readers (S (S (Z.to_nat (len l))))) as (_ & Hb & _).
  specialize (Hb 1 0 l ltac:(lia) ltac:(done)). unfold wp in Hb.
  destruct (read_compound_body _ _ _) as [[c|e| |] [l' k']]; try done. cbn.
  destruct Hb as (? & Hv & ? & ?). split; [done|].
  rewrite valid_document_body, Hv. unfold document_small. cbn [snd] in *. lia.
Qed.

Lemma parses_root_body c :
  valid_document c = true -> parses read_root_body (enc_body (entries c)) c.
Proof.
  rewrite valid_document_body. unfold document_small. intros [Hv Hk]%andb_prop rest.
  unfold read_root_body. cbn [remaining slice_buf].
  pose proof (len_nonneg (enc_body (entries c) ++ rest)).
  rewrite read_body_ok; [done| |done|lia|lia].
  apply Forall_forall. intros. apply payload_parses_all.
Qed.

Lemma wp_network_root l :
  wp read_network_root (fun c l' => l = enc_network c ++ l' /\ valid_document c = true) l.
Proof.
  unfold read_network_root. apply wp_bind. eapply wp_mono; [apply wp_read_tag_id|].
  intros id l1 Hl1. case_decide as Hid; [done|]. subst id.
  eapply wp_mono; [apply wp_root_body|]. intros c l2 [-> ?]. split; [|done].
  unfold enc_network. by rewrite Hl1, <- app_assoc.
Qed.

Lemma parses_network_root c :
  valid_document c = true -> parses read_network_root (enc_network c) c.
Proof.
  intros Hc. eapply parses_bind; [apply (parses_tag_id TagId_Compound)|].
  rewrite decide_False by auto. by apply parses_root_body.
Qed.

Definition valid_name (name : list byte) : bool := Utf8.valid name && (len name <? 2 ^ 16).

Lemma wp_named_root l :
  wp read_named_root (fun '(name, c) l' => l = enc_named name c ++ l'
    /\ valid_name name = true /\ valid_document c = true) l.
Proof.
  unfold read_named_root. apply wp_bind. eapply wp_mono; [apply wp_read_tag_id|].
  intros id l1 Hl1. case_decide as Hid; [done|]. subst id.
  apply wp_bind. eapply wp_mono; [apply wp_read_nbt_string|]. intros name l2 (-> & Hn & Hlen).
  apply wp_bind. eapply wp_mono; [apply wp_root_body|]. intros c l3 [-> ?]. cbn.
  split_and!; [|unfold valid_name; rewrite Hn; lia|done].
  unfold enc_named. by rewrite Hl1, <- !app_assoc.
Qed.

Lemma parses_named_root name c :
  valid_name name = true -> valid_document c = true ->
  parses read_named_root (enc_named name c) (name, c).
Proof.
  intros [Hn Hl]%andb_prop Hc. eapply parses_bind; [apply (parses_tag_id TagId_Compound)|].
  rewrite decide_False by auto. eapply parses_bind; [apply parses_nbt_string; [done|lia]|].
  rewrite <- (app_nil_r (enc_body _)).
  eapply parses_bind; [by apply parses_root_body|apply parses_ret].
Qed.

Definition enc_optional (o : option NbtCompound) : list byte :=
  match o with None => be_bytes 1 0 | Some c => enc_network c end.

Lemma wp_optional_root l :
  wp read_optional_network_root (fun o l' => l = enc_optional o ++ l'
    /\ match o with None => True | Some c => valid_document c = true end) l.
Proof.
  unfold read_optional_network_root. apply wp_bind. eapply wp_mono; [apply wp_read_tag_id|].
  intros id l1 Hl1. destruct id; try done. apply wp_bind.
  eapply wp_mono; [apply wp_root_body|]. intros c l2 [-> ?]. cbn. split; [|done].
  unfold enc_network. by rewrite Hl1, <- app_assoc.
Qed.

Lemma parses_optional_root o :
  match o with None => True | Some c => valid_document c = true end ->
  parses read_optional_network_root (enc_optional o) o.
Proof.
  destruct o as [c|]; cbn [enc_optional]; intros Hc.
  - eapply parses_bind; [apply (parses_tag_id TagId_Compound)|].
    rewrite <- (app_nil_r (enc_body _)).
    eapply parses_bind; [by apply parses_root_body|apply parses_ret].
  - rewrite <- (app_nil_r (be_bytes _ _)).
    eapply parses_bind; [apply (parses_tag_id TagId_End)|apply parses_ret].
Qed.

(** A reader that is sound and complete for an encoding accepts exactly it. *)
Lemma reader_exact {B} `{BufLaws B} {A} (m : M B NbtError A) f (enc : A -> list byte)
    (valid : A -> Prop) (src : B) a rest :
  sim view m f ->
  (forall l, wp f (fun a l' => l = enc a ++ l' /\ valid a) l) ->
  (forall a, valid a -> parses f (enc a) a) ->
  (exists src', m src = (Ok a, src') /\ view src' = rest)
  <-> view src = enc a ++ rest /\ valid a.
Proof.
  intros Hs Hw Hp. split.
  - intros (src' & Hm & <-). pose proof (wp_through _ _ _ src Hs (Hw _)) as Hws.
    by apply (wp_ok _ _ _ _ _ Hws) in Hm.
  - intros [Hv Ha]. by eapply parses_through; [|apply Hp|].
Qed.

(** ** Properties *)

(** C1: [read_network_root] accepts exactly the encodings of valid documents.
    It returns a document and leaves [rest] unread if and only if the input is
    the document's encoding followed by [rest] and the document is valid: its
    values are in range, its lists are homogeneous, no compound repeats a name,
    it nests at most [MAX_DEPTH] deep and has at most [MAX_TOTAL_NODES] tags. *)
Theorem read_network_root_exact {B} `{BufLaws B} (src : B) (c : NbtCompound) (rest : list byte) :
  (exists src', read_network_root src = (Ok c, src') /\ view src' = rest)
  <-> view src = enc_network c ++ rest /\ valid_document c = true.
Proof.
  apply (reader_exact _ read_network_root enc_network (fun c => valid_document c = true));
    [apply sim_read_network_root|apply wp_network_root|apply parses_network_root].
Qed.

(** The same for the file form, [read_named_root]. *)
Theorem read_named_root_exact {B} `{BufLaws B} (src : B) (name : list byte) (c : NbtCompound)
    (rest : list byte) :
  (exists src', read_named_root src = (Ok (name, c), src') /\ view src' = rest)
  <-> view src = enc_named name c ++ rest /\ valid_name name = true /\ valid_document c = true.
Proof.
  apply (reader_exact _ read_named_root (fun '(name, c) => enc_named name c)
    (fun '(name, c) => valid_name name = true /\ valid_document c = true) src (name, c)).
  - apply sim_read_named_root.
  - intros l. eapply wp_mono; [apply wp_named_root|]. by intros [n d] l'.
  - intros [n d] [? ?]. by apply parses_named_root.
Qed.

(** The same for [read_optional_network_root]: a lone [End] byte is an
    absent document, anything else is read as [read_network_root] does. *)
Theorem read_optional_network_root_exact {B} `{BufLaws B} (src : B) (o : option NbtCompound)
    (rest : list byte) :
  (exists src', read_optional_network_root src = (Ok o, src') /\ view src' = rest)
  <-> view src = enc_optional o ++ rest
      /\ match o with None => True | Some c => valid_document c = true end.
Proof.
  apply (reader_exact _ read_optional_network_root enc_optional
    (fun o => match o with None => True | Some c => valid_document c = true end));
    [apply sim_read_optional_network_root|apply wp_optional_root|apply parses_optional_root].
Qed.

(** C22: no input makes a reader panic or recurse without end: on every buffer
    each of the three entry points returns a document or an error. *)
Theorem nbt_readers_return {B} `{BufLaws B} (src : B) :
  returns (fst (read_network_root src))
  /\ returns (fst (read_named_root src))
  /\ returns (fst (read_optional_network_root src)).
Proof.
  split_and!; eapply wp_returns, wp_through;
    [apply sim_read_network_root|apply wp_network_root|apply sim_read_named_root
    |apply wp_named_root|apply sim_read_optional_network_root|apply wp_optional_root].
Qed.

(** A document written by [write_network_root] reads back: when its values
    are well typed, its containers keep their invariants and it is within the
    tag budget, a successful write appends bytes that [read_network_root]
    turns into the same document, leaving what follows them unread. *)
Theorem nbt_round_trip {BW BR} `{BufMutLaws BW} `{BufLaws BR} (dst dst' : BW) (src : BR)
    (c : NbtCompound) (bs rest : list byte)
    (Htyped : document_typed c = true) (Hbuilt : document_built c = true)
    (Hsmall : document_small c = true)
    (Hwrite : write_network_root c dst = (Ok tt, dst'))
    (Hbs : written dst' = written dst ++ bs) (Hsrc : view src = bs ++ rest) :
  exists src', read_network_root src = (Ok c, src') /\ view src' = rest.
Proof.
  pose proof (writes_through _ _ _ _ _ dst (sim_write_network_root c) (writes_network_root c)) as Hw.
  rewrite Hwrite in Hw.
  destruct Hw as [Hfits Hbytes]. rewrite Hbs in Hbytes. apply app_inv_head in Hbytes. subst bs.
  eapply parses_through; [apply sim_read_network_root|apply parses_network_root|done].
  unfold valid_document. by rewrite Htyped, Hbuilt, Hfits, Hsmall.
Qed.

(** ** Witness *)

Definition small_document : NbtCompound :=
  mkCompound [(bytes_of "n", NbtTag_Byte 7);
    (bytes_of "l", NbtTag_List (mkList TagId_Int [NbtTag_Int 1; NbtTag_Int (-1)]))].

Lemma nbt_round_trip_witness :
  exists src' : list byte,
    read_network_root (enc_network small_document) = (Ok small_document, src') /\ view src' = [].
Proof.
  apply (nbt_round_trip [] (enc_network small_document) (enc_network small_document)
    small_document (enc_network small_document) []).
  - vm_compute. reflexivity.
  - vm_compute. reflexivity.
  - vm_compute. reflexivity.
  - vm_compute. reflexivity.
  - vm_compute. reflexivity.
  - vm_compute. reflexivity.
Defined.
