(* ===== verification/NbtLimits.v ===== *)
(** * The limits of the NBT codec: tag budget, truncated input, repeated names.

    What the reader answers to input that is not a valid document: a well-formed
    document with too many tags, a document cut short, a compound that repeats
    a name. *)

From S2P Require Import Prelude Utf8 Buffers NbtTag NbtSpec NbtWrite NbtRead NbtCorrect.
From stdpp Require Import base list numbers sorting strings sets.
From Stdlib Require Import Strings.Byte Btauto.

Open Scope Z_scope.

(** ** Over budget: the reader's answer to a well-formed document with too many tags *)

Definition too_many : NbtError := NbtError_TooManyNodes MAX_TOTAL_NODES.

Definition payload_overflows (t : NbtTag) : Prop :=
  forall depth n k rest,
    valid_tag depth t = true -> k <= MAX_TOTAL_NODES -> MAX_TOTAL_NODES < k + tag_count t ->
    len (enc_payload t ++ rest) + 3 <= Z.of_nat n ->
    exists s, read_payload n (tag_id t) depth (enc_payload t ++ rest, k) = (Err too_many, s).

(** The guards stop a tag when the budget is used up. *)
Lemma read_guards_full {A} depth l (m : M (list byte * Z) NbtError A) :
  depth <= MAX_DEPTH ->
  exists s, (if depth >? MAX_DEPTH then throw (NbtError_DepthExceeded MAX_DEPTH)
             else do! count_node; m) (l, MAX_TOTAL_NODES) = (Err too_many, s).
Proof. intros Hd. rewrite Z.gtb_ltb, (proj2 (Z.ltb_ge _ _)) by done. by eexists. Qed.

Lemma repeat_push_err {S E A} (f : M S E A) n acc s e s' :
  f s = (Err e, s') -> repeat_push f (Datatypes.S n) acc s = (Err e, s').
Proof. intros Hf. cbn [repeat_push]. by rewrite (bind_err _ _ _ _ _ Hf). Qed.

Lemma overflow_list_items et depth n ts : forall acc k rest,
  Forall payload_overflows ts ->
  forallb (fun t => bool_decide (tag_id t = et)) ts = true ->
  forallb (valid_tag depth) ts = true ->
  k <= MAX_TOTAL_NODES -> MAX_TOTAL_NODES < k + items_count ts ->
  len (flat_map enc_payload ts ++ rest) + 3 <= Z.of_nat n ->
  exists s, repeat_push (read_payload n et depth) (length ts) acc
    (flat_map enc_payload ts ++ rest, k) = (Err too_many, s).
Proof.
  induction ts as [|t ts IH]; intros acc k rest HF Hid Hv Hk Hover Hn;
    [cbn in Hover; lia|].
  apply Forall_cons in HF as [Ht HF]. cbn [forallb] in Hid, Hv.
  apply andb_prop in Hid as [Hid%bool_decide_eq_true_1 Hids]. apply andb_prop in Hv as [Hvt Hv].
  cbn [items_count foldr] in Hover. fold (items_count ts) in Hover.
  cbn [length flat_map] in *. rewrite <- app_assoc in *. subst et.
  destruct (Z.le_gt_cases (k + tag_count t) MAX_TOTAL_NODES) as [Hle|Hgt].
  - cbn [repeat_push]. erewrite bind_ok by (apply (payload_parses_all t depth n k); done).
    apply IH; try done; [lia|].
    rewrite len_app in Hn. pose proof (len_nonneg (enc_payload t)). lia.
  - destruct (Ht depth n k (flat_map enc_payload ts ++ rest)) as [s Hs]; try done.
    exists s. by apply repeat_push_err.
Qed.

Lemma overflow_entries depth es' : forall es n k rest,
  Forall (fun e => payload_overflows (snd e)) es' ->
  forallb (valid_entry depth) es' = true ->
  k <= MAX_TOTAL_NODES -> MAX_TOTAL_NODES < k + entries_count es' ->
  len (enc_body es' ++ rest) + 1 <= Z.of_nat n ->
  exists s, read_entries n depth (mkCompound es) (enc_body es' ++ rest, k) = (Err too_many, s).
Proof.
  induction es' as [|[name t] es' IH]; intros es n k rest HF Hv Hk Hover Hn;
    [cbn in Hover; lia|].
  destruct (fuel_pos _ _ _ Hn) as [n' ->]; [lia|]. cbn [read_entries].
  apply Forall_cons in HF as [Ht HF]. cbn [forallb] in Hv. apply andb_prop in Hv as [Hve Hv].
  unfold valid_entry in Hve. cbn [fst snd] in *.
  apply andb_prop in Hve as [[Hname Hnlen]%andb_prop Hvt].
  cbn [entries_count foldr] in Hover. fold (entries_count es') in Hover.
  unfold enc_body in *. cbn [flat_map] in *. unfold enc_entry at 1 in Hn. unfold enc_entry at 1.
  cbn [fst snd] in *. rewrite <- !app_assoc in *.
  erewrite bind_ok by (apply on_src_ok, parses_tag_id).
  rewrite decide_False by apply tag_id_not_end.
  erewrite bind_ok by (apply on_src_ok, parses_nbt_string; [done|lia]).
  rewrite !len_app, len_be_bytes in Hn. unfold enc_string in Hn. rewrite len_app, len_be_bytes in Hn.
  pose proof (len_nonneg name). pose proof (len_nonneg (enc_payload t)).
  destruct (Z.le_gt_cases (k + tag_count t) MAX_TOTAL_NODES) as [Hle|Hgt].
  - erewrite bind_ok by (apply (payload_parses_all t depth n' k); [done|lia|rewrite !len_app; lia]).
    rewrite (app_assoc (flat_map enc_entry es') (be_bytes 1 0) rest). fold (enc_body es').
    apply IH; try done; try lia. unfold enc_body. rewrite !len_app. lia.
  - edestruct (Ht depth n' k) as [s Hs]; [done|done|done| |exists s].
    2: by rewrite (bind_err _ _ _ _ _ Hs).
    rewrite !len_app. lia.
Qed.

Lemma overflow_body depth c n k rest :
  Forall (fun e => payload_overflows (snd e)) (entries c) ->
  valid_body depth c = true -> k <= MAX_TOTAL_NODES ->
  MAX_TOTAL_NODES < k + entries_count (entries c) ->
  len (enc_body (entries c) ++ rest) + 2 <= Z.of_nat n ->
  exists s, read_compound_body n depth (enc_body (entries c) ++ rest, k) = (Err too_many, s).
Proof.
  intros HF Hv Hk Hover Hn. destruct (fuel_pos _ _ _ Hn) as [n' ->]; [lia|].
  apply andb_prop in Hv as [[Hd _]%andb_prop Hv].
  cbn [read_compound_body]. rewrite Z.gtb_ltb, (proj2 (Z.ltb_ge _ _)) by lia.
  apply overflow_entries; try done; lia.
Qed.

Lemma payload_overflows_all t : payload_overflows t.
Proof.
  induction t as [v|v|v|v|v|v|v|v|et ts IH|es IH|vs|vs] using NbtTag_tree_ind;
    intros depth n k rest Hv Hk Hover Hn;
    pose proof (valid_tag_depth _ _ Hv) as Hd;
    (destruct (fuel_pos _ _ _ Hn) as [n' ->]; [lia|]);
    cbn [read_payload tag_id];
    (destruct (decide (k = MAX_TOTAL_NODES)) as [->|Hne]; [by apply read_guards_full|]);
    try (cbn in Hover; lia); rewrite read_guards_ok by lia.
  - rewrite valid_tag_list in Hv. apply andb_prop in Hv as [[Hlen Hid]%andb_prop Hv].
    cbn [enc_payload element_type items tag_count] in *. fold (items_count ts) in *.
    rewrite <- !app_assoc in *. erewrite bind_ok by (apply on_src_ok, parses_tag_id).
    pose proof (enc_items_min et ts Hid). pose proof (min_element_size_bound et).
    pose proof (len_nonneg rest). pose proof (len_nonneg ts).
    erewrite bind_ok.
    2: { apply on_src_ok, read_length_enc; try lia; rewrite ?len_app; lia. }
    rewrite !len_app, !len_be_bytes in Hn.
    replace (bool_decide (et = TagId_End) && negb (len ts =? 0)) with false.
    2: { destruct ts as [|t ts]; [by rewrite andb_false_r|].
         cbn [forallb] in Hid. apply andb_prop in Hid as [Hid%bool_decide_eq_true_1 _].
         rewrite bool_decide_false; [done|]. subst et. apply tag_id_not_end. }
    replace (Z.to_nat (len ts)) with (length ts) by (unfold len; lia).
    edestruct (overflow_list_items et (depth + 1) n' ts [] (k + 1) rest) as [s Hs];
      try done; try lia; [rewrite len_app; lia|].
    exists s. by rewrite on_src_capacity, (bind_err _ _ _ _ _ Hs).
  - rewrite valid_tag_compound in Hv. apply andb_prop in Hv as [_ Hv].
    rewrite enc_payload_compound in *. cbn [tag_count entries] in *. fold (entries_count es) in *.
    destruct (overflow_body (depth + 1) (mkCompound es) n' (k + 1) rest) as [s Hs];
      try done; cbn [entries]; try lia.
    exists s. by rewrite (bind_err _ _ _ _ _ Hs).
Qed.

Lemma overflow_network_root c rest :
  document_typed c = true -> document_built c = true -> document_fits c = true ->
  document_small c = false ->
  exists l, read_network_root (enc_network c ++ rest) = (Err too_many, l).
Proof.
  intros Ht Hb Hf Hs. unfold enc_network. rewrite <- app_assoc. unfold read_network_root.
  rewrite (bind_ok _ _ _ _ _ (parses_tag_id TagId_Compound (enc_body (entries c) ++ rest))).
  rewrite decide_False by auto. unfold read_root_body. cbn [remaining slice_buf].
  pose proof (len_nonneg (enc_body (entries c) ++ rest)).
  destruct (overflow_body 1 c (S (S (Z.to_nat (len (enc_body (entries c) ++ rest))))) 0 rest)
    as [s Hs'].
  - apply Forall_forall. intros. apply payload_overflows_all.
  - assert (valid_tag 0 (NbtTag_Compound c) = true) as Hv.
    { rewrite (every_tag_andb (fun _ t => well_typed t && well_built t) fits).
      rewrite (every_tag_andb (fun _ => well_typed) (fun _ => well_built)).
      unfold document_typed, document_built, document_fits in *. by rewrite Ht, Hb, Hf. }
    rewrite valid_tag_compound in Hv. by apply andb_prop in Hv as [_ Hv].
  - done.
  - unfold document_small in Hs. lia.
  - lia.
  - rewrite Hs'. by eexists.
Qed.

(** ** A document over the budget *)

Definition flat_document (n : nat) : NbtCompound :=
  mkCompound [(bytes_of "a", NbtTag_List (mkList TagId_Byte (repeat (NbtTag_Byte 0) n)))].

Lemma forallb_repeat {A} (f : A -> bool) x n : f x = true -> forallb f (repeat x n) = true.
Proof. intros Hx. induction n; [done|]. cbn. by rewrite Hx. Qed.

Lemma items_count_repeat t n : items_count (repeat t n) = Z.of_nat n * tag_count t.
Proof. unfold items_count. induction n as [|n IH]; [done|]. cbn [repeat foldr]. lia. Qed.

Lemma flat_document_typed n : document_typed (flat_document n) = true.
Proof. cbn. by rewrite forallb_repeat. Qed.

Lemma flat_document_built n : document_built (flat_document n) = true.
Proof.
  unfold document_built. cbn [every_tag well_built flat_document entries items forallb element_type].
  rewrite !forallb_repeat by done. rewrite bool_decide_true; [done|apply NoDup_singleton].
Qed.

Lemma flat_document_fits n : Z.of_nat n < 2 ^ 31 -> document_fits (flat_document n) = true.
Proof.
  intros Hn. unfold document_fits. cbn [every_tag flat_document entries items forallb].
  rewrite forallb_repeat by done.
  assert (fits (0 + 1) (NbtTag_List (mkList TagId_Byte (repeat (NbtTag_Byte 0) n))) = true) as ->;
    [|done].
  unfold fits. cbn [items]. unfold len. rewrite repeat_length.
  apply andb_true_intro. split; [done|by apply Z.ltb_lt].
Qed.

Lemma flat_document_count n : entries_count (entries (flat_document n)) = 1 + Z.of_nat n.
Proof.
  cbn. induction n as [|n IH]; [done|]. cbn [repeat foldr tag_count]. cbn in IH. lia.
Qed.

Lemma flat_document_small n :
  document_small (flat_document n) = (1 + Z.of_nat n <=? MAX_TOTAL_NODES).
Proof. unfold document_small. by rewrite flat_document_count. Qed.

(** ** What does not decode *)

(** The first name a compound repeats, in the order of [str]. *)
Lemma reject_duplicate_keys_err c name :
  reject_duplicate_keys c = Err (NbtError_DuplicateKey name) ->
  exists pre mid post, entries c = pre ++ mid ++ post
    /\ name ∈ map fst pre /\ name ∈ map fst mid.
Proof.
  unfold reject_duplicate_keys. case_match; [done|]. destruct (equal_window _) eqn:E; [|done].
  intros [= ->]. apply equal_window_Some in E as (pre & post & E).
  pose proof (merge_sort_Permutation str_le (keys c)) as Hp. unfold keys in Hp. rewrite E in Hp.
  assert (exists pre' post', Permutation (pre' ++ name :: post') (pre ++ name :: name :: post)
    /\ map fst (entries c) = pre' ++ name :: post') as (pre' & post' & Hp' & Hk).
  { destruct (list_elem_of_split (map fst (entries c)) name) as (p & q & Hk).
    - rewrite <- Hp. set_solver.
    - exists p, q. rewrite <- Hk. by rewrite Hp. }
  assert (name ∈ pre' ++ post') as Hin.
  { rewrite <- Permutation_middle, <- (Permutation_middle pre) in Hp'.
    apply Permutation_cons_inv in Hp'. rewrite Hp'. set_solver. }
  destruct (map_eq_app _ _ _ _ Hk) as (l1 & l2 & -> & Hl1 & Hl2).
  destruct l2 as [|e l2]; [done|]. cbn [map] in Hl2. injection Hl2 as He Hl2.
  rewrite elem_of_app in Hin. destruct Hin as [Hin|Hin].
  - exists l1, (e :: l2), []. rewrite app_nil_r, Hl1. cbn. rewrite He. set_solver.
  - exists (l1 ++ [e]), l2, []. rewrite app_nil_r, <- app_assoc, map_app. cbn.
    rewrite He, Hl2. set_solver.
Qed.

(** A root compound of valid entries is read up to the comparison of its names. *)
Lemma read_network_root_entries es rest :
  forallb (valid_entry 1) es = true -> entries_count es <= MAX_TOTAL_NODES ->
  fst (read_network_root (enc_network (mkCompound es) ++ rest))
  = fst ((do! lift (reject_duplicate_keys (mkCompound es)); ret (mkCompound es)) tt).
Proof.
  intros Hv Hk. unfold enc_network. cbn [entries]. rewrite <- app_assoc. unfold read_network_root.
  rewrite (bind_ok _ _ _ _ _ (parses_tag_id TagId_Compound (enc_body es ++ rest))).
  rewrite decide_False by auto. unfold read_root_body. cbn [remaining slice_buf].
  pose proof (len_nonneg (enc_body es ++ rest)).
  remember (S (Z.to_nat (len (enc_body es ++ rest)))) as n eqn:Hn. cbn [read_compound_body].
  change (1 >? MAX_DEPTH) with false. cbn match. unfold compound_new.
  rewrite (read_entries_then 1 es []); try done; try lia.
  - cbn [app]. unfold bind, lift. by destruct (reject_duplicate_keys _).
  - apply Forall_forall. intros. apply payload_parses_all.
Qed.

(** A reader whose accepted encodings are its only accepted inputs refuses
    every proper prefix of one. *)
Lemma truncation_rejected {A} (f : M (list byte) NbtError A) (enc : A -> list byte)
    (valid : A -> Prop) a front back :
  (forall l, wp f (fun a l' => l = enc a ++ l' /\ valid a) l) ->
  (forall a, valid a -> parses f (enc a) a) ->
  valid a -> enc a = front ++ back -> back <> [] ->
  exists e l, f front = (Err e, l).
Proof.
  intros Hw Hp Ha Henc Hback. pose proof (Hw front) as Hf. unfold wp in Hf.
  destruct (f front) as [[a'|e| |] l]; try done; [|by exists e, l].
  destruct Hf as [-> Ha'].
  pose proof (Hp a Ha []) as H1. pose proof (Hp a' Ha' (l ++ back)) as H2.
  rewrite app_nil_r, Henc, <- app_assoc, H2 in H1. injection H1 as _ H1.
  by apply app_nil in H1 as [_ ?].
Qed.

(** ** Properties *)

(** A document cut short is refused: on a buffer that holds a proper prefix
    of the encoding of a valid document, [read_network_root] returns an error,
    never a document. *)
Theorem nbt_truncation_rejected {B} `{BufLaws B} (src : B) (c : NbtCompound)
    (front back : list byte)
    (Hvalid : valid_document c = true) (Henc : enc_network c = front ++ back)
    (Hback : back <> []) (Hsrc : view src = front) :
  exists e src', read_network_root src = (Err e, src').
Proof.
  destruct (truncation_rejected _ _ _ c front back wp_network_root parses_network_root
    Hvalid Henc Hback) as (e & l & He).
  destruct (sim_read_network_root src) as [Hs _]. rewrite Hsrc, He in Hs.
  destruct (read_network_root src) as [r src']. cbn in Hs. subst. by exists e, src'.
Qed.

(** C36: the writer has no tag budget, so it can emit what the reader refuses: a
    document whose values and containers are in order and which fits the wire
    format, but with more than [MAX_TOTAL_NODES] tags, is written successfully
    and its bytes are refused with [TooManyNodes]. *)
Theorem nbt_over_budget {BW BR} `{BufMutLaws BW} `{BufLaws BR} (dst : BW) (src : BR)
    (c : NbtCompound) (rest : list byte)
    (Htyped : document_typed c = true) (Hbuilt : document_built c = true)
    (Hfits : document_fits c = true) (Hlarge : document_small c = false)
    (Hsrc : view src = enc_network c ++ rest) :
  (exists dst', write_network_root c dst = (Ok tt, dst')
    /\ written dst' = written dst ++ enc_network c)
  /\ exists src', read_network_root src = (Err too_many, src').
Proof.
  split.
  - pose proof (writes_through _ _ _ _ _ dst (sim_write_network_root c) (writes_network_root c)) as Hw.
    destruct (write_network_root c dst) as [[[]|e| |] dst']; try done.
    + exists dst'. split; [done|]. by destruct Hw as [_ Hw].
    + destruct Hw as [Hw _]. by rewrite Hfits in Hw.
  - destruct (overflow_network_root c rest Htyped Hbuilt Hfits Hlarge) as [l Hl].
    destruct (sim_read_network_root src) as [Hs _]. rewrite Hsrc, Hl in Hs.
    destruct (read_network_root src) as [r src']. cbn in Hs. subst. by exists src'.
Qed.

(** [reject_duplicate_keys] succeeds exactly on compounds whose names are
    pairwise distinct, and the name it reports occurs at two entries. *)
Theorem reject_duplicate_keys_spec (c : NbtCompound) :
  match reject_duplicate_keys c with
  | Ok _ => NoDup (keys c)
  | Err e => exists name pre mid post, e = NbtError_DuplicateKey name
      /\ entries c = pre ++ mid ++ post /\ name ∈ map fst pre /\ name ∈ map fst mid
  | _ => False
  end.
Proof.
  destruct (reject_duplicate_keys c) as [[]|e| |] eqn:E.
  - by apply reject_duplicate_keys_ok.
  - assert (exists name, e = NbtError_DuplicateKey name) as [name ->].
    { unfold reject_duplicate_keys in E. repeat case_match; simplify_eq. by eexists. }
    apply reject_duplicate_keys_err in E as (pre & mid & post & ?). by exists name, pre, mid, post.
  - unfold reject_duplicate_keys in E. by repeat case_match.
  - unfold reject_duplicate_keys in E. by repeat case_match.
Qed.

(** ** Witnesses *)

Lemma nbt_truncation_rejected_witness :
  exists e src', read_network_root ([] : list byte) = (Err e, src').
Proof.
  apply (nbt_truncation_rejected ([] : list byte) (mkCompound []) [] (enc_network (mkCompound []))).
  - vm_compute. reflexivity.
  - reflexivity.
  - discriminate.
  - reflexivity.
Defined.

Definition over_budget : NbtCompound := flat_document (Z.to_nat 65536).

Lemma nbt_over_budget_witness :
  (exists dst' : list byte, write_network_root over_budget [] = (Ok tt, dst')
    /\ written dst' = written [] ++ enc_network over_budget)
  /\ exists src' : list byte, read_network_root (enc_network over_budget) = (Err too_many, src').
Proof.
  apply (nbt_over_budget (BW:=list byte) (BR:=list byte) [] (enc_network over_budget)
    over_budget []).
  - apply flat_document_typed.
  - apply flat_document_built.
  - apply flat_document_fits. rewrite Z2Nat.id by lia. reflexivity.
  - unfold over_budget. rewrite flat_document_small, Z2Nat.id by lia. reflexivity.
  - symmetry. apply app_nil_r.
Defined.
