(* ===== verification/Capacity.v ===== *)
(** * The room the decoders ask for in advance.

    The lengths of a document are claims of the peer, and the reader turns them
    into allocations before it has seen what they announce: [Vec::with_capacity] for
    elements, [vec![0u8; len]] and [copy_to_bytes] for bytes.  Here the readers run in
    a buffer that keeps the list of these requests, with the bytes that were left when
    bytes were asked for.  They read what they read without it; they ask for no more
    bytes than are there; and all they ask for is paid by the bytes they consume, up
    to [MAX_PREALLOC_ELEMENTS] elements for each level of nesting. *)

From S2P Require Import Prelude Utf8 Buffers NbtTag NbtSpec NbtRead NbtCorrect.
From stdpp Require Import base list numbers.
From Stdlib Require Import Strings.Byte.

Open Scope Z_scope.

(** ** A buffer and the requests made beside it, in order *)

(** Room for [n] elements, or [n] bytes when [there] were still to read. *)
Inductive Request :=
  | For_elements (n : Z)
  | For_bytes (n there : Z).

Record Metered (B : Type) := mkMetered { buffer : B; requested : list Request }.
Arguments mkMetered {B} buffer requested.
Arguments buffer {B} m.
Arguments requested {B} m.

(** A read of the buffer, which requests nothing. *)
Definition through {B A} (get : B -> option (A * B)) (m : Metered B) : option (A * Metered B) :=
  match get (buffer m) with
  | Some (a, b) => Some (a, mkMetered b (requested m))
  | None => None
  end.

Definition request {B} (q : Request) (m : Metered B) : Metered B :=
  mkMetered (buffer m) (requested m ++ [q]).

#[export] Instance metered_buf {B} `{Buf B} : Buf (Metered B) := {|
  remaining m := remaining (buffer m);
  buf_get_u8 := through buf_get_u8;
  buf_get_i8 := through buf_get_i8;
  buf_get_u16 := through buf_get_u16;
  buf_get_i16 := through buf_get_i16;
  buf_get_i32 := through buf_get_i32;
  buf_get_i64 := through buf_get_i64;
  buf_get_u128 := through buf_get_u128;
  buf_get_f32 := through buf_get_f32;
  buf_get_f64 := through buf_get_f64;
  buf_copy_to_slice n := through (buf_copy_to_slice n);
  buf_copy_to_bytes n m := through (buf_copy_to_bytes n) (request (For_bytes (Z.of_nat n) (remaining (buffer m))) m);
  buf_with_capacity n := request (For_elements n);
  buf_zeroed n m := request (For_bytes n (remaining (buffer m))) m;
|}.

Lemma through_reads {B A} (v : B -> list byte) n (dec : list byte -> A) get :
  reads v n dec get -> reads (fun m => v (buffer m)) n dec (through get).
Proof.
  intros Hr m. specialize (Hr (buffer m)). unfold through. case_decide.
  - destruct Hr as (b' & -> & ?). by eexists.
  - by rewrite Hr.
Qed.

#[export] Instance metered_laws {B} `{BufLaws B} : BufLaws (Metered B).
Proof.
  refine {| view := fun m => view (buffer m) |}; intros;
    [exact (remaining_view (buffer b))|apply (through_reads view)..|intros m| |];
    [..|exact (through_reads view n _ _ (copy_to_bytes_reads n) (request _ m))|done|done].
  all: first [apply get_u8_reads | apply get_i8_reads | apply get_u16_reads | apply get_i16_reads
    | apply get_i32_reads | apply get_i64_reads | apply get_u128_reads | apply get_f32_reads
    | apply get_f64_reads | apply copy_to_slice_reads].
Defined.

(** ** Accounts

    A decoder owes what it has requested, and has the bytes it has not read. *)

Definition amount (q : Request) : Z := match q with For_elements n | For_bytes n _ => n end.

Definition total (qs : list Request) : Z := foldr (fun q z => amount q + z) 0 qs.

(** Few elements, and bytes that are there. *)
Definition modest_request (q : Request) : Prop :=
  match q with
  | For_elements n => 0 <= n <= MAX_PREALLOC_ELEMENTS
  | For_bytes n there => 0 <= n <= there
  end.

Definition modest (qs : list Request) : Prop := Forall modest_request qs.

Lemma total_snoc qs q : total (qs ++ [q]) = total qs + amount q.
Proof. unfold total. induction qs; cbn in *; lia. Qed.

Lemma modest_snoc qs q : modest qs -> modest_request q -> modest (qs ++ [q]).
Proof. intros Hqs Hq. apply Forall_app. split; [done|by constructor]. Qed.

Create HintDb pays.

Section Accounts.
Context {B : Type} `{BufLaws B}.

Definition debt (m : Metered B) : Z := len (view m) + total (requested m).

(** [m] makes modest requests; when it returns a value, which then satisfies
    [Q], it has paid off its own and [gain] more, and whenever it stops, it owes
    at most [slack]. *)
Definition pays {S E A} (src : S -> Metered B) (gain slack : Z) (Q : A -> Prop) (m : M S E A) : Prop :=
  forall s, modest (requested (src s)) ->
    modest (requested (src (snd (m s)))) /\
    match fst (m s) with
    | Ok a => Q a /\ debt (src (snd (m s))) + gain <= debt (src s)
    | _ => debt (src (snd (m s))) <= debt (src s) + slack
    end.

Section Rules.
Context {S E : Type} (src : S -> Metered B).

Lemma pays_ret {A} (a : A) gain slack (Q : A -> Prop) :
  gain <= 0 -> Q a -> pays (E:=E) src gain slack Q (ret a).
Proof. intros Hg HQ s Hs. cbn. split_and!; [done|done|lia]. Qed.

Lemma pays_throw {A} (e : E) gain slack (Q : A -> Prop) :
  0 <= slack -> pays src gain slack Q (throw e).
Proof. intros Hs s Hm. cbn. split; [done|lia]. Qed.

Lemma pays_lift {A} (r : outcome E A) gain slack (Q : A -> Prop) :
  0 <= slack -> gain <= 0 -> (forall a, r = Ok a -> Q a) -> pays src gain slack Q (lift r).
Proof. intros Hs Hg HQ s Hm. cbn. destruct r; (split; [done|]); [split; [auto|]|..]; lia. Qed.

Lemma pays_weaken {A} gain slack gain' slack' (Q Q' : A -> Prop) (m : M S E A) :
  pays src gain slack Q m -> gain' <= gain -> slack <= slack' -> (forall a, Q a -> Q' a) ->
  pays src gain' slack' Q' m.
Proof.
  intros Hm Hg Hs HQ s Hi. destruct (Hm s Hi) as [Hi' Hr]. split; [done|].
  destruct (fst (m s)); [destruct Hr; split; [auto|]|..]; lia.
Qed.

(** What [m] gained may be spent by what follows it. *)
Lemma pays_bind {A A'} gain1 slack1 gain slack (Q1 : A -> Prop) (Q : A' -> Prop)
    (m : M S E A) (k : A -> M S E A') :
  pays src gain1 slack1 Q1 m -> slack1 <= slack ->
  (forall a, Q1 a -> pays src (gain - gain1) (slack + gain1) Q (k a)) ->
  pays src gain slack Q (bind m k).
Proof.
  intros Hm Hs Hk s Hi. destruct (Hm s Hi) as [Hi' Hr]. unfold bind.
  destruct (m s) as [[a|e| |] s1]; cbn [fst snd] in *; [|split; [done|lia]..].
  destruct Hr as [Ha Hd]. destruct (Hk a Ha s1 Hi') as [Hi2 Hr]. split; [done|].
  destruct (fst (k a s1)); [destruct Hr; split; [done|]|..]; lia.
Qed.

Lemma pays_ok_or {A} (e : E) (o : option A) :
  pays src 0 0 (fun a => o = Some a) (ok_or e o).
Proof. destruct o; [by apply pays_ret|by apply pays_throw]. Qed.

Lemma pays_lift_ok {A} (r : outcome E A) : pays src 0 0 (fun a => r = Ok a) (lift r).
Proof. by apply pays_lift. Qed.

Lemma pays_map_err {E' A} (f : E -> E') gain slack (Q : A -> Prop) (m : M S E A) :
  pays src gain slack Q m -> pays src gain slack Q (map_err f m).
Proof.
  intros Hm s Hs. specialize (Hm s Hs). unfold map_err. by destruct (m s) as [[] ?].
Qed.

(** A loop whose every element takes a byte or more. *)
Lemma pays_repeat_push {A} slack (Q : A -> Prop) (f : M S E A) n : forall items,
  0 <= slack -> pays src 1 slack Q f ->
  pays src (Z.of_nat n) slack (fun _ => True) (repeat_push f n items).
Proof.
  induction n as [|n IH]; intros items Hs Hf; cbn [repeat_push]; [by apply pays_ret|].
  eapply pays_bind; [exact Hf|lia|]. intros a _.
  eapply pays_weaken; [by apply IH|lia..|done].
Qed.
End Rules.

(** *** The calls *)

Abbreviation metered_src := (fun m : Metered B => m).

Lemma pays_call {E A} n (dec : list byte -> A) get :
  reads view n dec get ->
  pays (E:=E) metered_src (Z.of_nat n) 0 (fun a => exists bs, a = dec bs) (call (through get)).
Proof.
  intros Hr m Hm. specialize (Hr (buffer m)). unfold call, through.
  case_decide as Hn; [destruct Hr as (b' & -> & Hv)|rewrite Hr]; (split; [done|]); [|cbn; lia].
  split; [by eexists|]. unfold debt, len. cbn -[total]. rewrite Hv, length_drop. lia.
Qed.

(** A question about the buffer, which costs nothing. *)
Lemma pays_peek {E A} (f : Metered B -> A) :
  pays (E:=E) metered_src 0 0 (fun _ => True) (fun m => (Ok (f m), m)).
Proof. intros m Hm. cbn. split_and!; [done|done|lia]. Qed.

Lemma pays_with_capacity {E} n :
  0 <= n ->
  pays (E:=E) metered_src (- Z.min n MAX_PREALLOC_ELEMENTS) 0 (fun _ => True)
    (with_capacity (Z.min n MAX_PREALLOC_ELEMENTS)).
Proof.
  intros Hn m Hm. unfold MAX_PREALLOC_ELEMENTS. cbn. split_and!; [|done|].
  { apply modest_snoc; [done|]. cbn. unfold MAX_PREALLOC_ELEMENTS. lia. }
  unfold debt. cbn -[total]. rewrite total_snoc. cbn [amount]. lia.
Qed.

(** Bytes that are checked to be there are asked for and then read. *)
Lemma pays_fill {E A} (e : Z -> E) n gain slack (Q : A -> Prop) (k : list byte -> M (Metered B) E A) :
  0 <= n -> 0 <= slack -> (forall bytes, pays metered_src gain slack Q (k bytes)) ->
  pays metered_src gain slack Q
    (let! r := get_remaining in
     if r <? n then throw (e r)
     else do! zeroed n; let! bytes := copy_to_slice (Z.to_nat n) in k bytes).
Proof.
  intros Hn Hs Hk m Hm. pose proof (remaining_view (buffer m)) as Hv.
  rewrite (bind_ok get_remaining _ m (remaining (buffer m)) m) by done.
  destruct (Z.ltb_spec (remaining (buffer m)) n) as [|Hl]; [cbn; split; [done|lia]|].
  pose proof (copy_to_slice_reads (Z.to_nat n) (buffer m)) as Hc. unfold len in Hv.
  rewrite decide_True in Hc by lia. destruct Hc as (b' & Hc & Hv').
  set (m1 := request (For_bytes n (remaining (buffer m))) m). set (m' := mkMetered b' (requested m1)).
  rewrite (bind_ok (zeroed n) _ m tt m1) by done.
  rewrite (bind_ok (copy_to_slice _) _ m1 (take (Z.to_nat n) (view (buffer m))) m').
  2: { unfold copy_to_slice, call. cbn. unfold through. cbn. by rewrite Hc. }
  assert (modest (requested m')) as Hm' by (apply modest_snoc; [done|cbn; lia]).
  assert (debt m' = debt m) as Hd.
  { unfold debt, len. cbn -[total]. rewrite total_snoc, Hv', length_drop. cbn [amount]. lia. }
  specialize (Hk (take (Z.to_nat n) (view (buffer m))) m' Hm').
  cbn beta in Hk. by rewrite Hd in Hk.
Qed.

Lemma pays_get_remaining {E} : pays (E:=E) metered_src 0 0 (fun _ => True) get_remaining.
Proof. apply pays_peek. Qed.
Lemma pays_has_remaining {E} : pays (E:=E) metered_src 0 0 (fun _ => True) has_remaining.
Proof. apply pays_peek. Qed.
Lemma pays_get {E A} n (dec : list byte -> A) get :
  reads view n dec get ->
  pays (E:=E) metered_src (Z.of_nat n) 0 (fun _ => True) (call (through get)).
Proof. intros Hr. eapply pays_weaken; [by apply pays_call|lia..|done]. Qed.
Lemma pays_get_u8 {E} : pays (E:=E) metered_src 1 0 (fun _ => True) get_u8.
Proof. exact (pays_get 1 _ _ get_u8_reads). Qed.
Lemma pays_get_u16 {E} : pays (E:=E) metered_src 2 0 (fun v => 0 <= v) get_u16.
Proof.
  eapply pays_weaken; [exact (pays_call 2 _ _ get_u16_reads)|lia..|].
  intros v [bs ->]. apply be_val_range.
Qed.
Lemma pays_get_i32 {E} : pays (E:=E) metered_src 4 0 (fun _ => True) get_i32.
Proof. exact (pays_get 4 _ _ get_i32_reads). Qed.
Lemma pays_get_i64 {E} : pays (E:=E) metered_src 8 0 (fun _ => True) get_i64.
Proof. exact (pays_get 8 _ _ get_i64_reads). Qed.
Lemma pays_get_u128 {E} : pays (E:=E) metered_src 16 0 (fun _ => True) get_u128.
Proof. exact (pays_get 16 _ _ get_u128_reads). Qed.
End Accounts.

#[export] Hint Resolve pays_ok_or pays_lift_ok pays_get_remaining pays_has_remaining pays_get_u8 pays_get_u16
  pays_get_i32 pays_get_i64 pays_get_u128 pays_with_capacity : pays.

(** Follows the structure of a decoder, adding up what its parts gain. *)
Ltac pay_step :=
  match goal with
  | |- pays _ _ _ _ (bind _ _) => eapply pays_bind; [solve [eauto with pays]|lia|intros ? ?; cbn beta in *]
  | |- pays _ _ _ _ (ret _) => apply pays_ret; [lia|done]
  | |- pays _ _ _ _ (throw _) => apply pays_throw; lia
  | |- pays _ _ _ _ (lift _) => apply pays_lift; [lia|lia|done]
  | |- pays _ _ _ _ (map_err _ _) => apply pays_map_err
  | |- pays _ _ _ _ (if ?c then _ else _) => destruct c
  end.
Ltac pay := repeat pay_step.

Section NbtAccounts.
Context {B : Type} `{BufLaws B}.

Abbreviation metered_src := (fun m : Metered B => m).

Lemma pays_read_tag_id : pays metered_src 1 0 (fun _ => True) read_tag_id.
Proof. unfold read_tag_id. pay. Qed.

Lemma pays_read_nbt_string : pays metered_src 1 0 (fun _ => True) read_nbt_string.
Proof.
  unfold read_nbt_string. pay_step. pay_step; [pay|]. pay_step.
  apply (pays_fill (fun r => NbtError_LengthExceedsInput a0 r)); [done|lia|]. intros bytes. pay.
Qed.

Lemma pays_read_length size : pays metered_src 4 0 (fun n => 0 <= n) (read_length size).
Proof.
  unfold read_length. pay. unfold usize_try_from in *. apply pays_ret; [lia|].
  case_match; simplify_eq; lia.
Qed.

(** What [read_length] promises of the bytes that follow. *)
Lemma read_length_fits size (m m' : Metered B) n :
  read_length size m = (Ok n, m') -> 0 <= n /\ n * size <= len (view m').
Proof.
  intros Hr. pose proof (wp_through _ _ _ m (sim_read_length size) (wp_read_length size (view m))) as Hw.
  apply (wp_ok _ _ _ _ _ Hw) in Hr as (_ & ? & ?). lia.
Qed.

(** Bytes whose length was checked are asked for by the buffer itself. *)
Lemma pays_byte_run {A} (f : list byte -> A) :
  pays metered_src 1 0 (fun _ => True)
    (let! length := read_length 1 in
     let! bytes := copy_to_bytes (Z.to_nat length) in
     ret (f bytes)).
Proof.
  intros m Hm. pose proof (pays_read_length 1 m Hm) as [Hm1 Hd1].
  destruct (read_length 1 m) as [[n|e| |] m1] eqn:E; cbn [fst snd] in *;
    try (unfold bind; rewrite E; split; [done|cbn; lia]).
  rewrite (bind_ok _ _ _ _ _ E).
  apply read_length_fits in E as [Hn Hl]. destruct Hd1 as [_ Hd1].
  pose proof (remaining_view (buffer m1)) as Hv. change (view m1) with (view (buffer m1)) in Hl.
  pose proof (copy_to_bytes_reads (Z.to_nat n) (buffer m1)) as Hc. unfold len in Hv, Hl.
  rewrite decide_True in Hc by lia. destruct Hc as (b' & Hc & Hv').
  set (m' := mkMetered b' (requested m1 ++ [For_bytes (Z.of_nat (Z.to_nat n)) (remaining (buffer m1))])).
  rewrite (bind_ok (copy_to_bytes _) _ m1 (take (Z.to_nat n) (view (buffer m1))) m').
  2: { unfold copy_to_bytes, call. cbn. unfold through. cbn. by rewrite Hc. }
  cbn [ret fst snd]. split; [apply modest_snoc; [done|cbn; lia]|]. split; [done|].
  etrans; [|exact Hd1]. unfold debt, len. cbn -[total]. rewrite total_snoc, Hv', length_drop.
  cbn [amount]. lia.
Qed.

Lemma pays_fixed w n get f :
  pays metered_src n 0 (fun _ => True) get -> 1 <= n ->
  pays metered_src 1 0 (fun _ => True) (fixed w get f).
Proof. intros Hg Hn. unfold fixed. pay. Qed.

(** ** The recursion *)

Abbreviation metered_state := (fun s : Metered B * Z => fst s).

Lemma pays_on_src {A} gain slack (Q : A -> Prop) (m : M (Metered B) NbtError A) :
  pays metered_src gain slack Q m -> pays metered_state gain slack Q (on_src m).
Proof.
  intros Hm [b n] Hs. specialize (Hm b Hs). unfold on_src, zoom. cbn [fst snd] in *.
  by destruct (m b).
Qed.

Lemma pays_count_node : pays metered_state 0 0 (fun _ => True) count_node.
Proof. intros [b n] Hs. unfold count_node. cbn [fst snd]. case_match; cbn; split_and!; (done || lia). Qed.

Hint Resolve pays_on_src pays_count_node pays_read_tag_id pays_read_nbt_string pays_read_length : pays.

Lemma pays_ext {E A} gain slack (Q : A -> Prop) (m m' : M (Metered B * Z) E A) :
  (forall s, m s = m' s) -> pays metered_state gain slack Q m -> pays metered_state gain slack Q m'.
Proof. intros He Hm s Hs. rewrite <- (He s). by apply Hm. Qed.

Lemma pays_byte_array {A} (f : list byte -> A) :
  pays metered_state 1 0 (fun _ => True)
    (let! length := on_src (read_length 1) in
     let! bytes := on_src (copy_to_bytes (Z.to_nat length)) in
     ret (f bytes)).
Proof.
  eapply pays_ext; [|apply pays_on_src, (pays_byte_run f)]. intros [b n].
  unfold bind, on_src, zoom, ret. cbn [fst snd].
  destruct (read_length 1 b) as [[l|e| |] b1]; try done. cbn [fst snd].
  by destruct (copy_to_bytes _ b1) as [[] ?].
Qed.

(** What a payload at [depth] may still owe when it fails: a request for each
    level that can be open below it. *)
Definition room (depth : Z) : Z := MAX_PREALLOC_ELEMENTS * (MAX_DEPTH + 1 - depth).

Lemma room_nonneg depth : depth <= MAX_DEPTH + 1 -> 0 <= room depth.
Proof. unfold room, MAX_PREALLOC_ELEMENTS. lia. Qed.

Lemma room_below depth : room depth = MAX_PREALLOC_ELEMENTS + room (depth + 1).
Proof. unfold room. lia. Qed.

(** A sequence: its length, its request, and at least a byte for each element. *)
Lemma pays_sequence {A C} size depth (element : M (Metered B * Z) NbtError A) (f : list A -> C)
    (guard : Z -> bool) (e : NbtError) Q :
  pays metered_state 1 (room (depth + 1)) Q element -> depth <= MAX_DEPTH ->
  pays metered_state 1 (room depth) (fun _ => True)
    (let! length := on_src (read_length size) in
     if guard length then throw e
     else
       do! on_src (with_capacity (Z.min length MAX_PREALLOC_ELEMENTS));
       let! values := repeat_push element (Z.to_nat length) [] in
       ret (f values)).
Proof.
  intros He Hd. rewrite room_below. pose proof (room_nonneg (depth + 1) ltac:(lia)) as Hroom.
  unfold MAX_PREALLOC_ELEMENTS at 1. pay_step.
  destruct (guard _); [apply pays_throw; lia|]. pay_step.
  eapply pays_bind; [apply (pays_repeat_push _ _ _ _ _ _ Hroom He)| |].
  - unfold MAX_PREALLOC_ELEMENTS. lia.
  - intros values _. apply pays_ret; [unfold MAX_PREALLOC_ELEMENTS; lia|done].
Qed.

(** The elements of an integer array are read straight from the source. *)
Lemma pays_array {A} size depth gain get (f : list A -> NbtTag) :
  pays metered_src gain 0 (fun _ => True) get -> 1 <= gain -> depth <= MAX_DEPTH ->
  pays metered_state 1 (room depth) (fun _ => True)
    (let! length := on_src (read_length size) in
     do! on_src (with_capacity (Z.min length MAX_PREALLOC_ELEMENTS));
     let! values := on_src (repeat_push get (Z.to_nat length) []) in
     ret (f values)).
Proof.
  intros Hg Hgain Hd. rewrite room_below. pose proof (room_nonneg (depth + 1) ltac:(lia)).
  unfold MAX_PREALLOC_ELEMENTS at 1.
  assert (pays metered_src 1 0 (fun _ => True) get) as Hg1 by (by eapply pays_weaken).
  pay_step. pay_step.
  eapply pays_bind; [apply pays_on_src, (pays_repeat_push _ _ _ _ _ _ (Z.le_refl 0) Hg1)| |].
  - unfold MAX_PREALLOC_ELEMENTS. lia.
  - intros values _. apply pays_ret; [lia|done].
Qed.

Section Recursion.
Context (n : nat).
Hypothesis IHp : forall id depth, depth <= MAX_DEPTH + 1 ->
  pays metered_state 1 (room depth) (fun _ => True) (read_payload n id depth).
Hypothesis IHb : forall depth, depth <= MAX_DEPTH + 1 ->
  pays metered_state 1 (room depth) (fun _ => True) (read_compound_body n depth).
Hypothesis IHe : forall depth c, depth <= MAX_DEPTH ->
  pays metered_state 1 (room depth) (fun _ => True) (read_entries n depth c).

Lemma pays_payload_step id depth : depth <= MAX_DEPTH + 1 ->
  pays metered_state 1 (room depth) (fun _ => True) (read_payload (S n) id depth).
Proof.
  intros Hd. pose proof (room_nonneg depth Hd). cbn [read_payload]. rewrite Z.gtb_ltb.
  destruct (Z.ltb_spec MAX_DEPTH depth) as [|Hd']; [by apply pays_throw|].
  pay_step. rewrite Z.sub_0_r, Z.add_0_r.
  assert (forall m : M (Metered B) NbtError NbtTag, pays metered_src 1 0 (fun _ => True) m ->
    pays metered_state 1 (room depth) (fun _ => True) (on_src m)) as leaf
    by (intros m Hm; eapply pays_weaken; [by apply pays_on_src|done..]).
  destruct id.
  - pay.
  - by apply leaf, (pays_fixed 1 1 _ _ (pays_get 1 _ _ get_i8_reads)).
  - by apply leaf, (pays_fixed 2 2 _ _ (pays_get 2 _ _ get_i16_reads)).
  - by apply leaf, (pays_fixed 4 4 _ _ pays_get_i32).
  - by apply leaf, (pays_fixed 8 8 _ _ pays_get_i64).
  - by apply leaf, (pays_fixed 4 4 _ _ (pays_get 4 _ _ get_f32_reads)).
  - by apply leaf, (pays_fixed 8 8 _ _ (pays_get 8 _ _ get_f64_reads)).
  - eapply pays_weaken; [apply pays_byte_array|lia..|done].
  - pay.
  - pay_step. apply (pays_weaken _ 1 (room depth) _ _ (fun _ => True)); [|lia..|done].
    apply (pays_sequence _ _ _ _ (fun length => bool_decide (a0 = TagId_End) && negb (length =? 0))
      _ (fun _ => True)); [|done]. apply IHp. lia.
  - eapply pays_bind; [apply IHb; lia|rewrite (room_below depth); unfold MAX_PREALLOC_ELEMENTS; lia|].
    intros c _. pay.
  - by apply (pays_array 4 _ 4 _ NbtTag_IntArray pays_get_i32).
  - by apply (pays_array 8 _ 8 _ NbtTag_LongArray pays_get_i64).
Qed.

Lemma pays_entries_step depth c : depth <= MAX_DEPTH ->
  pays metered_state 1 (room depth) (fun _ => True) (read_entries (S n) depth c).
Proof.
  intros Hd. pose proof (room_nonneg depth ltac:(lia)). cbn [read_entries]. pay_step. case_decide.
  - eapply pays_bind; [by apply (pays_lift _ _ 0 0 (fun _ => True))|lia|]. intros _ _. pay.
  - pay_step. eapply pays_bind; [apply IHp; lia|lia|]. intros value _.
  eapply pays_weaken; [by apply IHe|lia..|done].
Qed.
End Recursion.

Lemma pays_readers n :
  (forall id depth, depth <= MAX_DEPTH + 1 ->
    pays metered_state 1 (room depth) (fun _ => True) (read_payload n id depth))
  /\ (forall depth, depth <= MAX_DEPTH + 1 ->
    pays metered_state 1 (room depth) (fun _ => True) (read_compound_body n depth))
  /\ (forall depth c, depth <= MAX_DEPTH ->
    pays metered_state 1 (room depth) (fun _ => True) (read_entries n depth c)).
Proof.
  induction n as [|n (IHp & IHb & IHe)].
  - split_and!; intros; intros s Hs; unfold room, MAX_PREALLOC_ELEMENTS; cbn; (split; [done|lia]).
  - split_and!; intros; [by apply pays_payload_step| |by apply pays_entries_step].
    cbn [read_compound_body]. rewrite Z.gtb_ltb.
    destruct (Z.ltb_spec MAX_DEPTH depth); [|by apply IHe].
    apply pays_throw. unfold room, MAX_PREALLOC_ELEMENTS. lia.
Qed.

Lemma pays_read_root_body :
  pays metered_src 1 (room 1) (fun _ => True) read_root_body.
Proof.
  intros b Hb. unfold read_root_body.
  destruct (pays_readers (S (S (Z.to_nat (remaining b))))) as (_ & Hr & _).
  specialize (Hr 1 ltac:(done) (b, 0) Hb). by destruct (read_compound_body _ _ _).
Qed.

Lemma pays_read_network_root : pays metered_src 1 (room 1) (fun _ => True) read_network_root.
Proof.
  pose proof (room_nonneg 1 ltac:(done)). unfold read_network_root. pay_step.
  case_decide; [pay|]. eapply pays_weaken; [apply pays_read_root_body|lia..|done].
Qed.

Hint Resolve pays_read_root_body : pays.

Lemma pays_read_named_root : pays metered_src 1 (room 1) (fun _ => True) read_named_root.
Proof. pose proof (room_nonneg 1 ltac:(done)). unfold read_named_root. pay_step. case_decide; pay. Qed.

Lemma pays_read_optional_network_root :
  pays metered_src 1 (room 1) (fun _ => True) read_optional_network_root.
Proof.
  pose proof (room_nonneg 1 ltac:(done)). unfold read_optional_network_root. pay_step. destruct a; pay.
Qed.

(** ** What a decoder asks for *)

(** Run in a metered buffer, a decoder returns what it returns without, leaves
    the same bytes, and never asks for more than [MAX_PREALLOC_ELEMENTS] elements at a
    time, nor for bytes that are not there; all its requests together stay below the bytes it consumed and
    [slack], and, when it succeeds, below the bytes alone. *)
Definition reserves_within {E A} (slack : Z) (metered : M (Metered B) E A) (plain : M B E A) : Prop :=
  forall src : B,
    let (r, m) := metered (mkMetered src []) in
    let consumed := len (view src) - len (view (buffer m)) in
    r = fst (plain src) /\ view (buffer m) = view (snd (plain src))
    /\ modest (requested m)
    /\ total (requested m) <= consumed + slack
    /\ (forall a, r = Ok a -> total (requested m) <= consumed).

Lemma reserves_within_intro {E A} gain slack (metered : M (Metered B) E A) plain f :
  pays metered_src gain slack (fun _ => True) metered -> 0 <= gain -> 0 <= slack ->
  sim view metered f -> sim view plain f -> reserves_within slack metered plain.
Proof.
  intros Hpay Hg Hs Hm Hp src. specialize (Hm (mkMetered src [])) as [Hm1 Hm2].
  specialize (Hp src) as [Hp1 Hp2]. destruct (Hpay (mkMetered src []) ltac:(by constructor)) as [Hmod Hd].
  destruct (metered _) as [r m]. cbn -[total] in *. unfold debt in Hd. cbn -[total] in Hd.
  rewrite Hm1, Hp1, Hm2, Hp2. change (total []) with 0 in Hd.
  rewrite <- Hm2, <- Hm1. destruct r; split_and!; try done; try (intros; simplify_eq); lia.
Qed.

(** The three forms of a document. *)
Lemma nbt_reserves :
  let slack := MAX_PREALLOC_ELEMENTS * MAX_DEPTH in
  reserves_within slack read_network_root read_network_root
  /\ reserves_within slack read_named_root read_named_root
  /\ reserves_within slack read_optional_network_root read_optional_network_root.
Proof.
  split_and!.
  - eapply (reserves_within_intro _ _ _ _ _ pays_read_network_root); [done|done|apply sim_read_network_root|apply sim_read_network_root].
  - eapply (reserves_within_intro _ _ _ _ _ pays_read_named_root); [done|done|apply sim_read_named_root|apply sim_read_named_root].
  - eapply (reserves_within_intro _ _ _ _ _ pays_read_optional_network_root); [done|done|apply sim_read_optional_network_root|apply sim_read_optional_network_root].
Qed.
End NbtAccounts.
