(* ===== verification/NbtApi.v ===== *)
(** * What the public interface of [nbt] can build ([crates/nbt/src/lib.rs]).

    The fields of [NbtCompound] and [NbtList] are private: a value of theirs comes
    from a public function of the crate.  [api] closes the values of Rust's own
    types under those functions and under taking values apart, and the theorems
    show that every value so obtained keeps the invariants the codec needs. *)

From S2P Require Import Prelude Utf8 Buffers NbtTag NbtSpec NbtWrite NbtRead NbtCorrect.
From stdpp Require Import base list numbers sets strings.
From Stdlib Require Import Strings.Byte.

Open Scope Z_scope.

(** A value of one of the three public types. *)
Inductive Value :=
  | Value_tag (t : NbtTag)
  | Value_list (l : NbtList)
  | Value_compound (c : NbtCompound).

(** A tag that holds no list and no compound. *)
Definition is_leaf (t : NbtTag) : bool :=
  match t with NbtTag_List _ | NbtTag_Compound _ => false | _ => true end.

Inductive api : Value -> Prop :=
  | api_leaf t : is_leaf t = true -> well_typed t = true -> api (Value_tag t)
  | api_from_list l : api (Value_list l) -> api (Value_tag (nbt_from_list l))
  | api_from_compound c : api (Value_compound c) -> api (Value_tag (nbt_from_compound c))
  | api_as_list l : api (Value_tag (NbtTag_List l)) -> api (Value_list l)
  | api_as_compound c : api (Value_tag (NbtTag_Compound c)) -> api (Value_compound c)
  | api_list_empty : api (Value_list list_empty)
  | api_list_new ts l :
      (forall t, t ∈ ts -> api (Value_tag t)) -> list_new ts = Ok l -> api (Value_list l)
  | api_item l t : api (Value_list l) -> t ∈ items l -> api (Value_tag t)
  | api_compound_new : api (Value_compound compound_new)
  | api_insert c name t :
      api (Value_compound c) -> Utf8.valid name = true -> api (Value_tag t) ->
      api (Value_compound (compound_insert c name t))
  | api_get c name t :
      api (Value_compound c) -> compound_get c name = Some t -> api (Value_tag t)
  | api_iter c e : api (Value_compound c) -> e ∈ entries c -> api (Value_tag (snd e))
  | api_read_network src c src' :
      read_network_root (B := list byte) src = (Ok c, src') -> api (Value_compound c)
  | api_read_named src name c src' :
      read_named_root (B := list byte) src = (Ok (name, c), src') -> api (Value_compound c)
  | api_read_optional src c src' :
      read_optional_network_root (B := list byte) src = (Ok (Some c), src') ->
      api (Value_compound c).

(** ** Well-formed values *)

Definition good (t : NbtTag) : bool := well_typed t && well_built t.
Definition all_good (t : NbtTag) : bool := every_tag (fun _ => good) 0 t.

Definition well_formed (v : Value) : bool :=
  match v with
  | Value_tag t => all_good t
  | Value_list l => all_good (NbtTag_List l)
  | Value_compound c => all_good (NbtTag_Compound c)
  end.

(** A property of tags alone does not depend on where a tree stands. *)
Lemma every_tag_anywhere P t : forall d d',
  every_tag (fun _ => P) d t = every_tag (fun _ => P) d' t.
Proof.
  induction t as [v|v|v|v|v|v|v|v|et ts IH|es IH|vs|vs] using NbtTag_tree_ind;
    intros d d'; cbn [every_tag items entries]; try done; f_equal; apply forallb_ext_Forall.
  - eapply Forall_impl; [exact IH|]. intros t Ht. apply Ht.
  - eapply Forall_impl; [exact IH|]. intros [n t] Ht. apply Ht.
Qed.

Lemma all_good_list l :
  all_good (NbtTag_List l)
  = forallb (fun t => bool_decide (tag_id t = element_type l)) (items l) && forallb all_good (items l).
Proof.
  unfold all_good. cbn [every_tag]. unfold good at 1. cbn [well_typed well_built andb]. f_equal.
  apply forallb_ext_Forall, Forall_forall. intros t _. apply every_tag_anywhere.
Qed.

Lemma all_good_compound c :
  all_good (NbtTag_Compound c)
  = bool_decide (NoDup (keys c))
    && forallb (fun '(name, t) => Utf8.valid name && all_good t) (entries c).
Proof.
  unfold all_good. cbn [every_tag]. unfold good at 1. cbn [well_typed well_built].
  rewrite (andb_comm _ (bool_decide _)), <- andb_assoc, <- forallb_andb. f_equal.
  apply forallb_ext_Forall, Forall_forall. intros [name t] _. f_equal. apply every_tag_anywhere.
Qed.

Lemma document_good c : document_typed c && document_built c = all_good (NbtTag_Compound c).
Proof. symmetry. apply (every_tag_andb (fun _ => well_typed) (fun _ => well_built)). Qed.

Lemma valid_document_good c : valid_document c = true -> all_good (NbtTag_Compound c) = true.
Proof. rewrite <- document_good. unfold valid_document. by intros [[? _]%andb_prop _]%andb_prop. Qed.

Lemma all_good_leaf t : is_leaf t = true -> all_good t = well_typed t.
Proof. unfold all_good, good. by destruct t; cbn [every_tag well_built]; rewrite ?andb_true_r. Qed.

Lemma insert_entries (P : list byte * NbtTag -> Prop) c name t :
  Forall P (entries c) -> P (name, t) -> Forall P (entries (compound_insert c name t)).
Proof.
  intros Hc Ht. unfold compound_insert. destruct (replace_first (entries c) name t) as [es|] eqn:E; cbn.
  - revert es E. induction Hc as [|[key v] es' He Hes' IH]; intros es; cbn; [done|].
    case_decide as Hk; [subst; by intros [= <-]; constructor|].
    destruct (replace_first es' name t); [|done]. intros [= <-]. constructor; auto.
  - by apply Forall_app_2; [|constructor].
Qed.

Lemma find_entry_in es name t : find_entry es name = Some t -> (name, t) ∈ es.
Proof.
  induction es as [|[key v] es IH]; cbn; [done|].
  case_decide; [intros [= ->]; subst; by left|]. intros ?. right. auto.
Qed.

Lemma forallb_elem_of {A} (f : A -> bool) l : forallb f l = true <-> forall x, x ∈ l -> f x = true.
Proof. rewrite forallb_forall. by setoid_rewrite list_elem_of_In. Qed.

(** One lemma for each way to obtain a value from others. *)

Lemma list_new_good ts l :
  (forall t, t ∈ ts -> all_good t = true) -> list_new ts = Ok l -> all_good (NbtTag_List l) = true.
Proof.
  intros Hts Hl. rewrite all_good_list. unfold list_new in Hl.
  destruct ts as [|first ts]; [by injection Hl as <-|].
  destruct (first_mismatch _ _) eqn:E; [done|]. injection Hl as <-. cbn [items element_type].
  apply first_mismatch_None in E. apply andb_true_intro. split; apply forallb_elem_of; [|done].
  intros t Ht. apply bool_decide_eq_true. by eapply Forall_forall in E.
Qed.

Lemma item_good l t : all_good (NbtTag_List l) = true -> t ∈ items l -> all_good t = true.
Proof.
  rewrite all_good_list. intros [_ Hl]%andb_prop. revert t. by apply forallb_elem_of.
Qed.

Lemma insert_good c name t :
  all_good (NbtTag_Compound c) = true -> Utf8.valid name = true -> all_good t = true ->
  all_good (NbtTag_Compound (compound_insert c name t)) = true.
Proof.
  rewrite !all_good_compound. intros [Hnd%bool_decide_eq_true_1 Hc]%andb_prop Hn Ht.
  apply andb_true_intro. split; [by apply bool_decide_eq_true_2, NoDup_keys_insert|].
  apply forallb_elem_of, Forall_forall. apply (insert_entries (fun e => (let '(name, t) := e in Utf8.valid name && all_good t) = true));
    [|by rewrite Hn, Ht].
  by apply Forall_forall, forallb_elem_of.
Qed.

Lemma entry_good c e :
  all_good (NbtTag_Compound c) = true -> e ∈ entries c -> all_good (snd e) = true.
Proof.
  rewrite all_good_compound. intros [_ Hc]%andb_prop He.
  rewrite forallb_elem_of in Hc. specialize (Hc e He). destruct e as [name t]. cbn in Hc. by apply andb_prop in Hc as [_ Hc].
Qed.

Lemma api_well_formed v : api v -> well_formed v = true.
Proof.
  induction 1 as [| | | | | |ts l _ IH Hl|l t _ IH Ht| | |c name t _ IH Ht|c e _ IH He
    |src c src' Hr|src name c src' Hr|src c src' Hr]; cbn [well_formed] in *; try done.
  - by rewrite all_good_leaf.
  - by eapply list_new_good.
  - by eapply item_good.
  - by apply insert_good.
  - apply find_entry_in in Ht. by apply (entry_good c (name, t)).
  - by eapply entry_good.
  - apply (wp_ok _ _ _ _ _ (wp_network_root src)) in Hr as [_ Hr]. by apply valid_document_good.
  - apply (wp_ok _ _ _ _ _ (wp_named_root src)) in Hr as (_ & _ & Hr). by apply valid_document_good.
  - apply (wp_ok _ _ _ _ _ (wp_optional_root src)) in Hr as [_ Hr]. by apply valid_document_good.
Qed.

(** ** Properties *)

(** C25: the private fields do their job: every tag, list and compound obtained
    from the crate's public functions is well formed, at every depth.  Integers
    are in range and strings are UTF-8, a list's items all have its declared
    type, and no compound repeats a name. *)
Theorem api_values_well_formed (v : Value) (Hv : api v) : well_formed v = true.
Proof. by apply api_well_formed. Qed.

(** C23: hence every document a user of the crate can hold, once written, reads
    back: when [write_network_root] accepts it and it is within the tag budget,
    the bytes written read as the same document and nothing after them is
    consumed. *)
Theorem api_document_round_trip {BW BR} `{BufMutLaws BW} `{BufLaws BR} (dst dst' : BW) (src : BR)
    (c : NbtCompound) (bs rest : list byte)
    (Hc : api (Value_compound c)) (Hsmall : document_small c = true)
    (Hwrite : write_network_root c dst = (Ok tt, dst'))
    (Hbs : written dst' = written dst ++ bs) (Hsrc : view src = bs ++ rest) :
  exists src', read_network_root src = (Ok c, src') /\ view src' = rest.
Proof.
  apply api_well_formed in Hc. cbn [well_formed] in Hc. rewrite <- document_good in Hc.
  apply andb_prop in Hc as [Htyped Hbuilt]. by eapply nbt_round_trip.
Qed.

(** ** Witnesses *)

(** A document built through the interface. *)
Definition built_document : NbtCompound :=
  compound_insert (compound_insert compound_new (bytes_of "k") (NbtTag_Byte 7))
    (bytes_of "l") (nbt_from_list (mkList TagId_Int [NbtTag_Int 1; NbtTag_Int 2])).

Lemma built_document_api : api (Value_compound built_document).
Proof.
  apply api_insert; [apply api_insert; [apply api_compound_new|done|by apply api_leaf]|done|].
  apply api_from_list, (api_list_new [NbtTag_Int 1; NbtTag_Int 2]); [|done].
  intros t [->| [->|Ht]%elem_of_cons]%elem_of_cons; [by apply api_leaf..|by apply elem_of_nil in Ht].
Qed.

Lemma api_values_well_formed_witness : all_good (NbtTag_Compound built_document) = true.
Proof. apply (api_values_well_formed (Value_compound built_document)). apply built_document_api. Defined.

Lemma api_document_round_trip_witness :
  exists src' : list byte,
    read_network_root (enc_network built_document) = (Ok built_document, src') /\ view src' = [].
Proof.
  apply (api_document_round_trip [] (enc_network built_document) (enc_network built_document)
    built_document (enc_network built_document) []).
  - apply built_document_api.
  - vm_compute. reflexivity.
  - vm_compute. reflexivity.
  - vm_compute. reflexivity.
  - vm_compute. reflexivity.
Defined.
