(* ===== verification/NbtTests.v ===== *)
(** * The unit tests of the [nbt] crate, run on the model
    ([crates/nbt/src/tag.rs], [macros.rs], [write.rs], [read.rs]).

    Each test of the source is a proposition under its own name, with its
    fixtures, its buffers and every assertion; the proof evaluates it.  The tests
    whose documents have tens of thousands of tags are in [NbtLargeTests], with
    proofs by the lemmas of [NbtCorrect] and [NbtLimits]. *)

From S2P Require Import Prelude Utf8 Buffers NbtTag NbtWrite NbtRead Testing.
From stdpp Require Import base list numbers strings.
From Stdlib Require Import Strings.Byte.

Open Scope Z_scope.
Open Scope test_scope.

(** ** [tag.rs] *)

Module TagTests.

Definition tag_ids_match_the_documented_numbering : Prop :=
  for_all (fun '(id, expected) =>
      tag_id_try_from id = Ok expected /\ tag_id_u8 expected = id)
    [(0, TagId_End); (1, TagId_Byte); (2, TagId_Short); (3, TagId_Int); (4, TagId_Long);
     (5, TagId_Float); (6, TagId_Double); (7, TagId_ByteArray); (8, TagId_String);
     (9, TagId_List); (10, TagId_Compound); (11, TagId_IntArray); (12, TagId_LongArray)].

Definition unknown_tag_ids_are_rejected : Prop :=
  for_all (fun id => tag_id_try_from id = Err (NbtError_UnknownTag id)) [13; 14; 200; 255].

(** [1.0] as a float and as a double. *)
Definition every_tag_reports_its_wire_id : Prop :=
  for_all (fun '(tag, expected) => tag_id tag = expected)
    [(NbtTag_Byte 1, TagId_Byte); (NbtTag_Short 1, TagId_Short); (NbtTag_Int 1, TagId_Int);
     (NbtTag_Long 1, TagId_Long); (NbtTag_Float 0x3f800000, TagId_Float);
     (NbtTag_Double 0x3ff0000000000000, TagId_Double); (NbtTag_ByteArray [], TagId_ByteArray);
     (NbtTag_String [], TagId_String); (NbtTag_List list_empty, TagId_List);
     (NbtTag_Compound compound_new, TagId_Compound); (NbtTag_IntArray [], TagId_IntArray);
     (NbtTag_LongArray [], TagId_LongArray)].

Definition compounds_preserve_insertion_order : Prop :=
  let compound := compound_new in
  let compound := compound_insert compound (bytes_of "zebra") (NbtTag_Int 1) in
  let compound := compound_insert compound (bytes_of "apple") (NbtTag_Int 2) in
  let compound := compound_insert compound (bytes_of "mango") (NbtTag_Int 3) in
  keys compound = map bytes_of ["zebra"; "apple"; "mango"]%string.

Definition inserting_an_existing_key_replaces_it_in_place : Prop :=
  let compound := compound_new in
  let compound := compound_insert compound (bytes_of "a") (NbtTag_Int 1) in
  let compound := compound_insert compound (bytes_of "b") (NbtTag_Int 2) in
  let compound := compound_insert compound (bytes_of "a") (NbtTag_Int 99) in
  compound_len compound = 2
  /\ compound_get compound (bytes_of "a") = Some (NbtTag_Int 99)
  /\ keys compound = map bytes_of ["a"; "b"]%string.

Definition compound_lookup_finds_and_misses : Prop :=
  let compound := compound_insert compound_new (bytes_of "present") (NbtTag_String (bytes_of "yes")) in
  compound_get compound (bytes_of "present") = Some (NbtTag_String (bytes_of "yes"))
  /\ compound_get compound (bytes_of "absent") = None.

Definition an_empty_list_declares_the_end_type : Prop :=
  element_type list_empty = TagId_End /\ list_is_empty list_empty = true.

Definition a_homogeneous_list_infers_its_element_type : Prop :=
  unwrapped (list_new [NbtTag_Int 1; NbtTag_Int 2]) (fun list =>
    element_type list = TagId_Int /\ list_len list = 2).

Definition a_heterogeneous_list_cannot_be_constructed : Prop :=
  list_new [NbtTag_Int 1; NbtTag_String (bytes_of "x")]
    matches Err (NbtError_HeterogeneousList TagId_Int TagId_String).

(** [1.5] as a float and as a double. *)
Definition conversions_produce_the_expected_variants : Prop :=
  nbt_from_i8 1 = NbtTag_Byte 1
  /\ nbt_from_i16 1 = NbtTag_Short 1
  /\ nbt_from_i32 1 = NbtTag_Int 1
  /\ nbt_from_i64 1 = NbtTag_Long 1
  /\ nbt_from_f32 0x3fc00000 = NbtTag_Float 0x3fc00000
  /\ nbt_from_f64 0x3ff8000000000000 = NbtTag_Double 0x3ff8000000000000
  /\ nbt_from_str (bytes_of "x") = NbtTag_String (bytes_of "x")
  /\ nbt_from_string (bytes_of "x") = NbtTag_String (bytes_of "x")
  /\ nbt_from_vec_i32 [1] = NbtTag_IntArray [1]
  /\ nbt_from_vec_i64 [1] = NbtTag_LongArray [1].

Example the_tag_tests_pass :
  tag_ids_match_the_documented_numbering
  /\ unknown_tag_ids_are_rejected
  /\ every_tag_reports_its_wire_id
  /\ compounds_preserve_insertion_order
  /\ inserting_an_existing_key_replaces_it_in_place
  /\ compound_lookup_finds_and_misses
  /\ an_empty_list_declares_the_end_type
  /\ a_homogeneous_list_infers_its_element_type
  /\ a_heterogeneous_list_cannot_be_constructed
  /\ conversions_produce_the_expected_variants.
Proof. run_tests. Qed.

End TagTests.

(** ** [macros.rs] *)

Module MacroTests.

Definition compound_builds_an_equivalent_value : Prop :=
  let built := compound_macro
    [(bytes_of "name", nbt_from_str (bytes_of "minecraft:overworld")); (bytes_of "id", nbt_from_i32 0)] in
  let expected := compound_new in
  let expected := compound_insert expected (bytes_of "name") (nbt_from_str (bytes_of "minecraft:overworld")) in
  let expected := compound_insert expected (bytes_of "id") (nbt_from_i32 0) in
  built = expected.

Definition compound_nests : Prop :=
  let built := compound_macro
    [(bytes_of "element", nbt_from_compound (compound_macro
       [(bytes_of "has_skylight", nbt_from_i8 1); (bytes_of "height", nbt_from_i32 384)]))] in
  match compound_get built (bytes_of "element") with
  | Some (NbtTag_Compound inner) => compound_get inner (bytes_of "height") = Some (NbtTag_Int 384)
  | _ => False
  end.

Definition an_empty_compound_is_valid : Prop := compound_macro [] = compound_new.

Definition compound_accepts_a_trailing_comma : Prop :=
  compound_len (compound_macro [(bytes_of "a", nbt_from_i32 1)]) = 1.

Definition list_builds_a_homogeneous_list : Prop :=
  unwrapped (list_macro [nbt_from_i32 1; nbt_from_i32 2; nbt_from_i32 3]) (fun built =>
    list_len built = 3 /\ items built !! 0%nat = Some (NbtTag_Int 1)).

Definition an_empty_list_macro_is_valid : Prop :=
  unwrapped (list_macro []) (fun built => list_is_empty built = true).

Definition list_rejects_mixed_types : Prop :=
  list_macro [nbt_from_i32 1; nbt_from_str (bytes_of "two")] matches Err _.

Example the_macro_tests_pass :
  compound_builds_an_equivalent_value
  /\ compound_nests
  /\ an_empty_compound_is_valid
  /\ compound_accepts_a_trailing_comma
  /\ list_builds_a_homogeneous_list
  /\ an_empty_list_macro_is_valid
  /\ list_rejects_mixed_types.
Proof. run_tests. Qed.

End MacroTests.

(** ** [write.rs] *)

Module WriteTests.

Definition a_network_root_omits_the_name : Prop :=
  buffer (write_network_root compound_new) (fun buf => buf = octets [0x0a; 0x00]).

Definition a_named_root_includes_the_name : Prop :=
  buffer (write_named_root (bytes_of "hi") compound_new) (fun buf =>
    buf = octets [0x0a; 0x00; 0x02] ++ bytes_of "hi" ++ octets [0x00]).

Definition a_compound_with_one_int_matches_the_documented_layout : Prop :=
  let inner := compound_insert compound_new (bytes_of "a") (nbt_from_i32 123) in
  let root := compound_insert compound_new (bytes_of "num") (nbt_from_compound inner) in
  buffer (write_network_root root) (fun buf =>
    buf = octets [0x0a]
          ++ octets [0x0a; 0x00; 0x03] ++ bytes_of "num"
          ++ octets [0x03; 0x00; 0x01] ++ bytes_of "a" ++ octets [0x00; 0x00; 0x00; 0x7b]
          ++ octets [0x00]
          ++ octets [0x00]).

Definition scalars_are_big_endian : Prop :=
  let root := compound_new in
  let root := compound_insert root (bytes_of "s") (nbt_from_i16 0x0102) in
  let root := compound_insert root (bytes_of "l") (nbt_from_i64 0x0102030405060708) in
  buffer (write_network_root root) (fun buf =>
    slice 5 7 buf = octets [0x01; 0x02]
    /\ slice 11 19 buf = octets [0x01; 0x02; 0x03; 0x04; 0x05; 0x06; 0x07; 0x08]).

Definition an_empty_list_writes_the_end_type_and_a_zero_length : Prop :=
  let root := compound_insert compound_new (bytes_of "l") (nbt_from_list list_empty) in
  buffer (write_network_root root) (fun buf =>
    buf = octets [0x0a]
          ++ octets [0x09; 0x00; 0x01] ++ bytes_of "l"
          ++ octets [0x00]
          ++ octets [0x00; 0x00; 0x00; 0x00]
          ++ octets [0x00]).

Definition a_list_writes_its_type_once_and_bare_payloads : Prop :=
  unwrapped (list_new [NbtTag_Byte 7; NbtTag_Byte 8]) (fun list =>
    let root := compound_insert compound_new (bytes_of "l") (nbt_from_list list) in
    buffer (write_network_root root) (fun buf =>
      buf = octets [0x0a]
            ++ octets [0x09; 0x00; 0x01] ++ bytes_of "l"
            ++ octets [0x01]
            ++ octets [0x00; 0x00; 0x00; 0x02]
            ++ octets [0x07; 0x08]
            ++ octets [0x00])).

Definition arrays_write_a_signed_length_then_elements : Prop :=
  let root := compound_insert compound_new (bytes_of "i") (nbt_from_vec_i32 [1; -1]) in
  buffer (write_network_root root) (fun buf =>
    buf = octets [0x0a]
          ++ octets [0x0b; 0x00; 0x01] ++ bytes_of "i"
          ++ octets [0x00; 0x00; 0x00; 0x02]
          ++ octets [0x00; 0x00; 0x00; 0x01]
          ++ octets [0xff; 0xff; 0xff; 0xff]
          ++ octets [0x00]).

Definition a_string_longer_than_the_length_prefix_allows_is_rejected : Prop :=
  let root := compound_insert compound_new (bytes_of "s") (nbt_from_string (repeat x78 (Z.to_nat 65536))) in
  fst (write_network_root root []) matches Err (NbtError_StringTooLong 65536).

Definition a_name_longer_than_the_length_prefix_allows_is_rejected : Prop :=
  let root := compound_insert compound_new (repeat x78 (Z.to_nat 70000)) (nbt_from_i32 1) in
  fst (write_network_root root []) matches Err (NbtError_StringTooLong _).

(** A byte leaf wrapped in [n] compounds. *)
Definition wrapped (n : Z) : NbtCompound :=
  Nat.iter (Z.to_nat n)
    (fun root => compound_insert compound_new (bytes_of "x") (nbt_from_compound root))
    (compound_insert compound_new (bytes_of "leaf") (nbt_from_i8 1)).

Definition writing_beyond_the_depth_limit_is_rejected : Prop :=
  fst (write_network_root (wrapped (MAX_DEPTH + 10)) []) = Err (NbtError_DepthExceeded MAX_DEPTH).

Definition writing_within_the_depth_limit_succeeds : Prop :=
  fst (write_network_root (wrapped (MAX_DEPTH - 2)) []) matches Ok _.

Example the_write_tests_pass :
  a_network_root_omits_the_name
  /\ a_named_root_includes_the_name
  /\ a_compound_with_one_int_matches_the_documented_layout
  /\ scalars_are_big_endian
  /\ an_empty_list_writes_the_end_type_and_a_zero_length
  /\ a_list_writes_its_type_once_and_bare_payloads
  /\ arrays_write_a_signed_length_then_elements
  /\ a_string_longer_than_the_length_prefix_allows_is_rejected
  /\ a_name_longer_than_the_length_prefix_allows_is_rejected
  /\ writing_beyond_the_depth_limit_is_rejected
  /\ writing_within_the_depth_limit_succeeds.
Proof. run_tests. Qed.

End WriteTests.

(** ** [read.rs] *)

Module ReadTests.

(** The fixture [sample]: a document with every tag type.  [1.5] and [-2.5] by their bits. *)
Definition sample_document : NbtCompound :=
  let inner := compound_insert compound_new (bytes_of "nested") (nbt_from_i8 1) in
  let root := compound_new in
  let root := compound_insert root (bytes_of "byte") (nbt_from_i8 1) in
  let root := compound_insert root (bytes_of "short") (nbt_from_i16 (-2)) in
  let root := compound_insert root (bytes_of "int") (nbt_from_i32 3) in
  let root := compound_insert root (bytes_of "long") (nbt_from_i64 (-4)) in
  let root := compound_insert root (bytes_of "float") (nbt_from_f32 0x3fc00000) in
  let root := compound_insert root (bytes_of "double") (nbt_from_f64 0xc004000000000000) in
  let root := compound_insert root (bytes_of "bytes") (nbt_from_bytes (octets [1; 2; 3])) in
  let root := compound_insert root (bytes_of "string") (nbt_from_str (bytes_of "hello")) in
  let root := compound_insert root (bytes_of "list")
    (nbt_from_list match list_new [NbtTag_Int 1; NbtTag_Int 2] with Ok l => l | _ => list_empty end) in
  let root := compound_insert root (bytes_of "empty_list") (nbt_from_list list_empty) in
  let root := compound_insert root (bytes_of "compound") (nbt_from_compound inner) in
  let root := compound_insert root (bytes_of "ints") (nbt_from_vec_i32 [1; -1]) in
  compound_insert root (bytes_of "longs") (nbt_from_vec_i64 [1; -1]).

Definition every_tag_type_round_trips_as_a_value : Prop :=
  let original := sample_document in
  buffer (write_network_root original) (fun buf =>
    unwrapped_with (read_network_root buf) (fun decoded src =>
      decoded = original /\ src = [])).

Definition every_tag_type_round_trips_as_bytes : Prop :=
  buffer (write_network_root sample_document) (fun buf =>
    unwrapped_with (read_network_root buf) (fun decoded _ =>
      buffer (write_network_root decoded) (fun reencoded => reencoded = buf))).

Definition a_named_root_round_trips_with_its_name : Prop :=
  buffer (write_named_root (bytes_of "root") sample_document) (fun buf =>
    unwrapped_with (read_named_root buf) (fun '(name, decoded) _ =>
      name = bytes_of "root" /\ decoded = sample_document)).

Definition reading_a_named_document_as_a_network_one_silently_misreads_it : Prop :=
  buffer (write_named_root (bytes_of "root") sample_document) (fun buf =>
    unwrapped_with (read_network_root buf) (fun misread _ =>
      misread <> sample_document /\ compound_is_empty misread = true)).

Definition an_empty_compound_round_trips : Prop :=
  buffer (write_network_root compound_new) (fun buf =>
    unwrapped_with (read_network_root buf) (fun decoded _ => decoded = compound_new)).

Definition an_absent_optional_document_is_none : Prop :=
  unwrapped_with (read_optional_network_root (octets [0x00])) (fun decoded _ => decoded = None).

Definition a_present_optional_document_is_some : Prop :=
  buffer (write_network_root sample_document) (fun buf =>
    unwrapped_with (read_optional_network_root buf) (fun decoded _ => decoded = Some sample_document)).

Definition a_non_compound_root_is_rejected : Prop :=
  fst (read_network_root (octets [0x03; 0x00; 0x00; 0x00; 0x01]))
    matches Err (NbtError_RootNotCompound TagId_Int).

Definition an_unknown_tag_id_is_rejected : Prop :=
  fst (read_network_root (octets [0x0a; 0x7f; 0x00; 0x01] ++ bytes_of "x"))
    matches Err (NbtError_UnknownTag 0x7f).

Definition nesting_beyond_the_depth_limit_is_rejected : Prop :=
  buffer (E := NbtError)
    (do! put_u8 0x0a;
     for_each (fun _ => do! put_u8 0x0a; put_u16 0) (repeat tt (Z.to_nat (MAX_DEPTH + 10))))
    (fun buf => fst (read_network_root buf) = Err (NbtError_DepthExceeded MAX_DEPTH)).

Definition a_negative_array_length_is_rejected : Prop :=
  buffer (E := NbtError)
    (do! put_u8 0x0a; do! put_u8 0x0b; do! put_u16 1; do! put_slice (bytes_of "a"); put_i32 (-1))
    (fun buf => fst (read_network_root buf) matches Err (NbtError_NegativeLength (-1))).

Definition an_array_longer_than_the_input_is_rejected : Prop :=
  buffer (E := NbtError)
    (do! put_u8 0x0a; do! put_u8 0x0b; do! put_u16 1; do! put_slice (bytes_of "a");
     put_i32 2000000000)
    (fun buf => fst (read_network_root buf) matches Err (NbtError_LengthExceedsInput _ _)).

Definition a_list_longer_than_the_input_is_rejected : Prop :=
  buffer (E := NbtError)
    (do! put_u8 0x0a; do! put_u8 0x09; do! put_u16 1; do! put_slice (bytes_of "a");
     do! put_u8 0x0a; put_i32 2000000000)
    (fun buf => fst (read_network_root buf) matches Err (NbtError_LengthExceedsInput _ _)).

Definition a_non_empty_list_of_end_is_rejected : Prop :=
  buffer (E := NbtError)
    (do! put_u8 0x0a; do! put_u8 0x09; do! put_u16 1; do! put_slice (bytes_of "a");
     do! put_u8 0x00; put_i32 3)
    (fun buf => fst (read_network_root buf) matches Err (NbtError_InvalidListElementType TagId_End)).

Definition invalid_utf8_in_a_string_is_rejected : Prop :=
  buffer (E := NbtError)
    (do! put_u8 0x0a; do! put_u8 0x08; do! put_u16 1; do! put_slice (bytes_of "a");
     do! put_u16 2; put_slice (octets [0xff; 0xfe]))
    (fun buf => fst (read_network_root buf) matches Err (NbtError_InvalidUtf8 _)).

Definition a_document_may_be_followed_by_further_fields : Prop :=
  buffer (write_network_root sample_document) (fun buf =>
    unwrapped_with (read_network_root (buf ++ octets [0xab; 0xcd])) (fun decoded src =>
      decoded = sample_document /\ src = octets [0xab; 0xcd])).

Definition truncation_at_any_point_is_rejected : Prop :=
  buffer (write_network_root sample_document) (fun buf =>
    for_all (fun cut => fst (read_network_root (take cut buf)) matches Err _)
      (seq 1 (length buf - 1))).

Definition a_document_within_the_node_budget_still_decodes : Prop :=
  buffer (E := NbtError)
    (do! put_u8 0x0a; do! put_u8 0x09; do! put_u16 1; do! put_slice (bytes_of "l");
     do! put_u8 0x0a; do! put_i32 1000;
     do! for_each (fun _ => put_u8 0x00) (repeat tt (Z.to_nat 1000));
     put_u8 0x00)
    (fun buf => unwrapped_with (read_network_root buf) (fun decoded _ =>
      match compound_get decoded (bytes_of "l") with
      | Some (NbtTag_List list) => list_len list = 1000
      | _ => False
      end)).

Example the_read_tests_pass :
  every_tag_type_round_trips_as_a_value
  /\ every_tag_type_round_trips_as_bytes
  /\ a_named_root_round_trips_with_its_name
  /\ reading_a_named_document_as_a_network_one_silently_misreads_it
  /\ an_empty_compound_round_trips
  /\ an_absent_optional_document_is_none
  /\ a_present_optional_document_is_some
  /\ a_non_compound_root_is_rejected
  /\ an_unknown_tag_id_is_rejected
  /\ nesting_beyond_the_depth_limit_is_rejected
  /\ a_negative_array_length_is_rejected
  /\ an_array_longer_than_the_input_is_rejected
  /\ a_list_longer_than_the_input_is_rejected
  /\ a_non_empty_list_of_end_is_rejected
  /\ invalid_utf8_in_a_string_is_rejected
  /\ a_document_may_be_followed_by_further_fields
  /\ truncation_at_any_point_is_rejected
  /\ a_document_within_the_node_budget_still_decodes.
Proof. run_tests. Qed.

End ReadTests.
