(* ===== verification/ProtocolError.v ===== *)
(** * The protocol's shared types ([crates/protocol/src/error.rs]).

    The connection states, the directions and every error of the protocol
    crate.  The errors of [serde_json] and [std::io] are known to the program
    only by what they report, and are modelled by that message. *)

From S2P Require Import Prelude Utf8 NbtTag.
From stdpp Require Import base list numbers strings.
From Stdlib Require Import Strings.Byte.

Open Scope Z_scope.

Inductive State :=
  | State_Handshaking
  | State_Status
  | State_Login
  | State_Configuration
  | State_Play.

#[export] Instance State_eq_dec : EqDecision State.
Proof. solve_decision. Defined.

(** [impl fmt::Display for State]. *)
Definition state_display (s : State) : list byte :=
  match s with
  | State_Handshaking => bytes_of "handshaking"
  | State_Status => bytes_of "status"
  | State_Login => bytes_of "login"
  | State_Configuration => bytes_of "configuration"
  | State_Play => bytes_of "play"
  end.

Inductive Direction := Direction_Serverbound | Direction_Clientbound.

#[export] Instance Direction_eq_dec : EqDecision Direction.
Proof. solve_decision. Defined.

(** [impl fmt::Display for Direction]. *)
Definition direction_display (d : Direction) : list byte :=
  match d with
  | Direction_Serverbound => bytes_of "serverbound"
  | Direction_Clientbound => bytes_of "clientbound"
  end.

Inductive ProtocolError :=
  | ProtocolError_VarIntTooLong (max : Z)
  | ProtocolError_UnexpectedEof
  | ProtocolError_NegativeLength (length : Z)
  | ProtocolError_FrameTooLarge (length max : Z)
  | ProtocolError_StringTooLong (length max : Z)
  | ProtocolError_ArrayTooLong (length max : Z)
  | ProtocolError_InvalidBoolean (byte : Z)
  | ProtocolError_CompressedSizeMismatch (declared actual : Z)
  | ProtocolError_Decompression (reason : list byte)
  | ProtocolError_Nbt (e : NbtError)
  | ProtocolError_CompressedBelowThreshold (data_length threshold : Z)
  | ProtocolError_InvalidUtf8 (e : Utf8Error)
  | ProtocolError_InvalidNextState (value : Z)
  | ProtocolError_Json (e : list byte)
  | ProtocolError_Io (e : list byte)
  | ProtocolError_TrailingBytes (remaining : Z).
