(* ===== verification/Varint.v ===== *)
(** * VarInt and VarLong ([crates/protocol/src/varint.rs]).

    The source writes each codec twice, over [u32] and over [u64]; here one
    loop is given the width.  Every loop of the readers is bounded by the
    maximum length; the writer's unbounded [loop] takes as fuel the maximum
    length, which is proved enough. *)

From S2P Require Import Prelude Buffers ProtocolError.
From stdpp Require Import base list numbers.
From Stdlib Require Import Strings.Byte.

Open Scope Z_scope.

Definition MAX_VARINT_LEN : Z := 5.
Definition MAX_VARLONG_LEN : Z := 10.
Definition CONTINUATION_BIT : Z := 128.
Definition PAYLOAD_MASK : Z := 127.

Section Write.
Context {B : Type} `{BufMut B}.

(** The [loop] of the writers: [remaining] is a [w]-bit unsigned integer. *)
Fixpoint write_var_loop (w : Z) (fuel : nat) (remaining : Z) : M B ProtocolError unit :=
  match fuel with
  | O => diverge
  | S fuel' =>
    if Z.land remaining (wrap w (Z.lnot PAYLOAD_MASK)) =? 0 then put_u8 (wrap 8 remaining)
    else
      do! put_u8 (Z.lor (Z.land (wrap 8 remaining) PAYLOAD_MASK) CONTINUATION_BIT);
      write_var_loop w fuel' (Z.shiftr remaining 7)
  end.

Definition write_varint (value : Z) : M B ProtocolError unit :=
  write_var_loop 32 (Z.to_nat MAX_VARINT_LEN) (wrap 32 value).

Definition write_varlong (value : Z) : M B ProtocolError unit :=
  write_var_loop 64 (Z.to_nat MAX_VARLONG_LEN) (wrap 64 value).
End Write.

Section Read.
Context {B : Type} `{Buf B}.

(** [for index in index..index + n], then the error of an unfinished loop. *)
Fixpoint read_var_loop (w max : Z) (n : nat) (index result : Z) : M B ProtocolError Z :=
  match n with
  | O => throw (ProtocolError_VarIntTooLong max)
  | S n' =>
    let! more := has_remaining in
    if negb more then throw ProtocolError_UnexpectedEof
    else
      let! byte := get_u8 in
      let result :=
        Z.lor result (wrap w (Z.shiftl (Z.land byte PAYLOAD_MASK) (7 * index))) in
      if Z.land byte CONTINUATION_BIT =? 0 then ret (sign w result)
      else read_var_loop w max n' (index + 1) result
  end.

Definition read_varint : M B ProtocolError Z :=
  read_var_loop 32 MAX_VARINT_LEN (Z.to_nat MAX_VARINT_LEN) 0 0.

Definition read_varlong : M B ProtocolError Z :=
  read_var_loop 64 MAX_VARLONG_LEN (Z.to_nat MAX_VARLONG_LEN) 0 0.
End Read.

(** The loop of [read_varint_slice]: it indexes [src] and consumes nothing. *)
Fixpoint read_varint_slice_loop (src : list byte) (n : nat) (index : nat) (result : Z) :
    outcome ProtocolError (option (Z * Z)) :=
  match n with
  | O => Err (ProtocolError_VarIntTooLong MAX_VARINT_LEN)
  | S n' =>
    match src !! index with
    | None => Ok None
    | Some b =>
      let byte := byte_val b in
      let result :=
        Z.lor result (wrap 32 (Z.shiftl (Z.land byte PAYLOAD_MASK) (7 * Z.of_nat index))) in
      if Z.land byte CONTINUATION_BIT =? 0
      then Ok (Some (sign 32 result, Z.of_nat index + 1))
      else read_varint_slice_loop src n' (S index) result
    end
  end.

Definition read_varint_slice (src : list byte) : outcome ProtocolError (option (Z * Z)) :=
  read_varint_slice_loop src (Z.to_nat MAX_VARINT_LEN) 0 0.

Definition varint_len (value : Z) : Z :=
  let u := wrap 32 value in
  if u <=? 127 then 1
  else if u <=? 16383 then 2
  else if u <=? 2097151 then 3
  else if u <=? 268435455 then 4
  else 5.

(** The documented vectors the tests of the source pin. *)
Definition VARINT_VECTORS : list (Z * list Z) := [
  (0, [0]); (1, [1]); (2, [2]); (127, [127]); (128, [128; 1]); (255, [255; 1]);
  (25565, [221; 199; 1]); (2097151, [255; 255; 127]);
  (2147483647, [255; 255; 255; 255; 7]);
  (-1, [255; 255; 255; 255; 15]);
  (-2147483648, [128; 128; 128; 128; 8])].

Definition VARLONG_VECTORS : list (Z * list Z) := [
  (0, [0]); (127, [127]); (2147483647, [255; 255; 255; 255; 7]);
  (9223372036854775807, [255; 255; 255; 255; 255; 255; 255; 255; 127]);
  (-1, [255; 255; 255; 255; 255; 255; 255; 255; 255; 1]);
  (-9223372036854775808, [128; 128; 128; 128; 128; 128; 128; 128; 128; 1])].

(** ** The reference encoding: little-endian base 128 *)

(** At most [n] digits of [u], each but the last marked by its high bit. *)
Fixpoint leb128 (n : nat) (u : Z) : list byte :=
  match n with
  | O => []
  | S n' => if u <? 128 then [byte_of u] else byte_of (128 + u mod 128) :: leb128 n' (u / 128)
  end.

Definition enc_varint (value : Z) : list byte := leb128 5 (wrap 32 value).
Definition enc_varlong (value : Z) : list byte := leb128 10 (wrap 64 value).

(** What the first [n] bytes hold: the digits up to the first unmarked one and
    how many they are, a sequence the input cuts short, or one that is too
    long. *)
Inductive scanned := Scan_done (u : Z) (k : nat) | Scan_partial | Scan_long.

Fixpoint scan (n : nat) (bs : list byte) : scanned :=
  match n, bs with
  | O, _ => Scan_long
  | S _, [] => Scan_partial
  | S n', b :: bs' =>
    if byte_val b <? 128 then Scan_done (byte_val b) 1
    else match scan n' bs' with
         | Scan_done u k => Scan_done (byte_val b - 128 + 128 * u) (S k)
         | r => r
         end
  end.

(** ** Bits *)

Lemma land_payload b : 0 <= b -> Z.land b PAYLOAD_MASK = b mod 128.
Proof. intros. unfold PAYLOAD_MASK. change 127 with (Z.ones 7). by rewrite Z.land_ones. Qed.

Lemma lor_disjoint a b k : 0 <= k -> 0 <= a < 2 ^ k -> Z.lor a (b * 2 ^ k) = a + b * 2 ^ k.
Proof.
  intros Hk Ha. assert (Z.land a (b * 2 ^ k) = 0) as Hd.
  { apply Z.bits_inj'. intros i Hi. rewrite Z.land_spec, Z.bits_0.
    destruct (Z.lt_ge_cases i k).
    - rewrite Z.mul_pow2_bits_low by done. apply andb_false_r.
    - destruct (Z.eq_dec a 0) as [->|]; [by rewrite Z.bits_0|].
      rewrite (Z.bits_above_log2 a i); [done|lia|].
      apply Z.log2_lt_pow2; [lia|]. pose proof (Z.pow_le_mono_r 2 k i). lia. }
  by rewrite <- Z.lxor_lor, <- Z.add_nocarry_lxor by done.
Qed.

Lemma wrap_shift w k x : 0 <= k <= w -> wrap w (x * 2 ^ k) = (x mod 2 ^ (w - k)) * 2 ^ k.
Proof.
  intros Hk. unfold wrap. replace w with (w - k + k) at 1 by lia. rewrite Z.pow_add_r by lia.
  apply Z.mul_mod_distr_r; pose proof (Z.pow_pos_nonneg 2 (w - k)); pose proof (Z.pow_pos_nonneg 2 k);
    lia.
Qed.

(** One step of a reader: the digits so far stay, the next goes above them. *)
Lemma or_digit w k res x :
  0 <= k <= w -> 0 <= res < 2 ^ k -> 0 <= x ->
  Z.lor res (wrap w (Z.shiftl x k)) = wrap w (res + x * 2 ^ k).
Proof.
  intros Hk Hr Hx. rewrite Z.shiftl_mul_pow2, wrap_shift, lor_disjoint by lia.
  rewrite <- wrap_shift by done. unfold wrap.
  pose proof (Z.pow_pos_nonneg 2 w). pose proof (Z.pow_le_mono_r 2 k w).
  rewrite <- (Z.mod_small (res + _) (2 ^ w)); [by rewrite Z.add_mod_idemp_r by lia|].
  change ((x * 2 ^ k) mod 2 ^ w) with (wrap w (x * 2 ^ k)). rewrite wrap_shift by lia.
  assert (2 ^ w = 2 ^ (w - k) * 2 ^ k) as -> by (rewrite <- Z.pow_add_r by lia; f_equal; lia).
  pose proof (Z.mod_pos_bound x (2 ^ (w - k)) ltac:(apply Z.pow_pos_nonneg; lia)). nia.
Qed.

Lemma land_continuation b : (Z.land (byte_val b) CONTINUATION_BIT =? 0) = (byte_val b <? 128).
Proof. by destruct b. Qed.

Lemma payload_byte b : byte_val b mod 128 = if byte_val b <? 128 then byte_val b else byte_val b - 128.
Proof. by destruct b. Qed.

(** The writers' test for the last digit. *)
Lemma land_above w r :
  7 <= w -> 0 <= r < 2 ^ w -> (Z.land r (wrap w (Z.lnot PAYLOAD_MASK)) =? 0) = (r <? 128).
Proof.
  intros Hw Hr. unfold wrap. rewrite <- Z.land_ones by lia.
  rewrite (Z.land_comm (Z.lnot _)), Z.land_assoc, Z.land_ones, (Z.mod_small r) by lia.
  change (Z.land r (Z.lnot PAYLOAD_MASK)) with (Z.land r (Z.lnot (Z.ones 7))).
  rewrite <- Z.ldiff_land, Z.ldiff_ones_r, Z.shiftl_mul_pow2, Z.shiftr_div_pow2 by lia.
  change (2 ^ 7) with 128. pose proof (Z.div_mod r 128). pose proof (Z.mod_pos_bound r 128).
  destruct (Z.ltb_spec r 128), (Z.eqb_spec (r / 128 * 128) 0); lia.
Qed.

Lemma digit_byte r :
  0 <= r -> Z.lor (Z.land (wrap 8 r) PAYLOAD_MASK) CONTINUATION_BIT = 128 + r mod 128.
Proof.
  intros Hr. rewrite land_payload by (apply wrap_range; lia).
  unfold wrap. change (2 ^ 8) with (128 * 2). rewrite Z.rem_mul_r by lia.
  rewrite Z.mul_comm, Z.mod_add by lia. rewrite Z.mod_mod by lia.
  pose proof (Z.mod_pos_bound r 128). change CONTINUATION_BIT with (1 * 2 ^ 7).
  rewrite lor_disjoint; change (2 ^ 7) with 128; lia.
Qed.

(** ** The loops against the reference *)

Lemma leb128_length n u : 0 <= u < 128 ^ Z.of_nat (S n) -> (1 <= length (leb128 (S n) u) <= S n)%nat.
Proof.
  revert u. induction n as [|n IH]; intros u Hu; cbn [leb128].
  - change (128 ^ Z.of_nat 1) with 128 in Hu. case_match; cbn; lia.
  - destruct (Z.ltb_spec u 128); cbn [length]; [lia|].
    assert (0 <= u / 128 < 128 ^ Z.of_nat (S n)) as Hd.
    { rewrite (Nat2Z.inj_succ (S n)), Z.pow_succ_r in Hu by lia. split; [apply Z.div_pos; lia|].
      apply Z.div_lt_upper_bound; lia. }
    specialize (IH _ Hd). cbn [leb128] in IH. lia.
Qed.

Lemma leb128_shortest n u k :
  0 <= u < 128 ^ Z.of_nat k -> (1 <= k <= n)%nat -> (length (leb128 n u) <= k)%nat.
Proof.
  revert u k. induction n as [|n IH]; intros u k Hu Hk; [lia|]. cbn [leb128].
  case_match; cbn [length]; [lia|]. destruct k as [|[|k]]; [lia| |].
  - change (128 ^ Z.of_nat 1) with 128 in Hu. lia.
  - apply le_n_S, IH; [|lia].
    rewrite (Nat2Z.inj_succ (S k)), Z.pow_succ_r in Hu by lia. split; [apply Z.div_pos; lia|].
    apply Z.div_lt_upper_bound; lia.
Qed.

Lemma byte_of_small z : 0 <= z < 256 -> byte_val (byte_of z) = z.
Proof. intros. rewrite byte_val_of. by apply Z.mod_small. Qed.

Lemma scan_leb128 n u rest :
  (0 < n)%nat -> 0 <= u < 128 ^ Z.of_nat n ->
  scan n (leb128 n u ++ rest) = Scan_done u (length (leb128 n u)).
Proof.
  revert u. induction n as [|n IH]; intros u Hn Hu; [lia|].
  - cbn [leb128]. destruct (Z.ltb_spec u 128) as [Hlt|Hge]; cbn [app scan length].
    + by rewrite byte_of_small, (proj2 (Z.ltb_lt _ _)) by lia.
    + pose proof (Z.mod_pos_bound u 128 ltac:(lia)).
      rewrite byte_of_small, (proj2 (Z.ltb_ge _ _)) by lia. rewrite IH.
      * f_equal. pose proof (Z.div_mod u 128). lia.
      * destruct n; [change (128 ^ Z.of_nat 1) with 128 in Hu; lia|lia].
      * rewrite Nat2Z.inj_succ, Z.pow_succ_r in Hu by lia. split; [apply Z.div_pos; lia|].
        apply Z.div_lt_upper_bound; lia.
Qed.

Lemma scan_done n bs u k :
  scan n bs = Scan_done u k -> 0 <= u < 128 ^ Z.of_nat k /\ (1 <= k <= n)%nat /\ (k <= length bs)%nat.
Proof.
  revert bs u k. induction n as [|n IH]; intros [|b bs] u k; cbn [scan]; try done.
  pose proof (byte_val_range b). destruct (Z.ltb_spec (byte_val b) 128).
  - intros [= <- <-]. cbn [length]. change (128 ^ Z.of_nat 1) with 128. lia.
  - destruct (scan n bs) as [u' k'| |] eqn:E; try done. intros [= <- <-].
    apply IH in E. cbn [length]. rewrite Nat2Z.inj_succ, Z.pow_succ_r by lia. lia.
Qed.

(** A sequence that is complete does not look past itself. *)
Lemma scan_done_take n bs u k rest :
  scan n bs = Scan_done u k -> scan n (take k bs ++ rest) = Scan_done u k.
Proof.
  revert bs u k. induction n as [|n IH]; intros [|b bs] u k; cbn [scan]; try done.
  destruct (byte_val b <? 128) eqn:Eb.
  - intros [= <- <-]. cbn. by rewrite Eb.
  - destruct (scan n bs) as [u' k'| |] eqn:E; try done. intros [= <- <-].
    cbn. by rewrite Eb, (IH _ _ _ E).
Qed.

(** A proper prefix of a complete sequence is partial. *)
Lemma scan_prefix n bs bs' u k :
  scan n (bs ++ bs') = Scan_done u k -> (length bs < k)%nat -> scan n bs = Scan_partial.
Proof.
  revert bs u k. induction n as [|n IH]; intros [|b bs] u k; cbn [scan app length]; try done.
  destruct (byte_val b <? 128); [intros [= <- <-]; lia|].
  destruct (scan n (bs ++ bs')) as [u' k'| |] eqn:E; try done. intros [= <- <-] Hk.
  rewrite (IH _ _ _ E); [done|lia].
Qed.

Lemma write_var_loop_spec w n u :
  7 <= w -> 0 <= u < 2 ^ w -> u < 128 ^ Z.of_nat n -> (0 < n)%nat ->
  forall out, write_var_loop w n u out = (Ok tt, out ++ leb128 n u).
Proof.
  intros Hw. revert u. induction n as [|n IH]; intros u Hu Hn Hpos out; [lia|].
  cbn [write_var_loop leb128]. rewrite land_above by done.
  destruct (Z.ltb_spec u 128) as [Hlt|Hge].
  - unfold put_u8, act. cbn [buf_put_u8 vec_buf]. unfold be_bytes. cbn. unfold wrap.
    rewrite Z.mod_small by lia. done.
  - rewrite digit_byte by lia. unfold bind, put_u8, act. cbn [buf_put_u8 vec_buf].
    unfold be_bytes at 1. cbn [app]. rewrite IH.
    + rewrite Z.shiftr_div_pow2 by lia. by rewrite <- app_assoc.
    + rewrite Z.shiftr_div_pow2 by lia. change (2 ^ 7) with 128. split; [apply Z.div_pos; lia|].
      apply Z.div_lt_upper_bound; lia.
    + rewrite Z.shiftr_div_pow2 by lia. change (2 ^ 7) with 128.
      rewrite Nat2Z.inj_succ, Z.pow_succ_r in Hn by lia. apply Z.div_lt_upper_bound; lia.
    + destruct n; [change (128 ^ Z.of_nat 1) with 128 in Hn; lia|lia].
Qed.

Lemma sign_wrap_idemp w x : 0 < w -> sign w (wrap w x) = sign w x.
Proof.
  intros. unfold sign, wrap. by rewrite Zplus_mod_idemp_l.
Qed.

Lemma read_var_loop_spec w max n : forall index res bs,
  0 <= index -> 7 * (index + Z.of_nat n - 1) <= w -> 0 < w -> 0 <= res < 2 ^ (7 * index) ->
  read_var_loop w max n index res bs =
  match scan n bs with
  | Scan_done u k => (Ok (sign w (res + u * 2 ^ (7 * index))), drop k bs)
  | Scan_partial => (Err ProtocolError_UnexpectedEof, [])
  | Scan_long => (Err (ProtocolError_VarIntTooLong max), drop n bs)
  end.
Proof.
  induction n as [|n IH]; intros index res bs Hi Hw Hw0 Hres; [done|].
  destruct bs as [|b bs]; [done|]. cbn [read_var_loop scan].
  change (bind has_remaining ?k (b :: bs)) with (k (0 <? len (b :: bs)) (b :: bs)).
  cbn beta. rewrite len_cons, (proj2 (Z.ltb_lt _ _)) by (pose proof (len_nonneg bs); lia).
  cbn [negb]. rewrite (bind_ok get_u8 _ _ (byte_val b) bs) by done.
  cbv zeta. rewrite land_continuation, land_payload by apply byte_val_range.
  pose proof (byte_val_range b) as Hb. pose proof (Z.mod_pos_bound (byte_val b) 128 ltac:(lia)).
  rewrite or_digit by lia. rewrite payload_byte.
  destruct (Z.ltb_spec (byte_val b) 128) as [Hlt|Hge].
  - unfold ret. by rewrite sign_wrap_idemp by lia.
  - destruct n as [|n].
    { cbn. by destruct bs. }
    assert (2 ^ (7 * (index + 1)) = 2 ^ (7 * index) * 128) as Hp.
    { replace (7 * (index + 1)) with (7 * index + 7) by lia. rewrite Z.pow_add_r by lia. done. }
    assert (wrap w (res + (byte_val b - 128) * 2 ^ (7 * index))
      = res + (byte_val b - 128) * 2 ^ (7 * index)) as ->.
    { apply Z.mod_small. pose proof (Z.pow_le_mono_r 2 (7 * (index + 1)) w). nia. }
    rewrite IH by nia. destruct (scan (S n) bs) as [u k| |]; try done.
    rewrite Hp. f_equal. do 2 f_equal. ring.
Qed.

Lemma read_varint_slice_loop_spec src n : forall index res,
  7 * (Z.of_nat (index + n) - 1) <= 32 -> 0 <= res < 2 ^ (7 * Z.of_nat index) ->
  read_varint_slice_loop src n index res =
  match scan n (drop index src) with
  | Scan_done u k =>
      Ok (Some (sign 32 (res + u * 2 ^ (7 * Z.of_nat index)), Z.of_nat (index + k)))
  | Scan_partial => Ok None
  | Scan_long => Err (ProtocolError_VarIntTooLong MAX_VARINT_LEN)
  end.
Proof.
  induction n as [|n IH]; intros index res Hw Hres; [done|]. cbn [read_varint_slice_loop].
  destruct (src !! index) as [b|] eqn:E.
  2: { rewrite drop_ge by by apply lookup_ge_None. done. }
  rewrite (drop_S _ _ _ E). cbn [scan]. cbv zeta.
  rewrite land_continuation, land_payload by apply byte_val_range.
  pose proof (byte_val_range b) as Hb. pose proof (Z.mod_pos_bound (byte_val b) 128 ltac:(lia)).
  rewrite or_digit by lia. rewrite payload_byte.
  destruct (Z.ltb_spec (byte_val b) 128) as [Hlt|Hge].
  - rewrite sign_wrap_idemp by lia. do 3 f_equal. lia.
  - destruct n as [|n]; [by destruct (drop (S index) src)|].
    assert (2 ^ (7 * Z.of_nat (S index)) = 2 ^ (7 * Z.of_nat index) * 128) as Hp.
    { replace (7 * Z.of_nat (S index)) with (7 * Z.of_nat index + 7) by lia.
      rewrite Z.pow_add_r by lia. done. }
    assert (wrap 32 (res + (byte_val b - 128) * 2 ^ (7 * Z.of_nat index))
      = res + (byte_val b - 128) * 2 ^ (7 * Z.of_nat index)) as ->.
    { apply Z.mod_small. pose proof (Z.pow_le_mono_r 2 (7 * Z.of_nat (S index)) 32). nia. }
    rewrite IH by nia. destruct (scan (S n) (drop (S index) src)) as [u k| |]; try done.
    rewrite Hp. do 3 f_equal; [f_equal; ring|lia].
Qed.

(** ** The codecs *)

(** [bs] is a VarInt that decodes to [v]: complete, of at most five bytes. *)
Definition varint_bytes (bs : list byte) (v : Z) : Prop :=
  exists u, scan 5 bs = Scan_done u (length bs) /\ v = sign 32 u.

Definition varlong_bytes (bs : list byte) (v : Z) : Prop :=
  exists u, scan 10 bs = Scan_done u (length bs) /\ v = sign 64 u.

Section Sims.
Context {BW BR : Type} `{BufMutLaws BW} `{BufLaws BR}.

Lemma sim_write_var_loop w fuel r :
  sim written (write_var_loop w fuel r) (write_var_loop w fuel r).
Proof. revert r. induction fuel; intros; cbn [write_var_loop]; simulate. Qed.

Lemma sim_write_varint v : sim written (write_varint v) (write_varint v).
Proof. apply sim_write_var_loop. Qed.

Lemma sim_write_varlong v : sim written (write_varlong v) (write_varlong v).
Proof. apply sim_write_var_loop. Qed.

Lemma sim_read_var_loop w max n index res :
  sim view (read_var_loop w max n index res) (read_var_loop w max n index res).
Proof. revert index res. induction n; intros; cbn [read_var_loop]; simulate. Qed.

Lemma sim_read_varint : sim view read_varint read_varint.
Proof. apply sim_read_var_loop. Qed.

Lemma sim_read_varlong : sim view read_varlong read_varlong.
Proof. apply sim_read_var_loop. Qed.
End Sims.

#[export] Hint Resolve sim_write_varint sim_write_varlong sim_read_varint sim_read_varlong : sim.

Lemma wrap32_digits v : 0 <= wrap 32 v < 128 ^ Z.of_nat 5.
Proof. pose proof (wrap_range 32 v ltac:(lia)). change (128 ^ Z.of_nat 5) with (2 ^ 35). lia. Qed.

Lemma wrap64_digits v : 0 <= wrap 64 v < 128 ^ Z.of_nat 10.
Proof. pose proof (wrap_range 64 v ltac:(lia)). change (128 ^ Z.of_nat 10) with (2 ^ 70). lia. Qed.

Lemma writes_varint P v : writes_if P true (write_varint v) (enc_varint v).
Proof.
  intros out. pose proof (wrap_range 32 v ltac:(lia)). pose proof (wrap32_digits v).
  apply (write_var_loop_spec 32 5); lia.
Qed.

Lemma writes_varlong P v : writes_if P true (write_varlong v) (enc_varlong v).
Proof.
  intros out. pose proof (wrap_range 64 v ltac:(lia)). pose proof (wrap64_digits v).
  apply (write_var_loop_spec 64 10); lia.
Qed.

Lemma read_varint_spec bs :
  read_varint bs =
  match scan 5 bs with
  | Scan_done u k => (Ok (sign 32 u), drop k bs)
  | Scan_partial => (Err ProtocolError_UnexpectedEof, [])
  | Scan_long => (Err (ProtocolError_VarIntTooLong MAX_VARINT_LEN), drop 5 bs)
  end.
Proof.
  unfold read_varint. rewrite read_var_loop_spec by (try done; lia).
  change (Z.to_nat MAX_VARINT_LEN) with 5%nat. destruct (scan 5 bs) as [u k| |]; try done.
  change (2 ^ (7 * 0)) with 1. by rewrite Z.add_0_l, Z.mul_1_r.
Qed.

Lemma read_varlong_spec bs :
  read_varlong bs =
  match scan 10 bs with
  | Scan_done u k => (Ok (sign 64 u), drop k bs)
  | Scan_partial => (Err ProtocolError_UnexpectedEof, [])
  | Scan_long => (Err (ProtocolError_VarIntTooLong MAX_VARLONG_LEN), drop 10 bs)
  end.
Proof.
  unfold read_varlong. rewrite read_var_loop_spec by (try done; lia).
  change (Z.to_nat MAX_VARLONG_LEN) with 10%nat. destruct (scan 10 bs) as [u k| |]; try done.
  change (2 ^ (7 * 0)) with 1. by rewrite Z.add_0_l, Z.mul_1_r.
Qed.

Lemma read_varint_slice_spec src :
  read_varint_slice src =
  match scan 5 src with
  | Scan_done u k => Ok (Some (sign 32 u, Z.of_nat k))
  | Scan_partial => Ok None
  | Scan_long => Err (ProtocolError_VarIntTooLong MAX_VARINT_LEN)
  end.
Proof.
  unfold read_varint_slice. rewrite read_varint_slice_loop_spec by (try done; lia).
  change (Z.to_nat MAX_VARINT_LEN) with 5%nat. rewrite drop_0.
  destruct (scan 5 src) as [u k| |]; try done.
  change (2 ^ (7 * Z.of_nat 0)) with 1. by rewrite Z.add_0_l, Z.mul_1_r.
Qed.

Lemma scan_enc_varint v rest :
  scan 5 (enc_varint v ++ rest) = Scan_done (wrap 32 v) (length (enc_varint v)).
Proof. apply scan_leb128; [lia|apply wrap32_digits]. Qed.

Lemma scan_enc_varlong v rest :
  scan 10 (enc_varlong v ++ rest) = Scan_done (wrap 64 v) (length (enc_varlong v)).
Proof. apply scan_leb128; [lia|apply wrap64_digits]. Qed.

Lemma varint_bytes_enc v : in_signed 32 v = true -> varint_bytes (enc_varint v) v.
Proof.
  intros Hv. exists (wrap 32 v). split; [|by rewrite sign_wrap by done].
  rewrite <- (app_nil_r (enc_varint v)) at 1. apply scan_enc_varint.
Qed.

Lemma varlong_bytes_enc v : in_signed 64 v = true -> varlong_bytes (enc_varlong v) v.
Proof.
  intros Hv. exists (wrap 64 v). split; [|by rewrite sign_wrap by done].
  rewrite <- (app_nil_r (enc_varlong v)) at 1. apply scan_enc_varlong.
Qed.

Lemma scan_done_app n bs u rest :
  scan n bs = Scan_done u (length bs) -> scan n (bs ++ rest) = Scan_done u (length bs).
Proof. intros Hs. rewrite <- (firstn_all bs) at 1. by apply scan_done_take. Qed.

Lemma parses_varint_bytes bs v : varint_bytes bs v -> parses read_varint bs v.
Proof.
  intros (u & Hs & ->) rest. rewrite read_varint_spec, (scan_done_app _ _ _ _ Hs).
  by rewrite drop_app_length.
Qed.

Lemma parses_varlong_bytes bs v : varlong_bytes bs v -> parses read_varlong bs v.
Proof.
  intros (u & Hs & ->) rest. rewrite read_varlong_spec, (scan_done_app _ _ _ _ Hs).
  by rewrite drop_app_length.
Qed.

Lemma parses_varint v : in_signed 32 v = true -> parses read_varint (enc_varint v) v.
Proof. intros. by apply parses_varint_bytes, varint_bytes_enc. Qed.

Lemma varint_bytes_signed bs v : varint_bytes bs v -> in_signed 32 v = true.
Proof. intros (u & _ & ->). by apply sign_range. Qed.

Lemma scan_done_front n bs u k :
  scan n bs = Scan_done u k -> scan n (take k bs) = Scan_done u (length (take k bs)).
Proof.
  intros Hs. pose proof (scan_done _ _ _ _ Hs) as (_ & _ & Hk).
  rewrite length_take_le by done. rewrite <- (app_nil_r (take k bs)). by apply scan_done_take.
Qed.

Lemma wp_read_varint l :
  wp read_varint (fun v l' => exists bs, l = bs ++ l' /\ varint_bytes bs v) l.
Proof.
  unfold wp. rewrite read_varint_spec. destruct (scan 5 l) as [u k| |] eqn:E; try done.
  exists (take k l). split; [by rewrite take_drop|]. exists u. split; [|done].
  by eapply scan_done_front.
Qed.

Lemma wp_read_varlong l :
  wp read_varlong (fun v l' => exists bs, l = bs ++ l' /\ varlong_bytes bs v) l.
Proof.
  unfold wp. rewrite read_varlong_spec. destruct (scan 10 l) as [u k| |] eqn:E; try done.
  exists (take k l). split; [by rewrite take_drop|]. exists u. split; [|done].
  by eapply scan_done_front.
Qed.

Lemma enc_varint_length v : (1 <= length (enc_varint v) <= 5)%nat.
Proof. apply leb128_length, wrap32_digits. Qed.

Lemma leb128_length_eq n u k :
  (1 <= k <= n)%nat -> 0 <= u < 128 ^ Z.of_nat n ->
  u < 128 ^ Z.of_nat k -> (k = 1%nat \/ 128 ^ (Z.of_nat k - 1) <= u) ->
  length (leb128 n u) = k.
Proof.
  intros Hk Hn Hu Hl. pose proof (leb128_shortest n u k ltac:(lia) Hk).
  pose proof (scan_leb128 n u [] ltac:(lia) Hn) as Hs. apply scan_done in Hs as (Hs & ? & _).
  destruct Hl as [->|Hl]; [lia|].
  destruct (Nat.lt_ge_cases (length (leb128 n u)) k) as [Hlt|]; [|lia].
  pose proof (Z.pow_le_mono_r 128 (Z.of_nat (length (leb128 n u))) (Z.of_nat k - 1)). lia.
Qed.

Lemma varint_len_enc v : varint_len v = len (enc_varint v).
Proof.
  unfold varint_len, enc_varint, len. cbv zeta.
  pose proof (wrap_range 32 v ltac:(lia)) as Hr. pose proof (wrap32_digits v).
  change (2 ^ 32) with 4294967296 in Hr.
  repeat case_match; symmetry;
    [change 1 with (Z.of_nat 1)|change 2 with (Z.of_nat 2)|change 3 with (Z.of_nat 3)
    |change 4 with (Z.of_nat 4)|change 5 with (Z.of_nat 5)];
    f_equal; apply leb128_length_eq; try lia; change (128 ^ Z.of_nat 1) with 128;
    change (128 ^ Z.of_nat 2) with 16384; change (128 ^ Z.of_nat 3) with 2097152;
    change (128 ^ Z.of_nat 4) with 268435456; change (128 ^ (Z.of_nat 2 - 1)) with 128;
    change (128 ^ (Z.of_nat 3 - 1)) with 16384; change (128 ^ (Z.of_nat 4 - 1)) with 2097152;
    change (128 ^ (Z.of_nat 5 - 1)) with 268435456; lia.
Qed.

(** What [write_varint] and [write_varlong] append, on every value and buffer. *)
Lemma write_varints_append {B} `{BufMutLaws B} (dst : B) (v w : Z) :
  (exists dst', write_varint v dst = (Ok tt, dst')
    /\ written dst' = written dst ++ enc_varint v /\ 1 <= len (enc_varint v) <= MAX_VARINT_LEN)
  /\ (exists dst', write_varlong w dst = (Ok tt, dst')
    /\ written dst' = written dst ++ enc_varlong w /\ 1 <= len (enc_varlong w) <= MAX_VARLONG_LEN).
Proof.
  pose proof (writes_through (fun _ => False) _ _ _ _ dst (sim_write_varint v) (writes_varint _ v)) as H1.
  pose proof (writes_through (fun _ => False) _ _ _ _ dst (sim_write_varlong w) (writes_varlong _ w)) as H2.
  pose proof (leb128_length 4 _ (wrap32_digits v)). pose proof (leb128_length 9 _ (wrap64_digits w)).
  unfold MAX_VARINT_LEN, MAX_VARLONG_LEN, len, enc_varint, enc_varlong.
  split.
  - destruct (write_varint v dst) as [[[]|e| |] dst']; try easy.
    exists dst'. split_and!; [done|apply H1|lia|lia].
  - destruct (write_varlong w dst) as [[[]|e| |] dst']; try easy.
    exists dst'. split_and!; [done|apply H2|lia|lia].
Qed.

(** ** Properties *)

(** C33: VarInts and VarLongs survive the wire.  On any buffers, [write_varint] and
    [write_varlong] return and append at least one byte and at most five or ten; and
    from any buffer that holds what was appended, whatever follows it, the readers
    return the value and consume exactly that. *)
Theorem varint_round_trip {BW BR} `{BufMutLaws BW} `{BufLaws BR} (dst : BW) (v w : Z)
    (Hv : in_signed 32 v = true) (Hw : in_signed 64 w = true) :
  (exists dst' bs, write_varint v dst = (Ok tt, dst') /\ written dst' = written dst ++ bs
    /\ 1 <= len bs <= MAX_VARINT_LEN
    /\ forall (src : BR) rest, view src = bs ++ rest ->
         exists src', read_varint src = (Ok v, src') /\ view src' = rest)
  /\ (exists dst' bs, write_varlong w dst = (Ok tt, dst') /\ written dst' = written dst ++ bs
    /\ 1 <= len bs <= MAX_VARLONG_LEN
    /\ forall (src : BR) rest, view src = bs ++ rest ->
         exists src', read_varlong src = (Ok w, src') /\ view src' = rest).
Proof.
  destruct (write_varints_append dst v w) as [(d1 & Hd1 & Hw1 & Hl1) (d2 & Hd2 & Hw2 & Hl2)].
  split; [exists d1, (enc_varint v)|exists d2, (enc_varlong w)]; (split_and!; [done|done|lia|lia|]);
    intros src rest Hsrc; (eapply parses_through; [auto with sim| |done]).
  - by apply parses_varint.
  - by apply parses_varlong_bytes, varlong_bytes_enc.
Qed.

(** What [read_varint] does on every buffer: it returns; a value is an
    [i32] and was read from one to five bytes, all but the last with the
    continuation bit; [UnexpectedEof] means the buffer holds such a sequence
    cut short, [VarIntTooLong] that five continuation bytes come first. *)
Theorem read_varint_total {B} `{BufLaws B} (src : B) :
  match read_varint src with
  | (Ok v, src') => in_signed 32 v = true
      /\ exists bs, view src = bs ++ view src' /\ varint_bytes bs v /\ 1 <= len bs <= MAX_VARINT_LEN
  | (Err e, _) =>
      (e = ProtocolError_UnexpectedEof /\ scan 5 (view src) = Scan_partial)
      \/ (e = ProtocolError_VarIntTooLong MAX_VARINT_LEN /\ scan 5 (view src) = Scan_long)
  | _ => False
  end.
Proof.
  destruct (sim_read_varint src) as [H1 H2]. rewrite read_varint_spec in H1, H2.
  destruct (read_varint src) as [r src'], (scan 5 (view src)) as [u k| |] eqn:E; cbn in H1, H2;
    subst r; [|by left|by right].
  split; [by apply sign_range|]. exists (take k (view src)). rewrite H2, take_drop.
  pose proof (scan_done _ _ _ _ E) as (_ & ? & ?). split_and!; [done| | |].
  - exists u. split; [by eapply scan_done_front|done].
  - unfold len. rewrite length_take. lia.
  - unfold len, MAX_VARINT_LEN. rewrite length_take. lia.
Qed.

(** The writer's encoding is the shortest: no sequence of bytes that reads
    as a value is shorter than the one [write_varint] emits for it. *)
Theorem enc_varint_shortest (bs : list byte) (v : Z)
    (Hbs : varint_bytes bs v) : len (enc_varint v) <= len bs.
Proof.
  destruct Hbs as (u & Hs & ->). apply scan_done in Hs as (Hu & Hk & _).
  unfold enc_varint, len. rewrite wrap_sign by lia.
  apply inj_le, leb128_shortest; [|done]. unfold wrap.
  pose proof (Z.mod_le u (2 ^ 32)). pose proof (Z.mod_pos_bound u (2 ^ 32)). lia.
Qed.

(** [varint_len] is the number of bytes [write_varint] emits. *)
Theorem varint_len_spec {B} `{BufMutLaws B} (dst : B) (v : Z) :
  exists dst', write_varint v dst = (Ok tt, dst')
    /\ len (written dst') = len (written dst) + varint_len v.
Proof.
  pose proof (writes_through (fun _ => False) _ _ _ _ dst (sim_write_varint v) (writes_varint _ v)) as H1.
  destruct (write_varint v dst) as [[[]|e| |] dst']; try easy.
  exists dst'. split; [done|]. destruct H1 as [_ ->]. by rewrite len_app, varint_len_enc.
Qed.

(** The peeking decoder agrees with the consuming one: [read_varint_slice]
    returns a value and a width exactly when [read_varint] returns that value
    and consumes that many bytes, [None] exactly when [read_varint] runs out of
    input, and the same error on an overlong sequence. *)
Theorem read_varint_slice_agrees (src : list byte) :
  match read_varint_slice src with
  | Ok (Some (v, n)) => read_varint src = (Ok v, drop (Z.to_nat n) src) /\ 1 <= n <= len src
  | Ok None => fst (read_varint src) = Err ProtocolError_UnexpectedEof
  | Err e => fst (read_varint src) = Err e /\ e = ProtocolError_VarIntTooLong MAX_VARINT_LEN
  | _ => False
  end.
Proof.
  rewrite read_varint_slice_spec, read_varint_spec.
  destruct (scan 5 src) as [u k| |] eqn:E; [|done..]. rewrite Nat2Z.id. split; [done|].
  apply scan_done in E. unfold len. lia.
Qed.

(** ** Witnesses and vectors *)

Lemma varint_round_trip_witness :
  (exists (dst' : list byte) bs, write_varint (-1) [] = (Ok tt, dst') /\ written dst' = written [] ++ bs
    /\ 1 <= len bs <= MAX_VARINT_LEN
    /\ forall (src : list byte) rest, view src = bs ++ rest ->
         exists src', read_varint src = (Ok (-1), src') /\ view src' = rest)
  /\ (exists (dst' : list byte) bs, write_varlong 300 [] = (Ok tt, dst') /\ written dst' = written [] ++ bs
    /\ 1 <= len bs <= MAX_VARLONG_LEN
    /\ forall (src : list byte) rest, view src = bs ++ rest ->
         exists src', read_varlong src = (Ok 300, src') /\ view src' = rest).
Proof. apply (varint_round_trip [] (-1) 300); reflexivity. Defined.

Lemma enc_varint_shortest_witness : len (enc_varint 0) <= len [x80; x00].
Proof.
  apply enc_varint_shortest. exists 0. split; reflexivity.
Defined.

Example varint_vectors :
  Forall (fun '(v, bs) =>
    write_varint v [] = (Ok tt, map byte_of bs) /\ read_varint (map byte_of bs) = (Ok v, [])
    /\ varint_len v = len bs
    /\ read_varint_slice (map byte_of bs) = Ok (Some (v, len bs))) VARINT_VECTORS.
Proof. unfold VARINT_VECTORS. repeat (constructor; [split_and!; vm_compute; reflexivity|]). constructor. Qed.

Example varlong_vectors :
  Forall (fun '(v, bs) =>
    write_varlong v [] = (Ok tt, map byte_of bs) /\ read_varlong (map byte_of bs) = (Ok v, []))
    VARLONG_VECTORS.
Proof. unfold VARLONG_VECTORS. repeat (constructor; [split_and!; vm_compute; reflexivity|]). constructor. Qed.
