(* ===== verification/Fields.v ===== *)
(** * The primitive field codecs ([crates/protocol/src/buf.rs]).

    Strings, fixed-width integers, prefixed arrays and optionals, NBT fields.
    The array and optional codecs take the element codec as an argument, as the
    closures of the source. *)

From S2P Require Import Prelude Utf8 Buffers NbtTag NbtSpec NbtWrite NbtRead NbtCorrect ProtocolError Varint.
From stdpp Require Import base list numbers strings.
From Stdlib Require Import Strings.Byte.

Open Scope Z_scope.

Definition MAX_BYTES_PER_CHAR : Z := 3.

(** The cap on the room asked for before an element has been read. *)
Definition MAX_PREALLOC_ELEMENTS : Z := 64.

Section Write.
Context {B : Type} `{BufMut B}.

(** [value.len() as i32], then the bytes. *)
Definition write_string (value : list byte) : M B ProtocolError unit :=
  do! write_varint (sign 32 (len value));
  put_slice value.

Definition write_u16 (value : Z) : M B ProtocolError unit := put_u16 value.
Definition write_i64 (value : Z) : M B ProtocolError unit := put_i64 value.
Definition write_uuid (value : Z) : M B ProtocolError unit := put_u128 value.

Definition write_prefixed_array {T} (items : list T) (write_item : T -> M B ProtocolError unit) :
    M B ProtocolError unit :=
  do! write_varint (sign 32 (len items));
  for_each write_item items.

Definition write_prefixed_optional {T} (value : option T)
    (write_value : T -> M B ProtocolError unit) : M B ProtocolError unit :=
  match value with
  | Some v => do! put_u8 1; write_value v
  | None => put_u8 0
  end.

Definition write_nbt (value : NbtCompound) : M B ProtocolError unit :=
  map_err ProtocolError_Nbt (write_network_root value).
End Write.

Section Read.
Context {B : Type} `{Buf B}.

Definition read_string (max_chars : Z) : M B ProtocolError (list byte) :=
  let! declared := read_varint in
  let! length := ok_or (ProtocolError_NegativeLength declared) (usize_try_from declared) in
  let max := saturating_mul max_chars MAX_BYTES_PER_CHAR in
  if length >? max then throw (ProtocolError_StringTooLong length max)
  else
    let! r := get_remaining in
    if r <? length then throw ProtocolError_UnexpectedEof
    else
      do! zeroed length;
      let! bytes := copy_to_slice (Z.to_nat length) in
      map_err ProtocolError_InvalidUtf8 (lift (Utf8.from_utf8 bytes)).

Definition read_u16 : M B ProtocolError Z :=
  let! r := get_remaining in
  if r <? 2 then throw ProtocolError_UnexpectedEof else let! v := get_u16 in ret v.

Definition read_i64 : M B ProtocolError Z :=
  let! r := get_remaining in
  if r <? 8 then throw ProtocolError_UnexpectedEof else let! v := get_i64 in ret v.

Definition read_uuid : M B ProtocolError Z :=
  let! r := get_remaining in
  if r <? 16 then throw ProtocolError_UnexpectedEof else let! v := get_u128 in ret v.

Definition read_prefixed_array {T} (max_len : Z) (read_item : M B ProtocolError T) :
    M B ProtocolError (list T) :=
  let! declared := read_varint in
  let! length := ok_or (ProtocolError_NegativeLength declared) (usize_try_from declared) in
  if length >? max_len then throw (ProtocolError_ArrayTooLong length max_len)
  else
    do! with_capacity (Z.min length MAX_PREALLOC_ELEMENTS);
    repeat_push read_item (Z.to_nat length) [].

Definition read_prefixed_optional {T} (read_value : M B ProtocolError T) :
    M B ProtocolError (option T) :=
  let! more := has_remaining in
  if negb more then throw ProtocolError_UnexpectedEof
  else
    let! tag := get_u8 in
    if tag =? 0 then ret None
    else if tag =? 1 then let! v := read_value in ret (Some v)
    else throw (ProtocolError_InvalidBoolean tag).

Definition read_nbt : M B ProtocolError NbtCompound :=
  map_err ProtocolError_Nbt read_network_root.
End Read.

(** ** The wire forms *)

Definition enc_pstring (s : list byte) : list byte := enc_varint (sign 32 (len s)) ++ s.
Definition enc_array {T} (enc : T -> list byte) (items : list T) : list byte :=
  enc_varint (sign 32 (len items)) ++ flat_map enc items.
Definition enc_opt {T} (enc : T -> list byte) (o : option T) : list byte :=
  match o with Some v => be_bytes 1 1 ++ enc v | None => be_bytes 1 0 end.

(** A string a field capped at [max_chars] characters can hold. *)
Definition string_ok (max_chars : Z) (s : list byte) : bool :=
  Utf8.valid s && (len s <=? max_chars * MAX_BYTES_PER_CHAR).

(** ** Simulation *)

Section Sims.
Context {BW BR : Type} `{BufMutLaws BW} `{BufLaws BR}.

Lemma sim_write_string v : sim written (write_string v) (write_string v).
Proof. unfold write_string. simulate. Qed.
Lemma sim_write_u16 v : sim written (write_u16 v) (write_u16 v).
Proof. unfold write_u16. simulate. Qed.
Lemma sim_write_i64 v : sim written (write_i64 v) (write_i64 v).
Proof. unfold write_i64. simulate. Qed.
Lemma sim_write_uuid v : sim written (write_uuid v) (write_uuid v).
Proof. unfold write_uuid. simulate. Qed.
Lemma sim_write_prefixed_array {T} (items : list T) w w' :
  (forall v, sim written (w v) (w' v)) ->
  sim written (write_prefixed_array items w) (write_prefixed_array items w').
Proof. intros. unfold write_prefixed_array. simulate. Qed.
Lemma sim_write_prefixed_optional {T} (o : option T) w w' :
  (forall v, sim written (w v) (w' v)) ->
  sim written (write_prefixed_optional o w) (write_prefixed_optional o w').
Proof. intros. unfold write_prefixed_optional. destruct o; simulate. Qed.
Lemma sim_write_nbt c : sim written (write_nbt c) (write_nbt c).
Proof. unfold write_nbt. apply sim_map_err, sim_write_network_root. Qed.

Lemma sim_read_string max : sim view (read_string max) (read_string max).
Proof. unfold read_string. simulate. Qed.
Lemma sim_read_u16 : sim view read_u16 read_u16.
Proof. unfold read_u16. simulate. Qed.
Lemma sim_read_i64 : sim view read_i64 read_i64.
Proof. unfold read_i64. simulate. Qed.
Lemma sim_read_uuid : sim view read_uuid read_uuid.
Proof. unfold read_uuid. simulate. Qed.
Lemma sim_read_prefixed_array {T} max (r : M BR ProtocolError T) r' :
  sim view r r' -> sim view (read_prefixed_array max r) (read_prefixed_array max r').
Proof. intros. unfold read_prefixed_array. simulate. Qed.
Lemma sim_read_prefixed_optional {T} (r : M BR ProtocolError T) r' :
  sim view r r' -> sim view (read_prefixed_optional r) (read_prefixed_optional r').
Proof. intros. unfold read_prefixed_optional. simulate. Qed.
Lemma sim_read_nbt : sim view read_nbt read_nbt.
Proof. unfold read_nbt. apply sim_map_err, sim_read_network_root. Qed.
End Sims.

#[export] Hint Resolve sim_write_string sim_write_u16 sim_write_i64 sim_write_uuid
  sim_write_prefixed_array sim_write_prefixed_optional sim_write_nbt sim_read_string sim_read_u16
  sim_read_i64 sim_read_uuid sim_read_prefixed_array sim_read_prefixed_optional sim_read_nbt : sim.

(** ** Writers and readers on byte lists *)

Abbreviation writes ok m bs := (writes_if (fun _ : ProtocolError => False) ok m bs).

Lemma writes_string s : writes true (write_string s) (enc_pstring s).
Proof. apply (writes_seq _ true true); [apply writes_varint|by apply writes_act]. Qed.

Lemma writes_u16 v : writes true (write_u16 v) (be_bytes 2 v).
Proof. by apply writes_act. Qed.
Lemma writes_i64 v : writes true (write_i64 v) (be_bytes 8 v).
Proof. by apply writes_act. Qed.
Lemma writes_uuid v : writes true (write_uuid v) (be_bytes 16 v).
Proof. by apply writes_act. Qed.

Lemma writes_array {T} (items : list T) w enc :
  (forall v, writes true (w v) (enc v)) -> writes true (write_prefixed_array items w) (enc_array enc items).
Proof.
  intros Hw. apply (writes_seq _ true true); [apply writes_varint|].
  replace true with (forallb (fun _ : T => true) items) by (by induction items).
  apply writes_for_each, Forall_forall. intros. apply Hw.
Qed.

Lemma writes_optional {T} (o : option T) w enc :
  (forall v, writes true (w v) (enc v)) -> writes true (write_prefixed_optional o w) (enc_opt enc o).
Proof.
  intros Hw. destruct o; [|by apply writes_act].
  apply (writes_seq _ true true); [by apply writes_act|apply Hw].
Qed.

Lemma sign32_small n : 0 <= n < 2 ^ 31 -> sign 32 n = n.
Proof. intros. unfold sign. change (2 ^ (32 - 1)) with (2 ^ 31). rewrite Z.mod_small; lia. Qed.

Lemma in_signed32_small n : 0 <= n < 2 ^ 31 -> in_signed 32 n = true.
Proof. intros. apply in_signed_spec. change (2 ^ (32 - 1)) with (2 ^ 31). lia. Qed.

Lemma varint_bytes_len {A} (l : list A) :
  len l < 2 ^ 31 -> varint_bytes (enc_varint (sign 32 (len l))) (len l).
Proof.
  intros. pose proof (len_nonneg l). rewrite sign32_small by lia.
  apply varint_bytes_enc, in_signed32_small. lia.
Qed.

Lemma usize_try_from_nonneg n : 0 <= n -> usize_try_from n = Some n.
Proof. intros. unfold usize_try_from. by rewrite (proj2 (Z.leb_le _ _)). Qed.

Lemma saturating_mul_small a b : 0 <= a * b < 2 ^ 64 -> saturating_mul a b = a * b.
Proof. intros. unfold saturating_mul, usize_bits. lia. Qed.

(** A string behind any encoding of its length. *)
Lemma parses_string_bytes max pre s :
  varint_bytes pre (len s) -> len s <= saturating_mul max MAX_BYTES_PER_CHAR ->
  Utf8.valid s = true -> parses (read_string max) (pre ++ s) s.
Proof.
  intros Hpre Hmax Hs. pose proof (len_nonneg s). unfold read_string.
  eapply parses_bind; [by apply parses_varint_bytes|].
  rewrite usize_try_from_nonneg by done. unfold ok_or, bind at 1, ret. intros rest. cbv zeta.
  rewrite Z.gtb_ltb, (proj2 (Z.ltb_ge _ _)) by lia.
  change (bind get_remaining ?k (s ++ rest)) with (k (len (s ++ rest)) (s ++ rest)). cbn beta.
  pose proof (len_nonneg rest). rewrite (proj2 (Z.ltb_ge _ _)) by (rewrite len_app; lia).
  rewrite slice_zeroed. unfold copy_to_slice. cbn [buf_copy_to_slice slice_buf].
  rewrite (bind_ok _ _ _ _ _ (slice_call_app (Z.to_nat (len s)) (fun bs => bs) s rest
    ltac:(unfold len; lia))).
  apply map_err_ok. unfold lift. by rewrite Utf8.from_utf8_ok.
Qed.

Lemma parses_string max s :
  len s <= saturating_mul max MAX_BYTES_PER_CHAR -> len s < 2 ^ 31 -> Utf8.valid s = true ->
  parses (read_string max) (enc_pstring s) s.
Proof. intros. apply parses_string_bytes; [by apply varint_bytes_len|done..]. Qed.

Lemma parses_u16 v : in_unsigned 16 v = true -> parses read_u16 (be_bytes 2 v) v.
Proof.
  intros Hv. rewrite <- (app_nil_r (be_bytes 2 v)).
  apply (parses_checked 2 be_val 2 _ _ (be_bytes 2 v)); [done|apply length_be_bytes|].
  rewrite (be_unsigned 2) by done. apply parses_ret.
Qed.

Lemma parses_i64 v : in_signed 64 v = true -> parses read_i64 (be_bytes 8 v) v.
Proof.
  intros Hv. rewrite <- (app_nil_r (be_bytes 8 v)).
  apply (parses_checked 8 (fun bs => sign 64 (be_val bs)) 8 _ _ (be_bytes 8 v));
    [done|apply length_be_bytes|].
  rewrite (be_signed 8) by (done || lia). apply parses_ret.
Qed.

Lemma parses_uuid v : in_unsigned 128 v = true -> parses read_uuid (be_bytes 16 v) v.
Proof.
  intros Hv. rewrite <- (app_nil_r (be_bytes 16 v)).
  apply (parses_checked 16 be_val 16 _ _ (be_bytes 16 v)); [done|apply length_be_bytes|].
  rewrite (be_unsigned 16) by done. apply parses_ret.
Qed.

Lemma parses_array {T} max (r : M (list byte) ProtocolError T) enc items :
  Forall (fun v => parses r (enc v) v) items -> len items <= max -> len items < 2 ^ 31 ->
  parses (read_prefixed_array max r) (enc_array enc items) items.
Proof.
  intros Hr Hmax Hlen. pose proof (len_nonneg items).
  eapply parses_bind; [by apply parses_varint_bytes, varint_bytes_len|].
  rewrite usize_try_from_nonneg by done. unfold ok_or. intros rest.
  unfold bind, ret. rewrite Z.gtb_ltb, (proj2 (Z.ltb_ge _ _)) by lia.
  replace (Z.to_nat (len items)) with (length items) by (unfold len; lia).
  by apply (parses_repeat_push r enc items []).
Qed.

Lemma parses_optional {T} (r : M (list byte) ProtocolError T) enc o :
  (forall v, o = Some v -> parses r (enc v) v) ->
  parses (read_prefixed_optional r) (enc_opt enc o) o.
Proof.
  intros Hr rest. destruct o as [v|]; [|done]. cbn [enc_opt]. rewrite <- app_assoc.
  change (read_prefixed_optional r (be_bytes 1 1 ++ enc v ++ rest))
    with ((let! v := r in ret (Some v)) (enc v ++ rest)).
  by rewrite (bind_ok _ _ _ _ _ (Hr v eq_refl rest)).
Qed.

(** What a returned field is. *)
Lemma wp_read_string max l :
  wp (read_string max) (fun s l' => exists pre, l = pre ++ s ++ l' /\ varint_bytes pre (len s)
    /\ len s <= saturating_mul max MAX_BYTES_PER_CHAR /\ Utf8.valid s = true) l.
Proof.
  unfold read_string. apply wp_bind. eapply wp_mono; [apply wp_read_varint|].
  intros declared l1 (pre & -> & Hpre). apply wp_bind. unfold usize_try_from.
  destruct (Z.leb_spec 0 declared) as [Hd|]; [|done]. apply wp_ret. cbv zeta.
  rewrite Z.gtb_ltb. destruct (Z.ltb_spec (saturating_mul max MAX_BYTES_PER_CHAR) declared); [done|].
  apply wp_bind. change (wp get_remaining ?Q l1) with (Q (len l1) l1). cbn beta.
  destruct (Z.ltb_spec (len l1) declared); [done|].
  apply wp_zeroed, wp_bind, wp_slice_call; [rewrite Z2Nat.id by lia; done|]. intros bs rest Hbs ->.
  unfold wp, map_err, lift. destruct (Utf8.from_utf8 bs) as [s|e| |] eqn:E; try done.
  - apply Utf8.from_utf8_inv in E as [-> ?].
    assert (len bs = declared) as -> by (unfold len; lia). by exists pre.
  - pose proof (Utf8.from_utf8_returns bs) as Hr. by rewrite E in Hr.
  - pose proof (Utf8.from_utf8_returns bs) as Hr. by rewrite E in Hr.
Qed.

Lemma wp_checked_ret n (dec : list byte -> Z) w l :
  w = Z.of_nat n ->
  wp (E:=ProtocolError) (let! r := get_remaining in if r <? w then throw ProtocolError_UnexpectedEof
      else let! v := call (slice_read n dec) in ret v)
    (fun v l' => exists bs, length bs = n /\ l = bs ++ l' /\ v = dec bs) l.
Proof. intros ->. apply wp_checked_call; [done|]. intros bs rest ? ->. apply wp_ret. by exists bs. Qed.

Lemma wp_read_u16 l :
  wp read_u16 (fun v l' => l = be_bytes 2 v ++ l' /\ in_unsigned 16 v = true) l.
Proof.
  eapply wp_mono; [by apply (wp_checked_ret 2)|]. intros v l' (bs & Hl & -> & ->).
  rewrite <- Hl, be_bytes_be_val. split; [done|]. by apply (be_val_unsigned bs 2).
Qed.

Lemma wp_read_i64 l :
  wp read_i64 (fun v l' => l = be_bytes 8 v ++ l' /\ in_signed 64 v = true) l.
Proof.
  eapply wp_mono; [by apply (wp_checked_ret 8)|]. intros v l' (bs & Hl & -> & ->).
  split; [|by apply sign_range].
  f_equal. symmetry. apply (be_bytes_sign bs 8); [lia|done].
Qed.

Lemma wp_read_uuid l :
  wp read_uuid (fun v l' => l = be_bytes 16 v ++ l' /\ in_unsigned 128 v = true) l.
Proof.
  eapply wp_mono; [by apply (wp_checked_ret 16)|]. intros v l' (bs & Hl & -> & ->).
  rewrite <- Hl, be_bytes_be_val. split; [done|]. by apply (be_val_unsigned bs 16).
Qed.

Lemma wp_read_array {T} max (r : M (list byte) ProtocolError T) (I : T -> Prop) l :
  (forall l, wp r (fun v _ => I v) l) ->
  wp (read_prefixed_array max r) (fun vs _ => Forall I vs /\ len vs <= max /\ len vs < 2 ^ 31) l.
Proof.
  intros Hr. unfold read_prefixed_array. apply wp_bind. eapply wp_mono; [apply wp_read_varint|].
  intros declared l1 (pre & _ & Hpre). apply wp_bind. unfold usize_try_from.
  destruct (Z.leb_spec 0 declared) as [Hd|]; [|done]. apply wp_ret.
  rewrite Z.gtb_ltb. destruct (Z.ltb_spec max declared); [done|].
  apply varint_bytes_signed, in_signed_spec in Hpre. change (2 ^ (32 - 1)) with (2 ^ 31) in Hpre.
  eapply wp_mono; [apply (wp_repeat_push r (fun vs _ => Forall I vs) (Z.to_nat declared))|].
  - intros vs s _ Hvs. eapply wp_mono; [apply Hr|]. intros a s' Ha. apply Forall_app_2; auto.
  - done.
  - constructor.
  - intros vs s' [Hl ?]. unfold len. split; [done|lia].
Qed.

Lemma read_optional_cons {T} (r : M (list byte) ProtocolError T) b l :
  read_prefixed_optional r (b :: l) =
  if byte_val b =? 0 then (Ok None, l)
  else if byte_val b =? 1 then (let! v := r in ret (Some v)) l
  else (Err (ProtocolError_InvalidBoolean (byte_val b)), l).
Proof.
  change (read_prefixed_optional r (b :: l)) with
    ((if byte_val b =? 0 then ret None else if byte_val b =? 1 then let! v := r in ret (Some v)
      else throw (ProtocolError_InvalidBoolean (byte_val b))) l).
  by repeat case_match.
Qed.

Lemma wp_read_optional {T} (r : M (list byte) ProtocolError T) (I : T -> Prop) l :
  (forall l, wp r (fun v _ => I v) l) ->
  wp (read_prefixed_optional r) (fun o _ => forall v, o = Some v -> I v) l.
Proof.
  intros Hr. destruct l as [|b l]; [done|]. unfold wp. rewrite read_optional_cons.
  destruct (byte_val b =? 0); [done|]. destruct (byte_val b =? 1); [|done].
  apply (wp_bind r (fun v => ret (Some v)) (fun o _ => forall v, o = Some v -> I v)).
  eapply wp_mono; [apply Hr|]. intros v l' Hv. apply wp_ret. by intros ? [= <-].
Qed.

(** What becomes of a string field that reads [r] and leaves [l'] of [l]: the
    prefix decides first, then the cap, then what is there, then its encoding. *)
Definition string_outcome (max_chars : Z) (l : list byte) (r : outcome ProtocolError (list byte))
    (l' : list byte) : Prop :=
  match scan 5 l with
  | Scan_partial => r = Err ProtocolError_UnexpectedEof /\ l' = []
  | Scan_long => r = Err (ProtocolError_VarIntTooLong MAX_VARINT_LEN) /\ l' = drop 5 l
  | Scan_done u k =>
    let n := sign 32 u in
    let max := saturating_mul max_chars MAX_BYTES_PER_CHAR in
    let body := drop k l in
    let s := take (Z.to_nat n) body in
    if n <? 0 then r = Err (ProtocolError_NegativeLength n) /\ l' = body
    else if max <? n then r = Err (ProtocolError_StringTooLong n max) /\ l' = body
    else if len body <? n then r = Err ProtocolError_UnexpectedEof /\ l' = body
    else l' = drop (Z.to_nat n) body
      /\ if Utf8.valid s then r = Ok s
         else exists e, Utf8.from_utf8 s = Err e /\ r = Err (ProtocolError_InvalidUtf8 e)
  end.

Lemma read_string_outcome max_chars l :
  string_outcome max_chars l (fst (read_string max_chars l)) (snd (read_string max_chars l)).
Proof.
  unfold string_outcome, read_string. pose proof (read_varint_spec l) as Hr.
  destruct (scan 5 l) as [u k| |]; [|by rewrite (bind_err _ _ _ _ _ Hr)..].
  rewrite (bind_ok _ _ _ _ _ Hr). cbv zeta. unfold usize_try_from. generalize (drop k l), (sign 32 u).
  clear. intros l n. destruct (Z.leb_spec 0 n) as [Hn|Hn].
  2: { by rewrite (proj2 (Z.ltb_lt _ _)) by lia. }
  rewrite (proj2 (Z.ltb_ge n 0)) by lia. unfold ok_or.
  rewrite (bind_ok (ret n) _ l n l) by done. rewrite Z.gtb_ltb. case_match; [done|].
  rewrite (bind_ok get_remaining _ l (len l) l) by done.
  destruct (Z.ltb_spec (len l) n) as [|Hl]; [done|]. unfold len in Hl. rewrite slice_zeroed.
  rewrite (bind_ok _ _ l (take (Z.to_nat n) l) (drop (Z.to_nat n) l)).
  2: { unfold copy_to_slice, call. cbn. unfold slice_read. by rewrite decide_True by lia. }
  generalize (take (Z.to_nat n) l), (drop (Z.to_nat n) l). intros s l'.
  unfold map_err, lift, Utf8.valid, Utf8.from_utf8. destruct (Utf8.validate 0 s); cbn; eauto.
Qed.

(** ** Properties *)

(** C32: [read_string] on every buffer and every branch, with what each leaves
    unread: a length prefix that is cut short or too long, a negative length, one
    above three bytes per permitted character, one above what is there, and then the
    string, which is returned exactly when it is UTF-8.  The checks come in this
    order, all but the last with the body untouched. *)
Theorem read_string_spec {B} `{BufLaws B} (src : B) (max_chars : Z) :
  let (r, src') := read_string max_chars src in
  string_outcome max_chars (view src) r (view src').
Proof.
  destruct (sim_read_string max_chars src) as [H1 H2].
  pose proof (read_string_outcome max_chars (view src)) as Ho. rewrite <- H1, <- H2 in Ho.
  by destruct (read_string max_chars src).
Qed.

(** A string within its field's cap survives the wire: a valid string whose
    UTF-16 length, which is what the protocol counts, is at most [max_chars] is
    written with its byte length and read back unchanged.  Three bytes per
    character is enough for any such string. *)
Theorem string_round_trip {BW BR} `{BufMutLaws BW} `{BufLaws BR} (dst : BW) (src : BR)
    (max_chars : Z) (s rest : list byte)
    (Hvalid : Utf8.valid s = true) (Hunits : Utf8.utf16_units s <= max_chars)
    (Hmax : 3 * max_chars < 2 ^ 31) (Hsrc : view src = enc_pstring s ++ rest) :
  (exists dst', write_string s dst = (Ok tt, dst') /\ written dst' = written dst ++ enc_pstring s)
  /\ exists src', read_string max_chars src = (Ok s, src') /\ view src' = rest.
Proof.
  pose proof (Utf8.utf8_units_valid s Hvalid) as Hu. pose proof (len_nonneg s). split.
  - eapply writes_through_ok; [apply sim_write_string|apply writes_string].
  - eapply parses_through; [apply sim_read_string|apply parses_string|done]; [|lia|done].
    unfold MAX_BYTES_PER_CHAR. rewrite saturating_mul_small; lia.
Qed.

(** The cap of [read_string] is on bytes, not on characters: a field capped
    at [max_chars] accepts every ASCII string of up to three times as many. *)
Theorem read_string_accepts_triple {B} `{BufLaws B} (src : B) (max_chars : Z) (s rest : list byte)
    (Hascii : forallb Utf8.is_ascii s = true) (Hlen : len s = 3 * max_chars)
    (Hmax : 3 * max_chars < 2 ^ 31) (Hsrc : view src = enc_pstring s ++ rest) :
  len (Utf8.chars s) = 3 * max_chars
  /\ exists src', read_string max_chars src = (Ok s, src') /\ view src' = rest.
Proof.
  pose proof (len_nonneg s). split.
  - rewrite Utf8.chars_ascii by done. unfold len in *. by rewrite length_map.
  - eapply parses_through; [apply sim_read_string|apply parses_string|done];
      [|lia|by apply Utf8.valid_ascii].
    unfold MAX_BYTES_PER_CHAR. rewrite saturating_mul_small; lia.
Qed.

(** A prefixed array survives the wire: when every element reads back from
    what its element writer appends and the array is within its cap, the whole
    array reads back, whatever follows it. *)
Theorem prefixed_array_round_trip {BW BR T} `{BufMutLaws BW} `{BufLaws BR} (dst : BW) (src : BR)
    (write_item : T -> M BW ProtocolError unit) (write_item' : T -> M (list byte) ProtocolError unit)
    (read_item : M BR ProtocolError T) (read_item' : M (list byte) ProtocolError T)
    (enc : T -> list byte) (items : list T) (max_len : Z) (rest : list byte)
    (Hsw : forall v, sim written (write_item v) (write_item' v)) (Hsr : sim view read_item read_item')
    (Hw : forall v, writes true (write_item' v) (enc v))
    (Hr : Forall (fun v => parses read_item' (enc v) v) items)
    (Hlen : len items <= max_len < 2 ^ 31) (Hsrc : view src = enc_array enc items ++ rest) :
  (exists dst', write_prefixed_array items write_item dst = (Ok tt, dst')
    /\ written dst' = written dst ++ enc_array enc items)
  /\ exists src', read_prefixed_array max_len read_item src = (Ok items, src') /\ view src' = rest.
Proof.
  split.
  - eapply writes_through_ok; [by apply sim_write_prefixed_array|by apply writes_array].
  - eapply parses_through; [by apply sim_read_prefixed_array|apply parses_array|done];
      [done|lia|lia].
Qed.

(** ** Witnesses *)

Lemma string_round_trip_witness :
  (exists dst' : list byte, write_string (bytes_of "localhost") [] = (Ok tt, dst')
    /\ written dst' = written [] ++ enc_pstring (bytes_of "localhost"))
  /\ exists src' : list byte,
    read_string 255 (enc_pstring (bytes_of "localhost")) = (Ok (bytes_of "localhost"), src')
    /\ view src' = [].
Proof.
  apply string_round_trip.
  - reflexivity.
  - vm_compute. discriminate.
  - reflexivity.
  - symmetry. apply app_nil_r.
Defined.

Lemma read_string_accepts_triple_witness :
  len (Utf8.chars (bytes_of "twelve chars")) = 3 * 4
  /\ exists src' : list byte,
    read_string 4 (enc_pstring (bytes_of "twelve chars")) = (Ok (bytes_of "twelve chars"), src')
    /\ view src' = [].
Proof.
  apply (read_string_accepts_triple _ 4 _ []); reflexivity.
Defined.

Lemma prefixed_array_round_trip_witness :
  (exists dst' : list byte, write_prefixed_array [1; 65535] write_u16 [] = (Ok tt, dst')
    /\ written dst' = written [] ++ enc_array (be_bytes 2) [1; 65535])
  /\ exists src' : list byte,
    read_prefixed_array 16 read_u16 (enc_array (be_bytes 2) [1; 65535]) = (Ok [1; 65535], src')
    /\ view src' = [].
Proof.
  apply (prefixed_array_round_trip (T:=Z) [] (enc_array (be_bytes 2) [1; 65535])
    write_u16 write_u16 read_u16 read_u16 (be_bytes 2) [1; 65535] 16 []).
  - intros v. apply sim_write_u16.
  - apply sim_read_u16.
  - apply writes_u16.
  - do 2 (constructor; [apply parses_u16; reflexivity|]). constructor.
  - split; reflexivity || discriminate.
  - reflexivity.
Defined.
