(* ===== verification/Packets.v ===== *)
(** * Packets ([crates/protocol/src/packets/], [text.rs], [version.rs]).

    [Packet] is the trait of the source; [PacketLaws] is what the codec and the
    connection rely on: an encoder that never fails, and a decoder that reads
    back what was encoded and returns only values within the packet's limits.
    [serde_json] is a parameter of the operations that call it. *)

From S2P Require Import Prelude Utf8 Buffers ProtocolError Varint Fields.
From stdpp Require Import base list numbers strings.
From Stdlib Require Import Strings.Byte.

Open Scope Z_scope.

(** ** The trait *)

Class Packet (P : Type) := {
  packet_id : Z;
  packet_state : State;
  packet_direction : Direction;
  packet_encode : forall B : Type, BufMut B -> P -> M B ProtocolError unit;
  packet_decode : forall B : Type, Buf B -> M B ProtocolError P;
}.
Arguments packet_id P {_}.
Arguments packet_state P {_}.
Arguments packet_direction P {_}.
Arguments packet_encode {P _ B _} p.
Arguments packet_decode {P _ B _}.

(** ** Text components and version *)

Inductive TextComponent := mkTextComponent {
  text : list byte;
  color : option (list byte);
  bold : option bool;
  italic : option bool;
  extra : list TextComponent;
}.

Definition text_component_new (text : list byte) : TextComponent :=
  mkTextComponent text None None None [].

Definition PROTOCOL_VERSION : Z := 776.
Definition VERSION_NAME : list byte := bytes_of "26.2".

(** ** Handshake *)

Definition MAX_SERVER_ADDRESS_CHARS : Z := 255.

Inductive NextState := NextState_Status | NextState_Login | NextState_Transfer.

(** [next_state as i32]. *)
Definition next_state_i32 (s : NextState) : Z :=
  match s with NextState_Status => 1 | NextState_Login => 2 | NextState_Transfer => 3 end.

(** [impl TryFrom<i32> for NextState]. *)
Definition next_state_try_from (value : Z) : outcome ProtocolError NextState :=
  if value =? 1 then Ok NextState_Status
  else if value =? 2 then Ok NextState_Login
  else if value =? 3 then Ok NextState_Transfer
  else Err (ProtocolError_InvalidNextState value).

Record Handshake := mkHandshake {
  protocol_version : Z;
  server_address : list byte;
  server_port : Z;
  next_state : NextState;
}.

Definition handshake_encode {B} `{BufMut B} (p : Handshake) : M B ProtocolError unit :=
  do! write_varint (protocol_version p);
  do! write_string (server_address p);
  do! write_u16 (server_port p);
  do! write_varint (next_state_i32 (next_state p));
  ret tt.

Definition handshake_decode {B} `{Buf B} : M B ProtocolError Handshake :=
  let! protocol_version := read_varint in
  let! server_address := read_string MAX_SERVER_ADDRESS_CHARS in
  let! server_port := read_u16 in
  let! value := read_varint in
  let! next_state := lift (next_state_try_from value) in
  ret (mkHandshake protocol_version server_address server_port next_state).

#[export] Instance Handshake_packet : Packet Handshake := {|
  packet_id := 0;
  packet_state := State_Handshaking;
  packet_direction := Direction_Serverbound;
  packet_encode := fun B _ => handshake_encode;
  packet_decode := fun B _ => handshake_decode;
|}.

(** ** Status *)

Definition MAX_STATUS_JSON_CHARS : Z := 32767.

Inductive StatusRequest := mkStatusRequest.
Record StatusResponse := mkStatusResponse { json : list byte }.
Record PingRequest := mkPingRequest { ping_payload : Z }.
Record PongResponse := mkPongResponse { pong_payload : Z }.

#[export] Instance StatusRequest_packet : Packet StatusRequest := {|
  packet_id := 0;
  packet_state := State_Status;
  packet_direction := Direction_Serverbound;
  packet_encode := fun B _ _ => ret tt;
  packet_decode := fun B _ => ret mkStatusRequest;
|}.

#[export] Instance StatusResponse_packet : Packet StatusResponse := {|
  packet_id := 0;
  packet_state := State_Status;
  packet_direction := Direction_Clientbound;
  packet_encode := fun B _ p => do! write_string (json p); ret tt;
  packet_decode := fun B _ =>
    let! json := read_string MAX_STATUS_JSON_CHARS in ret (mkStatusResponse json);
|}.

#[export] Instance PingRequest_packet : Packet PingRequest := {|
  packet_id := 1;
  packet_state := State_Status;
  packet_direction := Direction_Serverbound;
  packet_encode := fun B _ p => do! write_i64 (ping_payload p); ret tt;
  packet_decode := fun B _ => let! payload := read_i64 in ret (mkPingRequest payload);
|}.

#[export] Instance PongResponse_packet : Packet PongResponse := {|
  packet_id := 1;
  packet_state := State_Status;
  packet_direction := Direction_Clientbound;
  packet_encode := fun B _ p => do! write_i64 (pong_payload p); ret tt;
  packet_decode := fun B _ => let! payload := read_i64 in ret (mkPongResponse payload);
|}.

Record VersionInfo := mkVersionInfo { version_name : list byte; protocol : Z }.
Record SamplePlayer := mkSamplePlayer { sample_name : list byte; sample_id : list byte }.
Record PlayersInfo := mkPlayersInfo { players_max : Z; players_online : Z; sample : list SamplePlayer }.

Record StatusResponseJson := mkStatusResponseJson {
  version : VersionInfo;
  players : PlayersInfo;
  description : TextComponent;
  favicon : option (list byte);
  enforces_secure_chat : bool;
}.

Definition status_response_json_new (description : TextComponent) (max_players online_players : Z) :
    StatusResponseJson :=
  mkStatusResponseJson (mkVersionInfo VERSION_NAME PROTOCOL_VERSION)
    (mkPlayersInfo max_players online_players []) description None false.

(** ** Login *)

Definition MAX_DISCONNECT_REASON_CHARS : Z := 262144.
Definition MAX_USERNAME_CHARS : Z := 16.
Definition MAX_PROPERTY_NAME_CHARS : Z := 64.
Definition MAX_PROPERTY_VALUE_CHARS : Z := 32767.
Definition MAX_SIGNATURE_CHARS : Z := 1024.
Definition MAX_PROFILE_PROPERTIES : Z := 16.

Record LoginDisconnect := mkLoginDisconnect { reason : list byte }.

(** [to_string] is [serde_json::to_string]. *)
Definition from_component (to_string : TextComponent -> outcome (list byte) (list byte))
    (reason : TextComponent) : outcome ProtocolError LoginDisconnect :=
  match to_string reason with
  | Ok json => Ok (mkLoginDisconnect json)
  | Err e => Err (ProtocolError_Json e)
  | Panic => Panic
  | Diverge => Diverge
  end.

#[export] Instance LoginDisconnect_packet : Packet LoginDisconnect := {|
  packet_id := 0;
  packet_state := State_Login;
  packet_direction := Direction_Clientbound;
  packet_encode := fun B _ p => do! write_string (reason p); ret tt;
  packet_decode := fun B _ =>
    let! reason := read_string MAX_DISCONNECT_REASON_CHARS in ret (mkLoginDisconnect reason);
|}.

Record ProfileProperty := mkProfileProperty {
  property_name : list byte;
  property_value : list byte;
  signature : option (list byte);
}.

Definition property_encode_to {B} `{BufMut B} (p : ProfileProperty) : M B ProtocolError unit :=
  do! write_string (property_name p);
  do! write_string (property_value p);
  write_prefixed_optional (signature p) write_string.

Definition property_decode_from {B} `{Buf B} : M B ProtocolError ProfileProperty :=
  let! name := read_string MAX_PROPERTY_NAME_CHARS in
  let! value := read_string MAX_PROPERTY_VALUE_CHARS in
  let! signature := read_prefixed_optional (read_string MAX_SIGNATURE_CHARS) in
  ret (mkProfileProperty name value signature).

Record GameProfile := mkGameProfile {
  profile_uuid : Z;
  username : list byte;
  properties : list ProfileProperty;
}.

Definition profile_encode_to {B} `{BufMut B} (p : GameProfile) : M B ProtocolError unit :=
  do! write_uuid (profile_uuid p);
  do! write_string (username p);
  write_prefixed_array (properties p) property_encode_to.

Definition profile_decode_from {B} `{Buf B} : M B ProtocolError GameProfile :=
  let! uuid := read_uuid in
  let! username := read_string MAX_USERNAME_CHARS in
  let! properties := read_prefixed_array MAX_PROFILE_PROPERTIES property_decode_from in
  ret (mkGameProfile uuid username properties).

Record LoginStart := mkLoginStart { name : list byte; login_uuid : Z }.
Record SetCompression := mkSetCompression { threshold : Z }.
Record LoginSuccess := mkLoginSuccess { profile : GameProfile; session_id : Z }.
Inductive LoginAcknowledged := mkLoginAcknowledged.

#[export] Instance LoginStart_packet : Packet LoginStart := {|
  packet_id := 0;
  packet_state := State_Login;
  packet_direction := Direction_Serverbound;
  packet_encode := fun B _ p => do! write_string (name p); do! write_uuid (login_uuid p); ret tt;
  packet_decode := fun B _ =>
    let! name := read_string MAX_USERNAME_CHARS in
    let! uuid := read_uuid in
    ret (mkLoginStart name uuid);
|}.

#[export] Instance SetCompression_packet : Packet SetCompression := {|
  packet_id := 3;
  packet_state := State_Login;
  packet_direction := Direction_Clientbound;
  packet_encode := fun B _ p => do! write_varint (threshold p); ret tt;
  packet_decode := fun B _ => let! threshold := read_varint in ret (mkSetCompression threshold);
|}.

#[export] Instance LoginSuccess_packet : Packet LoginSuccess := {|
  packet_id := 2;
  packet_state := State_Login;
  packet_direction := Direction_Clientbound;
  packet_encode := fun B _ p =>
    do! profile_encode_to (profile p); do! write_uuid (session_id p); ret tt;
  packet_decode := fun B _ =>
    let! profile := profile_decode_from in
    let! session_id := read_uuid in
    ret (mkLoginSuccess profile session_id);
|}.

#[export] Instance LoginAcknowledged_packet : Packet LoginAcknowledged := {|
  packet_id := 3;
  packet_state := State_Login;
  packet_direction := Direction_Serverbound;
  packet_encode := fun B _ _ => ret tt;
  packet_decode := fun B _ => ret mkLoginAcknowledged;
|}.

(** ** What a packet promises *)

Class PacketLaws (P : Type) `{Packet P} := {
  enc_packet : P -> list byte;
  packet_ok : P -> bool;
  sim_packet_encode {B} `{BufMutLaws B} (p : P) :
    sim (S:=B) written (packet_encode p) (packet_encode p);
  sim_packet_decode {B} `{BufLaws B} :
    sim (S:=B) view (packet_decode (P:=P)) packet_decode;
  packet_writes (p : P) : writes true (packet_encode p) (enc_packet p);
  packet_parses (p : P) : packet_ok p = true -> parses packet_decode (enc_packet p) p;
  packet_sound (l : list byte) : wp (packet_decode (P:=P)) (fun p _ => packet_ok p = true) l;
  packet_id_range : in_signed 32 (packet_id P) = true;
}.

Definition handshake_ok (p : Handshake) : bool :=
  in_signed 32 (protocol_version p) && string_ok MAX_SERVER_ADDRESS_CHARS (server_address p)
  && in_unsigned 16 (server_port p).

Definition property_ok (p : ProfileProperty) : bool :=
  string_ok MAX_PROPERTY_NAME_CHARS (property_name p)
  && string_ok MAX_PROPERTY_VALUE_CHARS (property_value p)
  && match signature p with None => true | Some s => string_ok MAX_SIGNATURE_CHARS s end.

Definition profile_ok (p : GameProfile) : bool :=
  in_unsigned 128 (profile_uuid p) && string_ok MAX_USERNAME_CHARS (username p)
  && (len (properties p) <=? MAX_PROFILE_PROPERTIES) && forallb property_ok (properties p).

Definition enc_property (p : ProfileProperty) : list byte :=
  enc_pstring (property_name p) ++ enc_pstring (property_value p)
  ++ enc_opt enc_pstring (signature p).

Definition enc_profile (p : GameProfile) : list byte :=
  be_bytes 16 (profile_uuid p) ++ enc_pstring (username p) ++ enc_array enc_property (properties p).

Definition enc_handshake (p : Handshake) : list byte :=
  enc_varint (protocol_version p) ++ enc_pstring (server_address p)
  ++ be_bytes 2 (server_port p) ++ enc_varint (next_state_i32 (next_state p)).

(** ** Lemmas *)

Lemma next_state_try_from_i32 s : next_state_try_from (next_state_i32 s) = Ok s.
Proof. by destruct s. Qed.

Lemma next_state_signed s : in_signed 32 (next_state_i32 s) = true.
Proof. by destruct s. Qed.

(** A string field: small caps never saturate nor overflow the prefix. *)
Definition small_cap (max : Z) : Prop := 0 <= max * MAX_BYTES_PER_CHAR < 2 ^ 31.

Lemma parses_string_ok max s :
  small_cap max -> string_ok max s = true -> parses (read_string max) (enc_pstring s) s.
Proof.
  intros Hm [Hv Hl]%andb_prop. unfold small_cap in Hm.
  apply parses_string; [rewrite saturating_mul_small; lia|lia|done].
Qed.

Lemma wp_string_ok max l :
  small_cap max -> wp (read_string max) (fun s _ => string_ok max s = true) l.
Proof.
  intros Hm. unfold small_cap in Hm. eapply wp_mono; [apply wp_read_string|].
  intros s l' (pre & _ & _ & Hl & Hv). unfold string_ok. rewrite Hv.
  rewrite saturating_mul_small in Hl by lia. lia.
Qed.

(** The steps of a decoder proof: each field returns a value within its limits. *)
Lemma wp_step {S E A B} (m : M S E A) (k : A -> M S E B) (I : A -> S -> Prop) Q s :
  wp m I s -> (forall a s', I a s' -> wp (k a) Q s') -> wp (bind m k) Q s.
Proof. intros Hm Hk. apply wp_bind. by eapply wp_mono. Qed.

Lemma parses_end {E A B} (m : M (list byte) E A) (k : A -> M (list byte) E B) bs a b :
  parses m bs a -> k a = ret b -> parses (bind m k) bs b.
Proof.
  intros Hm Hk. rewrite <- (app_nil_r bs). eapply parses_bind; [done|]. rewrite Hk. apply parses_ret.
Qed.

Lemma writes_end (m : M (list byte) ProtocolError unit) bs :
  writes true m bs -> writes true (do! m; ret tt) bs.
Proof.
  intros Hm. rewrite <- (app_nil_r bs). apply (writes_seq _ true true); [done|apply writes_ret].
Qed.

Lemma writes_then (m m' : M (list byte) ProtocolError unit) bs bs' :
  writes true m bs -> writes true m' bs' -> writes true (do! m; m') (bs ++ bs').
Proof. apply (writes_seq _ true true). Qed.

(** Varint-valued fields. *)
Lemma wp_varint_signed l : wp read_varint (fun v _ => in_signed 32 v = true) l.
Proof.
  eapply wp_mono; [apply wp_read_varint|]. intros v l' (bs & _ & Hb). by eapply varint_bytes_signed.
Qed.

Create HintDb packets.
#[export] Hint Resolve writes_varint writes_string writes_u16 writes_i64 writes_uuid writes_array
  writes_optional writes_end writes_then : packets.
#[export] Hint Resolve parses_varint parses_string_ok parses_u16 parses_i64 parses_uuid : packets.

Ltac small_cap := unfold small_cap, MAX_BYTES_PER_CHAR; vm_compute; split; discriminate || reflexivity.

Section PacketSims.
Context {BW BR : Type} `{BufMutLaws BW} `{BufLaws BR}.

Lemma sim_handshake_encode p : sim written (handshake_encode p) (handshake_encode p).
Proof. unfold handshake_encode. simulate. Qed.
Lemma sim_handshake_decode : sim view handshake_decode handshake_decode.
Proof. unfold handshake_decode. simulate. Qed.
Lemma sim_property_encode_to p : sim written (property_encode_to p) (property_encode_to p).
Proof. unfold property_encode_to. simulate. Qed.
Lemma sim_property_decode_from : sim view property_decode_from property_decode_from.
Proof. unfold property_decode_from. simulate. Qed.
Hint Resolve sim_property_encode_to sim_property_decode_from : sim.
Lemma sim_profile_encode_to p : sim written (profile_encode_to p) (profile_encode_to p).
Proof. unfold profile_encode_to. simulate. Qed.
Lemma sim_profile_decode_from : sim view profile_decode_from profile_decode_from.
Proof. unfold profile_decode_from. simulate. Qed.
End PacketSims.

#[export] Hint Resolve sim_handshake_encode sim_handshake_decode sim_profile_encode_to
  sim_profile_decode_from : sim.

(** The codecs of the compound fields. *)

Lemma writes_property p : writes true (property_encode_to p) (enc_property p).
Proof. unfold property_encode_to, enc_property. auto 6 with packets. Qed.

Lemma writes_profile p : writes true (profile_encode_to p) (enc_profile p).
Proof. unfold profile_encode_to, enc_profile. auto 6 using writes_property with packets. Qed.

Lemma parses_property p :
  property_ok p = true -> parses property_decode_from (enc_property p) p.
Proof.
  intros [[Hn Hv]%andb_prop Hs]%andb_prop. destruct p as [n v sg]. cbn [property_name property_value signature] in *.
  eapply parses_bind; [apply parses_string_ok; [small_cap|done]|].
  eapply parses_bind; [apply parses_string_ok; [small_cap|done]|].
  eapply parses_end; [|done]. apply parses_optional. intros s ->.
  apply parses_string_ok; [small_cap|done].
Qed.

Lemma wp_property l : wp property_decode_from (fun p _ => property_ok p = true) l.
Proof.
  eapply wp_step; [apply wp_string_ok; small_cap|]. intros n l1 Hn.
  eapply wp_step; [apply wp_string_ok; small_cap|]. intros v l2 Hv.
  eapply wp_step; [apply (wp_read_optional _ (fun s => string_ok MAX_SIGNATURE_CHARS s = true))|].
  { intros. apply wp_string_ok. small_cap. }
  intros o l3 Ho. apply wp_ret. unfold property_ok. cbn [property_name property_value signature].
  rewrite Hn, Hv. destruct o; [by apply Ho|done].
Qed.

Lemma parses_profile p : profile_ok p = true -> parses profile_decode_from (enc_profile p) p.
Proof.
  intros [[[Hu Hn]%andb_prop Hl]%andb_prop Hp]%andb_prop. destruct p as [u n ps].
  cbn [profile_uuid username properties] in *.
  eapply parses_bind; [by apply parses_uuid|].
  eapply parses_bind; [apply parses_string_ok; [small_cap|done]|].
  apply Z.leb_le in Hl. unfold MAX_PROFILE_PROPERTIES in Hl.
  eapply parses_end; [|done]. apply parses_array; [|done|lia].
  apply Forall_forall. intros p Hin. apply parses_property.
  rewrite forallb_forall in Hp. by apply Hp, list_elem_of_In.
Qed.

Lemma forallb_Forall_true {A} (f : A -> bool) l : Forall (fun a => f a = true) l -> forallb f l = true.
Proof. induction 1 as [|a l Ha _ IH]; [done|]. cbn. by rewrite Ha. Qed.

Lemma wp_profile l : wp profile_decode_from (fun p _ => profile_ok p = true) l.
Proof.
  eapply wp_step; [apply wp_read_uuid|]. intros u l1 [_ Hu].
  eapply wp_step; [apply wp_string_ok; small_cap|]. intros n l2 Hn.
  eapply wp_step; [apply (wp_read_array _ _ (fun p => property_ok p = true)), wp_property|].
  intros ps l3 (Hps & Hl & _). apply wp_ret. unfold profile_ok. cbn [profile_uuid username properties].
  rewrite Hu, Hn, (proj2 (Z.leb_le _ _) Hl). by apply forallb_Forall_true.
Qed.

(** ** The laws, packet by packet *)

#[export] Instance Handshake_laws : PacketLaws Handshake.
Proof.
  refine {| enc_packet := enc_handshake; packet_ok := handshake_ok |}.
  - intros. apply sim_handshake_encode.
  - intros. apply sim_handshake_decode.
  - intros p. cbn. unfold handshake_encode, enc_handshake. auto 8 with packets.
  - intros p [[Hv Ha]%andb_prop Hp]%andb_prop. destruct p as [v a port s]. cbn in *.
    eapply parses_bind; [by apply parses_varint|].
    eapply parses_bind; [apply parses_string_ok; [small_cap|done]|].
    eapply parses_bind; [by apply parses_u16|].
    eapply parses_end; [apply parses_varint, next_state_signed|].
    cbn. by rewrite next_state_try_from_i32.
  - intros l. cbn. eapply wp_step; [apply wp_varint_signed|]. intros v l1 Hv.
    eapply wp_step; [apply wp_string_ok; small_cap|]. intros a l2 Ha.
    eapply wp_step; [apply wp_read_u16|]. intros port l3 [_ Hp].
    eapply wp_step; [apply wp_varint_signed|]. intros x l4 _.
    unfold wp, bind, lift, next_state_try_from. repeat case_match; simplify_eq; try done;
      unfold ret in *; simplify_eq; unfold handshake_ok; cbn; by rewrite Hv, Ha, Hp.
  - reflexivity.
Defined.

#[export] Instance StatusRequest_laws : PacketLaws StatusRequest.
Proof.
  refine {| enc_packet := fun _ => []; packet_ok := fun _ => true |}; cbn; try done.
  - intros. apply writes_ret.
  - intros [] _. apply parses_ret.
Defined.

#[export] Instance StatusResponse_laws : PacketLaws StatusResponse.
Proof.
  refine {| enc_packet p := enc_pstring (json p); packet_ok p := string_ok MAX_STATUS_JSON_CHARS (json p) |}.
  - intros. cbn. simulate.
  - intros. cbn. simulate.
  - intros p. cbn. auto with packets.
  - intros [j] Hj. cbn in *. eapply parses_end; [apply parses_string_ok; [small_cap|done]|done].
  - intros l. cbn. eapply wp_step; [apply wp_string_ok; small_cap|]. intros. by apply wp_ret.
  - reflexivity.
Defined.

#[export] Instance PingRequest_laws : PacketLaws PingRequest.
Proof.
  refine {| enc_packet p := be_bytes 8 (ping_payload p); packet_ok p := in_signed 64 (ping_payload p) |}.
  - intros. cbn. simulate.
  - intros. cbn. simulate.
  - intros p. cbn. auto with packets.
  - intros [j] Hj. cbn in *. eapply parses_end; [by apply parses_i64|done].
  - intros l. cbn. eapply wp_step; [apply wp_read_i64|]. intros v l' [_ ?]. by apply wp_ret.
  - reflexivity.
Defined.

#[export] Instance PongResponse_laws : PacketLaws PongResponse.
Proof.
  refine {| enc_packet p := be_bytes 8 (pong_payload p); packet_ok p := in_signed 64 (pong_payload p) |}.
  - intros. cbn. simulate.
  - intros. cbn. simulate.
  - intros p. cbn. auto with packets.
  - intros [j] Hj. cbn in *. eapply parses_end; [by apply parses_i64|done].
  - intros l. cbn. eapply wp_step; [apply wp_read_i64|]. intros v l' [_ ?]. by apply wp_ret.
  - reflexivity.
Defined.

#[export] Instance LoginDisconnect_laws : PacketLaws LoginDisconnect.
Proof.
  refine {| enc_packet p := enc_pstring (reason p);
            packet_ok p := string_ok MAX_DISCONNECT_REASON_CHARS (reason p) |}.
  - intros. cbn. simulate.
  - intros. cbn. simulate.
  - intros p. cbn. auto with packets.
  - intros [j] Hj. cbn in *. eapply parses_end; [apply parses_string_ok; [small_cap|done]|done].
  - intros l. cbn. eapply wp_step; [apply wp_string_ok; small_cap|]. intros. by apply wp_ret.
  - reflexivity.
Defined.

#[export] Instance LoginStart_laws : PacketLaws LoginStart.
Proof.
  refine {| enc_packet p := enc_pstring (name p) ++ be_bytes 16 (login_uuid p);
            packet_ok p := string_ok MAX_USERNAME_CHARS (name p) && in_unsigned 128 (login_uuid p) |}.
  - intros. cbn. simulate.
  - intros. cbn. simulate.
  - intros p. cbn. auto with packets.
  - intros [n u] [Hn Hu]%andb_prop. cbn in *.
    eapply parses_bind; [apply parses_string_ok; [small_cap|done]|].
    eapply parses_end; [by apply parses_uuid|done].
  - intros l. cbn. eapply wp_step; [apply wp_string_ok; small_cap|]. intros n l1 Hn.
    eapply wp_step; [apply wp_read_uuid|]. intros u l2 [_ Hu]. apply wp_ret. cbn. by rewrite Hn, Hu.
  - reflexivity.
Defined.

#[export] Instance SetCompression_laws : PacketLaws SetCompression.
Proof.
  refine {| enc_packet p := enc_varint (threshold p); packet_ok p := in_signed 32 (threshold p) |}.
  - intros. cbn. simulate.
  - intros. cbn. simulate.
  - intros p. cbn. auto with packets.
  - intros [t] Ht. cbn in *. eapply parses_end; [by apply parses_varint|done].
  - intros l. cbn. eapply wp_step; [apply wp_varint_signed|]. intros. by apply wp_ret.
  - reflexivity.
Defined.

#[export] Instance LoginSuccess_laws : PacketLaws LoginSuccess.
Proof.
  refine {| enc_packet p := enc_profile (profile p) ++ be_bytes 16 (session_id p);
            packet_ok p := profile_ok (profile p) && in_unsigned 128 (session_id p) |}.
  - intros. cbn. simulate.
  - intros. cbn. simulate.
  - intros p. cbn. auto using writes_profile with packets.
  - intros [p u] [Hp Hu]%andb_prop. cbn in *.
    eapply parses_bind; [by apply parses_profile|].
    eapply parses_end; [by apply parses_uuid|done].
  - intros l. cbn. eapply wp_step; [apply wp_profile|]. intros p l1 Hp.
    eapply wp_step; [apply wp_read_uuid|]. intros u l2 [_ Hu]. apply wp_ret. cbn. by rewrite Hp, Hu.
  - reflexivity.
Defined.

#[export] Instance LoginAcknowledged_laws : PacketLaws LoginAcknowledged.
Proof.
  refine {| enc_packet := fun _ => []; packet_ok := fun _ => true |}; cbn; try done.
  - intros. apply writes_ret.
  - intros [] _. apply parses_ret.
Defined.

(** ** Properties *)

(** The packets of a type whose fields are within their limits ([ok]) are those that
    arrive, and they survive the wire. *)
Definition round_trips (BR BW P : Type) `{BufLaws BR} `{BufMutLaws BW} `{Packet P} (ok : P -> bool) : Prop :=
  (forall src : BR, match packet_decode (P:=P) src with
     | (Ok p, _) => ok p = true
     | (Err _, _) => True
     | _ => False
     end)
  /\ forall (p : P) (dst : BW), ok p = true ->
       exists dst' bs, packet_encode p dst = (Ok tt, dst') /\ written dst' = written dst ++ bs
         /\ forall (src : BR) rest, view src = bs ++ rest ->
              exists src', packet_decode src = (Ok p, src') /\ view src' = rest.

Lemma round_trips_intro BR BW P `{BufLaws BR} `{BufMutLaws BW} `{PacketLaws P} :
  round_trips BR BW P packet_ok.
Proof.
  split.
  - intros src.
    pose proof (wp_through _ _ _ src sim_packet_decode (packet_sound (P:=P) (view src))) as Hw.
    unfold wp in Hw. by destruct (packet_decode src) as [[p|e| |] src'].
  - intros p dst Hok.
    destruct (writes_through_ok _ _ _ _ dst (sim_packet_encode p) (packet_writes p)) as (dst' & Hd & Hwr).
    exists dst', (enc_packet p). split_and!; [done|done|]. intros src rest Hs.
    by eapply parses_through; [apply sim_packet_decode|apply packet_parses|].
Qed.

(** C34: Each of the ten packets of the program, on every buffer.  Decoding returns,
    and what it accepts is within the limits of its fields: strings within their caps
    and valid UTF-8, integers of their width, at most [MAX_PROFILE_PROPERTIES]
    properties.  A packet within its limits is encoded without error, and what was
    appended decodes back to it, whatever follows.  So a packet that was accepted can
    be sent on, even where the peer's own encoding of it was not the shortest. *)
Theorem packets_round_trip {BR BW} `{BufLaws BR} `{BufMutLaws BW} :
  round_trips BR BW Handshake (fun p => in_signed 32 (protocol_version p)
    && string_ok MAX_SERVER_ADDRESS_CHARS (server_address p) && in_unsigned 16 (server_port p))
  /\ round_trips BR BW StatusRequest (fun _ => true)
  /\ round_trips BR BW StatusResponse (fun p => string_ok MAX_STATUS_JSON_CHARS (json p))
  /\ round_trips BR BW PingRequest (fun p => in_signed 64 (ping_payload p))
  /\ round_trips BR BW PongResponse (fun p => in_signed 64 (pong_payload p))
  /\ round_trips BR BW LoginStart (fun p =>
       string_ok MAX_USERNAME_CHARS (name p) && in_unsigned 128 (login_uuid p))
  /\ round_trips BR BW SetCompression (fun p => in_signed 32 (threshold p))
  /\ round_trips BR BW LoginSuccess (fun p => profile_ok (profile p) && in_unsigned 128 (session_id p))
  /\ round_trips BR BW LoginAcknowledged (fun _ => true)
  /\ round_trips BR BW LoginDisconnect (fun p => string_ok MAX_DISCONNECT_REASON_CHARS (reason p)).
Proof.
  split_and!;
    [exact (round_trips_intro BR BW Handshake)|exact (round_trips_intro BR BW StatusRequest)
    |exact (round_trips_intro BR BW StatusResponse)|exact (round_trips_intro BR BW PingRequest)
    |exact (round_trips_intro BR BW PongResponse)|exact (round_trips_intro BR BW LoginStart)
    |exact (round_trips_intro BR BW SetCompression)|exact (round_trips_intro BR BW LoginSuccess)
    |exact (round_trips_intro BR BW LoginAcknowledged)|exact (round_trips_intro BR BW LoginDisconnect)].
Qed.

(** The handshake survives the wire: encoding succeeds and appends its four
    fields in order, and decoding what was appended returns the same handshake
    and consumes nothing more. *)
Theorem handshake_round_trip {BW BR} `{BufMutLaws BW} `{BufLaws BR} (dst : BW) (src : BR)
    (p : Handshake) (rest : list byte)
    (Hok : handshake_ok p = true) (Hsrc : view src = enc_handshake p ++ rest) :
  (exists dst', handshake_encode p dst = (Ok tt, dst')
    /\ written dst' = written dst ++ enc_handshake p)
  /\ exists src', handshake_decode src = (Ok p, src') /\ view src' = rest.
Proof.
  split.
  - eapply writes_through_ok; [apply sim_handshake_encode|exact (packet_writes p)].
  - eapply parses_through; [apply sim_handshake_decode|exact (packet_parses p Hok)|done].
Qed.

(** A game profile survives the wire: with its name, every property and the
    number of properties within their caps, the profile inside Login Success is
    encoded and decoded back unchanged. *)
Theorem profile_round_trip {BW BR} `{BufMutLaws BW} `{BufLaws BR} (dst : BW) (src : BR)
    (p : GameProfile) (rest : list byte)
    (Hok : profile_ok p = true) (Hsrc : view src = enc_profile p ++ rest) :
  (exists dst', profile_encode_to p dst = (Ok tt, dst') /\ written dst' = written dst ++ enc_profile p)
  /\ exists src', profile_decode_from src = (Ok p, src') /\ view src' = rest.
Proof.
  split.
  - eapply writes_through_ok; [apply sim_profile_encode_to|apply writes_profile].
  - eapply parses_through; [apply sim_profile_decode_from|by apply parses_profile|done].
Qed.

(** ** Witnesses *)

Definition sample_handshake : Handshake :=
  mkHandshake 776 (bytes_of "localhost") 25565 NextState_Status.

Definition sample_profile : GameProfile :=
  mkGameProfile 1 (bytes_of "Notch")
    [mkProfileProperty (bytes_of "textures") (bytes_of "dGV4") (Some (bytes_of "c2ln"));
     mkProfileProperty (bytes_of "empty") [] None].

(** The byte layout the tests of the source pin. *)
Example handshake_layout :
  map byte_val (enc_handshake sample_handshake)
  = [136; 6; 9; 108; 111; 99; 97; 108; 104; 111; 115; 116; 99; 221; 1].
Proof. reflexivity. Qed.

Lemma handshake_round_trip_witness :
  (exists dst' : list byte, handshake_encode sample_handshake [] = (Ok tt, dst')
    /\ written dst' = written [] ++ enc_handshake sample_handshake)
  /\ exists src' : list byte,
    handshake_decode (enc_handshake sample_handshake) = (Ok sample_handshake, src')
    /\ view src' = [].
Proof. apply handshake_round_trip; reflexivity. Defined.

Lemma profile_round_trip_witness :
  (exists dst' : list byte, profile_encode_to sample_profile [] = (Ok tt, dst')
    /\ written dst' = written [] ++ enc_profile sample_profile)
  /\ exists src' : list byte,
    profile_decode_from (enc_profile sample_profile) = (Ok sample_profile, src')
    /\ view src' = [].
Proof. apply profile_round_trip; reflexivity. Defined.
