(* ===== verification/PacketCapacity.v ===== *)
(** * The room a packet asks for in advance ([crates/protocol/src/buf.rs]).

    The accounts of [Capacity], for the field readers of [Fields] and the packet
    decoders of [Packets]: an array's declared count and a string's
    declared length are each turned into one request, and no packet nests arrays. *)

From S2P Require Import Prelude Utf8 Buffers NbtTag NbtRead Capacity ProtocolError Varint Fields Packets.
From stdpp Require Import base list numbers.
From Stdlib Require Import Strings.Byte.

Open Scope Z_scope.

Section Readers.
Context {B : Type} `{BufLaws B}.

Abbreviation metered_src := (fun m : Metered B => m).
Abbreviation owes gain slack m := (pays metered_src gain slack (fun _ => True) m).

Lemma pays_read_var_loop w max n : forall index result,
  owes 1 0 (read_var_loop w max n index result).
Proof.
  induction n as [|n IH]; intros index result; cbn [read_var_loop]; [pay|].
  pay_step. pay_step; [pay|]. pay_step. pay_step; [pay|].
  eapply pays_weaken; [apply IH|lia..|done].
Qed.

Lemma pays_read_varint : owes 1 0 read_varint.
Proof. apply pays_read_var_loop. Qed.
Hint Resolve pays_read_varint : pays.

Lemma usize_try_from_some x n : usize_try_from x = Some n -> 0 <= n.
Proof. unfold usize_try_from. case_match; intros; simplify_eq; lia. Qed.

Lemma pays_read_string max : owes 1 0 (read_string max).
Proof.
  unfold read_string. pay_step. pay_step. cbv zeta. destruct (_ >? _); [pay|].
  apply (pays_fill (fun _ => ProtocolError_UnexpectedEof)); [by eapply usize_try_from_some|lia|].
  intros bytes. pay.
Qed.
Lemma pays_read_u16 : owes 2 0 read_u16.
Proof. unfold read_u16. pay. Qed.
Lemma pays_read_i64 : owes 8 0 read_i64.
Proof. unfold read_i64. pay. Qed.
Lemma pays_read_uuid : owes 16 0 read_uuid.
Proof. unfold read_uuid. pay. Qed.
Hint Resolve pays_read_string pays_read_u16 pays_read_i64 pays_read_uuid : pays.

Lemma pays_read_prefixed_optional {T} (r : M (Metered B) ProtocolError T) :
  owes 0 0 r -> owes 1 0 (read_prefixed_optional r).
Proof. intros Hr. unfold read_prefixed_optional. pay. Qed.

(** One request for the declared count, paid by the items when they all come. *)
Lemma pays_read_prefixed_array {T} max (r : M (Metered B) ProtocolError T) :
  owes 1 0 r -> owes 1 64 (read_prefixed_array max r).
Proof.
  intros Hr. unfold read_prefixed_array. pay_step. pay_step.
  assert (0 <= a0) as Hn by (by eapply usize_try_from_some).
  destruct (_ >? _); [pay|].
  eapply pays_bind; [by apply pays_with_capacity|lia|]. intros _ _.
  eapply pays_weaken; [apply (pays_repeat_push _ 0 _ _ _ _ (Z.le_refl 0) Hr)| | |done];
    unfold NbtRead.MAX_PREALLOC_ELEMENTS; lia.
Qed.

Lemma pays_property_decode_from : owes 1 0 property_decode_from.
Proof.
  unfold property_decode_from. pay_step. pay_step.
  eapply pays_bind; [apply pays_read_prefixed_optional|lia|].
  { eapply pays_weaken; [apply pays_read_string|lia..|done]. }
  intros ? _. pay.
Qed.

Lemma pays_profile_decode_from : owes 1 64 profile_decode_from.
Proof.
  unfold profile_decode_from. pay_step. pay_step.
  eapply pays_bind; [apply pays_read_prefixed_array, pays_property_decode_from|lia|].
  intros ? _. pay.
Qed.

Lemma pays_read_nbt : owes 1 (room 1) read_nbt.
Proof. apply pays_map_err, pays_read_network_root. Qed.
Hint Resolve pays_profile_decode_from : pays.

(** A packet asks for no more than one array. *)
Definition packet_reserves (P : Type) `{Packet P} : Prop :=
  reserves_within (B:=B) 64 (packet_decode (P:=P)) packet_decode.

Lemma packet_reserves_intro P `{PacketLaws P} :
  owes 0 64 (packet_decode (P:=P)) -> packet_reserves P.
Proof.
  intros Hp. by eapply (reserves_within_intro _ _ _ _ _ Hp); [..|apply sim_packet_decode|apply sim_packet_decode].
Qed.

(** Every packet of the program. *)
Lemma packets_reserve :
  (packet_reserves Handshake /\ packet_reserves StatusRequest /\ packet_reserves StatusResponse)
  /\ (packet_reserves PingRequest /\ packet_reserves PongResponse /\ packet_reserves LoginStart)
  /\ (packet_reserves SetCompression /\ packet_reserves LoginSuccess)
  /\ packet_reserves LoginAcknowledged /\ packet_reserves LoginDisconnect.
Proof.
  split_and!; (apply packet_reserves_intro; [apply _|]); cbn; unfold handshake_decode; pay.
Qed.
End Readers.

(** ** Property *)

(** C17: No length a peer claims makes a decoder ask for memory that is not paid
    for.  Whatever the bytes are and however the read ends, in each of the three
    forms of an NBT document and in every packet: no vector of elements is given
    room for more than [MAX_PREALLOC_ELEMENTS] of them before one has been read, and
    no string or byte array is given more bytes than are there to be read; all the
    requests together, kept or abandoned, are for no more elements and bytes than
    bytes were consumed and [MAX_PREALLOC_ELEMENTS] for each of the [MAX_DEPTH] levels
    of a document, or one level of a packet, and for no more than the bytes alone
    when a value is returned; and the requests change nothing that is read. *)
Theorem reservations_paid `{BufLaws B} :
  let nbt_slack := NbtRead.MAX_PREALLOC_ELEMENTS * MAX_DEPTH in
  (reserves_within (B:=B) nbt_slack read_network_root read_network_root
    /\ reserves_within (B:=B) nbt_slack read_named_root read_named_root
    /\ reserves_within (B:=B) nbt_slack read_optional_network_root read_optional_network_root)
  /\ (packet_reserves (B:=B) Handshake /\ packet_reserves (B:=B) StatusRequest
    /\ packet_reserves (B:=B) StatusResponse)
  /\ (packet_reserves (B:=B) PingRequest /\ packet_reserves (B:=B) PongResponse
    /\ packet_reserves (B:=B) LoginStart)
  /\ (packet_reserves (B:=B) SetCompression /\ packet_reserves (B:=B) LoginSuccess)
  /\ packet_reserves (B:=B) LoginAcknowledged /\ packet_reserves (B:=B) LoginDisconnect.
Proof. split; [apply nbt_reserves|apply packets_reserve]. Qed.

(** ** Examples: claims against requests *)

(** Three nested lists that claim 200, 150 and 100 elements, and stop short. *)
Example claims_are_capped :
  let claim (element n : Z) := be_bytes 1 element ++ be_bytes 4 n in
  let document := be_bytes 1 10 ++ be_bytes 1 9 ++ be_bytes 2 0
    ++ claim 9 200 ++ claim 9 150 ++ claim 10 100 ++ repeat Byte.xff 200 in
  let (r, m) := read_network_root (mkMetered document []) in
  requested m = [For_bytes 0 215; For_elements 64; For_elements 64; For_elements 64] /\ r = Err (NbtError_UnknownTag 255).
Proof. vm_compute. split; reflexivity. Qed.

(** A name that claims ten bytes and has three: nothing is asked for. *)
Example a_name_is_refused :
  let (r, m) := packet_decode (P:=LoginStart) (mkMetered (be_bytes 1 10 ++ be_bytes 3 0) []) in
  requested m = [] /\ r = Err ProtocolError_UnexpectedEof.
Proof. vm_compute. split; reflexivity. Qed.

(** A Login Success that claims sixteen properties and holds none. *)
Example a_profile_is_refused :
  let body := be_bytes 16 7 ++ be_bytes 2 328 ++ be_bytes 1 16 in
  let (r, m) := packet_decode (P:=LoginSuccess) (mkMetered body []) in
  requested m = [For_bytes 1 2; For_elements 16] /\ r = Err ProtocolError_UnexpectedEof.
Proof. vm_compute. split; reflexivity. Qed.
