(* ===== verification/Codec.v ===== *)
(** * Packet framing ([crates/protocol/src/codec.rs]).

    [PacketCodec] with its scratch buffers and compression threshold, the frame
    decoder and encoder.  A [BytesMut] is its contents together with the
    [reserve] requests made on it.  [flate2] is a parameter: [inflate] is the
    zlib decoder as a reader, the bytes it yields and the error it then ends
    with, if any; [deflate] is the zlib encoder run into a vector. *)

From S2P Require Import Prelude Utf8 Buffers ProtocolError Varint Fields Packets.
From stdpp Require Import base list numbers strings.
From Stdlib Require Import Strings.Byte.

Open Scope Z_scope.

Definition MAX_PACKET_SIZE : Z := 2097151.
Definition MAX_SPECULATIVE_RESERVE : Z := 8 * 1024.

Record BytesMut := mkBytesMut { contents : list byte; reserves : list Z }.

Definition bytes_mut_new : BytesMut := mkBytesMut [] [].

(** [src.reserve(n)], [src.extend_from_slice(bs)] and [src.split_to(n)]; the
    last panics when fewer than [n] bytes are there. *)
Definition reserve {E} (n : Z) : M BytesMut E unit :=
  fun s => (Ok tt, mkBytesMut (contents s) (reserves s ++ [n])).
Definition extend_from_slice {E} (bs : list byte) : M BytesMut E unit :=
  fun s => (Ok tt, mkBytesMut (contents s ++ bs) (reserves s)).
Definition split_to {E} (n : Z) : M BytesMut E (list byte) :=
  fun s => if n <=? len (contents s)
           then (Ok (take (Z.to_nat n) (contents s)),
                 mkBytesMut (drop (Z.to_nat n) (contents s)) (reserves s))
           else (Panic, s).
Definition get_contents {E} : M BytesMut E (list byte) := fun s => (Ok (contents s), s).
Definition on_contents {E A} (m : M (list byte) E A) : M BytesMut E A :=
  zoom contents (fun bs s => mkBytesMut bs (reserves s)) m.

(** ** Frames *)

Record RawPacket := mkRawPacket { id : Z; body : list byte }.

(** [RawPacket::decode_as::<P>]. *)
Definition decode_as (P : Type) `{Packet P} (frame : RawPacket) : outcome ProtocolError P :=
  fst ((let! packet := packet_decode (P:=P) in
        let! more := has_remaining in
        if more then
          let! remaining := get_remaining in throw (ProtocolError_TrailingBytes remaining)
        else ret packet) (body frame)).

(** ** The codec *)

Record PacketCodec := mkPacketCodec {
  scratch : list byte;
  compression_threshold : option Z;
  compressed : list byte;
}.

Definition codec_new : PacketCodec := mkPacketCodec [] None [].

Definition set_compression (threshold : Z) (c : PacketCodec) : PacketCodec :=
  mkPacketCodec (scratch c) (if threshold <? 0 then None else Some threshold) (compressed c).

(** [reader.take(limit).read_to_end(&mut out)] on the reader of [inflate]. *)
Definition take_read_to_end (stream : list byte * option (list byte)) (limit : Z) :
    outcome (list byte) (list byte) :=
  let (bytes, error) := stream in
  if len bytes <? limit
  then match error with None => Ok bytes | Some e => Err e end
  else Ok (take (Z.to_nat limit) bytes).

Section Decode.
Variable inflate : list byte -> list byte * option (list byte).

Definition decompress (frame : list byte) (threshold : Z) : outcome ProtocolError (list byte) :=
  match read_varint frame with
  | (Ok declared, frame) =>
    match usize_try_from declared with
    | None => Err (ProtocolError_NegativeLength declared)
    | Some data_length =>
      if data_length =? 0 then Ok frame
      else if data_length >? MAX_PACKET_SIZE
      then Err (ProtocolError_FrameTooLarge data_length MAX_PACKET_SIZE)
      else if data_length <? wrap 64 threshold
      then Err (ProtocolError_CompressedBelowThreshold data_length threshold)
      else
        match take_read_to_end (inflate frame) (data_length + 1) with
        | Ok out =>
          if negb (len out =? data_length)
          then Err (ProtocolError_CompressedSizeMismatch data_length (len out))
          else Ok out
        | Err reason => Err (ProtocolError_Decompression reason)
        | Panic => Panic
        | Diverge => Diverge
        end
    end
  | (Err e, _) => Err e
  | (Panic, _) => Panic
  | (Diverge, _) => Diverge
  end.

(** [Decoder::decode]; the codec itself is only read. *)
Definition decode (c : PacketCodec) : M BytesMut ProtocolError (option RawPacket) :=
  let! src := get_contents in
  let! prefix := lift (read_varint_slice src) in
  match prefix with
  | None => ret None
  | Some (declared, prefix_len) =>
    let! body_len := ok_or (ProtocolError_NegativeLength declared) (usize_try_from declared) in
    if body_len >? MAX_PACKET_SIZE
    then throw (ProtocolError_FrameTooLarge body_len MAX_PACKET_SIZE)
    else
      let frame_len := prefix_len + body_len in
      if len src <? frame_len then
        do! reserve (Z.min (frame_len - len src) MAX_SPECULATIVE_RESERVE);
        ret None
      else
        let! split := split_to frame_len in
        let frame := drop (Z.to_nat prefix_len) split in
        let! body :=
          match compression_threshold c with
          | None => ret frame
          | Some threshold => lift (decompress frame threshold)
          end in
        let (r, body) := read_varint body in
        let! id := lift r in
        ret (Some (mkRawPacket id body))
  end.
End Decode.

Section Encode.
Variable deflate : list byte -> outcome (list byte) (list byte).

(** The two mutable arguments of [encode]: the codec and the destination. *)
Abbreviation ED := (PacketCodec * BytesMut)%type.

Definition on_scratch {E A} (m : M (list byte) E A) : M ED E A :=
  zoom (fun s => scratch (fst s))
    (fun bs s => (mkPacketCodec bs (compression_threshold (fst s)) (compressed (fst s)), snd s)) m.
Definition on_dst {E A} (m : M BytesMut E A) : M ED E A := zoom snd (fun d s => (fst s, d)) m.
Definition get_codec {E} : M ED E PacketCodec := fun s => (Ok (fst s), s).
Definition set_compressed {E} (bs : list byte) : M ED E unit :=
  fun s => (Ok tt, (mkPacketCodec (scratch (fst s)) (compression_threshold (fst s)) bs, snd s)).

(** [Encoder<P>::encode]. *)
Definition encode {P : Type} `{Packet P} (item : P) : M ED ProtocolError unit :=
  do! on_scratch (fun _ => (Ok tt, []));
  do! on_scratch (write_varint (packet_id P));
  do! on_scratch (packet_encode item);
  let! self := get_codec in
  let length := len (scratch self) in
  if length >? MAX_PACKET_SIZE
  then throw (ProtocolError_FrameTooLarge length MAX_PACKET_SIZE)
  else
    match compression_threshold self with
    | None =>
      do! on_dst (reserve (length + 3));
      do! on_dst (on_contents (write_varint (sign 32 length)));
      on_dst (extend_from_slice (scratch self))
    | Some threshold =>
      if length <? wrap 64 threshold then
        let payload_len := 1 + length in
        do! on_dst (reserve (payload_len + 3));
        do! on_dst (on_contents (write_varint (sign 32 payload_len)));
        do! on_dst (on_contents (write_varint 0));
        on_dst (extend_from_slice (scratch self))
      else
        do! set_compressed [];
        let! compressed := map_err ProtocolError_Io (lift (deflate (scratch self))) in
        do! set_compressed compressed;
        let payload_len := varint_len (sign 32 length) + len compressed in
        do! on_dst (reserve (payload_len + 3));
        do! on_dst (on_contents (write_varint (sign 32 payload_len)));
        do! on_dst (on_contents (write_varint (sign 32 length)));
        on_dst (extend_from_slice compressed)
    end.
End Encode.

(** ** The decoder as a function of the bytes *)

(** The wire form of a frame. *)
Definition enc_frame (payload : list byte) : list byte := enc_varint (len payload) ++ payload.

Section Reference.
Variable inflate : list byte -> list byte * option (list byte).

(** What a complete frame turns into. *)
Definition open_frame (c : PacketCodec) (frame : list byte) : outcome ProtocolError RawPacket :=
  match match compression_threshold c with
        | None => Ok frame
        | Some threshold => decompress inflate frame threshold
        end with
  | Ok body =>
    match read_varint body with
    | (Ok id, body) => Ok (mkRawPacket id body)
    | (Err e, _) => Err e
    | (Panic, _) => Panic
    | (Diverge, _) => Diverge
    end
  | Err e => Err e
  | Panic => Panic
  | Diverge => Diverge
  end.

(** The frame at the front of [l], if there is one: how the length prefix is
    judged, and where the frame ends. *)
Inductive fronted :=
  | Front_error (e : ProtocolError)
  | Front_partial (missing : Z)
  | Front_frame (frame rest : list byte).

Definition front (l : list byte) : fronted :=
  match scan 5 l with
  | Scan_partial => Front_partial 0
  | Scan_long => Front_error (ProtocolError_VarIntTooLong MAX_VARINT_LEN)
  | Scan_done u k =>
    let n := sign 32 u in
    if n <? 0 then Front_error (ProtocolError_NegativeLength n)
    else if n >? MAX_PACKET_SIZE then Front_error (ProtocolError_FrameTooLarge n MAX_PACKET_SIZE)
    else if len l <? Z.of_nat k + n then Front_partial (Z.of_nat k + n - len l)
    else Front_frame (take (Z.to_nat n) (drop k l)) (drop (k + Z.to_nat n) l)
  end.

Definition some_packet (r : outcome ProtocolError RawPacket) :
    outcome ProtocolError (option RawPacket) :=
  match r with Ok p => Ok (Some p) | Err e => Err e | Panic => Panic | Diverge => Diverge end.

Lemma decode_front c s :
  decode inflate c s =
  match front (contents s) with
  | Front_error e => (Err e, s)
  | Front_partial missing =>
      (Ok None, if missing =? 0 then s
                else mkBytesMut (contents s) (reserves s ++ [Z.min missing MAX_SPECULATIVE_RESERVE]))
  | Front_frame frame rest =>
      (some_packet (open_frame c frame), mkBytesMut rest (reserves s))
  end.
Proof.
  unfold decode, front. rewrite (bind_ok get_contents _ s (contents s) s) by done.
  rewrite read_varint_slice_spec. destruct (scan 5 (contents s)) as [u k| |] eqn:E; [|done..].
  rewrite (bind_ok (lift _) _ s (Some (sign 32 u, Z.of_nat k)) s) by done. cbv zeta.
  unfold usize_try_from. destruct (Z.leb_spec 0 (sign 32 u)) as [Hn|Hn].
  2: { by rewrite (proj2 (Z.ltb_lt _ _)) by lia. }
  rewrite (proj2 (Z.ltb_ge _ 0)) by lia. unfold ok_or.
  rewrite (bind_ok (ret _) _ s (sign 32 u) s) by done.
  destruct (sign 32 u >? MAX_PACKET_SIZE); [done|].
  destruct (Z.ltb_spec (len (contents s)) (Z.of_nat k + sign 32 u)) as [Hl|Hl].
  - rewrite (proj2 (Z.eqb_neq _ 0)) by lia. done.
  - unfold bind at 1. unfold split_to. rewrite (proj2 (Z.leb_le _ _)) by lia.
    rewrite Z2Nat.inj_add, !Nat2Z.id by lia. rewrite <- take_drop_commute.
    unfold bind, lift, ret, open_frame.
    destruct (compression_threshold c) as [t|].
    + destruct (decompress _ _ _) as [b|e| |]; try done.
      destruct (read_varint b) as [[i|e| |] b']; done.
    + destruct (read_varint _) as [[i|e| |] b']; done.
Qed.

(** More bytes at the end do not change what was decided. *)
Lemma front_app l more :
  match front l with
  | Front_error e => front (l ++ more) = Front_error e
  | Front_partial _ => True
  | Front_frame frame rest => front (l ++ more) = Front_frame frame (rest ++ more)
  end.
Proof.
  unfold front. destruct (scan 5 l) as [u k| |] eqn:E; [|done|].
  - rewrite <- (take_drop k l), <- app_assoc, (scan_done_take _ _ _ _ _ E).
    rewrite app_assoc, take_drop. cbv zeta. pose proof (scan_done _ _ _ _ E) as (_ & _ & Hk).
    destruct (Z.ltb_spec (sign 32 u) 0); [done|]. destruct (sign 32 u >? MAX_PACKET_SIZE); [done|].
    destruct (Z.ltb_spec (len l) (Z.of_nat k + sign 32 u)) as [|Hl]; [done|].
    pose proof (len_nonneg more). rewrite (proj2 (Z.ltb_ge _ _)) by (rewrite len_app; lia).
    unfold len in Hl. rewrite drop_app_le, take_app_le, drop_app_le; [done|..];
      rewrite ?length_drop; lia.
  - assert (scan 5 (l ++ more) = Scan_long) as ->; [|done].
    revert E. generalize 5%nat. clear. intros n. revert l. induction n as [|n IH]; intros [|b l]; try done.
    cbn [scan app]. destruct (byte_val b <? 128); [done|].
    destruct (scan n l) eqn:E; try done. by rewrite IH.
Qed.

Lemma front_frame_shorter l frame rest : front l = Front_frame frame rest -> (length rest < length l)%nat.
Proof.
  unfold front. destruct (scan 5 l) as [u k| |] eqn:E; [|done..]. cbv zeta.
  pose proof (scan_done _ _ _ _ E) as (_ & Hk & Hl). repeat case_match; try done.
  intros [= <- <-]. rewrite length_drop. lia.
Qed.

Lemma front_enc_frame payload rest :
  len payload <= MAX_PACKET_SIZE -> front (enc_frame payload ++ rest) = Front_frame payload rest.
Proof.
  intros Hp. unfold MAX_PACKET_SIZE in Hp. pose proof (len_nonneg payload) as H0.
  unfold front, enc_frame. rewrite <- app_assoc, scan_enc_varint. cbv zeta.
  rewrite sign_wrap by (done || apply in_signed32_small; lia).
  rewrite (proj2 (Z.ltb_ge _ 0)) by done. rewrite Z.gtb_ltb, (proj2 (Z.ltb_ge _ _)) by done.
  pose proof (len_nonneg rest). rewrite (proj2 (Z.ltb_ge _ _)) by (rewrite !len_app; unfold len; lia).
  rewrite drop_app_length. unfold len at 1. rewrite Nat2Z.id, take_app_length.
  rewrite <- drop_drop, drop_app_length. f_equal. unfold len. by rewrite Nat2Z.id, drop_app_length.
Qed.

(** A proper prefix of a frame is partial. *)
Lemma front_enc_frame_prefix payload l more :
  len payload <= MAX_PACKET_SIZE -> enc_frame payload = l ++ more -> more <> [] ->
  exists missing, front l = Front_partial missing.
Proof.
  intros Hp Hl Hm. pose proof (front_enc_frame payload [] Hp) as Hf. rewrite app_nil_r, Hl in Hf.
  pose proof (front_app l more) as Ha. destruct (front l) as [e|m|frame rest] eqn:E.
  - by rewrite Ha in Hf.
  - by exists m.
  - rewrite Ha in Hf. injection Hf as _ Hf. by apply app_nil in Hf as [_ ?].
Qed.

Lemma take_read_to_end_returns stream limit : returns (take_read_to_end stream limit).
Proof. unfold take_read_to_end. by repeat case_match. Qed.

(** What an accepted compressed-mode frame is. *)
Lemma decompress_ok frame threshold out :
  decompress inflate frame threshold = Ok out ->
  exists pre z declared, frame = pre ++ z /\ varint_bytes pre declared
  /\ ((declared = 0 /\ out = z)
      \/ (wrap 64 threshold <= declared <= MAX_PACKET_SIZE /\ 0 < declared
          /\ len out = declared /\ inflate z = (out, None))).
Proof.
  unfold decompress. rewrite read_varint_spec.
  destruct (scan 5 frame) as [u k| |] eqn:E; [|done..].
  assert (varint_bytes (take k frame) (sign 32 u)) as Hk.
  { exists u. split; [by eapply scan_done_front|done]. }
  unfold usize_try_from. destruct (Z.leb_spec 0 (sign 32 u)); [|done].
  destruct (Z.eqb_spec (sign 32 u) 0).
  { intros [= <-]. exists (take k frame), (drop k frame), (sign 32 u). rewrite take_drop. auto. }
  rewrite Z.gtb_ltb. destruct (Z.ltb_spec MAX_PACKET_SIZE (sign 32 u)); [done|].
  destruct (Z.ltb_spec (sign 32 u) (wrap 64 threshold)); [done|].
  unfold take_read_to_end. destruct (inflate (drop k frame)) as [bytes error] eqn:Ei.
  destruct (Z.ltb_spec (len bytes) (sign 32 u + 1)).
  - destruct error as [e|]; [done|]. destruct (Z.eqb_spec (len bytes) (sign 32 u)); [|done].
    intros [= <-]. exists (take k frame), (drop k frame), (sign 32 u). rewrite take_drop.
    split_and!; [done|done|]. right. split_and!; [lia|lia|lia|lia|done].
  - rewrite (proj2 (Z.eqb_neq _ _)); [done|]. unfold len in *. rewrite length_take. lia.
Qed.

(** The errors a frame can be refused with; none is [Io]. *)
Definition decode_error (e : ProtocolError) : Prop :=
  match e with
  | ProtocolError_VarIntTooLong max => max = MAX_VARINT_LEN
  | ProtocolError_UnexpectedEof => True
  | ProtocolError_NegativeLength n => n < 0
  | ProtocolError_FrameTooLarge n max => max = MAX_PACKET_SIZE /\ max < n
  | ProtocolError_CompressedBelowThreshold n t => 0 < n < wrap 64 t
  | ProtocolError_CompressedSizeMismatch declared actual =>
      actual <> declared /\ actual <= declared + 1 /\ declared <= MAX_PACKET_SIZE
  | ProtocolError_Decompression _ => True
  | _ => False
  end.

Lemma read_varint_error l e : fst (read_varint l) = Err e -> decode_error e.
Proof.
  rewrite read_varint_spec. destruct (scan 5 l); [done|intros [= <-]; exact I|].
  by intros [= <-].
Qed.

Lemma decompress_error frame threshold :
  match decompress inflate frame threshold with
  | Ok _ => True | Err e => decode_error e | _ => False
  end.
Proof.
  unfold decompress. rewrite read_varint_spec.
  destruct (scan 5 frame) as [u k| |] eqn:E; [|done..].
  unfold usize_try_from. destruct (Z.leb_spec 0 (sign 32 u)); [|cbn; lia].
  destruct (Z.eqb_spec (sign 32 u) 0); [done|].
  rewrite Z.gtb_ltb. destruct (Z.ltb_spec MAX_PACKET_SIZE (sign 32 u)); [done|].
  destruct (Z.ltb_spec (sign 32 u) (wrap 64 threshold)); [cbn; lia|].
  unfold take_read_to_end. destruct (inflate (drop k frame)) as [bytes error] eqn:Ei.
  destruct (Z.ltb_spec (len bytes) (sign 32 u + 1)).
  - destruct error as [e|]; [done|]. destruct (Z.eqb_spec (len bytes) (sign 32 u)); [done|].
    cbn. lia.
  - assert (len (take (Z.to_nat (sign 32 u + 1)) bytes) = sign 32 u + 1) as ->
      by (unfold len in *; rewrite length_take; lia).
    rewrite (proj2 (Z.eqb_neq _ _)) by lia. cbn. lia.
Qed.

Lemma open_frame_error c frame :
  match open_frame c frame with Ok _ => True | Err e => decode_error e | _ => False end.
Proof.
  unfold open_frame. pose proof (fun t => decompress_error frame t) as Hd.
  assert (match match compression_threshold c with
                | None => Ok frame | Some t => decompress inflate frame t end with
          | Ok _ => True | Err e => decode_error e | _ => False end) as Ho.
  { destruct (compression_threshold c) as [t|]; [apply Hd|done]. }
  destruct (match compression_threshold c with None => _ | Some t => _ end) as [b|e| |]; try done.
  pose proof (read_varint_error b) as He. pose proof (wp_returns _ _ _ (wp_read_varint b)) as Hr.
  destruct (read_varint b) as [[i|e| |] b']; try done. by apply He.
Qed.

Lemma front_error l e : front l = Front_error e -> decode_error e.
Proof.
  unfold front. destruct (scan 5 l) as [u k| |]; [|done|by intros [= <-]]. cbv zeta.
  destruct (Z.ltb_spec (sign 32 u) 0); [by intros [= <-]|].
  rewrite Z.gtb_ltb. destruct (Z.ltb_spec MAX_PACKET_SIZE (sign 32 u)); [by intros [= <-]|].
  by case_match.
Qed.
End Reference.

(** ** The encoder as a function of the packet *)

(** The bytes of a packet before framing: its id and its fields. *)
Definition raw_payload {P} `{PacketLaws P} (item : P) : list byte :=
  enc_varint (packet_id P) ++ enc_packet item.

Section EncodeReference.
Variable deflate : list byte -> outcome (list byte) (list byte).

(** The payload of the frame, under a compression threshold. *)
Definition frame_payload (threshold : option Z) (raw : list byte) :
    outcome (list byte) (list byte) :=
  match threshold with
  | None => Ok raw
  | Some t =>
    if len raw <? wrap 64 t then Ok (enc_varint 0 ++ raw)
    else match deflate raw with
         | Ok z => Ok (enc_varint (len raw) ++ z)
         | r => r
         end
  end.

Lemma enc_varint_sign n : enc_varint (sign 32 n) = enc_varint n.
Proof. unfold enc_varint. by rewrite wrap_sign by lia. Qed.

Lemma write_varint_eq v out : write_varint v out = (Ok tt, out ++ enc_varint v).
Proof. apply (writes_varint (fun _ => False) v out). Qed.

Definition with_scratch (raw : list byte) (c : PacketCodec) : PacketCodec :=
  mkPacketCodec raw (compression_threshold c) (compressed c).

(** The first three steps fill the scratch buffer. *)
Lemma encode_scratch {P} `{PacketLaws P} (item : P) {A} (k : M (PacketCodec * BytesMut) ProtocolError A) c d :
  (do! on_scratch (fun _ => (Ok tt, []));
   do! on_scratch (write_varint (packet_id P));
   do! on_scratch (packet_encode item); k) (c, d)
  = k (with_scratch (raw_payload item) c, d).
Proof.
  unfold bind, on_scratch, zoom. cbn [fst snd scratch]. rewrite write_varint_eq.
  cbn [app fst snd scratch compression_threshold compressed].
  pose proof (packet_writes item (enc_varint (packet_id P))) as Hp. cbn beta iota in Hp. by rewrite Hp.
Qed.

(** The last steps emit a frame. *)
Lemma emit n bs c d :
  (do! on_dst (reserve (n + 3));
   do! on_dst (on_contents (write_varint (sign 32 n)));
   on_dst (extend_from_slice (E:=ProtocolError) bs)) (c, d)
  = (Ok tt, (c, mkBytesMut (contents d ++ enc_varint n ++ bs) (reserves d ++ [n + 3]))).
Proof.
  unfold bind, on_dst, on_contents, zoom, reserve, extend_from_slice.
  cbn [fst snd contents reserves]. rewrite write_varint_eq, enc_varint_sign. cbn [fst snd contents reserves].
  by rewrite app_assoc.
Qed.

Lemma emit_prefixed n v bs c d :
  (do! on_dst (reserve (n + 3));
   do! on_dst (on_contents (write_varint (sign 32 n)));
   do! on_dst (on_contents (write_varint v));
   on_dst (extend_from_slice (E:=ProtocolError) bs)) (c, d)
  = (Ok tt, (c, mkBytesMut (contents d ++ enc_varint n ++ enc_varint v ++ bs) (reserves d ++ [n + 3]))).
Proof.
  unfold bind, on_dst, on_contents, zoom, reserve, extend_from_slice.
  cbn [fst snd contents reserves]. rewrite write_varint_eq, enc_varint_sign.
  cbn [fst snd contents reserves]. rewrite write_varint_eq. cbn [fst snd contents reserves].
  by rewrite !app_assoc.
Qed.

Lemma len_enc_varint_sign n : varint_len (sign 32 n) = len (enc_varint n).
Proof. by rewrite varint_len_enc, enc_varint_sign. Qed.

Definition with_compressed (z : list byte) (c : PacketCodec) : PacketCodec :=
  mkPacketCodec (scratch c) (compression_threshold c) z.

Lemma encode_eq {P} `{PacketLaws P} (item : P) c d :
  let raw := raw_payload item in
  let r := encode deflate item (c, d) in
  if len raw >? MAX_PACKET_SIZE
  then r = (Err (ProtocolError_FrameTooLarge (len raw) MAX_PACKET_SIZE), (with_scratch raw c, d))
  else
    match frame_payload (compression_threshold c) raw with
    | Ok payload => exists z,
        r = (Ok tt, (with_compressed z (with_scratch raw c),
             mkBytesMut (contents d ++ enc_frame payload) (reserves d ++ [len payload + 3])))
    | Err e => r = (Err (ProtocolError_Io e), (with_compressed [] (with_scratch raw c), d))
    | Panic => fst r = Panic
    | Diverge => fst r = Diverge
    end.
Proof.
  cbv zeta. set (raw := raw_payload item). unfold encode. rewrite (encode_scratch item). fold raw.
  rewrite (bind_ok get_codec _ _ (with_scratch raw c) (with_scratch raw c, d)) by done.
  cbn [scratch with_scratch compression_threshold]. cbv zeta.
  destruct (len raw >? MAX_PACKET_SIZE); [done|]. unfold frame_payload, enc_frame.
  destruct (compression_threshold c) as [t|] eqn:Et.
  2: { exists (compressed c). rewrite emit. unfold with_compressed. by destruct c. }
  destruct (len raw <? wrap 64 t).
  { exists (compressed c). rewrite emit_prefixed, len_app. change (len (enc_varint 0)) with 1.
    unfold with_compressed. by destruct c. }
  rewrite (bind_ok (set_compressed []) _ _ tt (with_compressed [] (with_scratch raw c), d)) by done.
  unfold bind at 1, map_err, lift. destruct (deflate raw) as [z|e| |]; [|done..].
  rewrite (bind_ok (set_compressed z) _ _ tt (with_compressed z (with_scratch raw c), d)) by done.
  exists z. rewrite emit_prefixed, len_enc_varint_sign, enc_varint_sign, len_app. done.
Qed.
End EncodeReference.

(** A body that holds exactly one packet decodes to it. *)
Lemma decode_as_enc {P} `{PacketLaws P} (item : P) i :
  packet_ok item = true -> decode_as P (mkRawPacket i (enc_packet item)) = Ok item.
Proof.
  intros Hok. unfold decode_as. cbn [body]. pose proof (packet_parses item Hok []) as Hp.
  rewrite app_nil_r in Hp. by rewrite (bind_ok _ _ _ _ _ Hp).
Qed.

(** The thresholds a codec can hold. *)
Definition codec_inv (c : PacketCodec) : Prop :=
  match compression_threshold c with None => True | Some t => 0 <= t < 2 ^ 31 end.

(** What a call of the decoder leaves in the buffer. *)
Lemma decode_progress inflate c s :
  match decode inflate c s with
  | (Ok None, s') => contents s' = contents s
  | (Ok (Some _), s') => (length (contents s') < length (contents s))%nat
  | (Err _, _) => True
  | _ => False
  end.
Proof.
  rewrite decode_front. destruct (front (contents s)) as [e|m|frame rest] eqn:E; [done|by case_match|].
  pose proof (open_frame_error inflate c frame). apply front_frame_shorter in E.
  by destruct (open_frame inflate c frame).
Qed.

(** ** The decoding loop *)

(** What a [Framed] stream does with its decoder when bytes have arrived: it
    decodes until the decoder asks for more or fails. *)
Section Loop.
Variable inflate : list byte -> list byte * option (list byte).
Variable c : PacketCodec.

Fixpoint decode_loop (fuel : nat) (s : BytesMut) :
    list RawPacket * outcome ProtocolError unit * BytesMut :=
  match fuel with
  | O => ([], Diverge, s)
  | S fuel' =>
    match decode inflate c s with
    | (Ok (Some p), s') => let '(ps, r, s'') := decode_loop fuel' s' in (p :: ps, r, s'')
    | (Ok None, s') => ([], Ok tt, s')
    | (Err e, s') => ([], Err e, s')
    | (Panic, s') => ([], Panic, s')
    | (Diverge, s') => ([], Diverge, s')
    end
  end.

(** Each frame consumes at least its prefix, so the length is fuel enough. *)
Definition decode_all (s : BytesMut) := decode_loop (S (length (contents s))) s.

Definition feed (st : list RawPacket * outcome ProtocolError unit * BytesMut) (chunk : list byte) :=
  let '(ps, r, s) := st in
  match r with
  | Ok _ =>
    let '(ps', r', s') := decode_all (mkBytesMut (contents s ++ chunk) (reserves s)) in
    (ps ++ ps', r', s')
  | _ => st
  end.

Inductive Run : list byte -> list RawPacket -> outcome ProtocolError unit -> list byte -> Prop :=
  | Run_wait l missing : front l = Front_partial missing -> Run l [] (Ok tt) l
  | Run_refuse l e : front l = Front_error e -> Run l [] (Err e) l
  | Run_bad l frame rest e :
      front l = Front_frame frame rest -> open_frame inflate c frame = Err e -> Run l [] (Err e) rest
  | Run_frame l frame rest p ps r l' :
      front l = Front_frame frame rest -> open_frame inflate c frame = Ok p ->
      Run rest ps r l' -> Run l (p :: ps) r l'.

Lemma Run_det l ps r l' : Run l ps r l' -> forall ps2 r2 l2, Run l ps2 r2 l2 ->
  ps = ps2 /\ r = r2 /\ l' = l2.
Proof.
  induction 1 as [l m E|l e E|l frame rest e E Eo|l frame rest p ps r l' E Eo HR IH];
    intros ps2 r2 l2 H2; inversion H2 as [? ? E2|? ? E2|? ? ? ? E2 Eo2|? ? ? ? ps3 ? ? E2 Eo2 HR2];
    subst; rewrite E in E2; try discriminate E2; injection E2 as; subst; try done;
    rewrite Eo in Eo2; try discriminate Eo2; injection Eo2 as; subst; try done.
  destruct (IH _ _ _ HR2) as (-> & -> & ->). done.
Qed.

Lemma decode_loop_run fuel s :
  (length (contents s) < fuel)%nat ->
  match decode_loop fuel s with (ps, r, s') => Run (contents s) ps r (contents s') end.
Proof.
  revert s. induction fuel as [|fuel IH]; intros s Hf; [lia|]. cbn [decode_loop].
  rewrite decode_front. destruct (front (contents s)) as [e|m|frame rest] eqn:E.
  - by constructor.
  - destruct (m =? 0); by econstructor.
  - pose proof (open_frame_error inflate c frame) as Ho. pose proof (front_frame_shorter _ _ _ E).
    destruct (open_frame inflate c frame) as [p|e| |] eqn:Eo; try done; cbn [some_packet].
    + specialize (IH (mkBytesMut rest (reserves s)) ltac:(cbn [contents]; lia)).
      destruct (decode_loop fuel _) as [[ps r] s']. by eapply Run_frame.
    + by eapply Run_bad.
Qed.

Lemma decode_all_run s :
  match decode_all s with (ps, r, s') => Run (contents s) ps r (contents s') end.
Proof. apply decode_loop_run. lia. Qed.

Lemma Run_returns l ps r l' : Run l ps r l' -> r = Ok tt \/ exists e, r = Err e.
Proof. induction 1; eauto. Qed.

Lemma Run_app l ps r l' more : Run l ps r l' -> r = Ok tt -> forall ps2 r2 l2,
  Run (l' ++ more) ps2 r2 l2 -> Run (l ++ more) (ps ++ ps2) r2 l2.
Proof.
  induction 1 as [l m E|l e E|l frame rest e E Eo|l frame rest p ps r l' E Eo HR IH];
    intros Hr ps2 r2 l2 H2; try done.
  pose proof (front_app l more) as Ha. rewrite E in Ha. cbn [app]. eapply Run_frame; eauto.
Qed.

Lemma Run_err_app l ps r l' more : Run l ps r l' -> forall e, r = Err e ->
  exists l2, Run (l ++ more) ps r l2.
Proof.
  induction 1 as [l m E|l e E|l frame rest e E Eo|l frame rest p ps r l' E Eo HR IH];
    intros e' Hr; try done; pose proof (front_app l more) as Ha; rewrite E in Ha.
  - eexists. by constructor.
  - eexists. by eapply Run_bad.
  - destruct (IH _ Hr) as [l2 H2]. eexists. eapply Run_frame; eauto.
Qed.

Lemma feed_run chunks : forall front_bytes ps r s,
  (exists l, Run front_bytes ps r l /\ (r = Ok tt -> contents s = l)) ->
  match fold_left feed chunks (ps, r, s) with
  | (ps', r', s') => exists l, Run (front_bytes ++ concat chunks) ps' r' l
      /\ (r' = Ok tt -> contents s' = l)
  end.
Proof.
  induction chunks as [|chunk chunks IH]; intros bs ps r s (l & HR & Hl); cbn [fold_left concat].
  - rewrite app_nil_r. by exists l.
  - rewrite app_assoc. cbn [feed]. destruct (Run_returns _ _ _ _ HR) as [->|[e ->]].
    + specialize (Hl eq_refl).
      pose proof (decode_all_run (mkBytesMut (contents s ++ chunk) (reserves s))) as H2.
      destruct (decode_all _) as [[ps' r'] s']. cbn [contents] in H2. subst l.
      apply IH. exists (contents s'). split; [|done]. by eapply Run_app.
    + apply IH. destruct (Run_err_app _ _ _ _ chunk HR e eq_refl) as [l2 H2]. by exists l2.
Qed.
End Loop.

(** ** Encoder against decoder *)

Lemma wrap64_threshold t : 0 <= t < 2 ^ 31 -> wrap 64 t = t.
Proof. intros. apply Z.mod_small. lia. Qed.

Lemma raw_payload_pos {P} `{PacketLaws P} (item : P) : 0 < len (raw_payload item).
Proof.
  unfold raw_payload. rewrite len_app. pose proof (enc_varint_length (packet_id P)).
  pose proof (len_nonneg (enc_packet item)). unfold len in *. lia.
Qed.

Lemma open_frame_payload {P} `{PacketLaws P} inflate deflate c (item : P) payload :
  (forall raw z, deflate raw = Ok z -> inflate z = (raw, None)) ->
  codec_inv c -> len (raw_payload item) <= MAX_PACKET_SIZE ->
  frame_payload deflate (compression_threshold c) (raw_payload item) = Ok payload ->
  open_frame inflate c payload = Ok (mkRawPacket (packet_id P) (enc_packet item)).
Proof.
  intros Hz Hinv Hmax. unfold frame_payload, open_frame, codec_inv in *.
  pose proof (parses_varint (packet_id P) packet_id_range (enc_packet item)) as Hid.
  fold (raw_payload item) in Hid. pose proof (raw_payload_pos item) as Hpos.
  destruct (compression_threshold c) as [t|].
  2: { intros [= <-]. by rewrite Hid. }
  rewrite wrap64_threshold by done. unfold decompress.
  destruct (Z.ltb_spec (len (raw_payload item)) t).
  - intros Hp. assert (payload = enc_varint 0 ++ raw_payload item) as -> by congruence.
    rewrite (parses_varint 0 eq_refl). change (usize_try_from 0) with (Some 0). cbn beta iota.
    change (0 =? 0) with true. cbn beta iota. by rewrite Hid.
  - destruct (deflate (raw_payload item)) as [z|e| |] eqn:Ez; try done. intros Hp.
    assert (payload = enc_varint (len (raw_payload item)) ++ z) as -> by congruence. unfold MAX_PACKET_SIZE in *.
    rewrite (parses_varint (len (raw_payload item))) by (apply in_signed32_small; lia).
    rewrite usize_try_from_nonneg by lia. rewrite (proj2 (Z.eqb_neq _ _)) by lia.
    rewrite Z.gtb_ltb, (proj2 (Z.ltb_ge _ _)) by done. rewrite wrap64_threshold by done.
    rewrite (proj2 (Z.ltb_ge _ _)) by done. unfold take_read_to_end. rewrite (Hz _ _ Ez).
    rewrite (proj2 (Z.ltb_lt _ _)) by lia. rewrite Z.eqb_refl. cbn [negb]. by rewrite Hid.
Qed.

(** The invariant is kept by every operation of the codec. *)
Lemma codec_inv_new : codec_inv codec_new.
Proof. exact I. Qed.

Lemma codec_inv_set_compression t c : t < 2 ^ 31 -> codec_inv (set_compression t c).
Proof.
  intros. unfold codec_inv, set_compression. cbn [compression_threshold].
  destruct (Z.ltb_spec t 0); [exact I|lia].
Qed.

(** ** A packet too large for the frame *)

Definition oversize_reason (n : nat) : LoginDisconnect := mkLoginDisconnect (repeat x61 n).

Lemma enc_varint_len_eq n k :
  0 <= n < 2 ^ 31 -> (1 <= k <= 5)%nat -> n < 128 ^ Z.of_nat k ->
  (k = 1%nat \/ 128 ^ (Z.of_nat k - 1) <= n) -> len (enc_varint n) = Z.of_nat k.
Proof.
  intros Hn Hk Hu Hl. unfold enc_varint, len. unfold wrap. rewrite Z.mod_small by lia.
  f_equal. apply leb128_length_eq; try done. change (128 ^ Z.of_nat 5) with (2 ^ 35). lia.
Qed.

Lemma raw_payload_oversize n :
  16384 <= Z.of_nat n < 2097152 -> len (raw_payload (oversize_reason n)) = 4 + Z.of_nat n.
Proof.
  intros Hn. assert (len (repeat x61 n) = Z.of_nat n) as Hl by (unfold len; by rewrite repeat_length).
  unfold raw_payload. rewrite len_app. change (len (enc_varint (packet_id LoginDisconnect))) with 1.
  change (enc_packet (oversize_reason n)) with (enc_pstring (repeat x61 n)).
  unfold enc_pstring. rewrite len_app, enc_varint_sign, Hl.
  rewrite (enc_varint_len_eq _ 3); [lia|lia|lia| |]; [|right];
    [change (128 ^ Z.of_nat 3) with 2097152|change (128 ^ (Z.of_nat 3 - 1)) with 16384]; lia.
Qed.

(** ** Properties *)

(** C2: what one codec frames, another with the same threshold unframes: when
    [encode] succeeds, decoding what it appended, with anything behind it,
    yields one frame that [decode_as] turns back into the same packet, and
    leaves what was behind.  It holds without compression and, for frames whose
    bytes stay within [MAX_PACKET_SIZE], in both compressed-mode forms. *)
Theorem frame_round_trip {P} `{PacketLaws P}
    (inflate : list byte -> list byte * option (list byte))
    (deflate : list byte -> outcome (list byte) (list byte))
    (Hzlib : forall raw z, deflate raw = Ok z -> inflate z = (raw, None))
    (sender receiver sender' : PacketCodec) (item : P) (dst dst' src : BytesMut)
    (bs rest : list byte)
    (Hinv : codec_inv sender)
    (Hsame : compression_threshold receiver = compression_threshold sender)
    (Hok : packet_ok item = true)
    (Henc : encode deflate item (sender, dst) = (Ok tt, (sender', dst')))
    (Hbs : contents dst' = contents dst ++ bs)
    (Hsize : compression_threshold sender = None \/ len bs <= MAX_PACKET_SIZE)
    (Hsrc : contents src = bs ++ rest) :
  exists frame src', decode inflate receiver src = (Ok (Some frame), src')
    /\ id frame = packet_id P /\ decode_as P frame = Ok item /\ contents src' = rest.
Proof.
  pose proof (encode_eq deflate item sender dst) as He. cbv zeta in He. rewrite Henc in He.
  destruct (Z.gtb_spec (len (raw_payload item)) MAX_PACKET_SIZE); [done|].
  destruct (frame_payload _ _ _) as [payload|e| |] eqn:Ef; [|done..].
  destruct He as [z [= -> ->]]. cbn [contents] in Hbs. apply app_inv_head in Hbs. subst bs.
  assert (len payload <= MAX_PACKET_SIZE) as Hp.
  { destruct Hsize as [Hn|Hn]; [rewrite Hn in Ef; injection Ef as <-; lia|].
    unfold enc_frame in Hn. rewrite len_app in Hn. pose proof (len_nonneg (enc_varint (len payload))). lia. }
  rewrite decode_front, Hsrc, front_enc_frame by done.
  assert (codec_inv receiver) as Hinv' by (unfold codec_inv; by rewrite Hsame).
  rewrite <- Hsame in Ef.
  rewrite (open_frame_payload _ _ _ _ _ Hzlib Hinv' ltac:(done) Ef). cbn [some_packet].
  do 2 eexists. split_and!; [done|done|by apply decode_as_enc|done].
Qed.

(** A frame that has only partly arrived is never an error and never
    consumed: on every proper prefix of a frame [decode] returns [None], leaves
    the bytes in place and asks for at most 8 KiB more. *)
Theorem partial_frame_waits (inflate : list byte -> list byte * option (list byte))
    (c : PacketCodec) (payload missing : list byte) (src : BytesMut)
    (Hlen : len payload <= MAX_PACKET_SIZE) (Hsrc : enc_frame payload = contents src ++ missing)
    (Hmissing : missing <> []) :
  exists src', decode inflate c src = (Ok None, src') /\ contents src' = contents src
    /\ (reserves src' = reserves src
        \/ exists n, reserves src' = reserves src ++ [n] /\ n <= MAX_SPECULATIVE_RESERVE).
Proof.
  destruct (front_enc_frame_prefix _ _ _ Hlen Hsrc Hmissing) as [m Hm].
  rewrite decode_front, Hm. eexists. split; [done|]. destruct (m =? 0); [auto|]. split; [done|].
  right. eexists. split; [done|]. lia.
Qed.

(** C15: how the bytes of a stream are cut into chunks does not matter: feeding
    them chunk by chunk yields the same packets, ends in the same state or the
    same error, and keeps the same undecoded bytes, as feeding them at once. *)
Theorem chunking_independent (inflate : list byte -> list byte * option (list byte))
    (c : PacketCodec) (chunks : list (list byte)) :
  match fold_left (feed inflate c) chunks ([], Ok tt, bytes_mut_new),
        decode_all inflate c (mkBytesMut (concat chunks) []) with
  | (ps, r, s), (ps', r', s') => ps = ps' /\ r = r' /\ (r = Ok tt -> contents s = contents s')
      /\ returns r
  end.
Proof.
  pose proof (feed_run inflate c chunks [] [] (Ok tt) bytes_mut_new) as Hf.
  destruct (fold_left _ _ _) as [[ps r] s].
  destruct Hf as (l & HR & Hl).
  { exists []. split; [by eapply Run_wait|done]. }
  pose proof (decode_all_run inflate c (mkBytesMut (concat chunks) [])) as HR'.
  destruct (decode_all _ _ _) as [[ps' r'] s']. cbn [contents app] in *.
  destruct (Run_det _ _ _ _ _ _ HR _ _ _ HR') as (-> & -> & ->). split_and!; try done.
  destruct (Run_returns _ _ _ _ _ _ HR) as [->|[e ->]]; done.
Qed.

(** C16: [decode] on every input and every codec: it returns; a frame it yields
    is exactly the bytes its prefix announces, at most [MAX_PACKET_SIZE]; while
    waiting it consumes nothing and requests at most 8 KiB, however much the
    prefix claims; and what it refuses it refuses with a protocol error, never
    with [Io], which is the error the server files as transport noise. *)
Theorem decode_spec (inflate : list byte -> list byte * option (list byte))
    (c : PacketCodec) (src : BytesMut) :
  match decode inflate c src with
  | (Ok None, src') => contents src' = contents src
      /\ (reserves src' = reserves src
          \/ exists n, reserves src' = reserves src ++ [n] /\ n <= MAX_SPECULATIVE_RESERVE)
  | (Ok (Some _), src') => exists pre frame, contents src = pre ++ frame ++ contents src'
      /\ varint_bytes pre (len frame) /\ len frame <= MAX_PACKET_SIZE
      /\ reserves src' = reserves src
  | (Err e, src') => decode_error e /\ reserves src' = reserves src
  | _ => False
  end.
Proof.
  rewrite decode_front. destruct (front (contents src)) as [e|m|frame rest] eqn:E.
  - split; [by eapply front_error|done].
  - destruct (m =? 0); [auto|]. split; [done|]. right. eexists. split; [done|]. lia.
  - pose proof (open_frame_error inflate c frame) as Ho.
    assert (exists pre, contents src = pre ++ frame ++ rest /\ varint_bytes pre (len frame)
      /\ len frame <= MAX_PACKET_SIZE) as (pre & Hp & Hv & Hm).
    { unfold front in E. destruct (scan 5 (contents src)) as [u k| |] eqn:Es; [|done..].
      cbv zeta in E. destruct (Z.ltb_spec (sign 32 u) 0); [done|].
      rewrite Z.gtb_ltb in E. destruct (Z.ltb_spec MAX_PACKET_SIZE (sign 32 u)); [done|].
      destruct (Z.ltb_spec (len (contents src)) (Z.of_nat k + sign 32 u)) as [|Hl]; [done|].
      injection E as <- <-. exists (take k (contents src)).
      assert (len (take (Z.to_nat (sign 32 u)) (drop k (contents src))) = sign 32 u) as ->
        by (unfold len in *; rewrite length_take, length_drop; lia).
      split_and!; [by rewrite <- drop_drop, !take_drop| |done].
      exists u. split; [by eapply scan_done_front|done]. }
    destruct (open_frame inflate c frame) as [p|e| |]; try done; cbn [some_packet].
    by exists pre, frame.
Qed.

(** C27: a compressed-mode payload is inflated under its bounds: [decompress]
    accepts a raw payload behind a zero length, or a stream that inflates
    without error to exactly the declared size, when that size is at least the
    threshold and at most [MAX_PACKET_SIZE]; everything else is a protocol
    error.  What comes out is never longer than [MAX_PACKET_SIZE] unless it was
    sent raw. *)
Theorem decompress_spec (inflate : list byte -> list byte * option (list byte))
    (frame : list byte) (threshold : Z) :
  match decompress inflate frame threshold with
  | Ok out => exists pre z declared, frame = pre ++ z /\ varint_bytes pre declared
      /\ ((declared = 0 /\ out = z)
          \/ (wrap 64 threshold <= declared <= MAX_PACKET_SIZE /\ 0 < declared
              /\ len out = declared /\ inflate z = (out, None)))
  | Err e => decode_error e
  | _ => False
  end.
Proof.
  pose proof (decompress_error inflate frame threshold) as He.
  destruct (decompress inflate frame threshold) as [out|e| |] eqn:E; try done.
  by apply decompress_ok.
Qed.

(** C28: [encode] on every packet and codec, given a deflater that returns: it
    returns; on success the destination has gained one frame around the payload
    the threshold calls for; on an error, a packet above [MAX_PACKET_SIZE] or a
    failed deflate, not a byte was added.  Neither depends on what the scratch
    buffers held, and the codec keeps its threshold. *)
Theorem encode_spec {P} `{PacketLaws P}
    (deflate : list byte -> outcome (list byte) (list byte))
    (Hdeflate : forall raw, returns (deflate raw))
    (item : P) (c : PacketCodec) (dst : BytesMut) :
  match encode deflate item (c, dst) with
  | (Ok _, (c', dst')) => len (raw_payload item) <= MAX_PACKET_SIZE
      /\ compression_threshold c' = compression_threshold c
      /\ exists payload, contents dst' = contents dst ++ enc_frame payload
          /\ frame_payload deflate (compression_threshold c) (raw_payload item) = Ok payload
  | (Err e, (c', dst')) => dst' = dst /\ compression_threshold c' = compression_threshold c
      /\ ((e = ProtocolError_FrameTooLarge (len (raw_payload item)) MAX_PACKET_SIZE
           /\ MAX_PACKET_SIZE < len (raw_payload item))
          \/ exists reason, e = ProtocolError_Io reason /\ deflate (raw_payload item) = Err reason)
  | _ => False
  end.
Proof.
  pose proof (encode_eq deflate item c dst) as He. cbv zeta in He.
  destruct (Z.gtb_spec (len (raw_payload item)) MAX_PACKET_SIZE).
  - rewrite He. split_and!; [done|done|]. left. split; [done|lia].
  - destruct (frame_payload _ _ _) as [payload|e| |] eqn:Ef.
    + destruct He as [z ->]. split_and!; [lia|done|]. by exists payload.
    + rewrite He. split_and!; [done|done|]. right. exists e. split; [done|].
      unfold frame_payload in Ef. repeat case_match; simplify_eq; done.
    + unfold frame_payload in Ef. pose proof (Hdeflate (raw_payload item)) as Hr.
      repeat case_match; simplify_eq; done.
    + unfold frame_payload in Ef. pose proof (Hdeflate (raw_payload item)) as Hr.
      repeat case_match; simplify_eq; done.
Qed.

(** The size guard of [encode] counts the packet, not the frame: under a
    threshold above [MAX_PACKET_SIZE] a packet of exactly [MAX_PACKET_SIZE]
    bytes is accepted and framed, with its zero data-length, as a frame one
    byte over the limit, which every decoder of this codec refuses. *)
Theorem encode_exceeds_own_limit {P} `{PacketLaws P}
    (inflate : list byte -> list byte * option (list byte))
    (deflate : list byte -> outcome (list byte) (list byte))
    (sender receiver : PacketCodec) (t : Z) (item : P)
    (Ht : compression_threshold sender = Some t) (Hlarge : MAX_PACKET_SIZE < t < 2 ^ 31)
    (Hexact : len (raw_payload item) = MAX_PACKET_SIZE) :
  exists sender' dst', encode deflate item (sender, bytes_mut_new) = (Ok tt, (sender', dst'))
    /\ fst (decode inflate receiver dst')
       = Err (ProtocolError_FrameTooLarge (MAX_PACKET_SIZE + 1) MAX_PACKET_SIZE).
Proof.
  pose proof (encode_eq deflate item sender bytes_mut_new) as He. cbv zeta in He.
  rewrite Hexact in He. rewrite Z.gtb_ltb, Z.ltb_irrefl in He. unfold frame_payload in He.
  rewrite Ht, wrap64_threshold, Hexact, (proj2 (Z.ltb_lt _ t)) in He by (unfold MAX_PACKET_SIZE in *; lia).
  destruct He as [z He]. do 2 eexists. split; [exact He|]. rewrite decode_front.
  cbn [contents bytes_mut_new app]. unfold front, enc_frame. rewrite scan_enc_varint. cbv zeta.
  rewrite len_app, Hexact. change (len (enc_varint 0)) with 1.
  rewrite sign_wrap by (done || reflexivity). reflexivity.
Qed.

(** ** Witnesses *)

(** A stand-in for zlib that meets its round trip: it stores. *)
Definition stored_inflate (z : list byte) : list byte * option (list byte) := (z, None).
Definition stored_deflate (raw : list byte) : outcome (list byte) (list byte) := Ok raw.

(** Another, that compresses: runs of a byte, each with its length. *)
Fixpoint runs (b : byte) (n : nat) (l : list byte) : list byte :=
  match l with
  | [] => [byte_of (Z.of_nat n); b]
  | c :: l =>
    if Byte.eqb c b && (n <? 255)%nat then runs b (S n) l
    else byte_of (Z.of_nat n) :: b :: runs c 1 l
  end.

Definition run_deflate (raw : list byte) : outcome (list byte) (list byte) :=
  Ok (match raw with [] => [] | b :: l => runs b 1 l end).

Fixpoint run_inflate (z : list byte) : list byte * option (list byte) :=
  match z with
  | [] => ([], None)
  | [_] => ([], Some (bytes_of "unexpected end of file"))
  | n :: b :: z => let (out, e) := run_inflate z in (repeat b (Z.to_nat (byte_val n)) ++ out, e)
  end.

Lemma run_inflate_runs l : forall b n, (1 <= n <= 255)%nat ->
  run_inflate (runs b n l) = (repeat b n ++ l, None).
Proof.
  induction l as [|c l IH]; intros b n Hn.
  - cbn [runs run_inflate]. by rewrite byte_val_of, Z.mod_small, Nat2Z.id by lia.
  - cbn [runs]. destruct (Byte.eqb c b) eqn:E; [apply Byte.byte_dec_bl in E; subst c|].
    + destruct (Nat.ltb_spec n 255); cbn [andb].
      * rewrite IH by lia. f_equal. change (b :: l) with ([b] ++ l). by rewrite app_assoc, <- repeat_cons.
      * cbn [run_inflate]. rewrite IH by lia. by rewrite byte_val_of, Z.mod_small, Nat2Z.id by lia.
    + cbn [andb run_inflate]. rewrite IH by lia. by rewrite byte_val_of, Z.mod_small, Nat2Z.id by lia.
Qed.

Lemma run_round_trip raw z : run_deflate raw = Ok z -> run_inflate z = (raw, None).
Proof. intros [= <-]. destruct raw as [|b l]; [done|]. by rewrite run_inflate_runs by lia. Qed.

Lemma frame_round_trip_witness :
  exists frame src',
    decode stored_inflate (set_compression 4 codec_new)
      (snd (snd (encode stored_deflate (mkPongResponse 7) (set_compression 4 codec_new, bytes_mut_new))))
    = (Ok (Some frame), src')
    /\ id frame = 1 /\ decode_as PongResponse frame = Ok (mkPongResponse 7) /\ contents src' = [].
Proof.
  apply (frame_round_trip (P:=PongResponse) stored_inflate stored_deflate ltac:(intros raw z [= ->]; reflexivity)
    (set_compression 4 codec_new) (set_compression 4 codec_new)
    (fst (snd (encode stored_deflate (mkPongResponse 7) (set_compression 4 codec_new, bytes_mut_new))))
    (mkPongResponse 7) bytes_mut_new
    (snd (snd (encode stored_deflate (mkPongResponse 7) (set_compression 4 codec_new, bytes_mut_new))))
    _ (contents (snd (snd (encode stored_deflate (mkPongResponse 7)
      (set_compression 4 codec_new, bytes_mut_new))))) []).
  - split; [discriminate|reflexivity].
  - reflexivity.
  - reflexivity.
  - vm_compute. reflexivity.
  - reflexivity.
  - right. vm_compute. discriminate.
  - symmetry. apply app_nil_r.
Defined.

Lemma partial_frame_waits_witness :
  exists src', decode stored_inflate codec_new (mkBytesMut [x02; x01] []) = (Ok None, src')
    /\ contents src' = [x02; x01]
    /\ (reserves src' = [] \/ exists n, reserves src' = [] ++ [n] /\ n <= MAX_SPECULATIVE_RESERVE).
Proof.
  apply (partial_frame_waits stored_inflate codec_new [x01; x00] [x00] (mkBytesMut [x02; x01] [])).
  - vm_compute. discriminate.
  - reflexivity.
  - discriminate.
Defined.

Lemma encode_spec_witness :
  match encode stored_deflate mkStatusRequest (codec_new, bytes_mut_new) with
  | (Ok _, (c', dst')) => len (raw_payload mkStatusRequest) <= MAX_PACKET_SIZE
      /\ compression_threshold c' = compression_threshold codec_new
      /\ exists payload, contents dst' = contents bytes_mut_new ++ enc_frame payload
          /\ frame_payload stored_deflate (compression_threshold codec_new)
               (raw_payload mkStatusRequest) = Ok payload
  | (Err e, (c', dst')) => dst' = bytes_mut_new
      /\ compression_threshold c' = compression_threshold codec_new
      /\ ((e = ProtocolError_FrameTooLarge (len (raw_payload mkStatusRequest)) MAX_PACKET_SIZE
           /\ MAX_PACKET_SIZE < len (raw_payload mkStatusRequest))
          \/ exists reason, e = ProtocolError_Io reason
              /\ stored_deflate (raw_payload mkStatusRequest) = Err reason)
  | _ => False
  end.
Proof. apply encode_spec. intros raw. exact I. Defined.

Definition oversize : LoginDisconnect := oversize_reason (Z.to_nat 2097147).

Lemma encode_exceeds_own_limit_witness :
  exists sender' dst',
    encode stored_deflate oversize (set_compression 2097152 codec_new, bytes_mut_new)
    = (Ok tt, (sender', dst'))
    /\ fst (decode stored_inflate codec_new dst')
       = Err (ProtocolError_FrameTooLarge (MAX_PACKET_SIZE + 1) MAX_PACKET_SIZE).
Proof.
  apply (encode_exceeds_own_limit stored_inflate stored_deflate (set_compression 2097152 codec_new)
    codec_new 2097152 oversize).
  - reflexivity.
  - split; reflexivity.
  - unfold oversize. rewrite raw_payload_oversize; rewrite Z2Nat.id; try lia; reflexivity.
Defined.
