(* ===== verification/ConnState.v ===== *)
(** * The connection state machine ([crates/net/src/state.rs], [error.rs]).

    [ConnectionState] and its two mutating operations, the errors of the net
    crate, and the machine's moves as a step relation. *)

From S2P Require Import Prelude Utf8 ProtocolError.
From stdpp Require Import base list numbers relations.
From Stdlib Require Import Strings.Byte.

Open Scope Z_scope.

Inductive NetError :=
  | NetError_Protocol (e : ProtocolError)
  | NetError_IllegalTransition (from to : State)
  | NetError_UnexpectedPacket (state : State) (id : Z)
  | NetError_DuplicateStatusRequest
  | NetError_InvalidUsername (name : list byte)
  | NetError_Timeout.

Definition is_transport_noise (e : NetError) : bool :=
  match e with
  | NetError_Timeout => true
  | NetError_Protocol (ProtocolError_Io _) => true
  | _ => false
  end.

Record ConnectionState := mkConnectionState {
  current : State;
  status_request_seen : bool;
}.

Definition connection_state_new : ConnectionState := mkConnectionState State_Handshaking false.

Definition connection_state_default : ConnectionState := connection_state_new.

(** The pairs the [matches!] of [transition] lists. *)
Definition permitted (from to : State) : bool :=
  match from, to with
  | State_Handshaking, State_Status => true
  | State_Handshaking, State_Login => true
  | State_Login, State_Configuration => true
  | _, _ => false
  end.

Definition transition (to : State) : M ConnectionState NetError unit :=
  fun s =>
    if negb (permitted (current s) to)
    then (Err (NetError_IllegalTransition (current s) to), s)
    else (Ok tt, mkConnectionState to (status_request_seen s)).

Definition mark_status_request_seen : M ConnectionState NetError unit :=
  fun s =>
    if status_request_seen s
    then (Err NetError_DuplicateStatusRequest, s)
    else (Ok tt, mkConnectionState (current s) true).

(** ** The machine: every successful call is a step *)

Inductive step : ConnectionState -> ConnectionState -> Prop :=
  | step_transition s to s' : transition to s = (Ok tt, s') -> step s s'
  | step_mark s s' : mark_status_request_seen s = (Ok tt, s') -> step s s'.

Definition reachable (s : ConnectionState) : Prop := rtc step connection_state_new s.

(** How far along the protocol a state is. *)
Definition rank (s : State) : nat :=
  match s with
  | State_Handshaking => 0
  | State_Status | State_Login => 1
  | State_Configuration => 2
  | State_Play => 3
  end.

(** ** Lemmas *)

Lemma permitted_rank from to : permitted from to = true -> (rank from < rank to)%nat.
Proof. destruct from, to; cbn; done || lia. Qed.

Lemma step_cases s s' :
  step s s' ->
  (permitted (current s) (current s') = true /\ status_request_seen s' = status_request_seen s)
  \/ (current s' = current s /\ status_request_seen s = false /\ status_request_seen s' = true).
Proof.
  intros [? to ? H|? ? H].
  - unfold transition in H. destruct (permitted _ _) eqn:E; [|done]. cbn in H. simplify_eq.
    left. by split.
  - unfold mark_status_request_seen in H. destruct (status_request_seen _) eqn:E; [done|].
    simplify_eq. by right.
Qed.

Lemma step_status s s' : step s s' -> current s = State_Status -> current s' = State_Status.
Proof.
  intros [[Hp _]|[-> _]]%step_cases Hs; [|done]. rewrite Hs in Hp. by destruct (current s').
Qed.

(** A login, under way or over. *)
Definition logging_in (st : State) : bool :=
  match st with State_Handshaking | State_Status => false | _ => true end.

Lemma steps_logging_in s s' :
  rtc step s s' -> logging_in (current s) = true -> logging_in (current s') = true.
Proof.
  induction 1 as [|s s1 s' Hstep _ IH]; [done|]. intros Hs. apply IH.
  apply step_cases in Hstep as [[Hp _]|[-> _]]; [|done].
  by destruct (current s), (current s1).
Qed.

(** Each operation returns, and a change it makes is a step. *)
Lemma transition_steps to s :
  returns (fst (transition to s)) /\ rtc step s (snd (transition to s)).
Proof.
  destruct (transition to s) as [r s'] eqn:E. pose proof E as E'. unfold transition in E.
  destruct (negb _); simplify_eq; split; try done. by eapply rtc_once, step_transition.
Qed.

Lemma mark_steps s :
  returns (fst (mark_status_request_seen s)) /\ rtc step s (snd (mark_status_request_seen s)).
Proof.
  destruct (mark_status_request_seen s) as [r s'] eqn:E. pose proof E as E'.
  unfold mark_status_request_seen in E.
  destruct (status_request_seen s); simplify_eq; split; try done. by eapply rtc_once, step_mark.
Qed.

(** ** Properties *)

(** The machine moves exactly along the three permitted edges: [transition]
    succeeds from handshaking to status or login and from login to
    configuration, changing the state and nothing else, and every other request
    is refused with the state left as it was. *)
Theorem transition_spec (s : ConnectionState) (to : State) :
  match transition to s with
  | (Ok _, s') => s' = mkConnectionState to (status_request_seen s)
      /\ (current s, to) ∈ [(State_Handshaking, State_Status); (State_Handshaking, State_Login);
                            (State_Login, State_Configuration)]
  | (Err e, s') => s' = s /\ e = NetError_IllegalTransition (current s) to
      /\ (current s, to) ∉ [(State_Handshaking, State_Status); (State_Handshaking, State_Login);
                            (State_Login, State_Configuration)]
  | _ => False
  end.
Proof.
  unfold transition. destruct (current s), to; cbn [permitted negb]; split_and?; try done;
    rewrite ?elem_of_cons, ?elem_of_nil; naive_solver.
Qed.

(** A status connection never promotes itself: whatever calls succeed on
    it, it stays in the status state. *)
Theorem status_never_escalates (s s' : ConnectionState)
    (Hs : current s = State_Status) (Hsteps : rtc step s s') : current s' = State_Status.
Proof.
  induction Hsteps as [|s s1 s' Hstep _ IH]; [done|]. apply IH. by eapply step_status.
Qed.

(** No reachable connection is in the play state, a step never goes back,
    and a machine that runs takes at most three steps: two transitions and one
    accepted status request. *)
Theorem connection_state_bounded (s s' : ConnectionState) (n : nat)
    (Hreach : reachable s) (Hsteps : nsteps step n s s') :
  current s' <> State_Play /\ (rank (current s) <= rank (current s'))%nat
  /\ (n + rank (current s) + (if status_request_seen s then 1 else 0) <= 3)%nat.
Proof.
  assert (forall a b, rtc step a b -> current a <> State_Play -> current b <> State_Play) as Hplay.
  { induction 1 as [|a b c Hab _ IH]; [done|]. intros Ha. apply IH.
    apply step_cases in Hab as [[Hp _]|[-> _]]; [|done]. by destruct (current a), (current b). }
  assert (current s <> State_Play) as Hs by (by eapply Hplay).
  assert (current s' <> State_Play) as Hs' by (eapply Hplay; [by eapply rtc_nsteps_2|done]).
  assert (rank (current s) <= rank (current s') /\ n + rank (current s)
    + (if status_request_seen s then 1 else 0)
    <= rank (current s') + (if status_request_seen s' then 1 else 0))%nat as [? ?].
  { clear -Hsteps. induction Hsteps as [|n a b c Hab _ IH]; [lia|].
    apply step_cases in Hab as [[Hp%permitted_rank E]|(E & Ea & Eb)].
    - rewrite E in IH. lia.
    - rewrite E, Eb in IH. rewrite Ea. lia. }
  split_and!; [done|done|]. assert (rank (current s') <= 2)%nat by (destruct (current s'); cbn; done || lia).
  destruct (status_request_seen s'); lia.
Qed.

(** A connection error is filed as transport noise exactly when it is an
    idle timeout or an I/O failure; every protocol violation is not. *)
Theorem is_transport_noise_spec (e : NetError) :
  is_transport_noise e = true
  <-> e = NetError_Timeout \/ exists io, e = NetError_Protocol (ProtocolError_Io io).
Proof. destruct e as [[]| | | | |]; cbn; naive_solver. Qed.

(** ** Witnesses *)

Lemma status_never_escalates_witness :
  current (mkConnectionState State_Status true) = State_Status.
Proof.
  apply (status_never_escalates (mkConnectionState State_Status false)); [reflexivity|].
  eapply rtc_l; [apply step_mark; reflexivity|apply rtc_refl].
Defined.

Lemma connection_state_bounded_witness :
  State_Configuration <> State_Play /\ (1 <= 2)%nat /\ (1 + 1 + 0 <= 3)%nat.
Proof.
  apply (connection_state_bounded (mkConnectionState State_Login false)
    (mkConnectionState State_Configuration false) 1).
  - eapply rtc_l; [apply (step_transition _ State_Login); reflexivity|apply rtc_refl].
  - eapply nsteps_l; [apply (step_transition _ State_Configuration); reflexivity|apply nsteps_O].
Defined.
