(* ===== verification/Display.v ===== *)
(** * Error messages ([crates/nbt/src/error.rs], [crates/protocol/src/error.rs],
    [crates/net/src/error.rs]).

    The [Display] of every error, as the [#[error]] attributes give it: the text
    of a log line.  Rust's [Debug] of a string, which escapes by Unicode tables,
    is a parameter. *)

From S2P Require Import Prelude Utf8 NbtTag ProtocolError ConnState.
From stdpp Require Import base list numbers strings pretty.
From Stdlib Require Import Strings.Byte Strings.String.

Open Scope Z_scope.

(** ** Numbers *)

(** [{}] of an integer. *)
Definition decimal (n : Z) : list byte := bytes_of (pretty n).

Definition hex_digit (n : Z) : list byte := [byte_of (if n <? 10 then 48 + n else 87 + n)].

(** The digits of [n < 16 ^ fuel], without leading zeros. *)
Fixpoint hex_digits (fuel : nat) (n : Z) : list byte :=
  match fuel with
  | O => []
  | S fuel =>
    if n <? 16 then hex_digit n else hex_digits fuel (n / 16) ++ hex_digit (n mod 16)
  end.

(** [{:#04x}] of a [w]-bit integer: the bits, at least two digits. *)
Definition hex04 (w : Z) (n : Z) : list byte :=
  let digits := hex_digits (Z.to_nat (w / 4)) (wrap w n) in
  bytes_of "0x" ++ (if len digits <? 2 then bytes_of "0" ++ digits else digits).

(** ** The errors *)

(** The derived [Debug] of [TagId]. *)
Definition tag_id_debug (id : TagId) : list byte :=
  match id with
  | TagId_End => bytes_of "End"
  | TagId_Byte => bytes_of "Byte"
  | TagId_Short => bytes_of "Short"
  | TagId_Int => bytes_of "Int"
  | TagId_Long => bytes_of "Long"
  | TagId_Float => bytes_of "Float"
  | TagId_Double => bytes_of "Double"
  | TagId_ByteArray => bytes_of "ByteArray"
  | TagId_String => bytes_of "String"
  | TagId_List => bytes_of "List"
  | TagId_Compound => bytes_of "Compound"
  | TagId_IntArray => bytes_of "IntArray"
  | TagId_LongArray => bytes_of "LongArray"
  end.

Section Messages.
(** [Debug] of a [String]. *)
Variable debug_str : list byte -> list byte.

Definition nbt_error_display (e : NbtError) : list byte :=
  match e with
  | NbtError_UnexpectedEof => bytes_of "unexpected end of input while decoding nbt"
  | NbtError_UnknownTag id => bytes_of "unknown nbt tag id " ++ decimal id
  | NbtError_RootNotCompound id =>
      bytes_of "nbt root must be a compound, found " ++ tag_id_debug id
  | NbtError_DepthExceeded max =>
      bytes_of "nbt nesting exceeded the maximum depth of " ++ decimal max
  | NbtError_NegativeLength length => bytes_of "negative nbt length: " ++ decimal length
  | NbtError_LengthExceedsInput declared remaining =>
      bytes_of "nbt length declares " ++ decimal declared ++ bytes_of " bytes but only "
      ++ decimal remaining ++ bytes_of " remain"
  | NbtError_InvalidListElementType id =>
      bytes_of "invalid nbt list element type " ++ tag_id_debug id
  | NbtError_HeterogeneousList expected found =>
      bytes_of "heterogeneous nbt list: expected " ++ tag_id_debug expected
      ++ bytes_of ", found " ++ tag_id_debug found
  | NbtError_TooManyNodes max =>
      bytes_of "nbt document exceeded the maximum of " ++ decimal max ++ bytes_of " tags"
  | NbtError_DuplicateKey name =>
      bytes_of "nbt compound contains a duplicate key: " ++ debug_str name
  | NbtError_ArrayTooLong length =>
      bytes_of "nbt array of " ++ decimal length
      ++ bytes_of " elements exceeds the i32 length prefix"
  | NbtError_StringTooLong length =>
      bytes_of "nbt string of " ++ decimal length ++ bytes_of " bytes exceeds the 65535 byte maximum"
  | NbtError_InvalidUtf8 _ => bytes_of "nbt string was not valid utf-8"
  end.

Definition protocol_error_display (e : ProtocolError) : list byte :=
  match e with
  | ProtocolError_VarIntTooLong max =>
      bytes_of "varint exceeded its maximum encoded length of " ++ decimal max ++ bytes_of " bytes"
  | ProtocolError_UnexpectedEof => bytes_of "unexpected end of buffer while decoding"
  | ProtocolError_NegativeLength length => bytes_of "negative length prefix: " ++ decimal length
  | ProtocolError_FrameTooLarge length max =>
      bytes_of "frame length " ++ decimal length ++ bytes_of " exceeds maximum " ++ decimal max
  | ProtocolError_StringTooLong length max =>
      bytes_of "string length " ++ decimal length ++ bytes_of " bytes exceeds maximum "
      ++ decimal max ++ bytes_of " bytes"
  | ProtocolError_ArrayTooLong length max =>
      bytes_of "array length " ++ decimal length ++ bytes_of " exceeds maximum " ++ decimal max
  | ProtocolError_InvalidBoolean byte =>
      bytes_of "invalid boolean byte " ++ hex04 8 byte ++ bytes_of ", expected 0 or 1"
  | ProtocolError_CompressedSizeMismatch declared actual =>
      bytes_of "compressed packet declared " ++ decimal declared
      ++ bytes_of " bytes but inflated to " ++ decimal actual
  | ProtocolError_Decompression reason => bytes_of "decompression failed: " ++ reason
  | ProtocolError_Nbt e => bytes_of "nbt error: " ++ nbt_error_display e
  | ProtocolError_CompressedBelowThreshold data_length threshold =>
      bytes_of "compressed packet of " ++ decimal data_length ++ bytes_of " bytes is below the "
      ++ decimal threshold ++ bytes_of " byte threshold"
  | ProtocolError_InvalidUtf8 _ => bytes_of "string field was not valid utf-8"
  | ProtocolError_InvalidNextState value =>
      bytes_of "invalid next state value " ++ decimal value
      ++ bytes_of ", expected 1 (status), 2 (login), or 3 (transfer)"
  | ProtocolError_Json e => bytes_of "json payload error: " ++ e
  | ProtocolError_Io e => bytes_of "i/o error: " ++ e
  | ProtocolError_TrailingBytes remaining =>
      bytes_of "packet body had " ++ decimal remaining ++ bytes_of " trailing bytes"
  end.

Definition net_error_display (e : NetError) : list byte :=
  match e with
  | NetError_Protocol e => bytes_of "protocol error: " ++ protocol_error_display e
  | NetError_IllegalTransition from to =>
      bytes_of "illegal state transition from " ++ state_display from ++ bytes_of " to "
      ++ state_display to
  | NetError_UnexpectedPacket state id =>
      bytes_of "unexpected packet id " ++ hex04 32 id ++ bytes_of " in state " ++ state_display state
  | NetError_DuplicateStatusRequest => bytes_of "duplicate status request"
  | NetError_InvalidUsername name => bytes_of "invalid username " ++ debug_str name
  | NetError_Timeout => bytes_of "connection timed out waiting for a packet"
  end.
End Messages.

(** ** Words: no space and no comma *)

Definition word (l : list byte) : Prop := Forall (fun b => b <> x20 /\ b <> x2c) l.

Lemma split_word sep a b x y :
  sep = x20 \/ sep = x2c -> word a -> word b -> a ++ sep :: x = b ++ sep :: y -> a = b /\ x = y.
Proof.
  intros Hsep Ha. revert b. induction Ha as [|c a [Hc Hc'] _ IH]; intros b Hb Heq.
  - destruct Hb as [|d b [Hd Hd'] _]; cbn in Heq; [by simplify_eq|]. injection Heq as <- _. destruct Hsep; congruence.
  - destruct Hb as [|d b [Hd Hd'] Hb]; cbn in Heq; injection Heq as -> Heq; [destruct Hsep; congruence|].
    destruct (IH b Hb Heq) as [-> ->]. done.
Qed.

Lemma word_app a b : word a -> word b -> word (a ++ b).
Proof. apply Forall_app_2. Qed.

Lemma bytes_of_inj s1 s2 : bytes_of s1 = bytes_of s2 -> s1 = s2.
Proof.
  intros H. rewrite <- (String.string_of_list_byte_of_string s1), <- (String.string_of_list_byte_of_string s2).
  by f_equal.
Qed.

Lemma decimal_inj a b : decimal a = decimal b -> a = b.
Proof. intros H%bytes_of_inj. by apply (inj pretty). Qed.

Lemma word_pretty_N n s : word (bytes_of s) -> word (bytes_of (pretty_N_go n s)).
Proof.
  revert s. induction (N.lt_wf_0 n) as [n _ IH]; intros s Hs.
  destruct (decide (0 < n)%N) as [Hn|Hn].
  - rewrite pretty_N_go_step by done. apply IH; [by apply N.div_lt|].
    constructor; [|done]. assert (n `mod` 10 < 10)%N as Hm by (by apply N.mod_lt).
    revert Hm. generalize (n `mod` 10)%N. intros m Hm.
    do 10 (destruct m as [|m] using N.peano_ind; [by split|clear IHm]; try lia).
  - assert (n = 0%N) as -> by lia. by rewrite pretty_N_go_0.
Qed.

Lemma word_decimal n : word (decimal n).
Proof.
  assert (forall m : N, word (bytes_of (pretty m))) as HN.
  { intros m. unfold pretty, pretty_N. case_decide; [by repeat constructor|].
    apply word_pretty_N. constructor. }
  unfold decimal. destruct n as [|p|p]; [by repeat constructor|apply (HN (N.pos p))|].
  change (word (x2d :: bytes_of (pretty (N.pos p)))). constructor; [by split|apply HN].
Qed.

(** The value of a string of hexadecimal digits. *)
Definition hex_digit_val (b : byte) : Z :=
  if byte_val b <? 58 then byte_val b - 48 else byte_val b - 87.
Definition hex_val (l : list byte) : Z := fold_left (fun v b => 16 * v + hex_digit_val b) l 0.

Lemma hex_digit_cases n : 0 <= n < 16 ->
  exists b, hex_digit n = [b] /\ hex_digit_val b = n /\ b <> x20 /\ b <> x2c.
Proof.
  intros Hn. eexists. split; [done|]. unfold hex_digit_val.
  assert (byte_val (byte_of (if n <? 10 then 48 + n else 87 + n))
    = if n <? 10 then 48 + n else 87 + n) as Hb by (rewrite byte_val_of; apply Z.mod_small; destruct (n <? 10) eqn:E; lia).
  rewrite Hb. split.
  - destruct (Z.ltb_spec n 10); case_match; lia.
  - split; intros Heq; rewrite Heq in Hb; cbn in Hb; destruct (Z.ltb_spec n 10); lia.
Qed.

Lemma hex_digits_val fuel : forall n, 0 <= n < 16 ^ Z.of_nat fuel -> hex_val (hex_digits fuel n) = n.
Proof.
  induction fuel as [|fuel IH]; intros n Hn; [cbn in Hn; cbn; lia|]. cbn [hex_digits].
  destruct (Z.ltb_spec n 16) as [Hs|Hs].
  - destruct (hex_digit_cases n ltac:(lia)) as (b & -> & Hb & _). exact Hb.
  - pose proof (Z.mod_pos_bound n 16 ltac:(lia)).
    destruct (hex_digit_cases (n mod 16) ltac:(lia)) as (b & -> & Hb & _).
    unfold hex_val. rewrite fold_left_app. cbn. fold (hex_val (hex_digits fuel (n / 16))).
    rewrite Nat2Z.inj_succ, Z.pow_succ_r in Hn by lia.
    rewrite IH, Hb; [pose proof (Z.div_mod n 16 ltac:(lia)); lia|]. split; [apply Z.div_pos; lia|]. apply Z.div_lt_upper_bound; lia.
Qed.

Lemma word_hex_digits fuel : forall n, 0 <= n -> word (hex_digits fuel n).
Proof.
  induction fuel as [|fuel IH]; intros n Hn; [constructor|]. cbn [hex_digits].
  destruct (Z.ltb_spec n 16) as [Hs|Hs].
  - destruct (hex_digit_cases n ltac:(lia)) as (b & -> & _ & Hb). by constructor.
  - pose proof (Z.mod_pos_bound n 16 ltac:(lia)).
    destruct (hex_digit_cases (n mod 16) ltac:(lia)) as (b & -> & _ & Hb).
    apply word_app; [apply IH, Z.div_pos; lia|by constructor].
Qed.

Lemma hex04_inj w n m :
  0 < w -> w mod 4 = 0 -> hex04 w n = hex04 w m -> wrap w n = wrap w m.
Proof.
  intros Hw Hw4 Heq. unfold hex04 in Heq. apply app_inv_head in Heq.
  assert (forall l, hex_val (if len l <? 2 then bytes_of "0" ++ l else l) = hex_val l) as Hpad
    by (intros l; by destruct (len l <? 2)).
  assert (forall v, hex_val (hex_digits (Z.to_nat (w / 4)) (wrap w v)) = wrap w v) as Hval.
  { intros v. apply hex_digits_val. rewrite Z2Nat.id by (apply Z.div_pos; lia).
    change 16 with (2 ^ 4). rewrite <- Z.pow_mul_r by (lia || apply Z.div_pos; lia).
    replace (4 * (w / 4)) with w by (pose proof (Z.div_mod w 4 ltac:(lia)); lia).
    apply wrap_range. lia. }
  apply (f_equal hex_val) in Heq. by rewrite !Hpad, !Hval in Heq.
Qed.

Lemma word_hex04 w n : 0 < w -> word (hex04 w n).
Proof.
  intros Hw. unfold hex04. apply word_app; [by repeat constructor|].
  assert (word (hex_digits (Z.to_nat (w / 4)) (wrap w n))) as Hd
    by (apply word_hex_digits, wrap_range; lia).
  destruct (_ <? 2); [|done]. apply word_app; [by repeat constructor|done].
Qed.

Lemma word_tag_id id : word (tag_id_debug id).
Proof. destruct id; by repeat constructor. Qed.

Lemma tag_id_debug_inj a b : tag_id_debug a = tag_id_debug b -> a = b.
Proof. by destruct a, b. Qed.

Lemma word_state s : word (state_display s).
Proof. destruct s; by repeat constructor. Qed.

Lemma state_display_inj a b : state_display a = state_display b -> a = b.
Proof. by destruct a, b. Qed.

(** A word before a text that starts with a separator. *)
Lemma split_text a b t x y :
  match t with c :: _ => c = x20 \/ c = x2c | [] => False end ->
  word a -> word b -> a ++ t ++ x = b ++ t ++ y -> a = b /\ x = y.
Proof.
  destruct t as [|c t]; [done|]. intros Hc Ha Hb Heq. cbn in Heq.
  destruct (split_word _ _ _ _ _ Hc Ha Hb Heq) as [-> Hx]. split; [done|]. by eapply app_inv_head.
Qed.

(** ** Equality of errors, up to the position inside invalid UTF-8 *)

Definition nbt_alike (e1 e2 : NbtError) : Prop :=
  match e1, e2 with
  | NbtError_InvalidUtf8 _, NbtError_InvalidUtf8 _ => True
  | _, _ => e1 = e2
  end.

Definition protocol_alike (e1 e2 : ProtocolError) : Prop :=
  match e1, e2 with
  | ProtocolError_InvalidUtf8 _, ProtocolError_InvalidUtf8 _ => True
  | ProtocolError_Nbt n1, ProtocolError_Nbt n2 => nbt_alike n1 n2
  | _, _ => e1 = e2
  end.

Definition net_alike (e1 e2 : NetError) : Prop :=
  match e1, e2 with
  | NetError_Protocol p1, NetError_Protocol p2 => protocol_alike p1 p2
  | _, _ => e1 = e2
  end.

(** The integers that are printed by their bits have their width. *)
Definition in_width (e : NetError) : bool :=
  match e with
  | NetError_UnexpectedPacket _ id => in_signed 32 id
  | NetError_Protocol (ProtocolError_InvalidBoolean byte) => in_unsigned 8 byte
  | _ => true
  end.

Create HintDb words.
#[local] Opaque hex04 decimal.
#[local] Hint Resolve word_decimal word_tag_id word_state word_hex04 : words.
#[local] Hint Extern 1 (_ < _) => reflexivity : words.

(** Peel the fixed texts off two equal messages. *)
Ltac peel H :=
  repeat first
    [ apply app_inv_head in H
    | apply split_text in H as [? H]; [|solve [cbn; auto]|solve [auto with words]..]
    | apply app_inv_tail in H ].

Section Injective.
Context (debug_str : list byte -> list byte) `{!Inj (=) (=) debug_str}.

Lemma nbt_error_display_inj e1 e2 :
  nbt_error_display debug_str e1 = nbt_error_display debug_str e2 -> nbt_alike e1 e2.
Proof.
  destruct e1, e2; cbn [nbt_error_display nbt_alike]; intros H; try done; try discriminate H;
    peel H; f_equal; eauto using decimal_inj, tag_id_debug_inj; by apply (inj debug_str).
Qed.

Lemma protocol_error_display_inj e1 e2 :
  in_width (NetError_Protocol e1) = true -> in_width (NetError_Protocol e2) = true ->
  protocol_error_display debug_str e1 = protocol_error_display debug_str e2 ->
  protocol_alike e1 e2.
Proof.
  intros W1 W2. destruct e1, e2; cbn [protocol_error_display protocol_alike]; intros H; try done;
    try discriminate H; peel H; try (f_equal; eauto using decimal_inj; fail).
  - apply in_unsigned_spec in W1, W2. apply hex04_inj in H; [|done..].
    unfold wrap in H. rewrite !Z.mod_small in H by done. by subst.
  - by apply nbt_error_display_inj.
Qed.
End Injective.

(** ** Property *)

(** C39: A log line says which error it reports: two errors with the same message are
    the same error, with the same numbers, names and nested error, up to where
    inside a string the invalid UTF-8 was found, which no message mentions. *)
Theorem messages_identify_errors (debug_str : list byte -> list byte)
    (Hdebug : Inj (=) (=) debug_str) (e1 e2 : NetError)
    (H1 : in_width e1 = true) (H2 : in_width e2 = true)
    (Hsame : net_error_display debug_str e1 = net_error_display debug_str e2) :
  net_alike e1 e2.
Proof.
  destruct e1, e2; cbn [net_error_display net_alike] in *; try done; try discriminate Hsame;
    peel Hsame.
  - by eapply protocol_error_display_inj.
  - f_equal; eauto using state_display_inj.
  - apply state_display_inj in Hsame as ->. f_equal.
    match goal with H : hex04 _ _ = hex04 _ _ |- _ => apply hex04_inj in H as Hbits; [|done..] end.
    rewrite <- (sign_wrap 32 id), <- (sign_wrap 32 id0) by done. by f_equal.
  - f_equal. by apply (inj debug_str).
Qed.

(** ** Witness and examples *)

(** Quotes around the text: [Debug] of a string that needs no escapes. *)
Definition quoted (s : list byte) : list byte := x22 :: s ++ [x22].

Lemma messages_identify_errors_witness :
  net_alike (NetError_UnexpectedPacket State_Login 7) (NetError_UnexpectedPacket State_Login 7).
Proof.
  apply (messages_identify_errors quoted); [|reflexivity..].
  intros s1 s2 H. injection H as H. apply app_inv_tail in H. exact H.
Defined.

Example unexpected_packet_message :
  net_error_display quoted (NetError_UnexpectedPacket State_Status 127)
  = bytes_of "unexpected packet id 0x7f in state status".
Proof. vm_compute. reflexivity. Qed.

Example negative_length_message :
  net_error_display quoted (NetError_Protocol (ProtocolError_NegativeLength (-5)))
  = bytes_of "protocol error: negative length prefix: -5".
Proof. vm_compute. reflexivity. Qed.

Example duplicate_key_message :
  net_error_display quoted (NetError_Protocol (ProtocolError_Nbt (NbtError_DuplicateKey (bytes_of "k"))))
  = bytes_of "protocol error: nbt error: nbt compound contains a duplicate key: " ++ quoted (bytes_of "k").
Proof. vm_compute. reflexivity. Qed.

Example padded_hex : hex04 8 2 = bytes_of "0x02" /\ hex04 32 (-1) = bytes_of "0xffffffff".
Proof. by vm_compute. Qed.
