(* ===== verification/NbtLargeTests.v ===== *)
(** * The unit tests of the NBT reader on large documents
    ([crates/nbt/src/read.rs]).

    Documents of up to 65,536 tags: the buffers are built by the same writes as
    the source's, described by their encodings, and read by the lemmas of
    [NbtCorrect] and [NbtLimits].  The bound on the wall-clock time of
    [a_large_flat_compound_with_distinct_keys_decodes_quickly] has no
    counterpart here. *)

From S2P Require Import Prelude Utf8 Buffers Testing NbtTag NbtSpec NbtRead NbtCorrect NbtLimits Display.
From stdpp Require Import base list numbers strings.
From Stdlib Require Import Strings.Byte.

Open Scope Z_scope.
Open Scope test_scope.

Module LargeTests.

(** [{i:04x}] of an index below [2 ^ 16]. *)
Definition four_digits (i : Z) : list byte :=
  flat_map (fun k => hex_digit (i / 16 ^ k mod 16)) [3; 2; 1; 0].

Definition duplicate_keys_are_rejected_not_silently_collapsed : Prop :=
  buffer (E := NbtError)
    (do! put_u8 0x0a;
     do! for_each (fun _ => do! put_u8 0x01; do! put_u16 1; do! put_slice (bytes_of "k"); put_i8 1)
       (indices (Z.to_nat 40000) 0);
     put_u8 0x00)
    (fun buf => fst (read_network_root buf) = Err (NbtError_DuplicateKey (bytes_of "k"))).

Definition a_large_flat_compound_with_distinct_keys_decodes : Prop :=
  buffer (E := NbtError)
    (do! put_u8 0x0a;
     do! for_each (fun i =>
       let name := four_digits i in
       do! put_u8 0x01; do! put_u16 (len name); do! put_slice name; put_i8 1)
       (indices (Z.to_nat 40000) 0);
     put_u8 0x00)
    (fun buf => unwrapped_with (read_network_root buf) (fun decoded _ => compound_len decoded = 40000)).

(** A root holding one list named [l] that declares [n] compounds, and [n] empty
    compounds; the root is left open. *)
Definition put_compounds (n : Z) : M (list byte) NbtError unit :=
  do! put_u8 0x0a; do! put_u8 0x09; do! put_u16 1; do! put_slice (bytes_of "l");
  do! put_u8 0x0a; do! put_i32 n;
  for_each (fun _ => put_u8 0x00) (indices (Z.to_nat n) 0).

Definition a_document_exceeding_the_node_budget_is_rejected : Prop :=
  buffer (put_compounds (MAX_TOTAL_NODES + 10)) (fun buf =>
    fst (read_network_root buf) = Err (NbtError_TooManyNodes MAX_TOTAL_NODES)).

Definition a_document_at_exactly_the_node_budget_decodes : Prop :=
  let element_count := MAX_TOTAL_NODES - 1 in
  buffer (do! put_compounds element_count; put_u8 0x00) (fun buf =>
    unwrapped_with (read_network_root buf) (fun decoded _ =>
      match compound_get decoded (bytes_of "l") with
      | Some (NbtTag_List list) => list_len list = element_count
      | _ => False
      end)).

Definition a_document_one_node_over_the_budget_is_rejected : Prop :=
  buffer (put_compounds MAX_TOTAL_NODES) (fun buf =>
    fst (read_network_root buf) = Err (NbtError_TooManyNodes MAX_TOTAL_NODES)).

(** ** What the buffers hold *)

Lemma buffer_writes (m : M (list byte) NbtError unit) bs k :
  writes_if (fun _ => False) true m bs -> k bs -> buffer m k.
Proof. intros Hm Hk. unfold buffer, unwrapped_with. by rewrite (Hm []). Qed.

Ltac puts := repeat (eapply (writes_seq _ true true); [by apply writes_act|]); try by apply writes_act.

Lemma writes_each {A} (f : A -> M (list byte) NbtError unit) enc l :
  (forall a, writes_if (fun _ => False) true (f a) (enc a)) ->
  writes_if (fun _ => False) true (for_each f l) (flat_map enc l).
Proof. intros Hf. induction l; [apply writes_ret|]. by apply (writes_seq _ true true). Qed.

(** The entries of a flat compound of bytes. *)
Definition byte_entries (name : Z -> list byte) (l : list Z) : list (list byte * NbtTag) :=
  map (fun i => (name i, NbtTag_Byte 1)) l.

Lemma enc_byte_entries name l :
  flat_map (fun i => be_bytes 1 1 ++ be_bytes 2 (len (name i)) ++ name i ++ be_bytes 1 1) l
  = flat_map enc_entry (byte_entries name l).
Proof.
  induction l as [|i l IH]; [done|]. cbn [flat_map byte_entries map]. rewrite IH.
  unfold enc_entry at 2. cbn [fst snd tag_id tag_id_u8 enc_payload]. unfold enc_string.
  by rewrite <- !app_assoc.
Qed.

Lemma byte_entries_valid name l :
  forallb (valid_entry 1) (byte_entries name l)
  = forallb (fun i => Utf8.valid (name i) && (len (name i) <? 2 ^ 16)) l.
Proof.
  induction l as [|i l IH]; [done|]. cbn [byte_entries map forallb]. rewrite <- IH.
  unfold valid_entry at 1. cbn [fst snd every_tag]. by rewrite !andb_true_r.
Qed.

Lemma byte_entries_count name l : entries_count (byte_entries name l) = len l.
Proof.
  induction l as [|i l IH]; [done|]. rewrite len_cons, <- IH. done.
Qed.

Lemma enc_compounds n : forall start,
  flat_map (fun _ => be_bytes 1 0) (indices n start)
  = flat_map enc_payload (repeat (NbtTag_Compound compound_new) n).
Proof.
  induction n as [|n IH]; intros start; [done|].
  cbn [indices flat_map repeat]. f_equal. apply IH.
Qed.

Definition compounds (n : Z) : NbtTag :=
  NbtTag_List (mkList TagId_Compound (repeat (NbtTag_Compound compound_new) (Z.to_nat n))).

Lemma put_compounds_writes n :
  0 <= n -> writes_if (fun _ => False) true (put_compounds n)
    (be_bytes 1 10 ++ be_bytes 1 9 ++ enc_string (bytes_of "l") ++ enc_payload (compounds n)).
Proof.
  intros Hn. unfold put_compounds, enc_string. rewrite <- !app_assoc. cbn [enc_payload compounds element_type items].
  rewrite <- (enc_compounds _ 0). unfold len at 2. rewrite repeat_length, Z2Nat.id by done.
  do 6 (apply (writes_seq _ true true); [by apply writes_act|]).
  apply writes_each. intros _. by apply writes_act.
Qed.

(** A list of compounds that no budget can hold. *)
Lemma compounds_overflow n :
  MAX_TOTAL_NODES <= n -> valid_tag 1 (compounds n) = true ->
  fst (read_network_root
    (be_bytes 1 10 ++ be_bytes 1 9 ++ enc_string (bytes_of "l") ++ enc_payload (compounds n)))
  = Err (NbtError_TooManyNodes MAX_TOTAL_NODES).
Proof.
  intros Hn Hv. unfold read_network_root.
  erewrite bind_ok by apply (parses_tag_id TagId_Compound).
  rewrite decide_False by auto. unfold read_root_body. cbn [remaining slice_buf].
  rewrite !len_app, len_be_bytes.
  change (len (enc_string (bytes_of "l"))) with 3. pose proof (len_nonneg (enc_payload (compounds n))).
  remember (Z.to_nat _) as m eqn:Hm. cbn [read_compound_body].
  change (1 >? MAX_DEPTH) with false. cbn match. cbn [read_entries].
  erewrite bind_ok by apply on_src_ok, (parses_tag_id TagId_List).
  rewrite decide_False by done.
  erewrite bind_ok by (apply on_src_ok, parses_nbt_string; done).
  destruct (payload_overflows_all (compounds n) 1 m 0 []) as [s Hs].
  - done.
  - done.
  - unfold compounds. cbn [tag_count items]. fold (items_count (repeat (NbtTag_Compound compound_new) (Z.to_nat n))).
    rewrite items_count_repeat. cbn. lia.
  - rewrite app_nil_r. lia.
  - rewrite app_nil_r in Hs. by rewrite (bind_err _ _ _ _ _ Hs).
Qed.

(** A test on a flat compound of bytes is a test of the comparison of its names. *)
Lemma byte_compound_test name put_entry l (Q : outcome NbtError NbtCompound -> Prop) :
  (forall i, writes_if (fun _ => False) true (put_entry i)
     (be_bytes 1 1 ++ be_bytes 2 (len (name i)) ++ name i ++ be_bytes 1 1)) ->
  forallb (fun i => Utf8.valid (name i) && (len (name i) <? 2 ^ 16)) l = true ->
  len l <= MAX_TOTAL_NODES ->
  Q (fst ((do! lift (reject_duplicate_keys (mkCompound (byte_entries name l)));
           ret (mkCompound (byte_entries name l))) tt)) ->
  buffer (E := NbtError) (do! put_u8 0x0a; do! for_each put_entry l; put_u8 0x00)
    (fun buf => Q (fst (read_network_root buf))).
Proof.
  intros Hput Hname Hlen HQ. eapply buffer_writes.
  - apply (writes_seq _ true true); [by apply writes_act|].
    apply (writes_seq _ true true); [by apply writes_each, Hput|by apply writes_act].
  - rewrite enc_byte_entries. change (_ ++ _ ++ _) with (enc_network (mkCompound (byte_entries name l))).
    rewrite <- (app_nil_r (enc_network _)), read_network_root_entries; [done| |].
    + by rewrite byte_entries_valid.
    + by rewrite byte_entries_count.
Qed.

(** ** The tests pass *)

Lemma duplicate_keys_test_passes : duplicate_keys_are_rejected_not_silently_collapsed.
Proof.
  unfold duplicate_keys_are_rejected_not_silently_collapsed.
  apply (byte_compound_test (fun _ => bytes_of "k") _ _
    (fun r => r = Err (NbtError_DuplicateKey (bytes_of "k")))); [intros i; puts|..];
    vm_compute; [done|discriminate|done].
Qed.

Lemma distinct_keys_test_passes : a_large_flat_compound_with_distinct_keys_decodes.
Proof.
  unfold a_large_flat_compound_with_distinct_keys_decodes.
  apply (byte_compound_test four_digits _ _
    (fun r => unwrapped r (fun decoded => compound_len decoded = 40000))); [intros i; cbn zeta; puts|..];
    vm_compute; [done|discriminate|done].
Qed.

Lemma exceeding_the_node_budget_test_passes : a_document_exceeding_the_node_budget_is_rejected.
Proof.
  eapply buffer_writes; [by apply put_compounds_writes|].
  apply compounds_overflow; [done|vm_compute; reflexivity].
Qed.

Lemma one_node_over_the_budget_test_passes : a_document_one_node_over_the_budget_is_rejected.
Proof.
  eapply buffer_writes; [by apply put_compounds_writes|].
  apply compounds_overflow; [done|vm_compute; reflexivity].
Qed.

Lemma exactly_the_node_budget_test_passes : a_document_at_exactly_the_node_budget_decodes.
Proof.
  eapply buffer_writes.
  - apply (writes_seq _ true true); [by apply put_compounds_writes|by apply writes_act].
  - assert (valid_document (mkCompound [(bytes_of "l", compounds (MAX_TOTAL_NODES - 1))]) = true)
      as Hv by (vm_compute; reflexivity).
    pose proof (parses_network_root _ Hv []) as Hp.
    unfold enc_network, enc_body in Hp. cbn [entries flat_map] in Hp.
    unfold enc_entry in Hp. cbn [fst snd] in Hp.
    rewrite !app_nil_r, <- !app_assoc in Hp. rewrite <- !app_assoc.
    change (tag_id_u8 (tag_id (compounds (MAX_TOTAL_NODES - 1)))) with 9 in Hp.
    unfold unwrapped_with. rewrite Hp. vm_compute. reflexivity.
Qed.

End LargeTests.
