(* ===== verification/Md5.v ===== *)
(** * A message digest for concrete runs.

    [offline_uuid] takes MD5 from a crate and the library takes it as a
    parameter, of which only the length of its result is assumed.  This file
    writes out the algorithm of RFC 1321, so that the identities the tests of
    [crates/net/src/offline.rs] pin down can be computed. *)

From S2P Require Import Prelude.
From stdpp Require Import base list numbers strings.
From Stdlib Require Import Strings.Byte.

Open Scope Z_scope.

(** The constants: [floor (2 ^ 32 * |sin (i + 1)|)]. *)
Definition sines : list Z :=
  [3614090360; 3905402710; 606105819; 3250441966; 4118548399; 1200080426;
   2821735955; 4249261313; 1770035416; 2336552879; 4294925233; 2304563134;
   1804603682; 4254626195; 2792965006; 1236535329; 4129170786; 3225465664;
   643717713; 3921069994; 3593408605; 38016083; 3634488961; 3889429448;
   568446438; 3275163606; 4107603335; 1163531501; 2850285829; 4243563512;
   1735328473; 2368359562; 4294588738; 2272392833; 1839030562; 4259657740;
   2763975236; 1272893353; 4139469664; 3200236656; 681279174; 3936430074;
   3572445317; 76029189; 3654602809; 3873151461; 530742520; 3299628645;
   4096336452; 1126891415; 2878612391; 4237533241; 1700485571; 2399980690;
   4293915773; 2240044497; 1873313359; 4264355552; 2734768916; 1309151649;
   4149444226; 3174756917; 718787259; 3951481745].

(** The rotations of the four rounds, each repeated four times. *)
Definition rotations (i : nat) : Z :=
  match (i / 16)%nat, (i mod 4)%nat with
  | 0%nat, 0%nat => 7 | 0%nat, 1%nat => 12 | 0%nat, 2%nat => 17 | 0%nat, _ => 22
  | 1%nat, 0%nat => 5 | 1%nat, 1%nat => 9 | 1%nat, 2%nat => 14 | 1%nat, _ => 20
  | 2%nat, 0%nat => 4 | 2%nat, 1%nat => 11 | 2%nat, 2%nat => 16 | 2%nat, _ => 23
  | _, 0%nat => 6 | _, 1%nat => 10 | _, 2%nat => 15 | _, _ => 21
  end.

Definition not32 (x : Z) : Z := 2 ^ 32 - 1 - x.
Definition rotate_left (x n : Z) : Z := wrap 32 (Z.lor (Z.shiftl x n) (Z.shiftr x (32 - n))).

(** The mixing function of a step, and the word of the block it takes. *)
Definition mix (i : nat) (b c d : Z) : Z * nat :=
  match (i / 16)%nat with
  | 0%nat => (Z.lor (Z.land b c) (Z.land (not32 b) d), i)
  | 1%nat => (Z.lor (Z.land d b) (Z.land (not32 d) c), ((5 * i + 1) mod 16)%nat)
  | 2%nat => (Z.lxor b (Z.lxor c d), ((3 * i + 5) mod 16)%nat)
  | _ => (Z.lxor c (Z.lor b (not32 d)), ((7 * i) mod 16)%nat)
  end.

Definition digest_state : Type := Z * Z * Z * Z.

Definition md5_step (block : list Z) (s : digest_state) (i : nat) : digest_state :=
  let '(a, b, c, d) := s in
  let (f, g) := mix i b c d in
  let sum := wrap 32 (f + a + nth i sines 0 + nth g block 0) in
  (d, wrap 32 (b + rotate_left sum (rotations i)), b, c).

Definition md5_block (s : digest_state) (block : list Z) : digest_state :=
  let '(a, b, c, d) := s in
  let '(a', b', c', d') := fold_left (md5_step block) (seq 0 64) s in
  (wrap 32 (a + a'), wrap 32 (b + b'), wrap 32 (c + c'), wrap 32 (d + d')).

(** Little-endian integers. *)
Definition le_bytes (n : nat) (x : Z) : list byte := rev (be_bytes n x).
Definition le_val (bs : list byte) : Z := be_val (rev bs).

(** [l] cut into pieces of [n]; [fuel] pieces at most. *)
Fixpoint pieces (fuel n : nat) (l : list byte) : list (list byte) :=
  match fuel, l with
  | O, _ | _, [] => []
  | S fuel, _ => take n l :: pieces fuel n (drop n l)
  end.

(** A one bit, zeros up to 56 bytes modulo 64, and the length in bits. *)
Definition padded (input : list byte) : list byte :=
  let n := length input in
  input ++ x80 :: repeat x00 ((119 - n mod 64) mod 64) ++ le_bytes 8 (8 * len input).

Definition rfc1321 (input : list byte) : list byte :=
  let l := padded input in
  let blocks := map (fun p => map le_val (pieces 16 4 p)) (pieces (length l / 64) 64 l) in
  let '(a, b, c, d) :=
    fold_left md5_block blocks (1732584193, 4023233417, 2562383102, 271733878) in
  le_bytes 4 a ++ le_bytes 4 b ++ le_bytes 4 c ++ le_bytes 4 d.

(** A digest has sixteen bytes. *)
Lemma rfc1321_length input : length (rfc1321 input) = 16%nat.
Proof.
  unfold rfc1321. destruct (fold_left _ _ _) as [[[a b] c] d]. unfold le_bytes.
  by rewrite !length_app, !length_rev, !length_be_bytes.
Qed.

(** Two vectors of the RFC's test suite. *)
Example rfc1321_empty :
  be_val (rfc1321 []) = 0xd41d8cd98f00b204e9800998ecf8427e.
Proof. vm_compute. reflexivity. Qed.

Example rfc1321_alphabet :
  be_val (rfc1321 (bytes_of "abcdefghijklmnopqrstuvwxyz")) = 0xc3fcd3d76192e4007dfb496cca67e13b.
Proof. vm_compute. reflexivity. Qed.
