(* ===== verification/Offline.v ===== *)
(** * Offline identity ([crates/net/src/offline.rs]).

    The UUID derived from a username, with MD5 as a parameter, and the
    username check. *)

From S2P Require Import Prelude Utf8 Buffers ProtocolError Fields Packets ConnState.
From stdpp Require Import base list numbers strings.
From Stdlib Require Import Strings.Byte.

Open Scope Z_scope.

(** The same cap as the login packets', declared again by this file. *)
Definition MAX_USERNAME_CHARS : Z := 16.

Section Uuid.
(** The digest of the concatenation of what the hasher was fed. *)
Variable md5 : list byte -> list byte.

Definition offline_uuid (username : list byte) : Z :=
  let bytes := md5 (bytes_of "OfflinePlayer:" ++ username) in
  let bytes := alter (fun b => byte_of (Z.lor (Z.land (byte_val b) 15) 48)) 6%nat bytes in
  let bytes := alter (fun b => byte_of (Z.lor (Z.land (byte_val b) 63) 128)) 8%nat bytes in
  be_val bytes.
End Uuid.

(** [c.is_ascii_alphanumeric() || c == '_']. *)
Definition username_char (c : Z) : bool := Utf8.is_ascii_alphanumeric c || (c =? 95).

Definition validate_username (name : list byte) : outcome NetError unit :=
  let valid := negb (match name with [] => true | _ => false end)
    && (len (Utf8.chars name) <=? MAX_USERNAME_CHARS)
    && forallb username_char (Utf8.chars name) in
  if valid then Ok tt else Err (NetError_InvalidUsername name).

(** ** Lemmas *)

Lemma username_char_ascii c : username_char c = true -> (c <? 128) = true.
Proof. unfold username_char, Utf8.is_ascii_alphanumeric. lia. Qed.

Lemma forallb_impl {A} (f g : A -> bool) l :
  (forall a, f a = true -> g a = true) -> forallb f l = true -> forallb g l = true.
Proof. rewrite !forallb_forall. auto. Qed.

(** An accepted name is ASCII: its characters are its bytes. *)
Lemma username_chars name :
  Utf8.valid name = true -> forallb username_char (Utf8.chars name) = true ->
  forallb Utf8.is_ascii name = true.
Proof.
  intros Hv Hc. apply Utf8.ascii_chars_valid; [done|].
  eapply forallb_impl; [|exact Hc]. apply username_char_ascii.
Qed.

Lemma validate_username_ok name :
  Utf8.valid name = true ->
  validate_username name = Ok tt <->
  1 <= len name <= MAX_USERNAME_CHARS /\ forallb (fun b => username_char (byte_val b)) name = true.
Proof.
  intros Hv. unfold validate_username. split.
  - destruct (_ && _) eqn:E; [|done]. intros _. apply andb_prop in E as [[Hne Hl]%andb_prop Hc].
    pose proof (username_chars _ Hv Hc) as Ha. rewrite Utf8.chars_ascii in * by done.
    unfold len in *. rewrite length_map in Hl. split.
    + split; [|lia]. destruct name; [done|]. cbn [length]. lia.
    + clear -Hc. induction name; [done|]. cbn in *. apply andb_prop in Hc as [-> Hc]. by apply IHname.
  - intros [Hl Hc]. assert (forallb Utf8.is_ascii name = true) as Ha.
    { eapply forallb_impl; [|exact Hc]. intros b. apply username_char_ascii. }
    rewrite Utf8.chars_ascii by done.
    assert (forallb username_char (map byte_val name) = true) as ->.
    { clear -Hc. induction name; [done|]. cbn in *. apply andb_prop in Hc as [-> Hc]. by apply IHname. }
    unfold len in *. rewrite length_map. destruct name; [cbn in Hl; lia|].
    rewrite (proj2 (Z.leb_le _ _)) by lia. done.
Qed.

(** An accepted name fits every packet field that carries one. *)
Lemma validate_username_fits name :
  Utf8.valid name = true -> validate_username name = Ok tt ->
  string_ok Packets.MAX_USERNAME_CHARS name = true.
Proof.
  intros Hv [Hl _]%validate_username_ok; [|done]. unfold string_ok. rewrite Hv.
  unfold MAX_USERNAME_CHARS in Hl. unfold Packets.MAX_USERNAME_CHARS, MAX_BYTES_PER_CHAR. lia.
Qed.

Lemma version_byte b : byte_val (byte_of (Z.lor (Z.land (byte_val b) 15) 48)) = 48 + byte_val b mod 16.
Proof. by destruct b. Qed.

Lemma variant_byte b : byte_val (byte_of (Z.lor (Z.land (byte_val b) 63) 128)) = 128 + byte_val b mod 64.
Proof. by destruct b. Qed.

Lemma offline_uuid_unsigned md5 name :
  (forall input, length (md5 input) = 16%nat) -> in_unsigned 128 (offline_uuid md5 name) = true.
Proof.
  intros Hmd5. unfold offline_uuid. apply (be_val_unsigned _ 16). by rewrite !length_alter.
Qed.

(** ** Properties *)

(** C31: the offline UUID is the MD5 digest of the name behind its fixed prefix,
    as a big-endian 128-bit integer, with exactly six bits overwritten: version
    3 in the high nibble of byte 6 and the RFC 4122 variant in the top two bits
    of byte 8. *)
Theorem offline_uuid_spec (md5 : list byte -> list byte) (name : list byte)
    (Hmd5 : forall input, length (md5 input) = 16%nat) :
  let digest := md5 (bytes_of "OfflinePlayer:" ++ name) in
  in_unsigned 128 (offline_uuid md5 name) = true
  /\ length (be_bytes 16 (offline_uuid md5 name)) = 16%nat
  /\ forall i d, digest !! i = Some d ->
     exists b, be_bytes 16 (offline_uuid md5 name) !! i = Some b
     /\ byte_val b = (if decide (i = 6%nat) then 3 * 16 + byte_val d mod 16
                      else if decide (i = 8%nat) then 2 * 64 + byte_val d mod 64
                      else byte_val d).
Proof.
  cbv zeta. unfold offline_uuid. specialize (Hmd5 (bytes_of "OfflinePlayer:" ++ name)).
  generalize dependent (md5 (bytes_of "OfflinePlayer:" ++ name)). intros digest Hlen.
  set (bytes := alter _ 8%nat _).
  assert (length bytes = 16%nat) as Hb by (unfold bytes; by rewrite !length_alter).
  split; [by apply (be_val_unsigned bytes 16)|]. split; [apply length_be_bytes|].
  intros i d Hd. rewrite <- Hb, be_bytes_be_val. unfold bytes.
  destruct (decide (i = 6%nat)) as [->|H6].
  - rewrite list_lookup_alter_ne by lia. rewrite list_lookup_alter_eq, Hd. eexists. split; [done|].
    apply version_byte.
  - destruct (decide (i = 8%nat)) as [->|H8].
    + rewrite list_lookup_alter_eq, list_lookup_alter_ne, Hd by lia. eexists. split; [done|].
      apply variant_byte.
    + rewrite !list_lookup_alter_ne by lia. by exists d.
Qed.

(** [validate_username] accepts exactly the names of one to sixteen bytes
    drawn from the ASCII letters, digits and the underscore, and an accepted
    name fits the username field of every login packet; any other string is
    refused with [InvalidUsername]. *)
Theorem validate_username_spec (name : list byte) (Hvalid : Utf8.valid name = true) :
  (validate_username name = Ok tt <->
    1 <= len name <= 16 /\ forallb (fun b => username_char (byte_val b)) name = true)
  /\ (validate_username name = Ok tt -> string_ok Packets.MAX_USERNAME_CHARS name = true)
  /\ (validate_username name = Ok tt \/ validate_username name = Err (NetError_InvalidUsername name)).
Proof.
  split_and!; [by apply validate_username_ok|by apply validate_username_fits|].
  unfold validate_username. case_match; auto.
Qed.

(** ** Witnesses *)

Lemma offline_uuid_spec_witness :
  let digest := repeat xff 16 in
  in_unsigned 128 (offline_uuid (fun _ => repeat xff 16) (bytes_of "Notch")) = true
  /\ length (be_bytes 16 (offline_uuid (fun _ => repeat xff 16) (bytes_of "Notch"))) = 16%nat
  /\ forall i d, digest !! i = Some d ->
     exists b, be_bytes 16 (offline_uuid (fun _ => repeat xff 16) (bytes_of "Notch")) !! i = Some b
     /\ byte_val b = (if decide (i = 6%nat) then 3 * 16 + byte_val d mod 16
                      else if decide (i = 8%nat) then 2 * 64 + byte_val d mod 64
                      else byte_val d).
Proof. apply (offline_uuid_spec (fun _ => repeat xff 16) (bytes_of "Notch")). reflexivity. Defined.

Lemma validate_username_spec_witness :
  (validate_username (bytes_of "Steve_123") = Ok tt <->
    1 <= len (bytes_of "Steve_123") <= 16
    /\ forallb (fun b => username_char (byte_val b)) (bytes_of "Steve_123") = true)
  /\ (validate_username (bytes_of "Steve_123") = Ok tt ->
      string_ok Packets.MAX_USERNAME_CHARS (bytes_of "Steve_123") = true)
  /\ (validate_username (bytes_of "Steve_123") = Ok tt
      \/ validate_username (bytes_of "Steve_123")
         = Err (NetError_InvalidUsername (bytes_of "Steve_123"))).
Proof. apply validate_username_spec. reflexivity. Defined.

(** The names the tests of the source accept and refuse. *)
Example validate_username_examples :
  map (fun s => validate_username (bytes_of s)) ["a"; "Notch"; "________________"]%string
  = [Ok tt; Ok tt; Ok tt]
  /\ validate_username [] = Err (NetError_InvalidUsername [])
  /\ map (fun s => validate_username (bytes_of s)) ["seventeen_chars_x"; "has space"; "hy-phen"]%string
  = map (fun s => Err (NetError_InvalidUsername (bytes_of s)))
      ["seventeen_chars_x"; "has space"; "hy-phen"]%string.
Proof. split_and!; reflexivity. Qed.
