(* ===== verification/Json.v ===== *)
(** * JSON documents ([crates/protocol/src/text.rs], [packets/status.rs]).

    What the derived [Serialize] implementations give [serde_json] to print: the
    members of each object in the order of the fields, renamed and left out as
    the attributes say.  Printing itself is [serde_json]'s; [print_json] is its
    documented compact form, for concrete runs.  The derived [Deserialize]
    implementations are in [JsonRead]. *)

From S2P Require Import Prelude Utf8 ProtocolError Display Packets.
From stdpp Require Import base list numbers strings.
From Stdlib Require Import Strings.Byte.

Open Scope Z_scope.

(** A number that is not an integer is kept as it is written. *)
Inductive Json :=
  | Json_null
  | Json_bool (b : bool)
  | Json_number (n : Z)
  | Json_float (token : list byte)
  | Json_string (s : list byte)
  | Json_array (items : list Json)
  | Json_object (members : list (list byte * Json)).

(** ** Serialisation *)

(** A member under [skip_serializing_if = "Option::is_none"]. *)
Definition optional_member {A} (name : list byte) (f : A -> Json) (o : option A) :
    list (list byte * Json) :=
  match o with None => [] | Some a => [(name, f a)] end.

Fixpoint text_component_json (c : TextComponent) : Json :=
  Json_object (
    [(bytes_of "text", Json_string (text c))]
    ++ optional_member (bytes_of "color") Json_string (color c)
    ++ optional_member (bytes_of "bold") Json_bool (bold c)
    ++ optional_member (bytes_of "italic") Json_bool (italic c)
    ++ match extra c with
       | [] => []
       | l => [(bytes_of "extra", Json_array (map text_component_json l))]
       end).

Definition version_info_json (v : VersionInfo) : Json :=
  Json_object [(bytes_of "name", Json_string (version_name v));
               (bytes_of "protocol", Json_number (protocol v))].

Definition sample_player_json (p : SamplePlayer) : Json :=
  Json_object [(bytes_of "name", Json_string (sample_name p));
               (bytes_of "id", Json_string (sample_id p))].

Definition players_info_json (p : PlayersInfo) : Json :=
  Json_object [(bytes_of "max", Json_number (players_max p));
               (bytes_of "online", Json_number (players_online p));
               (bytes_of "sample", Json_array (map sample_player_json (sample p)))].

Definition status_json (s : StatusResponseJson) : Json :=
  Json_object (
    [(bytes_of "version", version_info_json (version s));
     (bytes_of "players", players_info_json (players s));
     (bytes_of "description", text_component_json (description s))]
    ++ optional_member (bytes_of "favicon") Json_string (favicon s)
    ++ [(bytes_of "enforcesSecureChat", Json_bool (enforces_secure_chat s))]).

(** ** The compact form *)

(** The escape of one byte of a string. *)
Definition escape_byte (b : byte) : list byte :=
  match byte_val b with
  | 34 => [x5c; x22]
  | 92 => [x5c; x5c]
  | 8 => [x5c; x62]
  | 9 => [x5c; x74]
  | 10 => [x5c; x6e]
  | 12 => [x5c; x66]
  | 13 => [x5c; x72]
  | v => if v <? 32 then [x5c; x75; x30; x30] ++ hex_digit (v / 16) ++ hex_digit (v mod 16) else [b]
  end.

Definition print_string (s : list byte) : list byte := x22 :: flat_map escape_byte s ++ [x22].

Definition separated (items : list (list byte)) : list byte :=
  match items with
  | [] => []
  | first :: rest => first ++ flat_map (fun item => x2c :: item) rest
  end.

Fixpoint print_json (j : Json) : list byte :=
  match j with
  | Json_null => bytes_of "null"
  | Json_bool true => bytes_of "true"
  | Json_bool false => bytes_of "false"
  | Json_number n => decimal n
  | Json_float token => token
  | Json_string s => print_string s
  | Json_array items => x5b :: separated (map print_json items) ++ [x5d]
  | Json_object members =>
      x7b :: separated (map (fun '(name, value) => print_string name ++ x3a :: print_json value) members)
      ++ [x7d]
  end.

(** The value of a member. *)
Definition member (name : list byte) (j : Json) : option Json :=
  match j with
  | Json_object members => (fun p => snd (snd p)) <$> list_find (fun m => fst m = name) members
  | _ => None
  end.

(** ** Lemmas *)

Section TextInduction.
Variable P : TextComponent -> Prop.
Hypothesis HP : forall t c b i l, Forall P l -> P (mkTextComponent t c b i l).

Fixpoint TextComponent_tree_ind (c : TextComponent) : P c :=
  match c with
  | mkTextComponent t c b i l =>
      HP t c b i l ((fix all (l : list TextComponent) : Forall P l :=
        match l with
        | [] => Forall_nil_2 P
        | x :: l => Forall_cons_2 P x l (TextComponent_tree_ind x) (all l)
        end) l)
  end.
End TextInduction.

Lemma map_inj_Forall {A B} (f : A -> B) l1 :
  Forall (fun a => forall b, f a = f b -> a = b) l1 -> forall l2, map f l1 = map f l2 -> l1 = l2.
Proof.
  induction 1 as [|a l1 Ha _ IH]; intros [|b l2] Heq; try done. cbn in Heq. injection Heq as Hab Hl.
  f_equal; auto.
Qed.

Lemma optional_member_inj {A} name (f : A -> Json) o1 o2 r1 r2 :
  (forall a b, f a = f b -> a = b) ->
  (forall v r, r1 = (name, v) :: r -> False) -> (forall v r, r2 = (name, v) :: r -> False) ->
  optional_member name f o1 ++ r1 = optional_member name f o2 ++ r2 -> o1 = o2 /\ r1 = r2.
Proof.
  intros Hf H1 H2. destruct o1 as [a|], o2 as [b|]; cbn; intros Heq.
  - injection Heq as Hab ->. split; [f_equal; auto|done].
  - destruct (H2 _ _ (eq_sym Heq)).
  - destruct (H1 _ _ Heq).
  - done.
Qed.

(** The first member of what follows an optional one has another name. *)
Ltac other_name b i l :=
  let v := fresh in let r := fresh in
  intros v r; destruct b as [?|], i as [?|], l as [|? ?]; discriminate.

(** ** Properties *)

(** The status document tells clients what the server is: whatever the
    configuration, it has exactly the documented members, in order: the pinned
    version and protocol number, the configured slot count, the number of players
    online and an empty sample, the message of the day as configured, no favicon,
    and no demand for signed chat. *)
Theorem status_document_shape (description : TextComponent) (max_players online_players : Z) :
  status_json (status_response_json_new description max_players online_players)
  = Json_object
      [(bytes_of "version",
        Json_object [(bytes_of "name", Json_string VERSION_NAME);
                     (bytes_of "protocol", Json_number 776)]);
       (bytes_of "players",
        Json_object [(bytes_of "max", Json_number max_players);
                     (bytes_of "online", Json_number online_players);
                     (bytes_of "sample", Json_array [])]);
       (bytes_of "description", text_component_json description);
       (bytes_of "enforcesSecureChat", Json_bool false)].
Proof. reflexivity. Qed.

(** Serialising a text component loses nothing: two components with the same
    JSON are the same component, at every level of nesting; leaving unset fields
    out confuses no two of them. *)
Theorem text_component_json_inj (c1 c2 : TextComponent)
    (Hsame : text_component_json c1 = text_component_json c2) : c1 = c2.
Proof.
  revert c2 Hsame. induction c1 as [t c b i l IH] using TextComponent_tree_ind.
  intros [t2 c2 b2 i2 l2] Hsame. cbn [text_component_json text color bold italic extra] in Hsame.
  injection Hsame as Ht Hrest. subst t2.
  apply optional_member_inj in Hrest as [Hcolor Hrest]; [|by intros ? ? [=]|other_name b i l|other_name b2 i2 l2].
  apply optional_member_inj in Hrest as [Hbold Hrest]; [|by intros ? ? [=]|other_name b i l|other_name b2 i2 l2].
  apply optional_member_inj in Hrest as [Hitalic Hrest]; [|by intros ? ? [=]|other_name b i l|other_name b2 i2 l2].
  subst. f_equal. destruct l as [|x l], l2 as [|y l2]; try done. injection Hrest as Hxy Hl.
  by apply (map_inj_Forall text_component_json (x :: l) IH (y :: l2)), (f_equal2 cons).
Qed.

(** ** Witness and examples *)

Definition styled : TextComponent :=
  mkTextComponent (bytes_of "Pyrite") (Some (bytes_of "gold")) (Some true) None
    [text_component_new (bytes_of " engine")].

Lemma text_component_json_inj_witness :
  mkTextComponent (bytes_of "Pyrite") (Some (bytes_of "gold")) (Some true) None
    [text_component_new (bytes_of " engine")] = styled.
Proof. apply (text_component_json_inj _ styled). reflexivity. Defined.

(** A quote, a line break and a control character. *)
Example escapes : print_string [x22; x0a; x01; x41] = x22 :: x5c :: x22 :: x5c :: x6e
  :: bytes_of "\u0001A" ++ [x22].
Proof. reflexivity. Qed.
