(* ===== verification/JsonRead.v ===== *)
(** * Reading JSON documents back ([crates/protocol/src/text.rs], [packets/status.rs]).

    What the derived [Deserialize] implementations make of a document, and that
    they undo the derived [Serialize] ones.  [serde_json::from_str] is a parameter
    with its documented contract: it reads back what [to_string] printed, as long
    as the document is not nested deeper than its recursion limit. *)

From S2P Require Import Prelude Utf8 Packets Json.
From stdpp Require Import base list numbers strings.
From Stdlib Require Import Strings.Byte.

Open Scope Z_scope.

(** ** Deserialisation *)

(** [f] of every item, if it is defined of every item. *)
Definition traverse {A B} (f : A -> option B) : list A -> option (list B) :=
  fix go l :=
    match l with
    | [] => Some []
    | x :: l => match f x, go l with Some y, Some ys => Some (y :: ys) | _, _ => None end
    end.

Definition string_of_json (j : Json) : option (list byte) :=
  match j with Json_string s => Some s | _ => None end.
Definition bool_of_json (j : Json) : option bool :=
  match j with Json_bool b => Some b | _ => None end.
Definition i32_of_json (j : Json) : option Z :=
  match j with Json_number n => try_signed 32 n | _ => None end.
Definition vec_of_json {A} (f : Json -> option A) (j : Json) : option (list A) :=
  match j with Json_array items => traverse f items | _ => None end.
Definition option_of_json {A} (f : Json -> option A) (j : Json) : option (option A) :=
  match j with Json_null => Some None | _ => Some <$> f j end.

(** The values of the members called [name]. *)
Definition named {V} (name : list byte) (members : list (list byte * V)) : list V :=
  omap (fun m => if decide (fst m = name) then Some (snd m) else None) members.

(** The values given for each field of a struct: an object names them and may
    hold others, an array lists them in order. *)
Definition fields {V} (names : list (list byte)) (members : list (list byte * V)) : list (list V) :=
  map (fun name => named name members) names.

Definition elements {V} (names : list (list byte)) (items : list V) : option (list (list V)) :=
  if (length items <=? length names)%nat
  then Some (map (fun v => [v]) items ++ replicate (length names - length items) [])
  else None.

Definition struct_fields (names : list (list byte)) (j : Json) : option (list (list Json)) :=
  match j with
  | Json_object members => Some (fields names members)
  | Json_array items => elements names items
  | _ => None
  end.

(** One field: given twice it is refused, left out it takes its default, which a
    field without [#[serde(default)]] has not. *)
Definition field {V A} (read : V -> option A) (default : option A) (given : list V) : option A :=
  match given with
  | [] => default
  | [v] => read v
  | _ => None
  end.

Definition text_component_fields : list (list byte) :=
  map bytes_of ["text"; "color"; "bold"; "italic"; "extra"]%string.

(** Each value is paired with the components it reads as, for the field that
    holds some. *)
Definition text_component_of_fields (given : list (list (Json * option (list TextComponent)))) :
    option TextComponent :=
  match given with
  | [text; color; bold; italic; extra] =>
      text ← field (string_of_json ∘ fst) None text;
      color ← field (option_of_json string_of_json ∘ fst) (Some None) color;
      bold ← field (option_of_json bool_of_json ∘ fst) (Some None) bold;
      italic ← field (option_of_json bool_of_json ∘ fst) (Some None) italic;
      extra ← field snd (Some []) extra;
      Some (mkTextComponent text color bold italic extra)
  | _ => None
  end.

Fixpoint text_component_of_json (j : Json) : option TextComponent :=
  let with_children v :=
    (v, match v with Json_array items => traverse text_component_of_json items | _ => None end) in
  match j with
  | Json_object members =>
      text_component_of_fields (fields text_component_fields
        (map (fun '(name, v) => (name, with_children v)) members))
  | Json_array items =>
      given ← elements text_component_fields (map with_children items);
      text_component_of_fields given
  | _ => None
  end.

Definition version_info_of_json (j : Json) : option VersionInfo :=
  given ← struct_fields (map bytes_of ["name"; "protocol"]%string) j;
  match given with
  | [name; protocol] =>
      name ← field string_of_json None name;
      protocol ← field i32_of_json None protocol;
      Some (mkVersionInfo name protocol)
  | _ => None
  end.

Definition sample_player_of_json (j : Json) : option SamplePlayer :=
  given ← struct_fields (map bytes_of ["name"; "id"]%string) j;
  match given with
  | [name; id] =>
      name ← field string_of_json None name;
      id ← field string_of_json None id;
      Some (mkSamplePlayer name id)
  | _ => None
  end.

Definition players_info_of_json (j : Json) : option PlayersInfo :=
  given ← struct_fields (map bytes_of ["max"; "online"; "sample"]%string) j;
  match given with
  | [max; online; sample] =>
      max ← field i32_of_json None max;
      online ← field i32_of_json None online;
      sample ← field (vec_of_json sample_player_of_json) (Some []) sample;
      Some (mkPlayersInfo max online sample)
  | _ => None
  end.

Definition status_of_json (j : Json) : option StatusResponseJson :=
  given ← struct_fields
    (map bytes_of ["version"; "players"; "description"; "favicon"; "enforcesSecureChat"]%string) j;
  match given with
  | [version; players; description; favicon; enforces_secure_chat] =>
      version ← field version_info_of_json None version;
      players ← field players_info_of_json None players;
      description ← field text_component_of_json None description;
      favicon ← field (option_of_json string_of_json) (Some None) favicon;
      enforces_secure_chat ← field bool_of_json None enforces_secure_chat;
      Some (mkStatusResponseJson version players description favicon enforces_secure_chat)
  | _ => None
  end.

(** ** What a document may hold *)

(** Strings are text, and no number is written as a fraction. *)
Fixpoint json_valid (j : Json) : bool :=
  match j with
  | Json_null | Json_bool _ | Json_number _ => true
  | Json_float _ => false
  | Json_string s => Utf8.valid s
  | Json_array items => forallb json_valid items
  | Json_object members => forallb (fun '(name, v) => Utf8.valid name && json_valid v) members
  end.

(** How many arrays and objects enclose the innermost value. *)
Fixpoint json_depth (j : Json) : nat :=
  match j with
  | Json_array items => S (max_list_with json_depth items)
  | Json_object members => S (max_list_with (fun '(_, v) => json_depth v) members)
  | _ => 0%nat
  end.

(** [serde_json] refuses a document that opens its 128th array or object. *)
Definition RECURSION_LIMIT : nat := 128.

(** ** The types that are read and written *)

(** What a type of the crate is as a document; [serde_ok] holds of the values its
    Rust type has. *)
Class Serde (A : Type) := {
  to_json : A -> Json;
  of_json : Json -> option A;
  serde_ok : A -> bool;
}.

(** Its two derived implementations agree. *)
Class SerdeLaws (A : Type) `{Serde A} := {
  of_to_json (a : A) : serde_ok a = true -> of_json (to_json a) = Some a;
  to_json_valid (a : A) : serde_ok a = true -> json_valid (to_json a) = true;
}.

Definition optional_ok {A} (f : A -> bool) (o : option A) : bool :=
  match o with None => true | Some a => f a end.

Fixpoint text_component_ok (c : TextComponent) : bool :=
  Utf8.valid (text c) && optional_ok Utf8.valid (color c) && forallb text_component_ok (extra c).

Definition version_info_ok (v : VersionInfo) : bool :=
  Utf8.valid (version_name v) && in_signed 32 (protocol v).
Definition sample_player_ok (p : SamplePlayer) : bool :=
  Utf8.valid (sample_name p) && Utf8.valid (sample_id p).
Definition players_info_ok (p : PlayersInfo) : bool :=
  in_signed 32 (players_max p) && in_signed 32 (players_online p)
  && forallb sample_player_ok (sample p).
Definition status_ok (s : StatusResponseJson) : bool :=
  version_info_ok (version s) && players_info_ok (players s) && text_component_ok (description s)
  && optional_ok Utf8.valid (favicon s).

(** ** Lemmas *)

Lemma named_app {V} name (m1 m2 : list (list byte * V)) :
  named name (m1 ++ m2) = named name m1 ++ named name m2.
Proof. apply omap_app. Qed.

Lemma named_here {V} name (v : V) members : named name ((name, v) :: members) = v :: named name members.
Proof. unfold named. cbn. by rewrite decide_True. Qed.

Lemma named_other {V} name other (v : V) members :
  other <> name -> named name ((other, v) :: members) = named name members.
Proof. intros Hn. unfold named. cbn. by rewrite decide_False. Qed.

Lemma named_none {V} name : named (V:=V) name [] = [].
Proof. done. Qed.

Lemma traverse_map {A B} (f : B -> option A) (g : A -> B) l :
  Forall (fun a => f (g a) = Some a) l -> traverse f (map g l) = Some l.
Proof. induction 1 as [|a l Ha _ IH]; [done|]. cbn. rewrite Ha. cbn in IH. by rewrite IH. Qed.

Lemma named_optional_here {A} name (f : A -> Json) o {V} (k : Json -> V) :
  named name (map (fun '(n, v) => (n, k v)) (optional_member name f o))
  = match o with None => [] | Some a => [k (f a)] end.
Proof. destruct o; [|done]. cbn [optional_member map]. by rewrite named_here. Qed.

Lemma named_optional_other {A} name other (f : A -> Json) o {V} (k : Json -> V) :
  other <> name ->
  named name (map (fun '(n, v) => (n, k v)) (optional_member other f o)) = [].
Proof. intros Hn. destruct o; [|done]. cbn [optional_member map]. by rewrite named_other. Qed.

Ltac other_field := let H := fresh in intros H; vm_compute in H; discriminate H.

(** Looks up every field in a list of members written out. *)
Ltac look_up :=
  unfold fields; cbn [map]; rewrite ?map_app, ?named_app; cbn [map];
  rewrite ?named_optional_here;
  repeat (rewrite named_here || rewrite named_other by other_field);
  rewrite ?named_none;
  repeat rewrite named_optional_other by other_field;
  rewrite ?app_nil_r; cbn [app].

(** The children of a component, as an optional member. *)
Definition children (l : list TextComponent) : option (list TextComponent) :=
  match l with [] => None | _ => Some l end.

Lemma text_component_members c :
  text_component_json c = Json_object (
    [(bytes_of "text", Json_string (text c))]
    ++ optional_member (bytes_of "color") Json_string (color c)
    ++ optional_member (bytes_of "bold") Json_bool (bold c)
    ++ optional_member (bytes_of "italic") Json_bool (italic c)
    ++ optional_member (bytes_of "extra") (fun l => Json_array (map text_component_json l))
         (children (extra c))).
Proof. destruct c as [t c b i [|x l]]; reflexivity. Qed.

Lemma text_component_of_to_json c : text_component_of_json (text_component_json c) = Some c.
Proof.
  induction c as [t c b i l IH] using TextComponent_tree_ind.
  rewrite text_component_members. cbn [text_component_of_json]. cbv zeta.
  cbn [text color bold italic extra]. unfold text_component_fields. look_up.
  destruct l as [|x l]; cbn [children]; [by destruct c, b, i|].
  rewrite (traverse_map _ text_component_json) by done. by destruct c, b, i.
Qed.

Lemma i32_of_number n : in_signed 32 n = true -> i32_of_json (Json_number n) = Some n.
Proof. unfold i32_of_json, try_signed. by intros ->. Qed.

Lemma version_info_of_to_json v :
  version_info_ok v = true -> version_info_of_json (version_info_json v) = Some v.
Proof.
  intros [_ Hp]%andb_prop. unfold version_info_of_json, version_info_json, struct_fields. look_up.
  cbn [mbind option_bind field]. rewrite i32_of_number by done. by destruct v.
Qed.

Lemma sample_player_of_to_json p : sample_player_of_json (sample_player_json p) = Some p.
Proof.
  unfold sample_player_of_json, sample_player_json, struct_fields. look_up. by destruct p.
Qed.

Lemma players_info_of_to_json p :
  players_info_ok p = true -> players_info_of_json (players_info_json p) = Some p.
Proof.
  intros [[Hm Ho]%andb_prop _]%andb_prop.
  unfold players_info_of_json, players_info_json, struct_fields. look_up.
  cbn [mbind option_bind field]. rewrite !i32_of_number by done.
  cbn [mbind option_bind vec_of_json]. rewrite (traverse_map _ sample_player_json).
  - by destruct p.
  - apply Forall_true. apply sample_player_of_to_json.
Qed.

Lemma named_option_here {A} name (f : A -> Json) o :
  named name (optional_member name f o) = match o with None => [] | Some a => [f a] end.
Proof. destruct o; [|done]. cbn [optional_member]. by rewrite named_here. Qed.

Lemma named_option_other {A} name other (f : A -> Json) o :
  other <> name -> named name (optional_member other f o) = [].
Proof. intros Hn. destruct o; [|done]. cbn [optional_member]. by rewrite named_other. Qed.

Lemma status_of_to_json s : status_ok s = true -> status_of_json (status_json s) = Some s.
Proof.
  intros [[[Hv Hp]%andb_prop _]%andb_prop _]%andb_prop.
  unfold status_of_json, status_json, struct_fields. look_up. rewrite named_option_here.
  repeat rewrite named_option_other by other_field. cbn [app mbind option_bind field].
  rewrite version_info_of_to_json by done. cbn [mbind option_bind].
  rewrite players_info_of_to_json by done. cbn [mbind option_bind].
  rewrite text_component_of_to_json. by destruct s as [v p d [f|] e].
Qed.

Lemma forallb_map_true {A B} (ok : A -> bool) (p : B -> bool) (f : A -> B) l :
  Forall (fun a => ok a = true -> p (f a) = true) l -> forallb ok l = true ->
  forallb p (map f l) = true.
Proof.
  induction 1 as [|a l Ha _ IH]; [done|]. cbn. intros [Ho Hl]%andb_prop. by rewrite Ha, IH.
Qed.

Lemma forallb_optional (p : list byte * Json -> bool) {A} name (f : A -> Json) (ok : A -> bool) o :
  (forall a, ok a = true -> p (name, f a) = true) -> optional_ok ok o = true ->
  forallb p (optional_member name f o) = true.
Proof. intros Hp. destruct o as [a|]; [|done]. intros Ho. cbn in *. by rewrite Hp. Qed.

Lemma text_component_valid c : text_component_ok c = true -> json_valid (text_component_json c) = true.
Proof.
  induction c as [t c b i l IH] using TextComponent_tree_ind. cbn [text_component_ok text color extra].
  intros [[Ht Hc]%andb_prop Hl]%andb_prop. rewrite text_component_members. cbn [json_valid].
  cbn [text color bold italic extra]. rewrite !forallb_app.
  rewrite (forallb_optional _ _ _ Utf8.valid) by (done || intros a Ha; cbn; by rewrite Ha).
  rewrite (forallb_optional _ _ Json_bool (fun _ => true)) by (done || by destruct b).
  rewrite (forallb_optional _ _ Json_bool (fun _ => true)) by (done || by destruct i).
  rewrite (forallb_optional _ _ _ (fun a => forallb json_valid (map text_component_json a))).
  - cbn. by rewrite Ht.
  - done.
  - destruct l; [done|]. by apply (forallb_map_true text_component_ok).
Qed.

Lemma sample_player_valid p : sample_player_ok p = true -> json_valid (sample_player_json p) = true.
Proof. unfold sample_player_ok. intros [Hn Hi]%andb_prop. cbn. by rewrite Hn, Hi. Qed.

Lemma version_info_valid v : version_info_ok v = true -> json_valid (version_info_json v) = true.
Proof. unfold version_info_ok. intros [Hn _]%andb_prop. cbn. by rewrite Hn. Qed.

Lemma players_info_valid p : players_info_ok p = true -> json_valid (players_info_json p) = true.
Proof.
  intros [_ Hs]%andb_prop. cbn. rewrite (forallb_map_true sample_player_ok); [done| |done].
  apply Forall_true. apply sample_player_valid.
Qed.

Lemma status_valid s : status_ok s = true -> json_valid (status_json s) = true.
Proof.
  intros [[[Hv Hp]%andb_prop Hd]%andb_prop Hf]%andb_prop. unfold status_json. cbn [json_valid].
  rewrite !forallb_app, (forallb_optional _ _ _ Utf8.valid) by (done || intros a Ha; cbn; by rewrite Ha).
  cbn [forallb]. by rewrite version_info_valid, players_info_valid, text_component_valid.
Qed.

#[export] Instance TextComponent_serde : Serde TextComponent := {|
  to_json := text_component_json;
  of_json := text_component_of_json;
  serde_ok := text_component_ok;
|}.
#[export] Instance StatusResponseJson_serde : Serde StatusResponseJson := {|
  to_json := status_json;
  of_json := status_of_json;
  serde_ok := status_ok;
|}.

#[export] Instance TextComponent_serde_laws : SerdeLaws TextComponent.
Proof. split; [intros a _; apply text_component_of_to_json|apply text_component_valid]. Qed.
#[export] Instance StatusResponseJson_serde_laws : SerdeLaws StatusResponseJson.
Proof. split; [apply status_of_to_json|apply status_valid]. Qed.

(** How deep components are nested in a component, itself included. *)
Fixpoint component_depth (c : TextComponent) : nat := S (max_list_with component_depth (extra c)).

Lemma max_list_with_map {A B} (f : B -> nat) (g : A -> B) l :
  max_list_with f (map g l) = max_list_with (fun a => f (g a)) l.
Proof. induction l as [|a l IH]; [done|]. cbn. by rewrite IH. Qed.

(** Every level of nesting is an object and, but for the innermost, an array. *)
Lemma text_component_json_depth c :
  (S (json_depth (text_component_json c)) <= 2 * component_depth c)%nat.
Proof.
  induction c as [t c b i l IH] using TextComponent_tree_ind.
  rewrite text_component_members. cbn [text color bold italic extra component_depth].
  destruct l as [|x l]; cbn [children optional_member]; [destruct c, b, i; cbn; lia|].
  assert (max_list_with json_depth (map text_component_json (x :: l))
    <= 2 * max_list_with component_depth (x :: l) - 1)%nat as Hd.
  { rewrite max_list_with_map. induction IH as [|y ys Hy _ IHys]; cbn; lia. }
  set (m := map text_component_json (x :: l)) in *.
  set (n := max_list_with component_depth (x :: l)) in *.
  assert (1 <= n)%nat by (subst n; cbn; destruct x; cbn; lia).
  clearbody m n. destruct c, b, i; cbn; lia.
Qed.

Lemma status_json_depth s :
  (json_depth (status_json s) <= Nat.max 4 (2 * component_depth (description s)))%nat.
Proof.
  pose proof (text_component_json_depth (description s)) as Hd.
  assert (max_list_with json_depth (map sample_player_json (sample (players s))) <= 1)%nat as Hs.
  { rewrite max_list_with_map. induction (sample (players s)) as [|p ps IH]; [cbn; lia|].
    cbn [max_list_with]. change (json_depth (sample_player_json p)) with 1%nat. lia. }
  unfold status_json. destruct (favicon s); cbn [optional_member app json_depth max_list_with];
    unfold version_info_json, players_info_json; cbn [json_depth max_list_with]; lia.
Qed.

(** ** Documents as text *)

(** [serde_json::from_str]: [parse] reads the document. *)
Definition from_str {A} `{Serde A} (parse : list byte -> option Json) (z : list byte) : option A :=
  j ← parse z; of_json j.

Section Text.
Variable to_string : Json -> outcome (list byte) (list byte).
Variable parse : list byte -> option Json.

(** What [serde_json] prints it reads, within its recursion limit. *)
Definition reads_what_it_prints : Prop :=
  forall j z, json_valid j = true -> (json_depth j < RECURSION_LIMIT)%nat -> to_string j = Ok z ->
    parse z = Some j.

Lemma from_str_to_string {A} `{SerdeLaws A} (a : A) z :
  reads_what_it_prints -> serde_ok a = true -> (json_depth (to_json a) < RECURSION_LIMIT)%nat ->
  to_string (to_json a) = Ok z -> from_str parse z = Some a.
Proof.
  intros Hp Ha Hd Hz. unfold from_str. rewrite (Hp _ _ (to_json_valid a Ha) Hd Hz). by apply of_to_json.
Qed.

Lemma status_reads_back s z :
  reads_what_it_prints -> status_ok s = true -> (component_depth (description s) <= 63)%nat ->
  to_string (status_json s) = Ok z -> from_str parse z = Some s.
Proof.
  intros Hp Hs Hd Hz. apply from_str_to_string; try done.
  pose proof (status_json_depth s). unfold RECURSION_LIMIT. cbn [to_json StatusResponseJson_serde]. lia.
Qed.

Lemma text_component_reads_back c z :
  reads_what_it_prints -> text_component_ok c = true -> (component_depth c <= 63)%nat ->
  to_string (text_component_json c) = Ok z -> from_str parse z = Some c.
Proof.
  intros Hp Hc Hd Hz. apply from_str_to_string; try done.
  pose proof (text_component_json_depth c). unfold RECURSION_LIMIT. cbn [to_json TextComponent_serde]. lia.
Qed.
End Text.

(** ** Properties *)

(** C24: The documents read back: a status document, and a text component on its own,
    that one end writes with [serde_json::to_string] the other reads with
    [from_str] as the same value, whatever is set and left out, as long as the
    numbers are 32-bit, the strings are text and components are nested no more
    than 63 deep. *)
Theorem documents_read_back (to_string : Json -> outcome (list byte) (list byte))
    (parse : list byte -> option Json) (s : StatusResponseJson) (c : TextComponent) (zs zc : list byte)
    (Hserde : reads_what_it_prints to_string parse)
    (Hs : status_ok s = true) (Hdepth : (component_depth (description s) <= 63)%nat)
    (Hc : text_component_ok c = true) (Hdeep : (component_depth c <= 63)%nat)
    (Hzs : to_string (status_json s) = Ok zs) (Hzc : to_string (text_component_json c) = Ok zc) :
  from_str parse zs = Some s /\ from_str parse zc = Some c.
Proof.
  split; [by eapply status_reads_back|by eapply text_component_reads_back].
Qed.
