(* ===== verification/JsonParse.v ===== *)
(** * A reader of compact JSON

    For concrete runs: a reader of documents without white space, and the proof
    that it meets the contract [JsonRead] asks of [serde_json::from_str] when the
    writer is [print_json].  Of the [\u] escapes it knows those of ASCII. *)

From S2P Require Import Prelude Utf8 Display Packets Json JsonRead.
From stdpp Require Import base list numbers strings pretty.
From Stdlib Require Import Strings.Byte.

Open Scope Z_scope.

(** ** Strings *)

Definition unescape (b : byte) : option byte :=
  match byte_val b with
  | 34 => Some x22
  | 92 => Some x5c
  | 47 => Some x2f
  | 98 => Some x08
  | 102 => Some x0c
  | 110 => Some x0a
  | 114 => Some x0d
  | 116 => Some x09
  | _ => None
  end.

Definition cons_to {A} (a : A) (r : option (list A * list byte)) : option (list A * list byte) :=
  match r with Some (l, rest) => Some (a :: l, rest) | None => None end.

(** A string after its opening quote, and what follows its closing one. *)
Fixpoint read_string_body (l : list byte) : option (list byte * list byte) :=
  match l with
  | [] => None
  | b :: rest =>
    if Byte.eqb b x22 then Some ([], rest)
    else if Byte.eqb b x5c then
      match rest with
      | [] => None
      | e :: rest =>
        if Byte.eqb e x75 then
          match rest with
          | h1 :: h2 :: h3 :: h4 :: rest =>
            let v := hex_val [h1; h2; h3; h4] in
            if v <? 128 then cons_to (byte_of v) (read_string_body rest) else None
          | _ => None
          end
        else match unescape e with
             | Some c => cons_to c (read_string_body rest)
             | None => None
             end
      end
    else if byte_val b <? 32 then None
    else cons_to b (read_string_body rest)
  end.

(** ** Numbers *)

Definition is_digit (b : byte) : bool := (48 <=? byte_val b) && (byte_val b <=? 57).

Fixpoint read_digits (v : Z) (l : list byte) : Z * list byte :=
  match l with
  | [] => (v, [])
  | b :: rest => if is_digit b then read_digits (10 * v + (byte_val b - 48)) rest else (v, l)
  end.

Definition read_natural (l : list byte) : option (Z * list byte) :=
  match l with
  | b :: _ => if is_digit b then Some (read_digits 0 l) else None
  | [] => None
  end.

Definition read_integer (l : list byte) : option (Z * list byte) :=
  match l with
  | b :: rest =>
    if Byte.eqb b x2d
    then match read_natural rest with Some (v, rest) => Some (- v, rest) | None => None end
    else read_natural l
  | [] => None
  end.

(** ** Values *)

Fixpoint strip (prefix l : list byte) : option (list byte) :=
  match prefix, l with
  | [], _ => Some l
  | p :: prefix, b :: l => if Byte.eqb p b then strip prefix l else None
  | _, [] => None
  end.

Definition literal (word : list byte) (j : Json) (l : list byte) : option (Json * list byte) :=
  match strip word l with Some rest => Some (j, rest) | None => None end.

(** After an item: more items, or the end. *)
Definition after {A} (close : byte) (a : A) (more : list byte -> option (list A * list byte))
    (l : list byte) : option (list A * list byte) :=
  match l with
  | c :: l =>
    if Byte.eqb c x2c then cons_to a (more l)
    else if Byte.eqb c close then Some ([a], l) else None
  | [] => None
  end.

Definition enclosed {A} (close : byte) (make : list A -> Json)
    (items : list byte -> option (list A * list byte)) (l : list byte) : option (Json * list byte) :=
  match l with
  | c :: rest =>
    if Byte.eqb c close then Some (make [], rest)
    else match items l with Some (given, rest) => Some (make given, rest) | None => None end
  | [] => None
  end.

(** Every call reads a byte, so the length of the text is fuel enough. *)
Fixpoint parse_value (fuel : nat) (l : list byte) {struct fuel} : option (Json * list byte) :=
  match fuel, l with
  | S fuel, b :: rest =>
    if Byte.eqb b x22 then
      match read_string_body rest with Some (s, rest) => Some (Json_string s, rest) | None => None end
    else if Byte.eqb b x5b then enclosed x5d Json_array (parse_items fuel) rest
    else if Byte.eqb b x7b then enclosed x7d Json_object (parse_members fuel) rest
    else if Byte.eqb b x74 then literal (bytes_of "true") (Json_bool true) l
    else if Byte.eqb b x66 then literal (bytes_of "false") (Json_bool false) l
    else if Byte.eqb b x6e then literal (bytes_of "null") Json_null l
    else match read_integer l with Some (n, rest) => Some (Json_number n, rest) | None => None end
  | _, _ => None
  end
with parse_items (fuel : nat) (l : list byte) {struct fuel} : option (list Json * list byte) :=
  match fuel with
  | O => None
  | S fuel =>
    match parse_value fuel l with
    | Some (v, rest) => after x5d v (parse_items fuel) rest
    | None => None
    end
  end
with parse_members (fuel : nat) (l : list byte) {struct fuel} :
    option (list (list byte * Json) * list byte) :=
  match fuel, l with
  | S fuel, b :: rest =>
    if Byte.eqb b x22 then
      match read_string_body rest with
      | Some (name, c :: rest) =>
        if Byte.eqb c x3a then
          match parse_value fuel rest with
          | Some (v, rest) => after x7d (name, v) (parse_members fuel) rest
          | None => None
          end
        else None
      | _ => None
      end
    else None
  | _, _ => None
  end.

Definition parse_json (l : list byte) : option Json :=
  match parse_value (length l) l with Some (j, []) => Some j | _ => None end.

Example reads_a_component :
  parse_json (print_json (text_component_json styled)) = Some (text_component_json styled).
Proof. vm_compute. reflexivity. Qed.

(** ** What is printed reads back *)

Lemma read_escaped b rest :
  read_string_body (escape_byte b ++ rest) = cons_to b (read_string_body rest).
Proof. destruct b; reflexivity. Qed.

Lemma read_print_string s rest :
  read_string_body (flat_map escape_byte s ++ x22 :: rest) = Some (s, rest).
Proof.
  induction s as [|b s IH]; [done|]. cbn [flat_map]. by rewrite <- app_assoc, read_escaped, IH.
Qed.

Lemma pretty_digit n : (n < 10)%N ->
  exists b, (forall s, bytes_of (String.String (pretty_N_char n) s) = b :: bytes_of s)
    /\ is_digit b = true /\ byte_val b - 48 = Z.of_N n.
Proof.
  intros Hn. do 10 (destruct n as [|n] using N.peano_ind; [by eexists|clear IHn]). lia.
Qed.

Lemma read_digits_pretty n : forall s rest,
  read_digits 0 (bytes_of (pretty_N_go n s) ++ rest) = read_digits (Z.of_N n) (bytes_of s ++ rest).
Proof.
  induction (N.lt_wf_0 n) as [n _ IH]; intros s rest.
  destruct (decide (0 < n)%N) as [Hn|Hn]; [|by assert (n = 0%N) as -> by lia].
  rewrite pretty_N_go_step by done. rewrite IH by (by apply N.div_lt).
  destruct (pretty_digit (n `mod` 10)) as (b & Hb & Hd & Hv); [by apply N.mod_lt|].
  rewrite Hb. cbn [app read_digits]. rewrite Hd, Hv. f_equal. pose proof (N.div_mod n 10). lia.
Qed.

Lemma first_pretty n : forall s,
  (0 < n)%N \/ (exists b l, bytes_of s = b :: l /\ is_digit b = true) ->
  exists b l, bytes_of (pretty_N_go n s) = b :: l /\ is_digit b = true.
Proof.
  induction (N.lt_wf_0 n) as [n _ IH]; intros s Hs.
  destruct (decide (0 < n)%N) as [Hn|Hn].
  - rewrite pretty_N_go_step by done. apply IH; [by apply N.div_lt|]. right.
    destruct (pretty_digit (n `mod` 10)) as (b & Hb & Hd & _); [by apply N.mod_lt|].
    rewrite Hb. by eexists _, _.
  - assert (n = 0%N) as -> by lia. destruct Hs as [|Hs]; [lia|exact Hs].
Qed.

(** What follows a number does not go on with it. *)
Definition stops (rest : list byte) : Prop :=
  match rest with [] => True | b :: _ => is_digit b = false end.

Lemma read_digits_stops v rest : stops rest -> read_digits v rest = (v, rest).
Proof. destruct rest as [|b rest]; [done|]. cbn. by intros ->. Qed.

Lemma first_natural (n : N) : exists b l, bytes_of (pretty n) = b :: l /\ is_digit b = true.
Proof.
  unfold pretty, pretty_N. case_decide; [by eexists _, _|]. apply first_pretty. left. lia.
Qed.

Lemma read_natural_pretty (n : N) rest :
  stops rest -> read_natural (bytes_of (pretty n) ++ rest) = Some (Z.of_N n, rest).
Proof.
  intros Hr. destruct (first_natural n) as (b & l & Hb & Hd). unfold read_natural.
  rewrite Hb. cbn [app]. rewrite Hd. change (b :: l ++ rest) with ((b :: l) ++ rest). rewrite <- Hb.
  f_equal. unfold pretty, pretty_N. case_decide; subst.
  - cbn. by rewrite read_digits_stops.
  - rewrite read_digits_pretty. by apply read_digits_stops.
Qed.

Lemma read_decimal n rest : stops rest -> read_integer (decimal n ++ rest) = Some (n, rest).
Proof.
  intros Hr. assert (forall m : N, read_integer (bytes_of (pretty m) ++ rest) = Some (Z.of_N m, rest)) as HN.
  { intros m. pose proof (read_natural_pretty m rest Hr) as Hm.
    destruct (first_natural m) as (b & l & Hb & Hd). rewrite Hb in *. unfold read_integer. cbn [app] in *.
    destruct (Byte.eqb b x2d) eqn:E; [apply Byte.byte_dec_bl in E; by subst b|done]. }
  unfold decimal. destruct n as [|p|p]; [exact (HN 0%N)|exact (HN (N.pos p))|].
  change (bytes_of (pretty (Z.neg p))) with (x2d :: bytes_of (pretty (N.pos p))).
  cbn [app read_integer]. change (Byte.eqb x2d x2d) with true. cbn iota.
  by rewrite read_natural_pretty.
Qed.

(** A decimal starts with a digit or a sign, unlike every other value. *)
Lemma first_decimal n : exists b l, decimal n = b :: l /\ (is_digit b = true \/ b = x2d).
Proof.
  unfold decimal. destruct n as [|p|p]; [by eexists _, _; split; [|left]| |].
  - destruct (first_natural (N.pos p)) as (b & l & Hb & Hd). exists b, l. split; [exact Hb|by left].
  - eexists x2d, _. split; [done|by right].
Qed.

Section JsonInduction.
Variable P : Json -> Prop.
Hypothesis Pnull : P Json_null.
Hypothesis Pbool : forall b, P (Json_bool b).
Hypothesis Pnumber : forall n, P (Json_number n).
Hypothesis Pfloat : forall t, P (Json_float t).
Hypothesis Pstring : forall s, P (Json_string s).
Hypothesis Parray : forall items, Forall P items -> P (Json_array items).
Hypothesis Pobject : forall members, Forall (fun m => P (snd m)) members -> P (Json_object members).

Fixpoint Json_tree_ind (j : Json) : P j :=
  match j with
  | Json_null => Pnull
  | Json_bool b => Pbool b
  | Json_number n => Pnumber n
  | Json_float t => Pfloat t
  | Json_string s => Pstring s
  | Json_array items => Parray items
      ((fix all (l : list Json) : Forall P l :=
        match l with
        | [] => Forall_nil_2 P
        | j :: l => Forall_cons_2 P j l (Json_tree_ind j) (all l)
        end) items)
  | Json_object members => Pobject members
      ((fix all (l : list (list byte * Json)) : Forall (fun m => P (snd m)) l :=
        match l with
        | [] => Forall_nil_2 _
        | m :: l => Forall_cons_2 _ m l (Json_tree_ind (snd m)) (all l)
        end) members)
  end.
End JsonInduction.

(** A value reads back with any fuel that its text's length is within. *)
Definition reads_back (j : Json) : Prop :=
  forall n rest, (length (print_json j) <= n)%nat -> stops rest ->
    parse_value n (print_json j ++ rest) = Some (j, rest).

Lemma separated_cons item items :
  separated (item :: items) = item ++ match items with [] => [] | _ => x2c :: separated items end.
Proof. destruct items; [done|]. cbn. by rewrite <- ?app_assoc. Qed.

Lemma parse_items_print items n rest :
  items <> [] -> Forall reads_back items ->
  (length (separated (map print_json items)) < n)%nat ->
  parse_items n (separated (map print_json items) ++ x5d :: rest) = Some (items, rest).
Proof.
  intros Hne Hall. revert n. induction Hall as [|j items Hj _ IH]; [done|]. intros n Hn.
  cbn [map] in *. rewrite separated_cons in *. rewrite length_app in Hn.
  destruct n as [|n]; [lia|]. cbn [parse_items]. rewrite <- app_assoc, Hj; [|lia|by destruct items].
  destruct items as [|j' items]; [done|]. cbn [map length] in *. cbn [app after].
  change (Byte.eqb x2c x2c) with true. cbn iota. rewrite IH; [done|done|lia].
Qed.

Definition print_member (m : list byte * Json) : list byte :=
  print_string (fst m) ++ x3a :: print_json (snd m).

Lemma parse_members_print members n rest :
  members <> [] -> Forall (fun m => reads_back (snd m)) members ->
  (length (separated (map print_member members)) < n)%nat ->
  parse_members n (separated (map print_member members) ++ x7d :: rest) = Some (members, rest).
Proof.
  intros Hne Hall. revert n. induction Hall as [|[name j] members Hj _ IH]; [done|]. intros n Hn.
  cbn [map snd] in *. rewrite separated_cons in *. unfold print_member in Hn at 1. unfold print_member at 1.
  unfold print_string in *. cbn [fst snd app length] in *. rewrite !length_app in Hn. cbn [length] in Hn.
  destruct n as [|n]; [lia|]. cbn [parse_members]. change (Byte.eqb x22 x22) with true. cbn iota.
  rewrite <- !app_assoc. cbn [app]. rewrite read_print_string. cbn [app].
  change (Byte.eqb x3a x3a) with true. cbn iota. rewrite Hj; [|lia|by destruct members].
  destruct members as [|m members]; [done|]. cbn [map length] in *. cbn [app after].
  change (Byte.eqb x2c x2c) with true. cbn iota. rewrite IH; [done|done|lia].
Qed.

Lemma print_object members :
  print_json (Json_object members) = x7b :: separated (map print_member members) ++ [x7d].
Proof.
  cbn [print_json]. do 3 f_equal. apply map_ext. by intros [name v].
Qed.

Lemma enclosed_print {A} (close : byte) (make : list A -> Json) read (items : list A) text rest :
  (items = [] -> text = []) ->
  (items <> [] -> exists b l, text = b :: l /\ Byte.eqb b close = false) ->
  (items <> [] -> read (text ++ close :: rest) = Some (items, rest)) ->
  enclosed close make read (text ++ close :: rest) = Some (make items, rest).
Proof.
  intros Hnil Hne Hread. unfold enclosed. destruct items as [|i items].
  - rewrite Hnil by done. cbn [app]. by rewrite (Byte.byte_dec_lb eq_refl).
  - destruct Hne as (b & l & Hb & Hc); [done|]. rewrite Hb in *. cbn [app] in *.
    by rewrite Hc, Hread.
Qed.

(** No value starts the way an array or an object ends. *)
Lemma print_json_first j close :
  json_valid j = true -> close = x5d \/ close = x7d ->
  exists b l, print_json j = b :: l /\ Byte.eqb b close = false.
Proof.
  intros Hj Hc. destruct j as [|[]|n|t|s|items|members]; try done;
    try (do 2 eexists; split; [reflexivity|by destruct Hc; subst]).
  destruct (first_decimal n) as (b & l & Hb & Hd). exists b, l. split; [exact Hb|].
  destruct (Byte.eqb b close) eqn:E; [|done]. apply Byte.byte_dec_bl in E. subst b.
  destruct Hd as [Hd|Hd], Hc; subst; done.
Qed.

Lemma array_reads_back items :
  forallb json_valid items = true -> Forall reads_back items -> reads_back (Json_array items).
Proof.
  intros Hv Hall m rest Hm Hr. destruct m as [|m]; [cbn in Hm; lia|].
  cbn [print_json app parse_value length] in *. rewrite length_app in Hm. cbn [length] in Hm.
  change (enclosed x5d Json_array (parse_items m) ((separated (map print_json items) ++ [x5d]) ++ rest)
    = Some (Json_array items, rest)).
  rewrite <- app_assoc. cbn [app]. apply enclosed_print; [by intros ->| |].
  - destruct items as [|i items]; [done|]. intros _. cbn [map]. rewrite separated_cons.
    apply andb_prop in Hv as [Hi _].
    destruct (print_json_first i x5d) as (b & l & -> & Hb); [done|by left|]. by eexists _, _.
  - intros Hne. apply parse_items_print; [done|done|lia].
Qed.

Lemma object_reads_back members :
  Forall (fun m => reads_back (snd m)) members -> reads_back (Json_object members).
Proof.
  intros Hall m rest Hm Hr. destruct m as [|m]; [cbn in Hm; lia|]. rewrite print_object in *.
  cbn [app parse_value length] in *. rewrite length_app in Hm. cbn [length] in Hm.
  change (enclosed x7d Json_object (parse_members m)
    ((separated (map print_member members) ++ [x7d]) ++ rest) = Some (Json_object members, rest)).
  rewrite <- app_assoc. cbn [app]. apply enclosed_print; [by intros ->| |].
  - destruct members as [|i members]; [done|]. intros _. cbn [map]. rewrite separated_cons.
    by eexists _, _.
  - intros Hne. apply parse_members_print; [done|done|lia].
Qed.

Lemma Forall_valid {A} (P : A -> Prop) (ok : A -> bool) l :
  Forall (fun a => ok a = true -> P a) l -> forallb ok l = true -> Forall P l.
Proof.
  induction 1 as [|a l Ha _ IH]; [done|]. cbn. intros [Ho Hl]%andb_prop. constructor; auto.
Qed.

Lemma parse_print j : json_valid j = true -> reads_back j.
Proof.
  induction j as [|b|n|t|s|items IH|members IH] using Json_tree_ind; intros Hv; cbn [json_valid] in Hv;
    try done; [intros m rest Hm Hr..| |].
  - destruct m; [cbn in Hm; lia|done].
  - destruct m; [destruct b; cbn in Hm; lia|by destruct b].
  - change (print_json (Json_number n)) with (decimal n) in *.
    destruct (first_decimal n) as (b & l & Hb & Hd). pose proof (read_decimal n rest Hr) as Hn.
    rewrite Hb in *. destruct m as [|m]; [cbn in Hm; lia|]. cbn [app] in *. cbn [parse_value].
    rewrite Hn. destruct Hd as [Hd|Hd]; destruct b; done.
  - destruct m as [|m]; [cbn in Hm; lia|]. cbn [print_json print_string app parse_value].
    change (Byte.eqb x22 x22) with true. cbn iota. rewrite <- app_assoc. cbn [app].
    by rewrite read_print_string.
  - apply array_reads_back; [done|]. by apply (Forall_valid _ json_valid).
  - apply object_reads_back. apply (Forall_valid _ (fun '(name, v) => Utf8.valid name && json_valid v)); [|done].
    eapply Forall_impl; [exact IH|]. intros [name j] Hj [_ Hv']%andb_prop. by apply Hj.
Qed.

Lemma print_reads_back : reads_what_it_prints (fun j => Ok (print_json j)) parse_json.
Proof.
  intros j z Hv _ [= <-]. unfold parse_json.
  pose proof (parse_print j Hv (length (print_json j)) [] ltac:(lia) I) as Hp.
  rewrite app_nil_r in Hp. by rewrite Hp.
Qed.

(** ** Witness *)

(** A status document with everything set. *)
Definition full_status : StatusResponseJson :=
  mkStatusResponseJson (mkVersionInfo VERSION_NAME PROTOCOL_VERSION)
    (mkPlayersInfo 20 (-1) [mkSamplePlayer (bytes_of "Notch") [x22; x5c; x0a]])
    styled (Some (bytes_of "data:")) true.

Lemma documents_read_back_witness :
  from_str parse_json (print_json (status_json full_status)) = Some full_status
  /\ from_str parse_json (print_json (text_component_json styled)) = Some styled.
Proof.
  apply (documents_read_back (fun j => Ok (print_json j)) parse_json full_status styled);
    try reflexivity; [exact print_reads_back|vm_compute; lia..].
Defined.
