(* ===== verification/ProtocolTests.v ===== *)
(** * The unit tests of the [protocol] crate's fields and packets, run on the model
    ([crates/protocol/src/varint.rs], [buf.rs], [text.rs], [version.rs],
    [packets/*.rs]).

    Where they call [serde_json], [print_json] writes and [parse_json] reads. *)

From S2P Require Import Prelude Utf8 Buffers Testing NbtTag ProtocolError Varint Fields Packets Json JsonRead JsonParse.
From stdpp Require Import base list numbers strings.
From Stdlib Require Import Strings.Byte.

Open Scope Z_scope.
Open Scope test_scope.

(** ** [varint.rs] *)

Module VarintTests.

Definition varint_encodes_to_documented_bytes : Prop :=
  for_all (fun '(value, expected) =>
    buffer (write_varint value) (fun buf => buf = octets expected)) VARINT_VECTORS.

Definition varint_decodes_documented_bytes : Prop :=
  for_all (fun '(expected, bytes) =>
    unwrapped_with (read_varint (octets bytes)) (fun decoded src =>
      decoded = expected /\ src = [])) VARINT_VECTORS.

Definition varint_len_matches_encoded_length : Prop :=
  for_all (fun '(value, expected) => varint_len value = len (octets expected)) VARINT_VECTORS.

Definition varint_slice_decodes_and_reports_width : Prop :=
  for_all (fun '(expected, bytes) =>
    read_varint_slice (octets bytes) = Ok (Some (expected, len (octets bytes)))) VARINT_VECTORS.

Definition varint_slice_returns_none_on_partial_input : Prop :=
  let full := octets [0xff; 0xff; 0xff; 0xff; 0x0f] in
  for_all (fun split => read_varint_slice (take split full) = Ok None) (seq 0 (length full)).

Definition varint_slice_ignores_trailing_bytes : Prop :=
  read_varint_slice (octets [0x80; 0x01; 0xaa; 0xbb]) = Ok (Some (128, 2)).

Definition varint_rejects_overlong_encoding : Prop :=
  let src := octets [0x80; 0x80; 0x80; 0x80; 0x80; 0x01] in
  (fst (read_varint src) matches Err (ProtocolError_VarIntTooLong 5))
  /\ (read_varint_slice src matches Err (ProtocolError_VarIntTooLong 5)).

Definition varint_reports_eof_on_empty_buffer : Prop :=
  fst (read_varint (B := list byte) []) matches Err ProtocolError_UnexpectedEof.

Definition varlong_round_trips_documented_vectors : Prop :=
  for_all (fun '(value, expected) =>
    buffer (write_varlong value) (fun buf =>
      buf = octets expected
      /\ unwrapped_with (read_varlong buf) (fun decoded _ => decoded = value))) VARLONG_VECTORS.

Definition varlong_rejects_overlong_encoding : Prop :=
  fst (read_varlong (repeat x80 11)) matches Err (ProtocolError_VarIntTooLong 10).

Example the_varint_tests_pass :
  varint_encodes_to_documented_bytes
  /\ varint_decodes_documented_bytes
  /\ varint_len_matches_encoded_length
  /\ varint_slice_decodes_and_reports_width
  /\ varint_slice_returns_none_on_partial_input
  /\ varint_slice_ignores_trailing_bytes
  /\ varint_rejects_overlong_encoding
  /\ varint_reports_eof_on_empty_buffer
  /\ varlong_round_trips_documented_vectors
  /\ varlong_rejects_overlong_encoding.
Proof. run_tests. Qed.

End VarintTests.

(** ** [buf.rs] *)

Module BufTests.

Definition string_round_trips : Prop :=
  for_all (fun value =>
    buffer (write_string value) (fun buf =>
      unwrapped_with (read_string 255 buf) (fun decoded src => decoded = value /\ src = [])))
    ([] :: map bytes_of ["localhost"; "a much longer server address"; "ünïcödé ✔"]%string).

Definition string_is_length_prefixed_in_bytes_not_chars : Prop :=
  buffer (write_string (bytes_of "é")) (fun buf => buf = octets [0x02; 0xc3; 0xa9]).

Definition string_rejects_declared_length_above_cap_before_allocating : Prop :=
  buffer (write_varint 300) (fun buf =>
    fst (read_string 4 buf) matches Err (ProtocolError_StringTooLong 300 12)).

Definition string_rejects_negative_length : Prop :=
  buffer (write_varint (-1)) (fun buf =>
    fst (read_string 255 buf) matches Err (ProtocolError_NegativeLength (-1))).

Definition string_reports_eof_when_body_is_short : Prop :=
  fst (read_string 255 (octets [0x05] ++ bytes_of "ab")) matches Err ProtocolError_UnexpectedEof.

Definition string_rejects_invalid_utf8 : Prop :=
  fst (read_string 255 (octets [0x02; 0xff; 0xfe])) matches Err (ProtocolError_InvalidUtf8 _).

Definition u16_is_big_endian : Prop :=
  buffer (write_u16 25565) (fun buf =>
    buf = octets [0x63; 0xdd] /\ unwrapped_with (read_u16 buf) (fun v _ => v = 25565)).

Definition i64_is_big_endian_and_round_trips : Prop :=
  for_all (fun value =>
    buffer (write_i64 value) (fun buf =>
      len buf = 8 /\ unwrapped_with (read_i64 buf) (fun v _ => v = value)))
    [0; -1; 2 ^ 63 - 1; - 2 ^ 63; 0x0123456789abcdef].

Definition fixed_width_reads_report_eof : Prop :=
  (fst (read_u16 (octets [0x00])) matches Err ProtocolError_UnexpectedEof)
  /\ (fst (read_i64 (octets [0x00; 0x01; 0x02])) matches Err ProtocolError_UnexpectedEof).

Definition uuid_round_trips : Prop :=
  for_all (fun value =>
    buffer (write_uuid value) (fun buf =>
      len buf = 16
      /\ unwrapped_with (read_uuid buf) (fun v src => v = value /\ src = [])))
    [0; 2 ^ 128 - 1; 0x0123456789abcdef0123456789abcdef].

Definition uuid_is_big_endian : Prop :=
  buffer (write_uuid 1) (fun buf => buf !! 15%nat = Some x01 /\ buf !! 0%nat = Some x00).

Definition uuid_reports_eof_when_short : Prop :=
  fst (read_uuid (repeat x00 15)) matches Err ProtocolError_UnexpectedEof.

Definition prefixed_array_round_trips : Prop :=
  let items := [1; 2; 3; 65535] in
  buffer (write_prefixed_array items write_u16) (fun buf =>
    unwrapped_with (read_prefixed_array 16 read_u16 buf) (fun decoded src =>
      decoded = items /\ src = [])).

Definition empty_prefixed_array_round_trips : Prop :=
  buffer (write_prefixed_array [] write_u16) (fun buf =>
    buf = octets [0x00]
    /\ unwrapped_with (read_prefixed_array 16 read_u16 buf) (fun decoded _ => decoded = [])).

Definition prefixed_array_rejects_a_count_above_the_cap_before_reserving : Prop :=
  buffer (write_varint 5000) (fun buf =>
    fst (read_prefixed_array 8 read_u16 buf) matches Err (ProtocolError_ArrayTooLong 5000 8)).

Definition prefixed_array_rejects_a_negative_count : Prop :=
  buffer (write_varint (-1)) (fun buf =>
    fst (read_prefixed_array 8 read_u16 buf) matches Err (ProtocolError_NegativeLength (-1))).

Definition prefixed_optional_round_trips_present_and_absent : Prop :=
  buffer (write_prefixed_optional (Some 7) write_u16) (fun buf =>
    buf = octets [0x01; 0x00; 0x07]
    /\ unwrapped_with (read_prefixed_optional read_u16 buf) (fun v _ => v = Some 7))
  /\ buffer (write_prefixed_optional None write_u16) (fun buf =>
    buf = octets [0x00]
    /\ unwrapped_with (read_prefixed_optional read_u16 buf) (fun v _ => v = None)).

Definition prefixed_optional_rejects_a_non_boolean_tag : Prop :=
  fst (read_prefixed_optional read_u16 (octets [0x02]))
    matches Err (ProtocolError_InvalidBoolean 0x02).

Definition nbt_round_trips_through_the_buf_helpers : Prop :=
  let document := compound_new in
  let document := compound_insert document (bytes_of "id") (nbt_from_i32 7) in
  let document := compound_insert document (bytes_of "name") (nbt_from_str (bytes_of "minecraft:overworld")) in
  buffer (write_nbt document) (fun buf =>
    unwrapped_with (read_nbt buf) (fun decoded src => decoded = document /\ src = [])).

Definition nbt_uses_the_network_root_form : Prop :=
  buffer (write_nbt compound_new) (fun buf => buf = octets [0x0a; 0x00]).

Definition a_malformed_document_surfaces_as_a_protocol_error : Prop :=
  fst (read_nbt (octets [0x03; 0x00; 0x00; 0x00; 0x01])) matches Err (ProtocolError_Nbt _).

Example the_buf_tests_pass :
  string_round_trips
  /\ string_is_length_prefixed_in_bytes_not_chars
  /\ string_rejects_declared_length_above_cap_before_allocating
  /\ string_rejects_negative_length
  /\ string_reports_eof_when_body_is_short
  /\ string_rejects_invalid_utf8
  /\ u16_is_big_endian
  /\ i64_is_big_endian_and_round_trips
  /\ fixed_width_reads_report_eof
  /\ uuid_round_trips
  /\ uuid_is_big_endian
  /\ uuid_reports_eof_when_short
  /\ prefixed_array_round_trips
  /\ empty_prefixed_array_round_trips
  /\ prefixed_array_rejects_a_count_above_the_cap_before_reserving
  /\ prefixed_array_rejects_a_negative_count
  /\ prefixed_optional_round_trips_present_and_absent
  /\ prefixed_optional_rejects_a_non_boolean_tag
  /\ nbt_round_trips_through_the_buf_helpers
  /\ nbt_uses_the_network_root_form
  /\ a_malformed_document_surfaces_as_a_protocol_error.
Proof. run_tests. Qed.

End BufTests.

(** ** [text.rs], [version.rs] *)

Module TextTests.

(** [serde_json::to_string] and [from_str]. *)
Definition json_text {A} `{Serde A} (a : A) : list byte := print_json (to_json a).
Definition read_json (A : Type) `{Serde A} (z : list byte) (k : A -> Prop) : Prop :=
  match from_str parse_json z with Some a => k a | None => False end.

Definition plain_component_serialises_to_just_text : Prop :=
  let component := text_component_new (bytes_of "A Pyrite Server") in
  print_json (text_component_json component)
  = raw_string "{'text':'A Pyrite Server'}".

Definition optional_fields_are_omitted_when_unset : Prop :=
  let json := text_component_json (text_component_new (bytes_of "hi")) in
  member (bytes_of "color") json = None
  /\ member (bytes_of "bold") json = None
  /\ member (bytes_of "extra") json = None.

Definition styled_component_round_trips : Prop :=
  let component := mkTextComponent (text (text_component_new (bytes_of "Pyrite"))) (Some (bytes_of "gold"))
    (Some true) None [text_component_new (bytes_of " engine")] in
  read_json TextComponent (json_text component) (fun decoded => decoded = component).

Definition deserialises_a_component_with_only_text : Prop :=
  read_json TextComponent (raw_string "{'text':'hello'}") (fun decoded =>
    decoded = text_component_new (bytes_of "hello")).

Definition pinned_version_matches_documented_constants : Prop :=
  PROTOCOL_VERSION = 776 /\ VERSION_NAME = bytes_of "26.2".

Example the_text_tests_pass :
  plain_component_serialises_to_just_text
  /\ optional_fields_are_omitted_when_unset
  /\ styled_component_round_trips
  /\ deserialises_a_component_with_only_text
  /\ pinned_version_matches_documented_constants.
Proof. run_tests. Qed.

End TextTests.

(** ** [packets/handshake.rs] *)

Module HandshakeTests.

Definition handshake_sample : Handshake := mkHandshake 776 (bytes_of "localhost") 25565 NextState_Status.

Definition handshake_round_trips : Prop :=
  let original := handshake_sample in
  buffer (packet_encode original) (fun buf =>
    unwrapped_with (packet_decode buf) (fun decoded src => decoded = original /\ src = [])).

Definition handshake_encodes_expected_byte_layout : Prop :=
  buffer (packet_encode handshake_sample) (fun buf =>
    buf = octets [0x88; 0x06] ++ octets [0x09] ++ bytes_of "localhost"
          ++ octets [0x63; 0xdd] ++ octets [0x01]).

Definition handshake_constants_match_the_specification : Prop :=
  packet_id Handshake = 0x00
  /\ packet_state Handshake = State_Handshaking
  /\ packet_direction Handshake = Direction_Serverbound.

Definition next_state_accepts_all_three_documented_values : Prop :=
  for_all (fun '(raw, expected) => next_state_try_from raw = Ok expected)
    [(1, NextState_Status); (2, NextState_Login); (3, NextState_Transfer)].

Definition next_state_rejects_undefined_values : Prop :=
  for_all (fun raw => next_state_try_from raw = Err (ProtocolError_InvalidNextState raw))
    [0; 4; -1; 999].

Definition handshake_rejects_oversized_server_address : Prop :=
  buffer (do! write_varint 776; write_varint 1000) (fun buf =>
    fst (packet_decode (P := Handshake) buf) matches Err (ProtocolError_StringTooLong 1000 765)).

Example the_handshake_tests_pass :
  handshake_round_trips
  /\ handshake_encodes_expected_byte_layout
  /\ handshake_constants_match_the_specification
  /\ next_state_accepts_all_three_documented_values
  /\ next_state_rejects_undefined_values
  /\ handshake_rejects_oversized_server_address.
Proof. run_tests. Qed.

End HandshakeTests.

(** ** [packets/status.rs] *)

Module StatusTests.

Definition status_request_is_an_empty_body : Prop :=
  buffer (packet_encode mkStatusRequest) (fun buf =>
    buf = [] /\ unwrapped_with (packet_decode (P := StatusRequest) buf) (fun _ _ => True)).

Definition packet_constants_match_the_specification : Prop :=
  packet_id StatusRequest = 0x00
  /\ packet_direction StatusRequest = Direction_Serverbound
  /\ packet_id StatusResponse = 0x00
  /\ packet_direction StatusResponse = Direction_Clientbound
  /\ packet_id PingRequest = 0x01
  /\ packet_direction PingRequest = Direction_Serverbound
  /\ packet_id PongResponse = 0x01
  /\ packet_direction PongResponse = Direction_Clientbound
  /\ for_all (fun state => state = State_Status)
       [packet_state StatusRequest; packet_state StatusResponse; packet_state PingRequest;
        packet_state PongResponse].

Definition status_response_round_trips : Prop :=
  let original := mkStatusResponse (raw_string "{'version':{'name':'26.2','protocol':776}}") in
  buffer (packet_encode original) (fun buf =>
    unwrapped_with (packet_decode buf) (fun decoded src => decoded = original /\ src = [])).

Definition ping_and_pong_round_trip_every_payload_bit : Prop :=
  for_all (fun payload =>
    buffer (packet_encode (mkPingRequest payload)) (fun buf =>
      len buf = 8
      /\ unwrapped_with (packet_decode (P := PingRequest) buf) (fun ping _ => ping_payload ping = payload))
    /\ buffer (packet_encode (mkPongResponse payload)) (fun buf =>
      unwrapped_with (packet_decode (P := PongResponse) buf) (fun pong _ => pong_payload pong = payload)))
    [0; 1; -1; 2 ^ 63 - 1; - 2 ^ 63; 0x0123456789abcdef].

(** [value[a][b]]. *)
Definition member2 (a b : list byte) (value : Json) : option Json :=
  match member a value with Some inner => member b inner | None => None end.

Definition status_json_serialises_the_documented_shape : Prop :=
  let status := status_response_json_new (text_component_new (bytes_of "A Pyrite Server")) 100 0 in
  let value := status_json status in
  member2 (bytes_of "version") (bytes_of "name") value = Some (Json_string (bytes_of "26.2"))
  /\ member2 (bytes_of "version") (bytes_of "protocol") value = Some (Json_number 776)
  /\ member2 (bytes_of "players") (bytes_of "max") value = Some (Json_number 100)
  /\ member2 (bytes_of "players") (bytes_of "online") value = Some (Json_number 0)
  /\ member2 (bytes_of "description") (bytes_of "text") value
     = Some (Json_string (bytes_of "A Pyrite Server"))
  /\ member (bytes_of "enforcesSecureChat") value = Some (Json_bool false)
  /\ member (bytes_of "favicon") value = None.

Definition status_json_round_trips : Prop :=
  let original := status_response_json_new (text_component_new (bytes_of "Pyrite")) 20 3 in
  TextTests.read_json StatusResponseJson (TextTests.json_text original) (fun decoded =>
    protocol (version decoded) = protocol (version original)
    /\ players_max (players decoded) = 20
    /\ players_online (players decoded) = 3
    /\ description decoded = description original).

Definition status_response_rejects_oversized_json_prefix : Prop :=
  buffer (write_varint 98302) (fun buf =>
    fst (packet_decode (P := StatusResponse) buf) matches Err (ProtocolError_StringTooLong _ _)).

Example the_status_tests_pass :
  status_request_is_an_empty_body
  /\ packet_constants_match_the_specification
  /\ status_response_round_trips
  /\ ping_and_pong_round_trip_every_payload_bit
  /\ status_json_serialises_the_documented_shape
  /\ status_json_round_trips
  /\ status_response_rejects_oversized_json_prefix.
Proof. run_tests. Qed.

End StatusTests.

(** ** [packets/login.rs] *)

Module LoginTests.

Definition login_disconnect_constants_match_the_specification : Prop :=
  packet_id LoginDisconnect = 0x00
  /\ packet_state LoginDisconnect = State_Login
  /\ packet_direction LoginDisconnect = Direction_Clientbound.

Definition login_disconnect_round_trips : Prop :=
  let original := mkLoginDisconnect (raw_string "{'text':'nope'}") in
  buffer (packet_encode original) (fun buf =>
    unwrapped_with (packet_decode buf) (fun decoded _ => decoded = original)).

Definition login_sample_profile : GameProfile :=
  mkGameProfile 0x0123456789abcdef0123456789abcdef (bytes_of "Notch")
    [mkProfileProperty (bytes_of "textures") (bytes_of "base64data") (Some (bytes_of "sig"))].

Definition login_packet_constants_match_the_specification : Prop :=
  packet_id LoginStart = 0x00
  /\ packet_direction LoginStart = Direction_Serverbound
  /\ packet_id LoginSuccess = 0x02
  /\ packet_direction LoginSuccess = Direction_Clientbound
  /\ packet_id SetCompression = 0x03
  /\ packet_direction SetCompression = Direction_Clientbound
  /\ packet_id LoginAcknowledged = 0x03
  /\ packet_direction LoginAcknowledged = Direction_Serverbound
  /\ for_all (fun state => state = State_Login)
       [packet_state LoginStart; packet_state LoginSuccess; packet_state SetCompression;
        packet_state LoginAcknowledged].

Definition login_start_round_trips : Prop :=
  let original := mkLoginStart (bytes_of "Notch") (2 ^ 128 - 1) in
  buffer (packet_encode original) (fun buf =>
    unwrapped_with (packet_decode buf) (fun decoded src => decoded = original /\ src = [])).

Definition login_start_encodes_name_then_uuid : Prop :=
  buffer (packet_encode (mkLoginStart (bytes_of "ab") 1)) (fun buf =>
    buf !! 0%nat = Some x02
    /\ slice 1 3 buf = bytes_of "ab"
    /\ len buf = 3 + 16
    /\ buf !! (length buf - 1)%nat = Some x01).

Definition login_start_rejects_an_oversized_name : Prop :=
  buffer (write_varint 49) (fun buf =>
    fst (packet_decode (P := LoginStart) buf) matches Err (ProtocolError_StringTooLong 49 48)).

Definition set_compression_round_trips_including_negative : Prop :=
  for_all (fun threshold =>
    buffer (packet_encode (mkSetCompression threshold)) (fun buf =>
      unwrapped_with (packet_decode buf) (fun decoded _ => decoded = mkSetCompression threshold)))
    [-1; 0; 256; 2097151].

Definition login_success_round_trips : Prop :=
  let original := mkLoginSuccess login_sample_profile 42 in
  buffer (packet_encode original) (fun buf =>
    unwrapped_with (packet_decode buf) (fun decoded src => decoded = original /\ src = [])).

Definition login_success_round_trips_with_no_properties_and_no_signature : Prop :=
  let original := mkLoginSuccess (mkGameProfile 7 (bytes_of "Steve") []) 0 in
  buffer (packet_encode original) (fun buf =>
    unwrapped_with (packet_decode buf) (fun decoded _ => decoded = original)).

(** [value["text"]] of a [serde_json::Value]. *)
Definition from_component_produces_valid_json : Prop :=
  unwrapped (from_component (fun c => Ok (TextTests.json_text c))
      (text_component_new (bytes_of "Login not implemented"))) (fun packet =>
    match parse_json (reason packet) with
    | Some value => member (bytes_of "text") value = Some (Json_string (bytes_of "Login not implemented"))
    | None => False
    end).

Definition login_acknowledged_is_an_empty_body : Prop :=
  buffer (packet_encode mkLoginAcknowledged) (fun buf =>
    buf = [] /\ unwrapped_with (packet_decode (P := LoginAcknowledged) buf) (fun _ _ => True)).

Example the_login_tests_pass :
  login_disconnect_constants_match_the_specification
  /\ login_disconnect_round_trips
  /\ login_packet_constants_match_the_specification
  /\ login_start_round_trips
  /\ login_start_encodes_name_then_uuid
  /\ login_start_rejects_an_oversized_name
  /\ set_compression_round_trips_including_negative
  /\ login_success_round_trips
  /\ login_success_round_trips_with_no_properties_and_no_signature
  /\ from_component_produces_valid_json
  /\ login_acknowledged_is_an_empty_body.
Proof. run_tests. Qed.

End LoginTests.
