(* ===== verification/Connection.v ===== *)
(** * One connection ([crates/net/src/connection.rs], [config.rs]).

    The handlers, their dispatch and the read loop, over an explicit connection
    state: the codec, the two buffers of [Framed], what has reached the peer,
    and the protocol state machine.  [Externals] are the libraries the code
    calls; [ExternalsLaws] is what it relies on of them. *)

From S2P Require Import Prelude Utf8 Buffers ProtocolError Varint Fields Packets Codec ConnState Md5 Offline Json.
From stdpp Require Import base list numbers strings relations.
From Stdlib Require Import Strings.Byte.

Open Scope Z_scope.

(** ** Configuration *)

Record ServerConfig := mkServerConfig {
  motd : TextComponent;
  max_players : Z;
  read_timeout : Z;
  config_threshold : option Z;
}.

Definition server_config_default : ServerConfig :=
  mkServerConfig (text_component_new (bytes_of "A Pyrite Server")) 20 30 (Some 256).

(** ** The libraries *)

(** [flush_error] is the transport: given every byte handed to it so far, the
    I/O error the flush ends with, if any. *)
Class Externals := {
  inflate : list byte -> list byte * option (list byte);
  deflate : list byte -> outcome (list byte) (list byte);
  md5 : list byte -> list byte;
  json_to_string : Json -> outcome (list byte) (list byte);
  flush_error : list byte -> option (list byte);
}.

Class ExternalsLaws `{Externals} := {
  zlib_round_trip raw z : deflate raw = Ok z -> inflate z = (raw, None);
  deflate_returns raw : returns (deflate raw);
  md5_length input : length (md5 input) = 16%nat;
  json_to_string_returns j : returns (json_to_string j);
}.

(** [serde_json::to_string] of a component and of a status document. *)
Definition text_to_string `{Externals} (c : TextComponent) : outcome (list byte) (list byte) :=
  json_to_string (text_component_json c).
Definition status_to_string `{Externals} (s : StatusResponseJson) : outcome (list byte) (list byte) :=
  json_to_string (status_json s).

(** ** The connection *)

Record Connection := mkConnection {
  codec : PacketCodec;
  read_buffer : BytesMut;
  write_buffer : BytesMut;
  wire : list byte;
  state : ConnectionState;
  config : ServerConfig;
}.

Definition connection_new (config : ServerConfig) : Connection :=
  mkConnection codec_new bytes_mut_new bytes_mut_new [] connection_state_new config.

Inductive Flow := Flow_Continue | Flow_Close.

Definition on_state {A} (m : M ConnectionState NetError A) : M Connection NetError A :=
  zoom state (fun st s =>
    mkConnection (codec s) (read_buffer s) (write_buffer s) (wire s) st (config s)) m.

Definition get_connection : M Connection NetError Connection := fun s => (Ok s, s).

(** [self.framed.codec_mut().set_compression(threshold)]. *)
Definition switch_compression (threshold : Z) : M Connection NetError unit :=
  fun s => (Ok tt, mkConnection (set_compression threshold (codec s)) (read_buffer s)
                     (write_buffer s) (wire s) (state s) (config s)).

(** The read half of [Framed]: its buffer. *)
Definition with_read_buffer (b : BytesMut) (s : Connection) : Connection :=
  mkConnection (codec s) b (write_buffer s) (wire s) (state s) (config s).

Section Handlers.
Context `{Externals}.

(** [Sink::poll_flush] of [Framed]: everything encoded goes to the peer. *)
Definition flush : M Connection ProtocolError unit :=
  fun s =>
    let out := wire s ++ contents (write_buffer s) in
    match flush_error out with
    | Some e => (Err (ProtocolError_Io e), s)
    | None => (Ok tt, mkConnection (codec s) (read_buffer s)
                        (mkBytesMut [] (reserves (write_buffer s))) out (state s) (config s))
    end.

(** [self.framed.send(packet).await]: encode, then flush. *)
Definition send {P} `{Packet P} (item : P) : M Connection NetError unit :=
  map_err NetError_Protocol (
    do! zoom (fun s => (codec s, write_buffer s))
      (fun cb s => mkConnection (fst cb) (read_buffer s) (snd cb) (wire s) (state s) (config s))
      (encode deflate item);
    flush).

Definition handle_handshake (frame : RawPacket) : M Connection NetError Flow :=
  let! handshake := map_err NetError_Protocol (lift (decode_as Handshake frame)) in
  match next_state handshake with
  | NextState_Status => do! on_state (transition State_Status); ret Flow_Continue
  | NextState_Login | NextState_Transfer =>
      do! on_state (transition State_Login); ret Flow_Continue
  end.

Definition invalid_username_reason : TextComponent :=
  text_component_new (bytes_of "Invalid username. Use 1-16 characters of A-Z, a-z, 0-9 or _.").

Definition handle_login_start (frame : RawPacket) : M Connection NetError Flow :=
  let! start := map_err NetError_Protocol (lift (decode_as LoginStart frame)) in
  match validate_username (name start) with
  | Err error =>
    let! packet := map_err NetError_Protocol
      (lift (from_component text_to_string invalid_username_reason)) in
    do! send packet;
    throw error
  | Ok _ =>
    let uuid := offline_uuid md5 (name start) in
    let! self := get_connection in
    do! match config_threshold (config self) with
        | Some threshold =>
          do! send (mkSetCompression threshold);
          switch_compression threshold
        | None => ret tt
        end;
    do! send (mkLoginSuccess (mkGameProfile uuid (name start) []) uuid);
    ret Flow_Continue
  | Panic => panic
  | Diverge => diverge
  end.

Definition handle_login_acknowledged : M Connection NetError Flow :=
  do! on_state (transition State_Configuration);
  ret Flow_Continue.

Definition handle_status_request : M Connection NetError Flow :=
  do! on_state mark_status_request_seen;
  let! self := get_connection in
  let status := status_response_json_new (motd (config self)) (max_players (config self)) 0 in
  let! json := map_err (fun e => NetError_Protocol (ProtocolError_Json e))
    (lift (status_to_string status)) in
  do! send (mkStatusResponse json);
  ret Flow_Continue.

Definition handle_ping (frame : RawPacket) : M Connection NetError Flow :=
  let! ping := map_err NetError_Protocol (lift (decode_as PingRequest frame)) in
  do! send (mkPongResponse (ping_payload ping));
  ret Flow_Close.

Definition handle (frame : RawPacket) : M Connection NetError Flow :=
  let! self := get_connection in
  match current (state self) with
  | State_Handshaking =>
    if id frame =? packet_id Handshake then handle_handshake frame
    else throw (NetError_UnexpectedPacket State_Handshaking (id frame))
  | State_Status =>
    if id frame =? packet_id StatusRequest then handle_status_request
    else if id frame =? packet_id PingRequest then handle_ping frame
    else throw (NetError_UnexpectedPacket State_Status (id frame))
  | State_Login =>
    if id frame =? packet_id LoginStart then handle_login_start frame
    else if id frame =? packet_id LoginAcknowledged then handle_login_acknowledged
    else throw (NetError_UnexpectedPacket State_Login (id frame))
  | st => throw (NetError_UnexpectedPacket st (id frame))
  end.

(** ** The read loop *)

(** What the transport delivers next: bytes, the end of the stream, an error,
    or nothing until the read timeout elapses. *)
Inductive Arrival :=
  | Arrival_bytes (bs : list byte)
  | Arrival_eof
  | Arrival_error (e : list byte)
  | Arrival_timeout.

Inductive Next :=
  | Next_frame (frame : RawPacket)
  | Next_closed
  | Next_error (e : ProtocolError)
  | Next_timeout
  | Next_waiting
  | Next_panic.

Definition bytes_remaining : list byte := bytes_of "bytes remaining on stream".

(** [self.framed.next()] under the timeout: decode what is buffered, read
    more when the decoder asks, and report leftover bytes at the end. *)
Fixpoint next_frame (arrivals : list Arrival) (s : Connection) :
    Next * list Arrival * Connection :=
  let (r, buffer) := decode inflate (codec s) (read_buffer s) in
  match r with
  | Ok (Some frame) => (Next_frame frame, arrivals, with_read_buffer buffer s)
  | Err e => (Next_error e, arrivals, with_read_buffer buffer s)
  | Ok None =>
    match arrivals with
    | [] => (Next_waiting, [], with_read_buffer buffer s)
    | Arrival_bytes bs :: rest =>
        next_frame rest
          (with_read_buffer (mkBytesMut (contents buffer ++ bs) (reserves buffer)) s)
    | Arrival_eof :: rest =>
        (if len (contents buffer) =? 0 then Next_closed
         else Next_error (ProtocolError_Io bytes_remaining), rest, with_read_buffer buffer s)
    | Arrival_error e :: rest => (Next_error (ProtocolError_Io e), rest, with_read_buffer buffer s)
    | Arrival_timeout :: rest => (Next_timeout, rest, with_read_buffer buffer s)
    end
  | Panic | Diverge => (Next_panic, arrivals, with_read_buffer buffer s)
  end.

(** How [run] ends; [Ok false] is a run still waiting when the modelled
    arrivals are used up. *)
Fixpoint run_loop (fuel : nat) (arrivals : list Arrival) : M Connection NetError bool :=
  match fuel with
  | O => diverge
  | S fuel' => fun s =>
    let '(next, arrivals', s') := next_frame arrivals s in
    match next with
    | Next_timeout => (Err NetError_Timeout, s')
    | Next_closed => (Ok true, s')
    | Next_error e => (Err (NetError_Protocol e), s')
    | Next_waiting => (Ok false, s')
    | Next_panic => (Panic, s')
    | Next_frame frame =>
      (let! flow := handle frame in
       match flow with
       | Flow_Close => ret true
       | Flow_Continue => run_loop fuel' arrivals'
       end) s'
    end
  end.

(** The bytes still to be decoded, buffered or on their way. *)
Definition pending (arrivals : list Arrival) (s : Connection) : nat :=
  length (contents (read_buffer s))
  + foldr (fun a n => (match a with Arrival_bytes bs => length bs | _ => 0 end) + n)%nat 0%nat arrivals.

Definition run (arrivals : list Arrival) : M Connection NetError bool :=
  fun s => run_loop (S (pending arrivals s)) arrivals s.
End Handlers.

(** ** What every operation of a connection respects *)

(** [s'] comes after [s]: the codec keeps its invariant, the state machine has
    only taken its own steps, what was sent stays sent, the configuration is
    the same. *)
Record evolves (s s' : Connection) : Prop := mkEvolves {
  evolves_codec : codec_inv (codec s) ->
    (forall t, config_threshold (config s) = Some t -> t < 2 ^ 31) -> codec_inv (codec s');
  evolves_state : rtc step (state s) (state s');
  evolves_wire : exists out, wire s' = wire s ++ out;
  evolves_config : config s' = config s;
  evolves_read : read_buffer s' = read_buffer s;
}.

#[export] Instance evolves_preorder : PreOrder evolves.
Proof.
  split.
  - intros s. split; [done|reflexivity| |done|done]. exists []. by rewrite app_nil_r.
  - intros a b c [H1 H2 [o1 H3] H4 H5] [G1 G2 [o2 G3] G4 G5].
    split; [|by etrans| |by rewrite G4|by rewrite G5].
    + intros Hc Ht. apply G1; [by apply H1|by rewrite H4].
    + exists (o1 ++ o2). by rewrite G3, H3, app_assoc.
Qed.

(** [m] returns, and respects [R], from every state, on every exit. *)
Definition always {S E A} (R : S -> S -> Prop) (m : M S E A) : Prop :=
  forall s, returns (fst (m s)) /\ R s (snd (m s)).

Create HintDb always.

Section Always.
Context {S E : Type} (R : S -> S -> Prop) `{!PreOrder R}.

Lemma always_ret {A} (a : A) : always (E:=E) R (ret a).
Proof. intros s. by split. Qed.

Lemma always_throw {A} (e : E) : always (A:=A) R (throw e).
Proof. intros s. by split. Qed.

Lemma always_lift {A} (r : outcome E A) : returns r -> always R (lift r).
Proof. intros Hr s. by split. Qed.

Lemma always_map_err {E' A} (f : E' -> E) (m : M S E' A) : always R m -> always R (map_err f m).
Proof. intros Hm s. specialize (Hm s). unfold map_err. by destruct (m s) as [[] ?]. Qed.

Lemma always_bind {A B} (m : M S E A) (k : A -> M S E B) :
  always R m -> (forall a, always R (k a)) -> always R (bind m k).
Proof.
  intros Hm Hk s. specialize (Hm s) as [Hr Hs]. unfold bind.
  destruct (m s) as [[a|e| |] s']; try done. specialize (Hk a s') as [Hr' Hs'].
  split; [done|]. by etrans.
Qed.
End Always.

#[export] Hint Resolve always_ret always_throw always_lift always_map_err : always.

Ltac always_step :=
  match goal with
  | |- always _ (bind _ _) => apply always_bind; [apply _| |intros ?]
  | |- always _ (map_err _ _) => apply always_map_err
  | |- always _ (if ?c then _ else _) => destruct c
  | |- always _ (match ?x with _ => _ end) => destruct x
  | |- always _ _ => solve [eauto with always typeclass_instances]
  end.

Lemma decode_as_returns {P} `{PacketLaws P} frame : returns (decode_as P frame).
Proof.
  unfold decode_as. pose proof (packet_sound (P:=P) (body frame)) as Hs. unfold wp in Hs. unfold bind at 1.
  destruct (packet_decode (body frame)) as [[p|e| |] l]; try done.
  unfold bind, has_remaining, get_remaining. cbn. by case_match.
Qed.

Lemma text_to_string_returns `{ExternalsLaws} c : returns (text_to_string c).
Proof. apply json_to_string_returns. Qed.

Lemma status_to_string_returns `{ExternalsLaws} s : returns (status_to_string s).
Proof. apply json_to_string_returns. Qed.

Lemma from_component_returns to_string c :
  returns (to_string c) -> returns (from_component to_string c).
Proof. unfold from_component. by destruct (to_string c). Qed.

Section Evolution.
Context `{ExternalsLaws}.

Lemma always_get_connection : always evolves get_connection.
Proof. intros s. by split. Qed.

Lemma always_on_state {A} (m : M ConnectionState NetError A) :
  (forall st, returns (fst (m st)) /\ rtc step st (snd (m st))) -> always evolves (on_state m).
Proof.
  intros Hm s. unfold on_state, zoom. specialize (Hm (state s)) as [Hr Hs].
  destruct (m (state s)) as [r st]. split; [done|]. split; [done|done| |done|done].
  exists []. by rewrite app_nil_r.
Qed.

Lemma always_transition to : always evolves (on_state (transition to)).
Proof. apply always_on_state. intros. apply transition_steps. Qed.

Lemma always_mark : always evolves (on_state mark_status_request_seen).
Proof. apply always_on_state. intros. apply mark_steps. Qed.

(** What [send] leaves alone. *)
Definition kept (s s' : Connection) : Prop :=
  compression_threshold (codec s') = compression_threshold (codec s)
  /\ read_buffer s' = read_buffer s /\ state s' = state s /\ config s' = config s.

Lemma send_cases {P} `{PacketLaws P} (item : P) s :
  match send item s with
  | (Ok _, s') => exists payload,
      len (raw_payload item) <= MAX_PACKET_SIZE
      /\ frame_payload deflate (compression_threshold (codec s)) (raw_payload item) = Ok payload
      /\ wire s' = wire s ++ contents (write_buffer s) ++ enc_frame payload
      /\ contents (write_buffer s') = [] /\ kept s s'
  | (Err e, s') => wire s' = wire s /\ kept s s' /\ exists pe, e = NetError_Protocol pe
  | _ => False
  end.
Proof.
  unfold send, map_err, bind, zoom.
  pose proof (encode_eq deflate item (codec s) (write_buffer s)) as He. cbv zeta in He.
  destruct (Z.gtb_spec (len (raw_payload item)) MAX_PACKET_SIZE) as [Hgt|Hle].
  { rewrite He. cbn. split_and!; [done|by unfold kept|by eexists]. }
  destruct (frame_payload _ _ _) as [payload|e| |] eqn:Ef.
  - destruct He as [z ->]. cbn [fst snd]. unfold flush. cbn [wire write_buffer contents].
    destruct (flush_error _); cbn [fst snd codec write_buffer wire contents].
    + split_and!; [done|by unfold kept|by eexists].
    + exists payload. split_and!; [lia|done|done|done|by unfold kept].
  - rewrite He. cbn. split_and!; [done|by unfold kept|by eexists].
  - unfold frame_payload in Ef. pose proof (deflate_returns (raw_payload item)).
    repeat case_match; simplify_eq; done.
  - unfold frame_payload in Ef. pose proof (deflate_returns (raw_payload item)).
    repeat case_match; simplify_eq; done.
Qed.

(** When a packet goes out. *)
Lemma send_ok {P} `{PacketLaws P} (item : P) s payload :
  len (raw_payload item) <= MAX_PACKET_SIZE ->
  frame_payload deflate (compression_threshold (codec s)) (raw_payload item) = Ok payload ->
  flush_error (wire s ++ contents (write_buffer s) ++ enc_frame payload) = None ->
  exists s', send item s = (Ok tt, s')
    /\ wire s' = wire s ++ contents (write_buffer s) ++ enc_frame payload
    /\ contents (write_buffer s') = [] /\ kept s s'.
Proof.
  intros Hle Hp Hf. unfold send, map_err, bind, zoom.
  pose proof (encode_eq deflate item (codec s) (write_buffer s)) as He. cbv zeta in He.
  rewrite Z.gtb_ltb, (proj2 (Z.ltb_ge _ _)), Hp in He by done. destruct He as [z ->].
  cbn [fst snd]. unfold flush. cbn [wire write_buffer contents]. rewrite Hf.
  eexists. split; [done|]. cbn [codec write_buffer wire contents]. by unfold kept.
Qed.

Lemma kept_evolves s s' out : kept s s' -> wire s' = wire s ++ out -> evolves s s'.
Proof.
  intros (Ht & Hr & Hs & Hc) Hw. split; [|by rewrite Hs|by exists out|done|done].
  intros Hi _. unfold codec_inv in *. by rewrite Ht.
Qed.

Lemma always_send {P} `{PacketLaws P} (item : P) : always evolves (send item).
Proof.
  intros s. pose proof (send_cases item s) as Hc. destruct (send item s) as [[[]|e| |] s']; try done.
  - destruct Hc as (payload & _ & _ & Hw & _ & Hk). split; [done|]. by eapply kept_evolves.
  - destruct Hc as (Hw & Hk & _). split; [done|]. apply (kept_evolves _ _ []); [done|].
    by rewrite app_nil_r.
Qed.

Hint Resolve always_get_connection always_transition always_mark decode_as_returns
  from_component_returns text_to_string_returns status_to_string_returns : always.
Hint Extern 1 (always evolves (send _)) => apply always_send; apply _ : always.

Lemma validate_username_returns n : returns (validate_username n).
Proof. unfold validate_username. by case_match. Qed.

(** Set Compression and the switch, with the configured threshold. *)
Definition announce (self : Connection) : M Connection NetError unit :=
  match config_threshold (config self) with
  | Some t => do! send (mkSetCompression t); switch_compression t
  | None => ret tt
  end.

Lemma announce_evolves s : returns (fst (announce s s)) /\ evolves s (snd (announce s s)).
Proof.
  unfold announce. destruct (config_threshold (config s)) as [t|] eqn:Ht; [|by split].
  pose proof (always_send (mkSetCompression t) s) as [Hr He]. unfold bind.
  destruct (send (mkSetCompression t) s) as [[[]|e| |] s']; try done. split; [done|].
  etrans; [exact He|]. destruct He as [_ _ _ Hcfg _]. cbn [fst snd] in Hcfg.
  split; [|reflexivity| |done|done].
  - cbn [snd]. intros _ Hc. apply codec_inv_set_compression, Hc. by rewrite Hcfg.
  - exists []. by rewrite app_nil_r.
Qed.

Lemma always_handshake frame : always evolves (handle_handshake frame).
Proof. unfold handle_handshake. repeat always_step. Qed.

Lemma always_login_start frame : always evolves (handle_login_start frame).
Proof.
  unfold handle_login_start. apply always_bind; [apply _|repeat always_step|]. intros start.
  pose proof (validate_username_returns (name start)).
  destruct (validate_username (name start)) as [[]|e| |]; try done; [|repeat always_step].
  intros s. rewrite (bind_ok get_connection _ s s s) by done. fold (announce s).
  pose proof (announce_evolves s) as [Hr He].
  destruct (announce s s) as [[[]|e| |] s'] eqn:Ea; try done;
    [rewrite (bind_ok _ _ _ _ _ Ea)|by rewrite (bind_err _ _ _ _ _ Ea)].
  assert (always evolves (do! send (mkLoginSuccess (mkGameProfile (offline_uuid md5 (name start))
    (name start) []) (offline_uuid md5 (name start))); ret Flow_Continue)) as Hs
    by (repeat always_step).
  destruct (Hs s') as [Hr' He']. split; [exact Hr'|]. etrans; [exact He|exact He'].
Qed.

Lemma always_acknowledged : always evolves handle_login_acknowledged.
Proof. unfold handle_login_acknowledged. repeat always_step. Qed.

Lemma always_status_request : always evolves handle_status_request.
Proof. unfold handle_status_request. repeat always_step. Qed.

Lemma always_ping frame : always evolves (handle_ping frame).
Proof. unfold handle_ping. repeat always_step. Qed.

Hint Resolve always_handshake always_login_start always_acknowledged always_status_request
  always_ping : always.

Lemma always_handle frame : always evolves (handle frame).
Proof. unfold handle. repeat always_step. Qed.

(** ** The loop *)

(** [s'] comes after [s] once its input has been read. *)
Definition advances (s s' : Connection) : Prop := evolves (with_read_buffer (read_buffer s') s) s'.

Lemma evolves_advances s s' : evolves s s' -> advances s s'.
Proof. intros He. unfold advances. rewrite (evolves_read _ _ He). by destruct s. Qed.

Lemma advances_trans a b c : advances a b -> advances b c -> advances a c.
Proof.
  unfold advances. intros [H1 H2 H3 H4 H5] Hbc. etrans; [|exact Hbc].
  split; cbn; [exact H1|exact H2|exact H3|exact H4|done].
Qed.

Lemma advances_read b s : advances s (with_read_buffer b s).
Proof. unfold advances. reflexivity. Qed.

Lemma next_frame_spec arrivals : forall s,
  match next_frame arrivals s with
  | (next, arrivals', s') => (exists b, s' = with_read_buffer b s) /\ next <> Next_panic
      /\ (forall frame, next = Next_frame frame -> (pending arrivals' s' < pending arrivals s)%nat)
  end.
Proof.
  induction arrivals as [|a arrivals IH]; intros s; cbn [next_frame];
    pose proof (decode_progress inflate (codec s) (read_buffer s)) as Hd;
    destruct (decode inflate (codec s) (read_buffer s)) as [[[frame|]|e| |] buffer]; try done.
  - split_and!; [by eexists|done|]. intros ? _. unfold pending. cbn. lia.
  - split_and!; [by eexists|done|done].
  - split_and!; [by eexists|done|done].
  - split_and!; [by eexists|done|]. intros ? _. unfold pending. cbn [contents read_buffer with_read_buffer]. lia.
  - destruct a as [bs| |e|]; cycle 1.
    1: { destruct (len (contents buffer) =? 0); by split_and!; [eexists|..]. }
    1-2: by split_and!; [eexists|..].
    specialize (IH (with_read_buffer (mkBytesMut (contents buffer ++ bs) (reserves buffer)) s)).
    destruct (next_frame _ _) as [[next arrivals'] s'].
    destruct IH as ([b ->] & Hp & Hl). split_and!; [by exists b|done|].
    intros frame Hf. specialize (Hl frame Hf). unfold pending in *.
    cbn [contents read_buffer with_read_buffer foldr] in *. rewrite length_app, Hd in Hl. lia.
  - split_and!; [by eexists|done|done].
Qed.

Lemma run_loop_spec fuel : forall arrivals s,
  (pending arrivals s < fuel)%nat ->
  returns (fst (run_loop fuel arrivals s)) /\ advances s (snd (run_loop fuel arrivals s)).
Proof.
  induction fuel as [|fuel IH]; intros arrivals s Hf; [lia|]. cbn [run_loop].
  pose proof (next_frame_spec arrivals s) as Hn.
  destruct (next_frame arrivals s) as [[next arrivals'] s1].
  destruct Hn as ([b ->] & Hp & Hl). pose proof (advances_read b s) as Ha.
  destruct next as [frame| |e| | |]; try done. specialize (Hl frame eq_refl).
  destruct (always_handle frame (with_read_buffer b s)) as [Hr He]. unfold bind.
  destruct (handle frame (with_read_buffer b s)) as [[flow|e| |] s2]; try done; cbn [snd] in He.
  - pose proof (advances_trans _ _ _ Ha (evolves_advances _ _ He)) as H2.
    destruct flow; [|by split].
    destruct (IH arrivals' s2) as [Hr' Ha'].
    { unfold pending in *. rewrite (evolves_read _ _ He). lia. }
    split; [done|]. by eapply advances_trans.
  - split; [done|]. by eapply advances_trans, evolves_advances.
Qed.

(** Fuel beyond the bytes still to come changes nothing. *)
Lemma run_loop_fuel n : forall m arrivals s,
  (pending arrivals s < n)%nat -> (pending arrivals s < m)%nat ->
  run_loop n arrivals s = run_loop m arrivals s.
Proof.
  induction n as [|n IH]; intros m arrivals s Hn Hm; [lia|]. destruct m as [|m]; [lia|].
  cbn [run_loop]. pose proof (next_frame_spec arrivals s) as Hs.
  destruct (next_frame arrivals s) as [[next arrivals'] s']. destruct Hs as (_ & _ & Hdec).
  destruct next as [frame| | | | |]; try done. specialize (Hdec frame eq_refl).
  pose proof (always_handle frame s') as [_ He]. unfold bind.
  destruct (handle frame s') as [[[]|e| |] s'']; try done. cbn [snd] in He.
  pose proof (evolves_read _ _ He) as Hr. apply IH; unfold pending in *; rewrite Hr; lia.
Qed.
End Evolution.

(** What [run] returns, as the model's [run] reports it. *)
Definition returned (r : outcome NetError unit) : outcome NetError bool :=
  match r with Ok _ => Ok true | Err e => Err e | Panic => Panic | Diverge => Diverge end.

(** ** What the handlers send *)

Definition login_success `{Externals} (n : list byte) : LoginSuccess :=
  mkLoginSuccess (mkGameProfile (offline_uuid md5 n) n []) (offline_uuid md5 n).

Section Sends.
Context `{ExternalsLaws}.

Lemma len_enc_varint_bound n : 1 <= len (enc_varint n) <= 5.
Proof. pose proof (enc_varint_length n). unfold len. lia. Qed.

Lemma set_compression_size t : len (raw_payload (mkSetCompression t)) <= MAX_PACKET_SIZE.
Proof.
  unfold raw_payload. cbn [enc_packet SetCompression_laws]. rewrite len_app.
  pose proof (len_enc_varint_bound t). pose proof (len_enc_varint_bound (packet_id SetCompression)).
  unfold MAX_PACKET_SIZE. cbn [threshold]. lia.
Qed.

Lemma login_success_size n : len n <= 48 -> len (raw_payload (login_success n)) <= MAX_PACKET_SIZE.
Proof.
  intros Hn. unfold raw_payload, login_success.
  cbn [enc_packet LoginSuccess_laws profile session_id]. unfold enc_profile, enc_pstring, enc_array.
  cbn [profile_uuid username properties flat_map]. rewrite !len_app, !len_be_bytes, (len_nil (A:=byte)).
  pose proof (len_enc_varint_bound (packet_id LoginSuccess)).
  pose proof (len_enc_varint_bound (sign 32 (len n))).
  pose proof (len_enc_varint_bound (sign 32 (len (A:=ProfileProperty) []))). unfold MAX_PACKET_SIZE. lia.
Qed.

Lemma accepted_name_size frame start :
  decode_as LoginStart frame = Ok start -> len (name start) <= 48 /\ Utf8.valid (name start) = true.
Proof.
  unfold decode_as. pose proof (packet_sound (P:=LoginStart) (body frame)) as Hs. unfold wp in Hs.
  unfold bind at 1. destruct (packet_decode (body frame)) as [[p|e| |] l]; try done.
  unfold bind, has_remaining, get_remaining. cbn [fst].
  case_match; cbn; intros Heq; simplify_eq.
  cbn in Hs. apply andb_prop in Hs as [[Hv Hl]%andb_prop _].
  unfold Packets.MAX_USERNAME_CHARS, MAX_BYTES_PER_CHAR in Hl. split; [lia|done].
Qed.

(** A login with compression configured, whatever the current format is. *)
Lemma login_start_sends s frame start t p1 p2 :
  current (state s) = State_Login -> id frame = 0 ->
  decode_as LoginStart frame = Ok start -> validate_username (name start) = Ok tt ->
  config_threshold (config s) = Some t -> 0 <= t < 2 ^ 31 ->
  contents (write_buffer s) = [] -> (forall bs, flush_error bs = None) ->
  frame_payload deflate (compression_threshold (codec s)) (raw_payload (mkSetCompression t)) = Ok p1 ->
  frame_payload deflate (Some t) (raw_payload (login_success (name start))) = Ok p2 ->
  exists s', handle frame s = (Ok Flow_Continue, s')
    /\ wire s' = wire s ++ enc_frame p1 ++ enc_frame p2
    /\ compression_threshold (codec s') = Some t /\ contents (write_buffer s') = []
    /\ state s' = state s /\ config s' = config s.
Proof.
  intros Hl Hid Hd Hv Hc Ht Hq Hf Hp1 Hp2. destruct (accepted_name_size _ _ Hd) as [Hsize _].
  unfold handle. rewrite (bind_ok get_connection _ s s s) by done. rewrite Hl, Hid.
  change (0 =? packet_id LoginStart) with true. cbn iota. unfold handle_login_start.
  rewrite (bind_ok (map_err NetError_Protocol (lift (decode_as LoginStart frame))) _ s start s)
    by (by rewrite Hd).
  rewrite Hv, (bind_ok get_connection _ s s s) by done. rewrite Hc. cbv zeta.
  destruct (send_ok (mkSetCompression t) s p1) as (s1 & Hs1 & Hw1 & Hq1 & Hk1);
    [apply set_compression_size|done|apply Hf|].
  destruct Hk1 as (Ht1 & _ & Hst1 & Hcf1).
  set (s2 := snd (switch_compression t s1)).
  assert ((do! send (mkSetCompression t); switch_compression t) s = (Ok tt, s2)) as Hsw
    by (by rewrite (bind_ok _ _ _ _ _ Hs1)).
  rewrite (bind_ok _ _ _ _ _ Hsw).
  assert (compression_threshold (codec s2) = Some t) as Ht2.
  { cbn. destruct (Z.ltb_spec t 0); [lia|done]. }
  destruct (send_ok (login_success (name start)) s2 p2) as (s3 & Hs3 & Hw3 & Hq3 & Hk3);
    [by apply login_success_size|by rewrite Ht2|apply Hf|].
  destruct Hk3 as (Ht3 & _ & Hst3 & Hcf3). exists s3.
  split; [by rewrite (bind_ok _ _ _ _ _ Hs3)|].
  assert (wire s2 = wire s1) as Hw2 by done. rewrite Hw3, Hw2, Hw1, Hq.
  change (contents (write_buffer s2)) with (contents (write_buffer s1)). rewrite Hq1.
  split_and!; [by rewrite <- app_assoc|by rewrite Ht3|done|by rewrite Hst3|by rewrite Hcf3].
Qed.
(** A ping is echoed bit for bit, in the current format, and the exchange ends. *)
Lemma ping_sends s frame ping payload :
  current (state s) = State_Status -> id frame = 1 -> decode_as PingRequest frame = Ok ping ->
  frame_payload deflate (compression_threshold (codec s))
    (raw_payload (mkPongResponse (ping_payload ping))) = Ok payload ->
  contents (write_buffer s) = [] -> (forall bs, flush_error bs = None) ->
  exists s', handle frame s = (Ok Flow_Close, s') /\ wire s' = wire s ++ enc_frame payload
    /\ kept s s'.
Proof.
  intros Hstatus Hid Hping Hpayload Hquiet Hflush.
  unfold handle. rewrite (bind_ok get_connection _ s s s) by done. rewrite Hstatus, Hid.
  change (1 =? packet_id StatusRequest) with false. change (1 =? packet_id PingRequest) with true.
  cbn iota. unfold handle_ping.
  rewrite (bind_ok (map_err NetError_Protocol (lift (decode_as PingRequest frame))) _ s ping s)
    by (by rewrite Hping).
  destruct (send_ok (mkPongResponse (ping_payload ping)) s payload) as (s' & Hs & Hw & _ & Hk);
    [|done|apply Hflush|].
  { unfold raw_payload. cbn [enc_packet PongResponse_laws pong_payload].
    rewrite len_app, len_be_bytes. pose proof (len_enc_varint_bound (packet_id PongResponse)).
    unfold MAX_PACKET_SIZE. lia. }
  exists s'. rewrite (bind_ok _ _ _ _ _ Hs), Hw, Hquiet. done.
Qed.

Lemma handle_request s frame :
  current (state s) = State_Status -> id frame = 0 -> handle frame s = handle_status_request s.
Proof.
  intros Hs Hid. unfold handle. rewrite (bind_ok get_connection _ s s s) by done. by rewrite Hs, Hid.
Qed.

(** The first status request is answered. *)
Lemma status_request_sends s json payload :
  state s = mkConnectionState State_Status false ->
  status_to_string (status_response_json_new (motd (config s)) (max_players (config s)) 0) = Ok json ->
  len (raw_payload (mkStatusResponse json)) <= MAX_PACKET_SIZE ->
  frame_payload deflate (compression_threshold (codec s)) (raw_payload (mkStatusResponse json))
    = Ok payload ->
  contents (write_buffer s) = [] -> (forall bs, flush_error bs = None) ->
  exists s', handle_status_request s = (Ok Flow_Continue, s') /\ wire s' = wire s ++ enc_frame payload
    /\ state s' = mkConnectionState State_Status true /\ contents (write_buffer s') = []
    /\ compression_threshold (codec s') = compression_threshold (codec s).
Proof.
  intros Hst Hjson Hsize Hpayload Hquiet Hflush. unfold handle_status_request.
  destruct s as [cd rb wb w st cfg]. cbn in Hst. subst st.
  set (s0 := mkConnection cd rb wb w (mkConnectionState State_Status false) cfg) in *.
  set (s1 := mkConnection cd rb wb w (mkConnectionState State_Status true) cfg).
  rewrite (bind_ok (on_state mark_status_request_seen) _ s0 tt s1) by done.
  rewrite (bind_ok get_connection _ s1 s1 s1) by done. cbv zeta.
  rewrite (bind_ok _ _ s1 json s1)
    by (unfold map_err, lift; change (config s1) with (config s0); by rewrite Hjson).
  destruct (send_ok (mkStatusResponse json) s1 payload) as (s2 & Hs & Hw & Hq & Ht & _ & Hst2 & _);
    [done|done|apply Hflush|].
  exists s2. rewrite (bind_ok _ _ _ _ _ Hs), Hw.
  change (contents (write_buffer s1)) with (contents (write_buffer s0)). by rewrite Hquiet.
Qed.
End Sends.

(** Errors a call never ends with. *)
Definition never_unexpected {A} (m : M Connection NetError A) : Prop :=
  forall s st i, fst (m s) <> Err (NetError_UnexpectedPacket st i).

Section Never.
Lemma never_bind {A B} (m : M Connection NetError A) (k : A -> M Connection NetError B) :
  never_unexpected m -> (forall a, never_unexpected (k a)) -> never_unexpected (bind m k).
Proof.
  intros Hm Hk s st i. specialize (Hm s st i). unfold bind.
  destruct (m s) as [[a|e| |] s']; try done; [apply Hk|]. cbn in *. congruence.
Qed.
Lemma never_ret {A} (a : A) : never_unexpected (ret a).
Proof. done. Qed.
Lemma never_protocol {E A} (f : E -> ProtocolError) (m : M Connection E A) :
  never_unexpected (map_err (fun e => NetError_Protocol (f e)) m).
Proof. intros s st i. unfold map_err. by destruct (m s) as [[] ?]. Qed.
Lemma never_transition to : never_unexpected (on_state (transition to)).
Proof. intros s st i. unfold on_state, zoom, transition. by destruct (negb _). Qed.
Lemma never_mark : never_unexpected (on_state mark_status_request_seen).
Proof. intros s st i. unfold on_state, zoom, mark_status_request_seen.
  by destruct (status_request_seen (state s)).
Qed.
Lemma never_get : never_unexpected get_connection.
Proof. done. Qed.
Lemma never_switch t : never_unexpected (switch_compression t).
Proof. done. Qed.
Lemma never_invalid n : never_unexpected (A:=Flow) (throw (NetError_InvalidUsername n)).
Proof. done. Qed.
Lemma never_panic : never_unexpected (A:=Flow) panic.
Proof. done. Qed.
Lemma never_diverge : never_unexpected (A:=Flow) diverge.
Proof. done. Qed.
Lemma never_send `{Externals} {P} `{Packet P} (item : P) : never_unexpected (send item).
Proof. apply (never_protocol (fun e => e)). Qed.
End Never.

Create HintDb never.
#[export] Hint Resolve never_ret never_transition never_mark never_get never_switch never_invalid
  never_panic never_diverge never_send : never.
#[export] Hint Extern 1 (never_unexpected (map_err _ _)) => apply (never_protocol (fun e => e)) : never.
#[export] Hint Extern 2 (never_unexpected (map_err _ _)) => apply never_protocol : never.

Ltac never_step :=
  match goal with
  | |- never_unexpected (bind _ _) => apply never_bind; [|intros ?]
  | |- never_unexpected (match ?x with _ => _ end) => destruct x eqn:?
  | |- never_unexpected _ => solve [eauto with never]
  end.

Lemma never_handlers `{Externals} frame :
  never_unexpected (handle_handshake frame) /\ never_unexpected (handle_login_start frame)
  /\ never_unexpected handle_login_acknowledged /\ never_unexpected handle_status_request
  /\ never_unexpected (handle_ping frame).
Proof.
  unfold handle_handshake, handle_login_acknowledged, handle_status_request, handle_ping.
  split_and!; [repeat never_step| |repeat never_step..]. unfold handle_login_start.
  apply never_bind; [eauto with never|]. intros start. unfold validate_username.
  destruct (_ && _); repeat never_step.
Qed.

(** The packets each state lists. *)
Definition listed (st : State) (i : Z) : bool :=
  match st with
  | State_Handshaking => i =? 0
  | State_Status => (i =? 0) || (i =? 1)
  | State_Login => (i =? 0) || (i =? 3)
  | _ => false
  end.

(** What an invalid name is answered with. *)
Lemma invalid_username_sends `{ExternalsLaws} s frame start json payload :
  current (state s) = State_Login -> id frame = 0 -> decode_as LoginStart frame = Ok start ->
  validate_username (name start) <> Ok tt -> text_to_string invalid_username_reason = Ok json ->
  len (raw_payload (mkLoginDisconnect json)) <= MAX_PACKET_SIZE ->
  frame_payload deflate (compression_threshold (codec s)) (raw_payload (mkLoginDisconnect json))
  = Ok payload ->
  contents (write_buffer s) = [] -> (forall bs, flush_error bs = None) ->
  exists s', handle frame s = (Err (NetError_InvalidUsername (name start)), s')
    /\ wire s' = wire s ++ enc_frame payload /\ kept s s'.
Proof.
  intros Hlogin Hid Hstart Hname Hjson Hsize Hpayload Hquiet Hflush. unfold handle. rewrite (bind_ok get_connection _ s s s) by done. rewrite Hlogin, Hid.
  change (0 =? packet_id LoginStart) with true. cbn iota. unfold handle_login_start.
  rewrite (bind_ok (map_err NetError_Protocol (lift (decode_as LoginStart frame))) _ s start s)
    by (by rewrite Hstart).
  assert (validate_username (name start) = Err (NetError_InvalidUsername (name start))) as ->
    by (unfold validate_username in *; by case_match).
  rewrite (bind_ok _ _ s (mkLoginDisconnect json) s)
    by (unfold map_err, lift, from_component; by rewrite Hjson).
  destruct (send_ok (mkLoginDisconnect json) s payload) as (s' & Hs & Hw & _ & Hk);
    [done|done|apply Hflush|].
  exists s'. rewrite (bind_ok _ _ _ _ _ Hs), Hw, Hquiet. done.
Qed.

Lemma run_returns `{ExternalsLaws} arrivals s : returns (fst (run arrivals s)).
Proof.
  unfold run. by pose proof (run_loop_spec (S (pending arrivals s)) arrivals s ltac:(lia)) as [Hr _].
Qed.

(** ** Properties *)

(** C18: whatever a peer sends, in whatever pieces and with whatever transport
    failures, serving a fresh connection returns without panicking; the codec's
    threshold stays valid, the state machine has only made permitted moves, and
    nothing already sent is taken back. *)
Theorem run_spec `{ExternalsLaws} (cfg : ServerConfig) (arrivals : list Arrival)
    (Hcfg : forall t, config_threshold cfg = Some t -> t < 2 ^ 31) :
  match run arrivals (connection_new cfg) with
  | (r, s') => returns r /\ codec_inv (codec s') /\ reachable (state s') /\ config s' = cfg
  end.
Proof.
  unfold run. pose proof (run_loop_spec (S (pending arrivals (connection_new cfg))) arrivals
    (connection_new cfg) ltac:(lia)) as [Hr [Hc Hs _ Hcf _]].
  destruct (run_loop _ _ _) as [r s']. cbn [fst snd] in *.
  split_and!; [done|apply Hc; [exact I|exact Hcfg]|exact Hs|exact Hcf].
Qed.

(** A login is answered in the order clients need: Set Compression in the
    old, uncompressed format, then the codec switches, then Login Success in the
    new format, carrying the identity derived from the name; the connection
    stays in the login state until the client acknowledges. *)
Theorem login_accepted `{ExternalsLaws} (s : Connection) (frame : RawPacket) (start : LoginStart)
    (t : Z) (payload : list byte)
    (Hlogin : current (state s) = State_Login) (Hid : id frame = 0)
    (Hstart : decode_as LoginStart frame = Ok start)
    (Hname : validate_username (name start) = Ok tt)
    (Hconfig : config_threshold (config s) = Some t) (Ht : 0 <= t < 2 ^ 31)
    (Hplain : compression_threshold (codec s) = None) (Hquiet : contents (write_buffer s) = [])
    (Hflush : forall bs, flush_error bs = None)
    (Hpayload : frame_payload deflate (Some t) (raw_payload (login_success (name start))) = Ok payload) :
  exists s', handle frame s = (Ok Flow_Continue, s')
    /\ wire s' = wire s ++ enc_frame (raw_payload (mkSetCompression t)) ++ enc_frame payload
    /\ compression_threshold (codec s') = Some t /\ state s' = state s.
Proof.
  destruct (login_start_sends s frame start t (raw_payload (mkSetCompression t)) payload)
    as (s' & ? & ? & ? & _ & ? & _); try done; [by rewrite Hplain|]. by exists s'.
Qed.

(** The UUID a client claims has no effect: two Login Start packets with
    the same name are answered identically, whatever UUID each carries. *)
Theorem login_ignores_client_uuid `{Externals} (s : Connection) (frame1 frame2 : RawPacket)
    (start1 start2 : LoginStart)
    (Hid : id frame1 = id frame2)
    (H1 : decode_as LoginStart frame1 = Ok start1) (H2 : decode_as LoginStart frame2 = Ok start2)
    (Hname : name start1 = name start2) :
  handle_login_start frame1 s = handle_login_start frame2 s.
Proof.
  unfold handle_login_start.
  rewrite !(bind_ok (map_err NetError_Protocol (lift (decode_as LoginStart _))) _ s _ s)
    by (by rewrite ?H1, ?H2). by rewrite Hname.
Qed.

(** A name outside the permitted set is refused: the client is sent one
    Login Disconnect with the reason and nothing else, the connection ends with
    [InvalidUsername], and neither compression nor the state machine has moved. *)
Theorem invalid_username_refused `{ExternalsLaws} (s : Connection) (frame : RawPacket)
    (start : LoginStart) (json payload : list byte)
    (Hlogin : current (state s) = State_Login) (Hid : id frame = 0)
    (Hstart : decode_as LoginStart frame = Ok start)
    (Hname : validate_username (name start) <> Ok tt)
    (Hjson : text_to_string invalid_username_reason = Ok json)
    (Hsize : len (raw_payload (mkLoginDisconnect json)) <= MAX_PACKET_SIZE)
    (Hpayload : frame_payload deflate (compression_threshold (codec s))
      (raw_payload (mkLoginDisconnect json)) = Ok payload)
    (Hquiet : contents (write_buffer s) = []) (Hflush : forall bs, flush_error bs = None) :
  exists s', handle frame s = (Err (NetError_InvalidUsername (name start)), s')
    /\ wire s' = wire s ++ enc_frame payload /\ kept s s'.
Proof. by eapply invalid_username_sends. Qed.

(** C37: dispatch: a packet id that its state does not list ends the connection
    with [UnexpectedPacket] naming both, before anything is decoded, sent or
    changed; a listed one never does. *)
Theorem unexpected_packet `{Externals} (s : Connection) (frame : RawPacket) :
  if listed (current (state s)) (id frame)
  then forall st i, fst (handle frame s) <> Err (NetError_UnexpectedPacket st i)
  else handle frame s = (Err (NetError_UnexpectedPacket (current (state s)) (id frame)), s).
Proof.
  destruct (never_handlers frame) as (N1 & N2 & N3 & N4 & N5).
  unfold handle, listed. rewrite (bind_ok get_connection _ s s s) by done.
  change (packet_id Handshake) with 0. change (packet_id StatusRequest) with 0.
  change (packet_id PingRequest) with 1. change (packet_id LoginStart) with 0.
  change (packet_id LoginAcknowledged) with 3.
  destruct (current (state s)); try done;
    destruct (id frame =? 0); cbn [orb]; try (intros; auto; fail); try done; case_match; auto.
Qed.

(** The handshake decides the state and nothing else: a status request
    moves to status, login and transfer both move to login, nothing is sent,
    and a body that is not exactly one handshake is refused with the state
    unmoved. *)
Theorem handshake_moves `{Externals} (s : Connection) (frame : RawPacket)
    (Hstate : current (state s) = State_Handshaking) (Hid : id frame = 0) :
  match decode_as Handshake frame with
  | Ok h => exists s', handle frame s = (Ok Flow_Continue, s') /\ wire s' = wire s
      /\ codec s' = codec s
      /\ current (state s') = (match next_state h with NextState_Status => State_Status
                               | _ => State_Login end)
  | Err e => handle frame s = (Err (NetError_Protocol e), s)
  | _ => True
  end.
Proof.
  unfold handle. rewrite (bind_ok get_connection _ s s s) by done. rewrite Hstate, Hid.
  change (0 =? packet_id Handshake) with true. cbn iota. unfold handle_handshake.
  destruct (decode_as Handshake frame) as [h|e| |] eqn:E; try done.
  rewrite (bind_ok (map_err NetError_Protocol (lift (Ok h))) _ s h s) by done.
  destruct (next_state h); unfold bind, on_state, zoom, transition; rewrite Hstate; cbn;
    eexists; split_and!; done.
Qed.

(** The first status request is answered with the configured document and a
    second one is refused without an answer. *)
Theorem status_request_once `{ExternalsLaws} (s : Connection) (frame : RawPacket)
    (json payload : list byte)
    (Hstatus : current (state s) = State_Status) (Hid : id frame = 0)
    (Hjson : status_to_string
      (status_response_json_new (motd (config s)) (max_players (config s)) 0) = Ok json)
    (Hsize : len (raw_payload (mkStatusResponse json)) <= MAX_PACKET_SIZE)
    (Hpayload : frame_payload deflate (compression_threshold (codec s))
      (raw_payload (mkStatusResponse json)) = Ok payload)
    (Hquiet : contents (write_buffer s) = []) (Hflush : forall bs, flush_error bs = None) :
  if status_request_seen (state s)
  then handle frame s = (Err NetError_DuplicateStatusRequest, s)
  else exists s', handle frame s = (Ok Flow_Continue, s') /\ wire s' = wire s ++ enc_frame payload
    /\ state s' = mkConnectionState State_Status true
    /\ fst (handle frame s') = Err NetError_DuplicateStatusRequest.
Proof.
  rewrite handle_request by done. destruct (status_request_seen (state s)) eqn:Hseen.
  { unfold handle_status_request, bind, on_state, zoom, mark_status_request_seen. rewrite Hseen.
    by destruct s. }
  assert (state s = mkConnectionState State_Status false) as Hst
    by (destruct (state s); cbn in *; congruence).
  destruct (status_request_sends s json payload) as (s' & Hs & Hw & Hst' & _); try done.
  exists s'. split_and!; [done|done|done|]. rewrite handle_request by (done || by rewrite Hst').
  unfold handle_status_request, bind, on_state, zoom. by rewrite Hst'.
Qed.

(** An acknowledgement is accepted without a login: on a connection that
    has only shaken hands for login, an acknowledgement packet, whatever its
    body, moves it to configuration although no name was ever given and nothing
    was ever sent. *)
Theorem acknowledged_without_login `{Externals} (cfg : ServerConfig) (hello ack : RawPacket)
    (h : Handshake)
    (Hhello : id hello = 0) (Hdecode : decode_as Handshake hello = Ok h)
    (Hnext : next_state h = NextState_Login) (Hack : id ack = 3) :
  exists s1 s2, handle hello (connection_new cfg) = (Ok Flow_Continue, s1)
    /\ handle ack s1 = (Ok Flow_Continue, s2)
    /\ current (state s2) = State_Configuration /\ wire s2 = [].
Proof.
  set (s1 := mkConnection codec_new bytes_mut_new bytes_mut_new []
    (mkConnectionState State_Login false) cfg).
  set (s2 := mkConnection codec_new bytes_mut_new bytes_mut_new []
    (mkConnectionState State_Configuration false) cfg).
  exists s1, s2. split_and!; [| |done|done].
  - unfold handle. rewrite (bind_ok get_connection _ _ (connection_new cfg) (connection_new cfg)) by done.
    cbn [current state connection_new connection_state_new]. rewrite Hhello.
    change (0 =? packet_id Handshake) with true. cbn iota. unfold handle_handshake.
    rewrite (bind_ok _ _ (connection_new cfg) h (connection_new cfg))
      by (unfold map_err, lift; by rewrite Hdecode).
    by rewrite Hnext.
  - unfold handle. rewrite (bind_ok get_connection _ s1 s1 s1) by done. cbn [current state s1].
    by rewrite Hack.
Qed.

(** ** Witnesses *)

(** Libraries that meet the laws: zlib that stores, the digest of RFC 1321,
    compact JSON, a transport that never fails. *)
Definition stored_externals : Externals := {|
  inflate := stored_inflate;
  deflate := stored_deflate;
  md5 := rfc1321;
  json_to_string := fun j => Ok (print_json j);
  flush_error := fun _ => None;
|}.

#[local] Existing Instance stored_externals.

#[local] Instance stored_laws : ExternalsLaws.
Proof.
  refine {| zlib_round_trip := _; md5_length := rfc1321_length |}; try done. intros raw z [= ->]. reflexivity.
Defined.

(** The status document of the default configuration. *)
Definition default_status : list byte :=
  print_json (status_json (status_response_json_new (motd server_config_default) 20 0)).

Definition in_state (st : State) : Connection :=
  mkConnection codec_new bytes_mut_new bytes_mut_new [] (mkConnectionState st false)
    server_config_default.

Definition start_frame (n : list byte) (uuid : Z) : RawPacket :=
  mkRawPacket 0 (enc_packet (mkLoginStart n uuid)).

Definition success_payload : list byte :=
  enc_varint 0 ++ raw_payload (login_success (bytes_of "Notch")).

Lemma run_spec_witness :
  match run [Arrival_bytes [x01]; Arrival_bytes [x07]; Arrival_eof] (connection_new server_config_default) with
  | (r, s') => returns r /\ codec_inv (codec s') /\ reachable (state s')
      /\ config s' = server_config_default
  end.
Proof. apply run_spec. intros t [= <-]. reflexivity. Defined.

Lemma login_accepted_witness :
  exists s', handle (start_frame (bytes_of "Notch") 7) (in_state State_Login) = (Ok Flow_Continue, s')
    /\ wire s' = [] ++ enc_frame (raw_payload (mkSetCompression 256)) ++ enc_frame success_payload
    /\ compression_threshold (codec s') = Some 256
    /\ state s' = mkConnectionState State_Login false.
Proof.
  apply (login_accepted (in_state State_Login) (start_frame (bytes_of "Notch") 7)
    (mkLoginStart (bytes_of "Notch") 7) 256 success_payload); try reflexivity.
  split; [discriminate|reflexivity].
Defined.

Lemma login_ignores_client_uuid_witness :
  handle_login_start (start_frame (bytes_of "Notch") 7) (in_state State_Login)
  = handle_login_start (start_frame (bytes_of "Notch") 8) (in_state State_Login).
Proof.
  apply (login_ignores_client_uuid _ _ _ (mkLoginStart (bytes_of "Notch") 7)
    (mkLoginStart (bytes_of "Notch") 8)); reflexivity.
Defined.

Lemma invalid_username_refused_witness :
  exists s', handle (start_frame (bytes_of "has space") 7) (in_state State_Login)
      = (Err (NetError_InvalidUsername (bytes_of "has space")), s')
    /\ wire s' = [] ++ enc_frame (raw_payload (mkLoginDisconnect (print_json (text_component_json invalid_username_reason))))
    /\ kept (in_state State_Login) s'.
Proof.
  apply (invalid_username_refused (in_state State_Login) (start_frame (bytes_of "has space") 7)
    (mkLoginStart (bytes_of "has space") 7) (print_json (text_component_json invalid_username_reason))); try reflexivity.
  - discriminate.
  - vm_compute. discriminate.
Defined.

Lemma handshake_moves_witness :
  exists s', handle (mkRawPacket 0 (enc_handshake sample_handshake)) (in_state State_Handshaking)
      = (Ok Flow_Continue, s')
    /\ wire s' = [] /\ codec s' = codec_new /\ current (state s') = State_Status.
Proof.
  apply (handshake_moves (in_state State_Handshaking) (mkRawPacket 0 (enc_handshake sample_handshake)));
    reflexivity.
Defined.

Lemma status_request_once_witness :
  exists s', handle (mkRawPacket 0 []) (in_state State_Status) = (Ok Flow_Continue, s')
    /\ wire s' = [] ++ enc_frame (raw_payload (mkStatusResponse default_status))
    /\ state s' = mkConnectionState State_Status true
    /\ fst (handle (mkRawPacket 0 []) s') = Err NetError_DuplicateStatusRequest.
Proof.
  apply (status_request_once (in_state State_Status) (mkRawPacket 0 []) default_status
    (raw_payload (mkStatusResponse default_status))); try reflexivity.
  vm_compute. discriminate.
Defined.

Lemma acknowledged_without_login_witness :
  exists s1 s2,
    handle (mkRawPacket 0 (enc_handshake (mkHandshake 776 [] 25565 NextState_Login)))
      (connection_new server_config_default) = (Ok Flow_Continue, s1)
    /\ handle (mkRawPacket 3 [xaa]) s1 = (Ok Flow_Continue, s2)
    /\ current (state s2) = State_Configuration /\ wire s2 = [].
Proof.
  apply (acknowledged_without_login _ _ _ (mkHandshake 776 [] 25565 NextState_Login)); reflexivity.
Defined.
