(* ===== verification/Session.v ===== *)
(** * Whole conversations ([crates/net/src/connection.rs], [Connection::run]).

    What a connection does as a function of the bytes the peer sends, however
    the transport cuts them: an abstract loop over the whole stream, and the
    proof that [run] implements it. *)

From S2P Require Import Prelude Utf8 Buffers ProtocolError Varint Fields Packets Codec ConnState Offline Json JsonRead JsonParse Connection.
From stdpp Require Import base list numbers strings relations.
From Stdlib Require Import Strings.Byte.

Open Scope Z_scope.

(** ** Connections, up to what no peer and no later step can tell apart *)

(** The threshold in force, the bytes waiting to be flushed, the bytes sent,
    the protocol state and the configuration: not the scratch buffers, the
    reservations or what has been read. *)
Definition observe (s : Connection) :
    option Z * list byte * list byte * ConnectionState * ServerConfig :=
  (compression_threshold (codec s), contents (write_buffer s), wire s, state s, config s).

Definition same (s1 s2 : Connection) : Prop := observe s1 = observe s2.

#[export] Instance same_equivalence : Equivalence same.
Proof. unfold same. split; [intros s|intros s t|intros s t u]; congruence. Qed.

Infix "≈" := same (at level 70).

(** Two runs of a call that end alike. *)
Abbreviation alike := (prod_relation eq same) (only parsing).

(** A call that cannot tell such connections apart. *)
Abbreviation respects m := (Proper (same ==> alike) m) (only parsing).

Lemma same_fields s1 s2 :
  s1 ≈ s2 ->
  compression_threshold (codec s1) = compression_threshold (codec s2)
  /\ contents (write_buffer s1) = contents (write_buffer s2)
  /\ wire s1 = wire s2 /\ state s1 = state s2 /\ config s1 = config s2.
Proof. by intros [= -> -> -> -> ->]. Qed.

Ltac same_fields H :=
  let H1 := fresh "Hthreshold" in let H2 := fresh "Hqueued" in let H3 := fresh "Hwire" in
  let H4 := fresh "Hstate" in let H5 := fresh "Hconfig" in
  pose proof (same_fields _ _ H) as (H1 & H2 & H3 & H4 & H5).

Lemma same_with_read_buffer b s : with_read_buffer b s ≈ s.
Proof. done. Qed.

Create HintDb respects.

Section Respects.
Context {E : Type}.

Lemma respects_ret {A} (a : A) : respects (ret (E:=E) a).
Proof. intros s1 s2 Hs. by split. Qed.
Lemma respects_throw {A} (e : E) : respects (throw (A:=A) e).
Proof. intros s1 s2 Hs. by split. Qed.
Lemma respects_panic {A} : respects (panic (E:=E) (A:=A)).
Proof. intros s1 s2 Hs. by split. Qed.
Lemma respects_diverge {A} : respects (diverge (E:=E) (A:=A)).
Proof. intros s1 s2 Hs. by split. Qed.
Lemma respects_lift {A} (r : outcome E A) : respects (lift r).
Proof. intros s1 s2 Hs. by split. Qed.

Lemma respects_map_err {E' A} (f : E' -> E) (m : M Connection E' A) :
  respects m -> respects (map_err f m).
Proof.
  intros Hm s1 s2 Hs. destruct (Hm _ _ Hs) as [Hr Hs']. unfold map_err.
  destruct (m s1) as [r1 t1], (m s2) as [r2 t2]. cbn in *. subst. by destruct r2.
Qed.

Lemma respects_bind {A B} (m : M Connection E A) (k : A -> M Connection E B) :
  respects m -> (forall a, respects (k a)) -> respects (bind m k).
Proof.
  intros Hm Hk s1 s2 Hs. destruct (Hm _ _ Hs) as [Hr Hs']. unfold bind.
  destruct (m s1) as [r1 t1], (m s2) as [r2 t2]. cbn in *. subst. destruct r2; try done.
  by apply Hk.
Qed.
End Respects.

Lemma respects_get {A} (k : Connection -> M Connection NetError A) :
  (forall s1 s2, s1 ≈ s2 -> k s1 = k s2) -> (forall s, respects (k s)) ->
  respects (bind get_connection k).
Proof.
  intros Heq Hk s1 s2 Hs. rewrite !(bind_ok get_connection _ _ _ _ eq_refl), (Heq _ _ Hs). by apply Hk.
Qed.

Lemma respects_on_state {A} (m : M ConnectionState NetError A) : respects (on_state m).
Proof.
  intros s1 s2 Hs. same_fields Hs. unfold on_state, zoom. rewrite Hstate.
  destruct (m (state s2)) as [r st]. split; [done|]. unfold same, observe. cbn. congruence.
Qed.

Lemma respects_switch t : respects (switch_compression t).
Proof.
  intros s1 s2 Hs. same_fields Hs. split; [done|]. unfold same, observe. cbn. congruence.
Qed.

#[export] Hint Resolve respects_ret respects_throw respects_panic respects_diverge respects_lift
  respects_on_state respects_switch : respects.

(** ** Every handler treats them alike *)

Section HandlersRespect.
Context `{ExternalsLaws}.

Lemma respects_send {P} `{PacketLaws P} (item : P) : respects (send item).
Proof.
  intros s1 s2 Hs. same_fields Hs. unfold send, map_err, bind, zoom.
  pose proof (encode_eq deflate item (codec s1) (write_buffer s1)) as He1.
  pose proof (encode_eq deflate item (codec s2) (write_buffer s2)) as He2.
  cbv zeta in He1, He2. rewrite Hthreshold in He1. unfold same, observe.
  destruct (len (raw_payload item) >? MAX_PACKET_SIZE).
  { rewrite He1, He2. cbn. split; [done|]. cbn. congruence. }
  destruct (frame_payload _ _ _) as [payload|e| |].
  - destruct He1 as [z1 ->], He2 as [z2 ->]. unfold flush. cbn [fst snd wire write_buffer contents].
    rewrite Hwire, Hqueued. destruct (flush_error _); (split; [done|]); cbn; congruence.
  - rewrite He1, He2. split; [done|]. cbn. congruence.
  - exfalso. destruct (always_send item s1) as [Hr _]. unfold send, map_err, bind, zoom in Hr.
    by destruct (encode deflate item (codec s1, write_buffer s1)) as [[] ?].
  - exfalso. destruct (always_send item s1) as [Hr _]. unfold send, map_err, bind, zoom in Hr.
    by destruct (encode deflate item (codec s1, write_buffer s1)) as [[] ?].
Qed.

Hint Resolve respects_map_err : respects.
Hint Extern 1 (respects (send _)) => apply respects_send; apply _ : respects.

Ltac respect :=
  repeat match goal with
  | |- respects (bind get_connection _) => apply respects_get
  | |- respects (bind _ _) => apply respects_bind; [|intros ?]
  | |- respects (if ?c then _ else _) => destruct c
  | |- respects (match ?x with _ => _ end) => destruct x
  | |- respects _ => solve [eauto with respects typeclass_instances]
  | |- forall s1 s2, s1 ≈ s2 -> _ =>
      let Hs := fresh in let Hc := fresh in
      intros ? ? Hs; apply same_fields in Hs as (_ & _ & _ & Hs & Hc); rewrite ?Hs, ?Hc;
      reflexivity
  | |- forall s, respects _ => intros ?
  end.

Lemma respects_handle frame : respects (handle frame).
Proof.
  unfold handle, handle_handshake, handle_login_start, handle_login_acknowledged,
    handle_status_request, handle_ping. respect.
Qed.
End HandlersRespect.

#[export] Hint Resolve respects_handle : respects.

(** ** The stream a peer sends *)

(** The bytes that arrive, joined, and what ends them: [None] when nothing
    more is modelled. *)
Fixpoint stream (arrivals : list Arrival) : list byte * option Arrival :=
  match arrivals with
  | [] => ([], None)
  | Arrival_bytes bs :: rest => let (l, e) := stream rest in (bs ++ l, e)
  | e :: _ => ([], Some e)
  end.

(** ** The abstract loop *)

Section Conversation.
Context `{Externals}.

(** What is left is no frame, and the stream has ended. *)
Definition at_end (e : option Arrival) (l : list byte) : M Connection NetError bool :=
  match e with
  | None | Some (Arrival_bytes _) => ret false
  | Some Arrival_eof =>
      if len l =? 0 then ret true
      else throw (NetError_Protocol (ProtocolError_Io bytes_remaining))
  | Some (Arrival_error reason) => throw (NetError_Protocol (ProtocolError_Io reason))
  | Some Arrival_timeout => throw NetError_Timeout
  end.

(** The frames of the whole stream [l], each opened in the format in force when
    it is reached, and handled. *)
Fixpoint converse (fuel : nat) (l : list byte) (e : option Arrival) :
    M Connection NetError bool :=
  match fuel with
  | O => diverge
  | S fuel => fun s =>
    match front l with
    | Front_error reason => (Err (NetError_Protocol reason), s)
    | Front_partial _ => at_end e l s
    | Front_frame frame rest =>
      match open_frame inflate (codec s) frame with
      | Ok packet =>
        (let! flow := handle packet in
         match flow with
         | Flow_Close => ret true
         | Flow_Continue => converse fuel rest e
         end) s
      | Err reason => (Err (NetError_Protocol reason), s)
      | Panic | Diverge => (Panic, s)
      end
    end
  end.

(** Every frame takes at least one byte, so the length of [l] is fuel enough. *)
Definition conversation (l : list byte) (e : option Arrival) : M Connection NetError bool :=
  converse (S (length l)) l e.
End Conversation.

(** ** The read loop implements it *)

Lemma open_frame_same `{Externals} c1 c2 frame :
  compression_threshold c1 = compression_threshold c2 ->
  open_frame inflate c1 frame = open_frame inflate c2 frame.
Proof. unfold open_frame. by intros ->. Qed.

Section Refinement.
Context `{ExternalsLaws}.

(** What the next call of [next] yields, given the rest of the stream. *)
Lemma next_frame_stream arrivals : forall s l e,
  stream arrivals = (l, e) ->
  match next_frame arrivals s with
  | (next, arrivals', s') =>
    match front (contents (read_buffer s) ++ l) with
    | Front_error reason => next = Next_error (reason)
    | Front_partial _ =>
        next = match e with
               | None | Some (Arrival_bytes _) => Next_waiting
               | Some Arrival_eof =>
                   if len (contents (read_buffer s) ++ l) =? 0 then Next_closed
                   else Next_error (ProtocolError_Io bytes_remaining)
               | Some (Arrival_error reason) => Next_error (ProtocolError_Io reason)
               | Some Arrival_timeout => Next_timeout
               end
    | Front_frame frame rest =>
      match open_frame inflate (codec s) frame with
      | Ok packet => next = Next_frame packet
          /\ exists l', stream arrivals' = (l', e) /\ contents (read_buffer s') ++ l' = rest
      | Err reason => next = Next_error reason
      | Panic | Diverge => next = Next_panic
      end
    end
  end.
Proof.
  induction arrivals as [|a arrivals IH]; intros s l e Hl; cbn [next_frame];
    rewrite decode_front; pose proof (front_app (contents (read_buffer s)) l) as Hf;
    destruct (front (contents (read_buffer s))) as [reason|missing|frame rest] eqn:Ef;
    try (by rewrite Hf);
    try (rewrite Hf; destruct (open_frame _ _ _) as [p|pe| |]; try done;
         split; [done|]; exists l; split; done).
  - injection Hl as <- <-. by rewrite app_nil_r, Ef.
  - set (buffer := if missing =? 0 then _ else _).
    assert (contents buffer = contents (read_buffer s)) as Hb
      by (subst buffer; by destruct (missing =? 0)).
    destruct a as [bs| |reason|]; cbn [stream] in Hl; cycle 1.
    1-3: injection Hl as <- <-; rewrite app_nil_r, Ef, ?Hb; done.
    destruct (stream arrivals) as [l' e'] eqn:Es. injection Hl as <- <-.
    specialize (IH (with_read_buffer (mkBytesMut (contents buffer ++ bs) (reserves buffer)) s)
      l' e' eq_refl).
    cbn [read_buffer with_read_buffer contents codec] in IH. rewrite Hb, <- app_assoc in IH.
    rewrite Hb. exact IH.
Qed.

Lemma run_loop_converse n : forall m arrivals s1 s2 l e,
  s1 ≈ s2 -> stream arrivals = (l, e) -> (pending arrivals s1 < n)%nat ->
  (length (contents (read_buffer s1) ++ l) < m)%nat ->
  alike (run_loop n arrivals s1) (converse m (contents (read_buffer s1) ++ l) e s2).
Proof.
  induction n as [|n IH]; intros m arrivals s1 s2 l e Hs Hl Hn Hm; [lia|]. destruct m as [|m]; [lia|].
  cbn [run_loop converse]. pose proof (next_frame_spec arrivals s1) as Hspec.
  pose proof (next_frame_stream arrivals s1 l e Hl) as Hnext.
  destruct (next_frame arrivals s1) as [[next arrivals'] s1']. destruct Hspec as ([b ->] & _ & Hdec).
  assert (with_read_buffer b s1 ≈ s2) as Hb by done.
  same_fields Hs.
  destruct (front (contents (read_buffer s1) ++ l)) as [reason|missing|frame rest] eqn:Ef.
  - by subst next.
  - subst next. destruct e as [[bs| |reason|]|]; try done. unfold at_end. by case_match.
  - rewrite (open_frame_same (codec s1) (codec s2)) in Hnext by done.
    destruct (open_frame inflate (codec s2) frame) as [packet|reason| |]; try by subst next.
    destruct Hnext as [-> (l' & Hl' & <-)]. specialize (Hdec packet eq_refl).
    destruct (respects_handle packet _ _ Hb) as [Hr Hsame].
    pose proof (always_handle packet (with_read_buffer b s1)) as [_ He]. unfold bind.
    destruct (handle packet (with_read_buffer b s1)) as [r1 t1], (handle packet s2) as [r2 t2].
    cbn [fst snd] in *. subst r2. destruct r1 as [[]|r| |]; try done.
    pose proof (evolves_read _ _ He) as Hread. pose proof (front_frame_shorter _ _ _ Ef).
    assert (pending arrivals' t1 = pending arrivals' (with_read_buffer b s1)) as Hpend
      by (unfold pending; by rewrite Hread).
    rewrite <- Hread in *. apply IH; [done|done|lia..].
Qed.

Lemma run_alike arrivals s l e :
  stream arrivals = (l, e) ->
  alike (run arrivals s) (conversation (contents (read_buffer s) ++ l) e s).
Proof. intros Hl. apply run_loop_converse; [done|done|lia..]. Qed.

Lemma run_conversation cfg arrivals l e r s' :
  stream arrivals = (l, e) -> conversation l e (connection_new cfg) = (r, s') ->
  exists s1, run arrivals (connection_new cfg) = (r, s1) /\ s1 ≈ s'.
Proof.
  intros Hl Hc. destruct (run_alike arrivals (connection_new cfg) l e Hl) as [Hr Hs].
  cbn [contents read_buffer connection_new bytes_mut_new app] in Hr, Hs. rewrite Hc in Hr, Hs.
  destruct (run arrivals _) as [r1 s1]. cbn [fst snd] in *. subst r1. by exists s1.
Qed.

Lemma converse_fuel n : forall m l e s,
  (length l < n)%nat -> (length l < m)%nat -> converse n l e s = converse m l e s.
Proof.
  induction n as [|n IH]; intros m l e s Hn Hm; [lia|]. destruct m as [|m]; [lia|]. cbn [converse].
  destruct (front l) as [reason|missing|frame rest] eqn:Ef; try done.
  pose proof (front_frame_shorter _ _ _ Ef). destruct (open_frame _ _ _) as [packet|reason| |]; try done.
  unfold bind. destruct (handle packet s) as [[[]|r| |] s']; try done. apply IH; lia.
Qed.

(** A conversation that starts with a frame is its handler and the rest. *)
Lemma conversation_frame {P} `{PacketLaws P} (item : P) payload rest e s :
  codec_inv (codec s) -> len (raw_payload item) <= MAX_PACKET_SIZE ->
  frame_payload deflate (compression_threshold (codec s)) (raw_payload item) = Ok payload ->
  len payload <= MAX_PACKET_SIZE ->
  conversation (enc_frame payload ++ rest) e s
  = (let! flow := handle (mkRawPacket (packet_id P) (enc_packet item)) in
     match flow with Flow_Close => ret true | Flow_Continue => conversation rest e end) s.
Proof.
  intros Hinv Hraw Hpayload Hlen. unfold conversation at 1. cbn [converse].
  pose proof (front_enc_frame payload rest Hlen) as Hf. rewrite Hf.
  rewrite (open_frame_payload _ _ _ item _ zlib_round_trip) by done.
  unfold bind. destruct (handle _ s) as [[[]|r| |] s']; try done.
  pose proof (front_frame_shorter _ _ _ Hf). apply converse_fuel; lia.
Qed.

(** The same, when the handler is known. *)
Lemma conversation_step {P} `{PacketLaws P} (item : P) payload rest e s flow s' :
  codec_inv (codec s) -> len (raw_payload item) <= MAX_PACKET_SIZE ->
  frame_payload deflate (compression_threshold (codec s)) (raw_payload item) = Ok payload ->
  len payload <= MAX_PACKET_SIZE ->
  handle (mkRawPacket (packet_id P) (enc_packet item)) s = (Ok flow, s') ->
  conversation (enc_frame payload ++ rest) e s
  = match flow with Flow_Close => (Ok true, s') | Flow_Continue => conversation rest e s' end.
Proof.
  intros. rewrite (conversation_frame item) by done. unfold bind.
  match goal with H : handle _ _ = _ |- _ => rewrite H end. by destruct flow.
Qed.
End Refinement.

(** ** The packets of the two exchanges *)

Lemma small_payload {P} `{PacketLaws P} (item : P) :
  len (enc_packet item) <= 4096 -> len (raw_payload item) <= MAX_PACKET_SIZE.
Proof.
  intros Hl. unfold raw_payload, MAX_PACKET_SIZE. rewrite len_app.
  pose proof (len_enc_varint_bound (packet_id P)). lia.
Qed.

Lemma pstring_size max s : string_ok max s = true -> len (enc_pstring s) <= 5 + 3 * max.
Proof.
  unfold string_ok, enc_pstring, MAX_BYTES_PER_CHAR. rewrite len_app. intros [_ Hl]%andb_prop.
  pose proof (len_enc_varint_bound (sign 32 (len s))). lia.
Qed.

Lemma handshake_size (h : Handshake) : packet_ok h = true -> len (raw_payload h) <= MAX_PACKET_SIZE.
Proof.
  intros Hok. apply small_payload. cbn [packet_ok enc_packet Handshake_laws] in *.
  unfold handshake_ok, MAX_SERVER_ADDRESS_CHARS in Hok.
  apply andb_prop in Hok as [[_ Hs]%andb_prop _]. apply pstring_size in Hs.
  unfold enc_handshake. rewrite !len_app, len_be_bytes.
  pose proof (len_enc_varint_bound (protocol_version h)).
  pose proof (len_enc_varint_bound (next_state_i32 (next_state h))). lia.
Qed.

Lemma login_start_size (p : LoginStart) : packet_ok p = true -> len (raw_payload p) <= MAX_PACKET_SIZE.
Proof.
  intros Hok. apply small_payload. cbn [packet_ok enc_packet LoginStart_laws] in *.
  apply andb_prop in Hok as [Hs%pstring_size _].
  unfold Packets.MAX_USERNAME_CHARS in Hs. rewrite len_app, len_be_bytes. lia.
Qed.

(** Where a handshake leads. *)
Definition requested (next : NextState) : State :=
  match next with NextState_Status => State_Status | _ => State_Login end.

Definition with_state (st : State) (s : Connection) : Connection :=
  mkConnection (codec s) (read_buffer s) (write_buffer s) (wire s)
    (mkConnectionState st (status_request_seen (state s))) (config s).

Lemma handshake_moves_to `{Externals} (s : Connection) (h : Handshake) :
  packet_ok h = true -> current (state s) = State_Handshaking ->
  handle (mkRawPacket (packet_id Handshake) (enc_packet h)) s
  = (Ok Flow_Continue, with_state (requested (next_state h)) s).
Proof.
  intros Hok Hst. unfold handle. rewrite (bind_ok get_connection _ s s s) by done. rewrite Hst. cbn [id].
  rewrite Z.eqb_refl. unfold handle_handshake. rewrite (decode_as_enc h _ Hok).
  rewrite (bind_ok (map_err NetError_Protocol (lift (Ok h))) _ s h s) by done.
  by destruct (next_state h); unfold bind, on_state, zoom, transition; rewrite Hst.
Qed.

Lemma acknowledged_moves `{Externals} (s : Connection) body :
  current (state s) = State_Login ->
  handle (mkRawPacket (packet_id LoginAcknowledged) body) s
  = (Ok Flow_Continue, with_state State_Configuration s).
Proof.
  intros Hst. unfold handle. rewrite (bind_ok get_connection _ s s s) by done. rewrite Hst. cbn [id].
  change (packet_id LoginAcknowledged =? packet_id LoginStart) with false. rewrite Z.eqb_refl.
  unfold handle_login_acknowledged, bind, on_state, zoom, transition. by rewrite Hst.
Qed.

(** What a client sends to list the server, and to log in. *)
Definition status_bytes (h : Handshake) (n : Z) : list byte :=
  enc_frame (raw_payload h) ++ enc_frame (raw_payload mkStatusRequest)
  ++ enc_frame (raw_payload (mkPingRequest n)).

Definition login_bytes (h : Handshake) (start : LoginStart) (acknowledgement : list byte) : list byte :=
  enc_frame (raw_payload h) ++ enc_frame (raw_payload start) ++ enc_frame acknowledgement.

(** ** The client's side *)

(** A codec in the format [threshold] finds [item], and nothing else, at the
    front of [l]; [rest] is left. *)
Definition reads `{Externals} {P} `{Packet P} (threshold : option Z) (l : list byte) (item : P)
    (rest : list byte) : Prop :=
  exists frame buffer,
    decode inflate (mkPacketCodec [] threshold []) (mkBytesMut l []) = (Ok (Some frame), buffer)
    /\ id frame = packet_id P /\ decode_as P frame = Ok item /\ contents buffer = rest.

Lemma reads_frame `{ExternalsLaws} {P} `{PacketLaws P} threshold (item : P) payload rest :
  codec_inv (mkPacketCodec [] threshold []) -> packet_ok item = true ->
  len (raw_payload item) <= MAX_PACKET_SIZE -> len payload <= MAX_PACKET_SIZE ->
  frame_payload deflate threshold (raw_payload item) = Ok payload ->
  reads threshold (enc_frame payload ++ rest) item rest.
Proof.
  intros Hinv Hok Hraw Hlen Hp. unfold reads. rewrite decode_front. cbn [contents].
  rewrite front_enc_frame by done. rewrite (open_frame_payload _ _ _ item _ zlib_round_trip) by done.
  do 2 eexists. split_and!; [done|done|by apply decode_as_enc|done].
Qed.

Lemma login_success_ok `{ExternalsLaws} n :
  string_ok Packets.MAX_USERNAME_CHARS n = true -> packet_ok (login_success n) = true.
Proof.
  intros Hn. cbn [packet_ok LoginSuccess_laws profile session_id login_success].
  unfold profile_ok. cbn [profile_uuid username properties].
  by rewrite offline_uuid_unsigned, Hn by apply md5_length.
Qed.

Lemma login_start_name (p : LoginStart) :
  packet_ok p = true -> string_ok Packets.MAX_USERNAME_CHARS (name p) = true.
Proof. cbn [packet_ok LoginStart_laws]. by intros [? _]%andb_prop. Qed.

Lemma name_size n : string_ok Packets.MAX_USERNAME_CHARS n = true -> len n <= 48.
Proof.
  unfold string_ok, Packets.MAX_USERNAME_CHARS, MAX_BYTES_PER_CHAR. intros [_ Hl]%andb_prop. lia.
Qed.

(** ** Properties *)

(** C3: [run] implements the abstract conversation: how it ends, what it sends, the
    protocol state and the compression in force are those of a loop that takes
    the frames off the whole stream of bytes one after the other, each opened in
    the format in force when it is reached.  How the transport cut the stream
    into reads, and what was buffered before, make no difference. *)
Theorem run_refines_conversation `{ExternalsLaws} (arrivals : list Arrival) (s : Connection) :
  let (l, e) := stream arrivals in
  let expected := conversation (contents (read_buffer s) ++ l) e s in
  fst (run arrivals s) = fst expected /\ observe (snd (run arrivals s)) = observe (snd expected).
Proof.
  destruct (stream arrivals) as [l e] eqn:Hl. by apply run_alike.
Qed.

(** C5: The server list ping, end to end: a client that shakes hands for status,
    asks for the status and pings gets the configured status document and its
    own ping payload, in that order and uncompressed, and reads them with the same
    codec; the document it parses is the one the configuration describes; the
    connection closes cleanly, however the client's bytes arrive and whatever
    follows them. *)
Theorem status_session `{ExternalsLaws} (cfg : ServerConfig) (h : Handshake) (n : Z)
    (json rest : list byte) (arrivals : list Arrival) (e : option Arrival)
    (Hok : packet_ok h = true) (Hnext : next_state h = NextState_Status)
    (Hn : in_signed 64 n = true)
    (Hjson : status_to_string (status_response_json_new (motd cfg) (max_players cfg) 0) = Ok json)
    (Hsize : len (raw_payload (mkStatusResponse json)) <= MAX_PACKET_SIZE)
    (Hflush : forall bs, flush_error bs = None)
    (Harrivals : stream arrivals = (status_bytes h n ++ rest, e)) :
  exists s', run arrivals (connection_new cfg) = (Ok true, s')
    /\ wire s' = enc_frame (raw_payload (mkStatusResponse json))
                 ++ enc_frame (raw_payload (mkPongResponse n))
    /\ (packet_ok (mkStatusResponse json) = true ->
        reads None (wire s') (mkStatusResponse json) (enc_frame (raw_payload (mkPongResponse n))))
    /\ reads None (enc_frame (raw_payload (mkPongResponse n))) (mkPongResponse n) []
    /\ (forall parse, reads_what_it_prints json_to_string parse ->
        status_ok (status_response_json_new (motd cfg) (max_players cfg) 0) = true ->
        (component_depth (motd cfg) <= 63)%nat ->
        from_str parse json = Some (status_response_json_new (motd cfg) (max_players cfg) 0)).
Proof.
  set (s0 := connection_new cfg).
  assert (exists s', conversation (status_bytes h n ++ rest) e s0 = (Ok true, s')
    /\ wire s' = enc_frame (raw_payload (mkStatusResponse json))
                 ++ enc_frame (raw_payload (mkPongResponse n))) as (s' & Hc & Hw).
  { pose proof (handshake_size h Hok) as Hh. unfold status_bytes. rewrite <- !app_assoc.
    rewrite (conversation_step h _ _ e s0 _ _ I Hh eq_refl Hh (handshake_moves_to s0 h Hok eq_refl)).
    rewrite Hnext. set (s1 := with_state (requested NextState_Status) s0).
    destruct (status_request_sends s1 json (raw_payload (mkStatusResponse json)))
      as (s2 & Hs2 & Hw2 & Hst2 & Hq2 & Ht2); try done.
    assert (codec_inv (codec s2)) as Hinv2 by (unfold codec_inv; by rewrite Ht2).
    assert (compression_threshold (codec s2) = None) as Ht by done.
    rewrite (conversation_step mkStatusRequest _ _ e s1 Flow_Continue s2); try done.
    assert (len (raw_payload (mkPingRequest n)) <= MAX_PACKET_SIZE) as Hping.
    { apply small_payload. cbn [enc_packet PingRequest_laws]. rewrite len_be_bytes. lia. }
    destruct (ping_sends s2 (mkRawPacket (packet_id PingRequest) (enc_packet (mkPingRequest n)))
      (mkPingRequest n) (raw_payload (mkPongResponse n))) as (s3 & Hs3 & Hw3 & _); try done.
    - by rewrite Hst2.
    - by apply decode_as_enc.
    - by rewrite Ht.
    - rewrite (conversation_step (mkPingRequest n) _ _ e s2 Flow_Close s3); try done; [|by rewrite Ht].
      exists s3. by rewrite Hw3, Hw2. }
  destruct (run_conversation cfg arrivals _ e (Ok true) s' Harrivals Hc) as (s1 & Hr & Hs).
  exists s1. same_fields Hs. assert (len (raw_payload (mkPongResponse n)) <= MAX_PACKET_SIZE) as Hpong.
  { apply small_payload. cbn [enc_packet PongResponse_laws]. rewrite len_be_bytes. lia. }
  split_and!; [exact Hr|by rewrite Hwire| | |].
  - intros Hj. rewrite Hwire, Hw. by apply reads_frame.
  - rewrite <- (app_nil_r (enc_frame _)). by apply reads_frame.
  - intros parse Hparse Hdoc Hdepth. by eapply status_reads_back.
Qed.

(** C4: A login, end to end: a client that shakes hands for login (or was
    transferred), gives a valid name and acknowledges in the compressed format
    gets Set Compression in the plain format and Login Success, with the identity
    its name determines, in the compressed one, and reads both by switching where
    the server did; the connection is then in the
    configuration state, and a hang-up there ends it cleanly.  The client may
    send everything at once: what it sends after Login Start is read in the new
    format, however the bytes were cut. *)
Theorem login_session `{ExternalsLaws} (cfg : ServerConfig) (h : Handshake) (start : LoginStart)
    (t : Z) (acknowledgement success : list byte) (arrivals : list Arrival)
    (Hok : packet_ok h = true) (Hnext : next_state h <> NextState_Status)
    (Hstart : packet_ok start = true) (Hname : validate_username (name start) = Ok tt)
    (Hconfig : config_threshold cfg = Some t) (Ht : 0 <= t < 2 ^ 31)
    (Hack : frame_payload deflate (Some t) (raw_payload mkLoginAcknowledged) = Ok acknowledgement)
    (Hacksize : len acknowledgement <= MAX_PACKET_SIZE)
    (Hsuccess : frame_payload deflate (Some t) (raw_payload (login_success (name start))) = Ok success)
    (Hsuccesssize : len success <= MAX_PACKET_SIZE) (Hflush : forall bs, flush_error bs = None)
    (Harrivals : stream arrivals = (login_bytes h start acknowledgement, Some Arrival_eof)) :
  exists s', run arrivals (connection_new cfg) = (Ok true, s')
    /\ wire s' = enc_frame (raw_payload (mkSetCompression t)) ++ enc_frame success
    /\ current (state s') = State_Configuration
    /\ compression_threshold (codec s') = Some t
    /\ reads None (wire s') (mkSetCompression t) (enc_frame success)
    /\ reads (Some t) (enc_frame success) (login_success (name start)) [].
Proof.
  set (s0 := connection_new cfg).
  assert (exists s', conversation (login_bytes h start acknowledgement) (Some Arrival_eof) s0
      = (Ok true, s')
    /\ wire s' = enc_frame (raw_payload (mkSetCompression t)) ++ enc_frame success
    /\ current (state s') = State_Configuration
    /\ compression_threshold (codec s') = Some t) as (s' & Hc & Hw & Hst & Hth).
  { pose proof (handshake_size h Hok) as Hh. pose proof (login_start_size start Hstart) as Hl.
    unfold login_bytes.
    rewrite (conversation_step h _ _ _ s0 _ _ I Hh eq_refl Hh (handshake_moves_to s0 h Hok eq_refl)).
    set (s1 := with_state (requested (next_state h)) s0).
    assert (current (state s1) = State_Login) as Hs1 by (cbn; by destruct (next_state h)).
    destruct (login_start_sends s1 (mkRawPacket (packet_id LoginStart) (enc_packet start)) start t
      (raw_payload (mkSetCompression t)) success) as (s2 & Hs2 & Hw2 & Ht2 & _ & Hst2 & _); try done.
    { by apply decode_as_enc. }
    rewrite (conversation_step start _ _ _ s1 _ s2 I Hl eq_refl Hl Hs2).
    rewrite <- (app_nil_r (enc_frame acknowledgement)).
    rewrite (conversation_step mkLoginAcknowledged _ _ _ s2 Flow_Continue
      (with_state State_Configuration s2)); cycle 1.
    - unfold codec_inv. by rewrite Ht2.
    - done.
    - by rewrite Ht2.
    - done.
    - apply acknowledged_moves. by rewrite Hst2.
    - exists (with_state State_Configuration s2). split_and!; [done|by cbn [wire with_state]; rewrite Hw2|done|done]. }
  destruct (run_conversation cfg arrivals _ _ (Ok true) s' Harrivals Hc) as (s1 & Hr & Hs).
  exists s1. same_fields Hs.
  split_and!; [exact Hr|by rewrite Hwire|by rewrite Hstate|by rewrite Hthreshold| |].
  - rewrite Hwire, Hw. apply reads_frame; [done|apply in_signed32_small; cbn [threshold]; lia| | |done];
      apply set_compression_size.
  - rewrite <- (app_nil_r (enc_frame success)). pose proof (login_start_name start Hstart) as Hn.
    apply reads_frame; [done|by apply login_success_ok| |done|done].
    by apply login_success_size, name_size.
Qed.

(** C7: A refused login, end to end: a client that shakes hands for login and
    gives a name outside the permitted set is sent one Login Disconnect, which it
    reads with the plain codec, and nothing more; the connection ends with
    [InvalidUsername], still in the login state and uncompressed, whatever else
    the client has sent and however its bytes arrive. *)
Theorem refused_login_session `{ExternalsLaws} (cfg : ServerConfig) (h : Handshake) (start : LoginStart)
    (json rest : list byte) (arrivals : list Arrival) (e : option Arrival)
    (Hok : packet_ok h = true) (Hnext : next_state h <> NextState_Status)
    (Hstart : packet_ok start = true) (Hname : validate_username (name start) <> Ok tt)
    (Hjson : text_to_string invalid_username_reason = Ok json)
    (Hreason : packet_ok (mkLoginDisconnect json) = true)
    (Hsize : len (raw_payload (mkLoginDisconnect json)) <= MAX_PACKET_SIZE)
    (Hflush : forall bs, flush_error bs = None)
    (Harrivals : stream arrivals
      = (enc_frame (raw_payload h) ++ enc_frame (raw_payload start) ++ rest, e)) :
  exists s', run arrivals (connection_new cfg) = (Err (NetError_InvalidUsername (name start)), s')
    /\ wire s' = enc_frame (raw_payload (mkLoginDisconnect json))
    /\ current (state s') = State_Login
    /\ compression_threshold (codec s') = None
    /\ reads None (wire s') (mkLoginDisconnect json) [].
Proof.
  set (s0 := connection_new cfg).
  pose proof (handshake_size h Hok) as Hh. pose proof (login_start_size start Hstart) as Hl.
  set (s1 := with_state (requested (next_state h)) s0).
  assert (current (state s1) = State_Login) as Hs1 by (cbn; by destruct (next_state h)).
  destruct (invalid_username_sends s1 (mkRawPacket (packet_id LoginStart) (enc_packet start)) start
    json (raw_payload (mkLoginDisconnect json))) as (s2 & Hs2 & Hw2 & Ht2 & _ & Hst2 & _); try done.
  { by apply decode_as_enc. }
  destruct (run_conversation cfg arrivals _ e (Err (NetError_InvalidUsername (name start))) s2 Harrivals)
    as (s3 & Hr & Hs).
  - rewrite (conversation_step h _ _ _ s0 _ _ I Hh eq_refl Hh (handshake_moves_to s0 h Hok eq_refl)).
    rewrite (conversation_frame start _ _ _ s1 I Hl eq_refl Hl). by rewrite (bind_err _ _ _ _ _ Hs2).
  - exists s3. same_fields Hs.
    assert (wire s3 = enc_frame (raw_payload (mkLoginDisconnect json))) as Hw by (by rewrite Hwire, Hw2).
    split_and!; [done|done|by rewrite Hstate, Hst2|by rewrite Hthreshold, Ht2|].
    rewrite Hw, <- (app_nil_r (enc_frame _)). by apply reads_frame.
Qed.

(** Two deliveries of the same stream are served alike. *)
Theorem run_chunking_independent `{ExternalsLaws} (cfg : ServerConfig) (first second : list Arrival)
    (Hstream : stream first = stream second) :
  fst (run first (connection_new cfg)) = fst (run second (connection_new cfg))
  /\ observe (snd (run first (connection_new cfg))) = observe (snd (run second (connection_new cfg))).
Proof.
  destruct (stream second) as [l e] eqn:H2.
  destruct (run_alike first (connection_new cfg) l e Hstream) as [Hr1 Hs1].
  destruct (run_alike second (connection_new cfg) l e H2) as [Hr2 Hs2].
  unfold same in *. split; congruence.
Qed.

(** ** Witnesses *)

#[local] Existing Instance stored_externals.
#[local] Existing Instance stored_laws.

(** A status ping cut after every byte, and a login sent in one piece. *)
Definition byte_by_byte (l : list byte) : list Arrival := map (fun b => Arrival_bytes [b]) l.

Definition login_handshake : Handshake := mkHandshake 776 (bytes_of "localhost") 25565 NextState_Login.
Definition login_start : LoginStart := mkLoginStart (bytes_of "Notch") 7.

Lemma status_session_witness :
  exists s', run (byte_by_byte (status_bytes sample_handshake (-2))) (connection_new server_config_default)
      = (Ok true, s')
    /\ wire s' = enc_frame (raw_payload (mkStatusResponse default_status))
                 ++ enc_frame (raw_payload (mkPongResponse (-2)))
    /\ (packet_ok (mkStatusResponse default_status) = true ->
        reads None (wire s') (mkStatusResponse default_status)
          (enc_frame (raw_payload (mkPongResponse (-2)))))
    /\ reads None (enc_frame (raw_payload (mkPongResponse (-2)))) (mkPongResponse (-2)) []
    /\ from_str parse_json default_status
       = Some (status_response_json_new (motd server_config_default) 20 0).
Proof.
  destruct (status_session server_config_default sample_handshake (-2) default_status []
    (byte_by_byte (status_bytes sample_handshake (-2))) None) as (s' & H1 & H2 & H3 & H4 & H5);
    try reflexivity; [vm_compute; discriminate|].
  exists s'. split_and!; [exact H1|exact H2|exact H3|exact H4|].
  apply H5; [exact print_reads_back|reflexivity|vm_compute; lia].
Defined.

Lemma login_session_witness :
  exists s', run [Arrival_bytes (login_bytes login_handshake login_start [x00; x03]); Arrival_eof]
      (connection_new server_config_default) = (Ok true, s')
    /\ wire s' = enc_frame (raw_payload (mkSetCompression 256)) ++ enc_frame success_payload
    /\ current (state s') = State_Configuration
    /\ compression_threshold (codec s') = Some 256
    /\ reads None (wire s') (mkSetCompression 256) (enc_frame success_payload)
    /\ reads (Some 256) (enc_frame success_payload) (login_success (bytes_of "Notch")) [].
Proof.
  apply (login_session server_config_default login_handshake login_start 256 [x00; x03] success_payload
    [Arrival_bytes (login_bytes login_handshake login_start [x00; x03]); Arrival_eof]);
    try reflexivity; try discriminate.
  split; [discriminate|reflexivity].
Defined.

(** A name with a space, sent with its handshake, byte by byte. *)
Definition spaced_start : LoginStart := mkLoginStart (bytes_of "has space") 7.
Definition refusal : LoginDisconnect :=
  mkLoginDisconnect (print_json (text_component_json invalid_username_reason)).

Lemma refused_login_session_witness :
  exists s', run (byte_by_byte (enc_frame (raw_payload login_handshake)
      ++ enc_frame (raw_payload spaced_start) ++ [x01; xff])) (connection_new server_config_default)
      = (Err (NetError_InvalidUsername (bytes_of "has space")), s')
    /\ wire s' = enc_frame (raw_payload refusal)
    /\ current (state s') = State_Login
    /\ compression_threshold (codec s') = None
    /\ reads None (wire s') refusal [].
Proof.
  apply (refused_login_session server_config_default login_handshake spaced_start
    (reason refusal) [x01; xff] (byte_by_byte (enc_frame (raw_payload login_handshake)
      ++ enc_frame (raw_payload spaced_start) ++ [x01; xff])) None);
    try reflexivity; vm_compute; discriminate.
Defined.

Lemma run_chunking_independent_witness :
  fst (run [Arrival_bytes [x01; x07]; Arrival_eof] (connection_new server_config_default))
  = fst (run [Arrival_bytes [x01]; Arrival_bytes [x07]; Arrival_eof] (connection_new server_config_default))
  /\ observe (snd (run [Arrival_bytes [x01; x07]; Arrival_eof] (connection_new server_config_default)))
  = observe (snd (run [Arrival_bytes [x01]; Arrival_bytes [x07]; Arrival_eof] (connection_new server_config_default))).
Proof.
  apply (run_chunking_independent server_config_default [Arrival_bytes [x01; x07]; Arrival_eof]
    [Arrival_bytes [x01]; Arrival_bytes [x07]; Arrival_eof]). reflexivity.
Defined.

Lemma run_refines_conversation_witness :
  let expected := conversation ([x01] ++ [x07]) (Some Arrival_eof) (connection_new server_config_default) in
  fst (run [Arrival_bytes [x01]; Arrival_bytes [x07]; Arrival_eof] (connection_new server_config_default))
    = fst expected
  /\ observe (snd (run [Arrival_bytes [x01]; Arrival_bytes [x07]; Arrival_eof]
       (connection_new server_config_default))) = observe (snd expected).
Proof.
  exact (run_refines_conversation [Arrival_bytes [x01]; Arrival_bytes [x07]; Arrival_eof]
    (connection_new server_config_default)).
Defined.
