(* ===== verification/Lifetime.v ===== *)
(** * How long a connection can last ([crates/net/src/connection.rs], [Connection::run]).

    Every packet is given the read timeout anew, so what bounds a connection is
    the number of packets it may exchange.  A connection that listed the server
    or that is past its login has a bound; one that is logging in has none. *)

From S2P Require Import Prelude Utf8 Buffers ProtocolError Varint Fields Packets Codec ConnState Offline Connection Session.
From stdpp Require Import base list numbers strings relations.
From Stdlib Require Import Strings.Byte.

Open Scope Z_scope.

(** ** Rounds of the loop *)

(** The packets a connection can still have handled, the one that ends it
    included; [None] when there is no bound. *)
Definition rounds (st : ConnectionState) : option nat :=
  match current st with
  | State_Handshaking | State_Login => None
  | State_Status => Some (if status_request_seen st then 1 else 2)%nat
  | State_Configuration | State_Play => Some 1%nat
  end.

Section Rounds.
Context `{ExternalsLaws}.

(** A packet that does not end such a connection uses up a round. *)
Lemma handle_rounds s frame s' n :
  handle frame s = (Ok Flow_Continue, s') -> rounds (state s) = Some n ->
  exists m, n = S m /\ rounds (state s') = Some m.
Proof.
  unfold handle. rewrite (bind_ok get_connection _ s s s) by done. unfold rounds.
  destruct (current (state s)) eqn:Est; try done; [|by unfold throw..].
  destruct (id frame =? packet_id StatusRequest); [|destruct (id frame =? packet_id PingRequest); [|done]].
  - unfold handle_status_request. unfold bind at 1, on_state, zoom, mark_status_request_seen.
    destruct (status_request_seen (state s)); [done|]. intros Hs [= <-]. exists 1%nat. split; [done|].
    set (s1 := mkConnection _ _ _ _ _ _) in Hs.
    rewrite (bind_ok get_connection _ s1 s1 s1) in Hs by done. cbv zeta in Hs.
    unfold bind at 1, map_err, lift in Hs.
    destruct (status_to_string _) as [json|e| |]; try done.
    pose proof (send_cases (mkStatusResponse json) s1) as Hc. unfold bind in Hs.
    destruct (send (mkStatusResponse json) s1) as [[[]|e| |] s2]; try done. injection Hs as <-.
    destruct Hc as (payload & _ & _ & _ & _ & _ & _ & Hst & _). rewrite Hst. cbn. by rewrite Est.
  - intros Hs _. exfalso. unfold handle_ping, bind, map_err, lift in Hs.
    destruct (decode_as PingRequest frame) as [ping|e| |]; try done. cbn in Hs.
    destruct (send _ s) as [[[]|e| |] s1] in Hs; done.
Qed.

Lemma converse_rounds n : forall m l e s,
  rounds (state s) = Some n -> (length l < m)%nat -> converse n l e s = converse m l e s.
Proof.
  induction n as [|n IH]; intros m l e s Hn Hm.
  { unfold rounds in Hn. repeat case_match; done. }
  destruct m as [|m]; [lia|]. cbn [converse].
  destruct (front l) as [reason|missing|frame rest] eqn:Ef; try done.
  pose proof (front_frame_shorter _ _ _ Ef). destruct (open_frame _ _ _) as [packet|reason| |]; try done.
  unfold bind. destruct (handle packet s) as [[[]|r| |] s'] eqn:Eh; try done.
  destruct (handle_rounds _ _ _ _ Eh Hn) as (k & [= <-] & Hk). apply IH; [done|lia].
Qed.
End Rounds.

(** ** A login that never ends *)

Section Flood.
Context `{ExternalsLaws}.

(** [n] copies of [l] on the wire. *)
Fixpoint copies (n : nat) (l : list byte) : list byte :=
  match n with O => [] | S n => l ++ copies n l end.

(** What one Login Start is answered with in the format [threshold]. *)
Lemma login_start_answered s start t threshold request p1 p2 rest e :
  packet_ok start = true -> validate_username (name start) = Ok tt ->
  current (state s) = State_Login -> compression_threshold (codec s) = threshold ->
  codec_inv (codec s) -> contents (write_buffer s) = [] ->
  config_threshold (config s) = Some t -> 0 <= t < 2 ^ 31 -> (forall bs, flush_error bs = None) ->
  frame_payload deflate threshold (raw_payload start) = Ok request -> len request <= MAX_PACKET_SIZE ->
  frame_payload deflate threshold (raw_payload (mkSetCompression t)) = Ok p1 ->
  frame_payload deflate (Some t) (raw_payload (login_success (name start))) = Ok p2 ->
  exists s', conversation (enc_frame request ++ rest) e s = conversation rest e s'
    /\ wire s' = wire s ++ enc_frame p1 ++ enc_frame p2
    /\ compression_threshold (codec s') = Some t /\ contents (write_buffer s') = []
    /\ state s' = state s /\ config s' = config s.
Proof.
  intros Hok Hname Hst Hth Hinv Hq Hcfg Ht Hf Hreq Hlen H1 H2. subst threshold.
  destruct (login_start_sends s (mkRawPacket (packet_id LoginStart) (enc_packet start)) start t p1 p2)
    as (s' & Hs & Hs'); try done.
  { by apply decode_as_enc. }
  exists s'. split; [|done].
  rewrite (conversation_step start request rest e s Flow_Continue s'); try done. by apply login_start_size.
Qed.

Lemma login_flood start t again p1 p2 :
  packet_ok start = true -> validate_username (name start) = Ok tt -> 0 <= t < 2 ^ 31 ->
  (forall bs, flush_error bs = None) ->
  frame_payload deflate (Some t) (raw_payload start) = Ok again -> len again <= MAX_PACKET_SIZE ->
  frame_payload deflate (Some t) (raw_payload (mkSetCompression t)) = Ok p1 ->
  frame_payload deflate (Some t) (raw_payload (login_success (name start))) = Ok p2 ->
  forall n s, current (state s) = State_Login -> compression_threshold (codec s) = Some t ->
  contents (write_buffer s) = [] -> config_threshold (config s) = Some t ->
  exists s', conversation (copies n (enc_frame again)) None s = (Ok false, s')
    /\ wire s' = wire s ++ copies n (enc_frame p1 ++ enc_frame p2)
    /\ current (state s') = State_Login.
Proof.
  intros Hok Hname Ht Hf Hagain Hlen H1 H2 n. induction n as [|n IH]; intros s Hst Hth Hq Hcfg.
  { exists s. cbn [copies]. rewrite app_nil_r. by split_and!. }
  cbn [copies].
  destruct (login_start_answered s start t (Some t) again p1 p2 (copies n (enc_frame again)) None)
    as (s1 & -> & Hw & Hth1 & Hq1 & Hst1 & Hcfg1); try done.
  { unfold codec_inv. by rewrite Hth. }
  destruct (IH s1) as (s' & Hc & Hw' & Hst'); [by rewrite Hst1|done|done|by rewrite Hcfg1|].
  exists s'. split_and!; [done|by rewrite Hw', Hw, <- !app_assoc|done].
Qed.
End Flood.

(** A client that logs in and then repeats its Login Start [n] times. *)
Section Again.
Context `{ExternalsLaws} (cfg : ServerConfig) (h : Handshake) (start : LoginStart)
  (t : Z) (again announcement success : list byte) (n : nat) (arrivals : list Arrival).
Hypotheses (Hok : packet_ok h = true) (Hnext : next_state h <> NextState_Status)
  (Hstart : packet_ok start = true) (Hname : validate_username (name start) = Ok tt)
  (Hconfig : config_threshold cfg = Some t) (Ht : 0 <= t < 2 ^ 31)
  (Hflush : forall bs, flush_error bs = None)
  (Hagain : frame_payload deflate (Some t) (raw_payload start) = Ok again)
  (Hlen : len again <= MAX_PACKET_SIZE)
  (Hannounce : frame_payload deflate (Some t) (raw_payload (mkSetCompression t)) = Ok announcement)
  (Hsuccess : frame_payload deflate (Some t) (raw_payload (login_success (name start))) = Ok success)
  (Harrivals : stream arrivals
    = (enc_frame (raw_payload h) ++ enc_frame (raw_payload start) ++ copies n (enc_frame again), None)).

Lemma run_again :
  exists s', run arrivals (connection_new cfg) = (Ok false, s')
    /\ wire s' = enc_frame (raw_payload (mkSetCompression t)) ++ enc_frame success
                 ++ copies n (enc_frame announcement ++ enc_frame success)
    /\ current (state s') = State_Login.
Proof.
  set (s0 := connection_new cfg). set (s1 := with_state (requested (next_state h)) s0).
  pose proof (handshake_size h Hok) as Hh. pose proof (login_start_size start Hstart) as Hl.
  destruct (login_start_answered s1 start t None (raw_payload start) (raw_payload (mkSetCompression t))
    success (copies n (enc_frame again)) None) as (s2 & Hs2 & Hw2 & Ht2 & Hq2 & Hst2 & Hcf2); try done.
  { cbn. by destruct (next_state h). }
  destruct (login_flood start t again announcement success Hstart Hname Ht Hflush Hagain Hlen Hannounce
    Hsuccess n s2) as (s3 & Hs3 & Hw3 & Hst3); [|done|done|by rewrite Hcf2|].
  { rewrite Hst2. cbn. by destruct (next_state h). }
  destruct (run_conversation cfg arrivals _ None (Ok false) s3 Harrivals) as (s4 & Hr & Hs).
  - rewrite (conversation_step h _ _ None s0 _ _ I Hh eq_refl Hh (handshake_moves_to s0 h Hok eq_refl)).
    by rewrite <- Hs3.
  - exists s4. same_fields Hs. split_and!; [done| |by rewrite Hstate].
    rewrite Hwire, Hw3, Hw2. cbn [wire s1 with_state s0 connection_new app]. by rewrite <- app_assoc.
Qed.
End Again.

(** ** Properties *)

(** Only a login can last: a connection that is listing the server has at most
    two more packets handled, one that has asked for the status already, or is
    past its login, at most one, however much its peer sends; the loop ends there
    with a result or an error, and it is where it would be with no bound. *)
Theorem rounds_bounded `{ExternalsLaws} (s : Connection) (arrivals : list Arrival) (n : nat)
    (Hrounds : rounds (state s) = Some n) :
  let (l, e) := stream arrivals in
  let expected := converse n (contents (read_buffer s) ++ l) e s in
  (n <= 2)%nat /\ fst (run arrivals s) = fst expected
  /\ observe (snd (run arrivals s)) = observe (snd expected) /\ returns (fst expected).
Proof.
  destruct (stream arrivals) as [l e] eqn:Hl. cbv zeta.
  rewrite (converse_rounds n (S (length (contents (read_buffer s) ++ l)))) by (done || lia).
  destruct (run_alike arrivals s l e Hl) as [Hr Hs]. fold (conversation (contents (read_buffer s) ++ l) e).
  split_and!; [|done|done|].
  - unfold rounds in Hrounds. repeat case_match; simplify_eq; lia.
  - rewrite <- Hr. apply run_loop_spec. lia.
Qed.

(** C30: A login can last as long as its client likes: a client that keeps sending
    Login Start is answered every time with a Set Compression and a Login Success,
    the ones after the first in the compressed format, and after any number of
    them it is still being served, in the login state. *)
Theorem login_start_repeats `{ExternalsLaws} (cfg : ServerConfig) (h : Handshake) (start : LoginStart)
    (t : Z) (again announcement success : list byte) (n : nat) (arrivals : list Arrival)
    (Hok : packet_ok h = true) (Hnext : next_state h <> NextState_Status)
    (Hstart : packet_ok start = true) (Hname : validate_username (name start) = Ok tt)
    (Hconfig : config_threshold cfg = Some t) (Ht : 0 <= t < 2 ^ 31)
    (Hflush : forall bs, flush_error bs = None)
    (Hagain : frame_payload deflate (Some t) (raw_payload start) = Ok again)
    (Hlen : len again <= MAX_PACKET_SIZE)
    (Hannounce : frame_payload deflate (Some t) (raw_payload (mkSetCompression t)) = Ok announcement)
    (Hsuccess : frame_payload deflate (Some t) (raw_payload (login_success (name start))) = Ok success)
    (Harrivals : stream arrivals
      = (enc_frame (raw_payload h) ++ enc_frame (raw_payload start) ++ copies n (enc_frame again), None)) :
  exists s', run arrivals (connection_new cfg) = (Ok false, s')
    /\ wire s' = enc_frame (raw_payload (mkSetCompression t)) ++ enc_frame success
                 ++ copies n (enc_frame announcement ++ enc_frame success)
    /\ current (state s') = State_Login.
Proof.
  by apply (run_again cfg h start t again announcement success n arrivals).
Qed.

(** ** Witnesses *)

#[local] Existing Instance stored_externals.
#[local] Existing Instance stored_laws.

(** A client that lists the server and then keeps asking. *)
Lemma rounds_bounded_witness :
  let s := with_state State_Status (connection_new server_config_default) in
  let (l, e) := stream [Arrival_bytes [x01; x00; x01; x00; x01; x00]; Arrival_timeout] in
  let expected := converse 2 (contents (read_buffer s) ++ l) e s in
  (2 <= 2)%nat
  /\ fst (run [Arrival_bytes [x01; x00; x01; x00; x01; x00]; Arrival_timeout] s) = fst expected
  /\ observe (snd (run [Arrival_bytes [x01; x00; x01; x00; x01; x00]; Arrival_timeout] s))
     = observe (snd expected) /\ returns (fst expected).
Proof.
  exact (rounds_bounded (with_state State_Status (connection_new server_config_default))
    [Arrival_bytes [x01; x00; x01; x00; x01; x00]; Arrival_timeout] 2 eq_refl).
Defined.

Definition start_again : list byte := enc_varint 0 ++ raw_payload login_start.
Definition announce_again : list byte := enc_varint 0 ++ raw_payload (mkSetCompression 256).

Lemma login_start_repeats_witness :
  exists s', run [Arrival_bytes (enc_frame (raw_payload login_handshake)
        ++ enc_frame (raw_payload login_start) ++ copies 3 (enc_frame start_again))]
      (connection_new server_config_default) = (Ok false, s')
    /\ wire s' = enc_frame (raw_payload (mkSetCompression 256)) ++ enc_frame success_payload
                 ++ copies 3 (enc_frame announce_again ++ enc_frame success_payload)
    /\ current (state s') = State_Login.
Proof.
  apply (login_start_repeats server_config_default login_handshake login_start 256 start_again
    announce_again success_payload 3 [Arrival_bytes (enc_frame (raw_payload login_handshake)
      ++ enc_frame (raw_payload login_start) ++ copies 3 (enc_frame start_again))]);
    try reflexivity; try discriminate.
  split; [discriminate|reflexivity].
Defined.
