(* ===== verification/Timed.v ===== *)
(** * Connections on a clock ([crates/net/src/connection.rs], [Connection::run]).

    [Connection] lets the environment say when the read timeout elapses.  Here a
    clock decides: what the transport delivers carries the time of its delivery,
    and every call of [next] has [read_timeout] from the moment it is made, however
    the bytes drip in.  [timed_run] handles a packet in no time; [slow_run] waits for
    the socket to accept each reply.  Every such run is a run of [Connection], and the
    clock bounds how long it lasts. *)

From S2P Require Import Prelude Utf8 Buffers ProtocolError Varint Fields Packets Codec ConnState Offline Connection Session Lifetime.
From stdpp Require Import base list numbers strings relations.
From Stdlib Require Import Strings.Byte.

Open Scope Z_scope.

(** ** The loop under a clock *)

(** What the transport delivers. *)
Inductive Delivery :=
  | Deliver_bytes (bs : list byte)
  | Deliver_eof
  | Deliver_error (e : list byte).

Definition arrival (d : Z * Delivery) : Arrival :=
  match snd d with
  | Deliver_bytes bs => Arrival_bytes bs
  | Deliver_eof => Arrival_eof
  | Deliver_error e => Arrival_error e
  end.

Section Clock.
Context `{Externals}.

(** [timeout(self.config.read_timeout, self.framed.next())]: what is delivered
    by the deadline is read, and after it the timeout elapses.  A delivery that
    came before the call is read at once. *)
Fixpoint timed_next (deadline now : Z) (deliveries : list (Z * Delivery)) (s : Connection) :
    Next * Z * list (Z * Delivery) * Connection :=
  let (r, buffer) := decode inflate (codec s) (read_buffer s) in
  let s' := with_read_buffer buffer s in
  match r with
  | Ok (Some frame) => (Next_frame frame, now, deliveries, s')
  | Err e => (Next_error e, now, deliveries, s')
  | Ok None =>
    match deliveries with
    | [] => (Next_timeout, deadline, [], s')
    | (t, d) :: rest =>
      if deadline <? t then (Next_timeout, deadline, deliveries, s')
      else
        let now := Z.max now t in
        match d with
        | Deliver_bytes bs =>
            timed_next deadline now rest
              (with_read_buffer (mkBytesMut (contents buffer ++ bs) (reserves buffer)) s)
        | Deliver_eof =>
            (if len (contents buffer) =? 0 then Next_closed
             else Next_error (ProtocolError_Io bytes_remaining), now, rest, s')
        | Deliver_error e => (Next_error (ProtocolError_Io e), now, rest, s')
        end
    end
  | Panic | Diverge => (Next_panic, now, deliveries, s')
  end.

(** [run], with the time at which it returned. *)
Fixpoint timed_loop (fuel : nat) (now : Z) (deliveries : list (Z * Delivery)) (s : Connection) :
    outcome NetError unit * Z * Connection :=
  match fuel with
  | O => (Diverge, now, s)
  | S fuel =>
    let '(next, now, deliveries, s) := timed_next (now + read_timeout (config s)) now deliveries s in
    match next with
    | Next_timeout => (Err NetError_Timeout, now, s)
    | Next_closed => (Ok tt, now, s)
    | Next_error e => (Err (NetError_Protocol e), now, s)
    | Next_panic | Next_waiting => (Panic, now, s)
    | Next_frame frame =>
      match handle frame s with
      | (Ok Flow_Close, s) => (Ok tt, now, s)
      | (Ok Flow_Continue, s) => timed_loop fuel now deliveries s
      | (Err e, s) => (Err e, now, s)
      | (Panic, s) => (Panic, now, s)
      | (Diverge, s) => (Diverge, now, s)
      end
    end
  end.

Definition timed_run (now : Z) (deliveries : list (Z * Delivery)) (s : Connection) :
    outcome NetError unit * Z * Connection :=
  timed_loop (S (pending (map arrival deliveries) s)) now deliveries s.

(** The transport, under no timeout: [flushed now n] is the time at which the
    socket has accepted [n] bytes in all, if the flush begins at [now], and [None]
    if it never accepts them.  A socket accepts what its buffer has room for, which
    may be long before the peer reads it, and accepts the bytes in order. *)
Variable flushed : Z -> Z -> option Z.

(** The wait for what handling a packet has put on the wire, [w'], where there was
    [w].  The replies to one packet are waited for together; what is delivered
    meanwhile is read afterwards. *)
Definition flush_wait (now : Z) (w w' : list byte) : option Z :=
  if len w' <=? len w then Some now else flushed now (len w').

(** [run] again, [None] when it never returns. *)
Fixpoint slow_loop (fuel : nat) (now : Z) (deliveries : list (Z * Delivery)) (s : Connection) :
    option (outcome NetError unit * Z * Connection) :=
  match fuel with
  | O => Some (Diverge, now, s)
  | S fuel =>
    let '(next, now, deliveries, s) := timed_next (now + read_timeout (config s)) now deliveries s in
    match next with
    | Next_timeout => Some (Err NetError_Timeout, now, s)
    | Next_closed => Some (Ok tt, now, s)
    | Next_error e => Some (Err (NetError_Protocol e), now, s)
    | Next_panic | Next_waiting => Some (Panic, now, s)
    | Next_frame frame =>
      let (r, s') := handle frame s in
      match flush_wait now (wire s) (wire s') with
      | None => None
      | Some now =>
        match r with
        | Ok Flow_Close => Some (Ok tt, now, s')
        | Ok Flow_Continue => slow_loop fuel now deliveries s'
        | Err e => Some (Err e, now, s')
        | Panic => Some (Panic, now, s')
        | Diverge => Some (Diverge, now, s')
        end
      end
    end
  end.

Definition slow_run (now : Z) (deliveries : list (Z * Delivery)) (s : Connection) :
    option (outcome NetError unit * Z * Connection) :=
  slow_loop (S (pending (map arrival deliveries) s)) now deliveries s.
End Clock.

(** A socket with room for everything, as [Connection] has it. *)
Definition at_once (now n : Z) : option Z := Some now.

(** A socket that buffers [capacity] bytes, and whose peer reads none of them. *)
Definition unread (capacity now n : Z) : option Z := if n <=? capacity then Some now else None.

(** ** A clock picks one of the orders of events *)

Section Clocked.
Context `{ExternalsLaws}.

(** What a call under the clock read, as [next_frame] sees it. *)
Definition read_part (k : nat) (next : Next) (deliveries : list (Z * Delivery)) : list Arrival :=
  map arrival (take k deliveries) ++ match next with Next_timeout => [Arrival_timeout] | _ => [] end.

Lemma next_frame_decoded arrivals s :
  match decode inflate (codec s) (read_buffer s) with
  | (Ok (Some frame), b) => next_frame arrivals s = (Next_frame frame, arrivals, with_read_buffer b s)
  | (Err e, b) => next_frame arrivals s = (Next_error e, arrivals, with_read_buffer b s)
  | (Ok None, _) => True
  | (_, b) => next_frame arrivals s = (Next_panic, arrivals, with_read_buffer b s)
  end.
Proof. destruct arrivals; cbn [next_frame]; by destruct (decode _ _ _) as [[[]| | |] ?]. Qed.

Lemma timed_next_spec deliveries : forall deadline now s, now <= deadline ->
  match timed_next deadline now deliveries s with
  | (next, now', deliveries', s') => now <= now' <= deadline /\ next <> Next_waiting
      /\ exists k, deliveries' = drop k deliveries
           /\ forall more, next_frame (read_part k next deliveries ++ more) s = (next, more, s')
  end.
Proof.
  induction deliveries as [|[t d] deliveries IH]; intros deadline now s Hnow; cbn [timed_next];
    pose proof (fun arrivals => next_frame_decoded arrivals s) as Hd;
    destruct (decode inflate (codec s) (read_buffer s)) as [[[frame|]|e| |] buffer] eqn:E;
    try (split_and!; [lia|lia|done|]; exists 0%nat; split; [done|]; intros more; cbn; apply Hd).
  - split_and!; [lia|lia|done|]. exists 0%nat. split; [done|]. intros more.
    unfold read_part. cbn [take map app next_frame]. by rewrite E.
  - destruct (Z.ltb_spec deadline t) as [Ht|Ht].
    { split_and!; [lia|lia|done|]. exists 0%nat. split; [done|]. intros more.
    unfold read_part. cbn [take map app next_frame]. by rewrite E. }
    destruct d as [bs| |reason].
    + specialize (IH deadline (Z.max now t)
        (with_read_buffer (mkBytesMut (contents buffer ++ bs) (reserves buffer)) s) ltac:(lia)).
      destruct (timed_next _ _ _ _) as [[[next now'] deliveries'] s'].
      destruct IH as (Hn & Hw & k & -> & Hk). split_and!; [lia|lia|done|]. exists (S k). split; [done|].
      intros more. unfold read_part in *. cbn [take map arrival snd app next_frame]. rewrite E. apply Hk.
    + split_and!; [lia|lia|by destruct (_ =? 0)|]. exists 1%nat. split; [done|]. intros more.
      unfold read_part. cbn [take map arrival snd app next_frame]. rewrite E.
      by destruct (_ =? 0).
    + split_and!; [lia|lia|done|]. exists 1%nat. split; [done|]. intros more.
      unfold read_part. cbn [take map arrival snd app next_frame]. by rewrite E.
Qed.

(** One turn of the loop under the clock, and the same turn of [run]. *)
Lemma run_step arrivals frame more s s1 :
  next_frame arrivals s = (Next_frame frame, more, s1) ->
  (pending more s1 < pending arrivals s)%nat
  /\ run arrivals s = match handle frame s1 with
       | (Ok Flow_Close, s2) => (Ok true, s2)
       | (Ok Flow_Continue, s2) => run more s2
       | (Err e, s2) => (Err e, s2)
       | (Panic, s2) => (Panic, s2)
       | (Diverge, s2) => (Diverge, s2)
       end.
Proof.
  intros Hn. pose proof (next_frame_spec arrivals s) as Hs. rewrite Hn in Hs.
  destruct Hs as (_ & _ & Hp). specialize (Hp frame eq_refl). split; [done|].
  unfold run at 1. cbn [run_loop]. rewrite Hn. unfold bind.
  pose proof (always_handle frame s1) as [_ He].
  destruct (handle frame s1) as [[[]|e| |] s2]; try done. cbn [snd] in He.
  assert (pending more s2 = pending more s1) as Hp2
    by (unfold pending; by rewrite (evolves_read _ _ He)).
  unfold run. apply run_loop_fuel; lia.
Qed.

Lemma run_last arrivals s next s1 :
  next_frame arrivals s = (next, [], s1) ->
  match next with
  | Next_frame _ | Next_waiting => True
  | _ => run arrivals s = (match next with
                           | Next_timeout => Err NetError_Timeout
                           | Next_closed => Ok true
                           | Next_error e => Err (NetError_Protocol e)
                           | _ => Panic
                           end, s1)
  end.
Proof. intros Hn. unfold run. cbn [run_loop]. rewrite Hn. by destruct next. Qed.

(** A call of [next] changes the read buffer only. *)
Lemma timed_next_reads ds : forall deadline now s,
  exists next now1 ds1 b, timed_next deadline now ds s = (next, now1, ds1, with_read_buffer b s).
Proof.
  induction ds as [|[t d] ds IH]; intros deadline now s; cbn [timed_next];
    destruct (decode _ _ _) as [[[|]| | |] buffer]; try (by do 4 eexists).
  destruct (deadline <? t); [by do 4 eexists|]. destruct d; try (by do 4 eexists).
  destruct (IH deadline (Z.max now t) (with_read_buffer (mkBytesMut (contents buffer ++ bs) (reserves buffer)) s))
    as (? & ? & ? & ? & ->). by do 4 eexists.
Qed.

Section Slow.
Context (flushed : Z -> Z -> option Z) (slowest : Z).

(** What the socket accepts at all, it accepts within [slowest]. *)
Definition flushes_within : Prop :=
  0 <= slowest /\ forall now n t, flushed now n = Some t -> now <= t <= now + slowest.
Hypothesis Hslow : flushes_within.

Lemma slowest_nonneg : 0 <= slowest.
Proof. apply Hslow. Qed.
Lemma flush_wait_within now w w' t : flush_wait flushed now w w' = Some t -> now <= t <= now + slowest.
Proof.
  pose proof slowest_nonneg. unfold flush_wait. destruct (_ <=? _); [intros [= <-]; lia|]. apply Hslow.
Qed.

Lemma slow_loop_spec n : forall now ds s,
  0 <= read_timeout (config s) -> (pending (map arrival ds) s < n)%nat ->
  match slow_loop flushed n now ds s with
  | Some (r, e, s') =>
      (exists k last, (last = [] \/ last = [Arrival_timeout])
         /\ run (map arrival (take k ds) ++ last) s = (returned r, s'))
      /\ now <= e <= now + (read_timeout (config s) + slowest)
                         * (1 + Z.of_nat (pending (map arrival ds) s))
  | None => True
  end.
Proof.
  induction n as [|n IH]; intros now ds s HT Hn; [lia|]. cbn [slow_loop].
  pose proof (timed_next_spec ds (now + read_timeout (config s)) now s ltac:(lia)) as Hs.
  destruct (timed_next _ _ _ _) as [[[next now1] ds1] s1]. destruct Hs as (Hnow & Hw & k & -> & Hk).
  assert (forall r : outcome NetError unit, run (read_part k next ds ++ []) s = (returned r, s1) ->
    exists k last, (last = [] \/ last = [Arrival_timeout])
      /\ run (map arrival (take k ds) ++ last) s = (returned r, s1)) as Hend.
  { intros r Hr. rewrite app_nil_r in Hr. exists k, (match next with Next_timeout => [Arrival_timeout] | _ => [] end).
    split; [destruct next; auto|exact Hr]. }
  pose proof (run_last _ _ _ _ (Hk [])) as Hlast.
  pose proof slowest_nonneg.
  destruct next as [frame| |e| | |]; try done; try (split; [by apply Hend|nia]).
  unfold read_part in Hk. rewrite app_nil_r in Hk.
  pose proof (run_step _ _ _ _ _ (Hk (map arrival (drop k ds)))) as [Hp _].
  rewrite <- map_app, take_drop in Hp.
  pose proof (fun more => proj2 (run_step _ _ _ _ _ (Hk more))) as Hrun.
  pose proof (always_handle frame s1) as [_ He].
  assert (config s1 = config s) as Hc1.
  { pose proof (next_frame_spec (map arrival (take k ds) ++ []) s) as Hs. rewrite Hk in Hs.
    by destruct Hs as ([b ->] & _). }
  destruct (handle frame s1) as [r2 s2]. cbn [snd] in He.
  destruct (flush_wait _ _ _ _) as [t|] eqn:Et; [|done]. apply flush_wait_within in Et.
  destruct r2 as [[]|e| |]; try (split; [exists k, []; split; [by left|]; apply Hrun|nia]).
  assert (pending (map arrival (drop k ds)) s2 = pending (map arrival (drop k ds)) s1) as Hp2
    by (unfold pending; by rewrite (evolves_read _ _ He)).
  assert (config s2 = config s) as Hc2 by (by rewrite (evolves_config _ _ He)).
  specialize (IH t (drop k ds) s2). rewrite Hc2 in IH. specialize (IH HT ltac:(lia)).
  destruct (slow_loop flushed n _ (drop k ds) s2) as [[[r e] s']|]; [|done]. destruct IH as [(k2 & last & Hl & Hr) He2].
  split; [|nia]. exists (k + k2)%nat, last. split; [done|].
  rewrite <- take_take_drop, map_app, <- app_assoc, Hrun. exact Hr.
Qed.
(** A connection with rounds left is gone when that many timeouts, and the
    replies between them, have passed. *)
Lemma slow_loop_rounds n : forall m now ds s,
  0 <= read_timeout (config s) -> rounds (state s) = Some m ->
  match slow_loop flushed n now ds s with
  | Some (_, e, _) => e <= now + (read_timeout (config s) + slowest) * Z.of_nat m
  | None => True
  end.
Proof.
  pose proof slowest_nonneg. induction n as [|n IH]; intros m now ds s HT Hm; [cbn; nia|]. cbn [slow_loop].
  assert (1 <= m)%nat by (unfold rounds in Hm; repeat case_match; simplify_eq; lia).
  pose proof (timed_next_spec ds (now + read_timeout (config s)) now s ltac:(lia)) as Hs.
  destruct (timed_next _ _ _ _) as [[[next now1] ds1] s1]. destruct Hs as (Hnow & _ & k & -> & Hk).
  destruct next as [frame| |e| | |]; try nia.
  pose proof (next_frame_spec (read_part k (Next_frame frame) ds ++ []) s) as Hb. rewrite Hk in Hb.
  destruct Hb as ([b ->] & _). pose proof (always_handle frame (with_read_buffer b s)) as [_ He].
  destruct (handle frame (with_read_buffer b s)) as [r2 s2] eqn:Eh. cbn [snd] in He.
  destruct (flush_wait _ _ _ _) as [t|] eqn:Et; [|done]. apply flush_wait_within in Et.
  destruct r2 as [[]|e| |]; try nia.
  destruct (handle_rounds _ _ _ _ Eh Hm) as (m' & -> & Hm').
  assert (config s2 = config s) as Hc by (by rewrite (evolves_config _ _ He)).
  specialize (IH m' t (drop k ds) s2). rewrite Hc in IH. specialize (IH HT Hm').
  destruct (slow_loop flushed n _ (drop k ds) s2) as [[[r e] s']|]; [nia|].
  done.
Qed.

Lemma slow_loop_steps n : forall now ds s,
  match slow_loop flushed n now ds s with Some (_, _, s') => rtc step (state s) (state s') | None => True end.
Proof.
  induction n as [|n IH]; intros now ds s; cbn [slow_loop]; [done|].
  destruct (timed_next_reads ds (now + read_timeout (config s)) now s) as (next & now1 & ds1 & b & ->).
  destruct next as [frame| |e| | |]; try done.
  pose proof (always_handle frame (with_read_buffer b s)) as [_ He].
  destruct (handle frame (with_read_buffer b s)) as [r2 s2]. cbn [snd] in He.
  destruct (flush_wait _ _ _ _) as [t|]; [|done]. destruct r2 as [[]|e| |]; try exact (evolves_state _ _ He).
  specialize (IH t ds1 s2). destruct (slow_loop flushed n _ ds1 s2) as [[[r e] s']|]; [|done].
  etrans; [exact (evolves_state _ _ He)|exact IH].
Qed.

End Slow.

Lemma at_once_within : flushes_within at_once 0.
Proof. split; [done|]. intros now n t [= <-]. lia. Qed.

Lemma slow_loop_at_once n : forall now ds s, slow_loop at_once n now ds s = Some (timed_loop n now ds s).
Proof.
  induction n as [|n IH]; intros now ds s; cbn [slow_loop timed_loop]; [done|].
  destruct (timed_next _ _ _ _) as [[[next now1] ds1] s1]. destruct next; try done.
  destruct (handle frame s1) as [r2 s2].
  replace (flush_wait at_once now1 (wire s1) (wire s2)) with (Some now1)
    by (unfold flush_wait, at_once; by destruct (_ <=? _)).
  by destruct r2 as [[]|e| |].
Qed.

(** A handshake that is accepted leads to a status exchange or to a login. *)
Lemma handshake_leads frame s s' :
  current (state s) = State_Handshaking -> status_request_seen (state s) = false ->
  handle frame s = (Ok Flow_Continue, s') ->
  logging_in (current (state s')) = true \/ rounds (state s') = Some 2%nat.
Proof.
  intros Hs Hseen. unfold handle. rewrite (bind_ok get_connection _ s s s) by done. rewrite Hs.
  destruct (id frame =? packet_id Handshake); [|done]. unfold handle_handshake.
  unfold bind at 1, map_err, lift. destruct (decode_as Handshake frame) as [h|e| |]; try done.
  unfold rounds. destruct (next_state h); unfold bind, on_state, zoom, transition; rewrite Hs; cbn;
    intros [= <-]; cbn; rewrite ?Hseen; auto.
Qed.

Lemma slow_run_at_once now ds s : slow_run at_once now ds s = Some (timed_run now ds s).
Proof. apply slow_loop_at_once. Qed.

Lemma slow_run_is_run flushed slowest cfg now ds :
  0 <= read_timeout cfg -> flushes_within flushed slowest ->
  match slow_run flushed now ds (connection_new cfg) with
  | Some (r, e, s') =>
      (exists k last, (last = [] \/ last = [Arrival_timeout])
         /\ run (map arrival (take k ds) ++ last) (connection_new cfg) = (returned r, s'))
      /\ returns r
      /\ now <= e <= now + (read_timeout cfg + slowest)
           * (1 + Z.of_nat (pending (map arrival ds) (connection_new cfg)))
  | None => True
  end.
Proof.
  intros HT Ht. unfold slow_run.
  pose proof (slow_loop_spec flushed slowest Ht (S (pending (map arrival ds) (connection_new cfg))) now ds
    (connection_new cfg) HT ltac:(lia)) as Hs.
  destruct (slow_loop _ _ _ _ _) as [[[r e] s']|]; [|done]. destruct Hs as [Hr He].
  split; [done|split; [|exact He]]. destruct Hr as (k & last & _ & Hr).
  pose proof (run_returns (map arrival (take k ds) ++ last) (connection_new cfg)) as Hret.
  rewrite Hr in Hret. by destruct r.
Qed.

Lemma timed_run_is_run cfg now ds :
  0 <= read_timeout cfg ->
  match timed_run now ds (connection_new cfg) with
  | (r, e, s') =>
      (exists k last, (last = [] \/ last = [Arrival_timeout])
         /\ run (map arrival (take k ds) ++ last) (connection_new cfg) = (returned r, s'))
      /\ returns r
      /\ now <= e <= now + read_timeout cfg
           * (1 + Z.of_nat (pending (map arrival ds) (connection_new cfg)))
  end.
Proof.
  intros HT. pose proof (slow_run_is_run _ _ cfg now ds HT at_once_within) as Hs.
  rewrite slow_run_at_once, Z.add_0_r in Hs. exact Hs.
Qed.

Lemma slow_run_brief flushed slowest cfg now ds :
  0 <= read_timeout cfg -> flushes_within flushed slowest ->
  match slow_run flushed now ds (connection_new cfg) with
  | Some (_, e, s') =>
      logging_in (current (state s')) = true \/ e <= now + 3 * (read_timeout cfg + slowest)
  | None => True
  end.
Proof.
  intros HT Ht. pose proof (slowest_nonneg _ _ Ht). unfold slow_run. cbn [slow_loop].
  set (s := connection_new cfg).
  pose proof (timed_next_spec ds (now + read_timeout (config s)) now s ltac:(cbn; lia)) as Hs.
  destruct (timed_next _ _ _ _) as [[[next now1] ds1] s1]. change (config s) with cfg in *.
  destruct Hs as (Hnow & _ & k & -> & Hk).
  destruct next as [frame| |e| | |]; try (right; lia).
  pose proof (next_frame_spec (read_part k (Next_frame frame) ds ++ []) s) as Hb. rewrite Hk in Hb.
  destruct Hb as ([b ->] & _). pose proof (always_handle frame (with_read_buffer b s)) as [_ He].
  destruct (handle frame (with_read_buffer b s)) as [r2 s2] eqn:Eh.
  destruct (flush_wait _ _ _ _) as [t|] eqn:Et; [|done]. apply (flush_wait_within _ _ Ht) in Et.
  destruct r2 as [[]|e| |]; try (right; lia).
  cbn [snd] in He. pose proof (evolves_config _ _ He) as Hc. change (config s2 = cfg) in Hc.
  set (n := pending _ _).
  pose proof (slow_loop_steps flushed n t (drop k ds) s2) as Hsteps.
  pose proof (fun m => slow_loop_rounds flushed slowest Ht n m t (drop k ds) s2) as Hrounds.
  rewrite Hc in Hrounds.
  destruct (slow_loop flushed n _ (drop k ds) s2) as [[[r e] s']|]; [|done].
  destruct (handshake_leads frame (with_read_buffer b s) s2 eq_refl eq_refl Eh) as [Hl|Hl].
  - left. by eapply steps_logging_in.
  - right. specialize (Hrounds 2%nat HT Hl). lia.
Qed.

Lemma timed_run_brief cfg now ds :
  0 <= read_timeout cfg ->
  match timed_run now ds (connection_new cfg) with
  | (_, e, s') => logging_in (current (state s')) = true \/ e <= now + 3 * read_timeout cfg
  end.
Proof.
  intros HT. pose proof (slow_run_brief _ _ cfg now ds HT at_once_within) as Hs.
  rewrite slow_run_at_once, Z.add_0_r in Hs. exact Hs.
Qed.
End Clocked.

(** ** Properties *)

(** The clock picks one of the runs already considered, and no connection
    outlives it: a connection under the clock ends as [run] ends on a prefix of
    what was delivered, perhaps cut short by the timeout; it always ends, with a
    result or an error, and within one read timeout for every byte delivered and
    one more. *)
Theorem timed_run_refines_run `{ExternalsLaws} (cfg : ServerConfig) (now : Z)
    (deliveries : list (Z * Delivery)) (HT : 0 <= read_timeout cfg) :
  match timed_run now deliveries (connection_new cfg) with
  | (r, e, s') =>
      (exists k last, (last = [] \/ last = [Arrival_timeout])
         /\ run (map arrival (take k deliveries) ++ last) (connection_new cfg) = (returned r, s'))
      /\ returns r
      /\ now <= e <= now + read_timeout cfg
           * (1 + Z.of_nat (pending (map arrival deliveries) (connection_new cfg)))
  end.
Proof. by apply timed_run_is_run. Qed.

(** C12: Only a client that asks to log in can stay: a connection that has not got
    as far as a login is over within three read timeouts, however its bytes drip
    in and whatever they are. *)
Theorem unidentified_peers_are_brief `{ExternalsLaws} (cfg : ServerConfig) (now : Z)
    (deliveries : list (Z * Delivery)) (HT : 0 <= read_timeout cfg) :
  match timed_run now deliveries (connection_new cfg) with
  | (_, e, s') => logging_in (current (state s')) = true \/ e <= now + 3 * read_timeout cfg
  end.
Proof. by apply timed_run_brief. Qed.

(** ** Witnesses *)

#[local] Existing Instance stored_externals.
#[local] Existing Instance stored_laws.

(** A status request that drips in, a byte every ten seconds: the third byte of
    the handshake is the last one that is read. *)
Fixpoint drip (from every : Z) (l : list byte) : list (Z * Delivery) :=
  match l with
  | [] => []
  | b :: l => (from, Deliver_bytes [b]) :: drip (from + every) every l
  end.

Definition dripping : list (Z * Delivery) := drip 10 10 (status_bytes sample_handshake 7).

Example dripping_times_out :
  match timed_run 0 dripping (connection_new server_config_default) with
  | (r, e, s') => r = Err NetError_Timeout /\ e = 30 /\ len (contents (read_buffer s')) = 3
  end.
Proof. vm_compute. done. Qed.

Lemma timed_run_refines_run_witness :
  match timed_run 0 dripping (connection_new server_config_default) with
  | (r, e, s') =>
      (exists k last, (last = [] \/ last = [Arrival_timeout])
         /\ run (map arrival (take k dripping) ++ last) (connection_new server_config_default)
            = (returned r, s'))
      /\ returns r
      /\ 0 <= e <= 0 + 30
           * (1 + Z.of_nat (pending (map arrival dripping) (connection_new server_config_default)))
  end.
Proof. apply (timed_run_refines_run server_config_default 0 dripping). discriminate. Defined.

Lemma unidentified_peers_are_brief_witness :
  match timed_run 0 dripping (connection_new server_config_default) with
  | (_, e, s') => logging_in (current (state s')) = true \/ e <= 0 + 3 * 30
  end.
Proof. apply (unidentified_peers_are_brief server_config_default 0 dripping). discriminate. Defined.
