(* ===== verification/Slow.v ===== *)
(** * Peers that are slow to read ([crates/net/src/connection.rs], [Connection::run])

    [run] waits until the socket has accepted each reply, and no timeout covers that
    wait.  With the time the socket takes as a parameter, [slow_run] of [Timed] is
    [run] on a clock that the flushes move too.  The file shows what is left of the
    bounds of [Timed] when the socket takes some time, and what becomes of a
    connection whose peer never reads and whose socket buffer is finite. *)

From S2P Require Import Prelude Utf8 Buffers ProtocolError Varint Fields Packets Codec ConnState Offline Connection Session Lifetime Timed.
From stdpp Require Import base list numbers strings relations.
From Stdlib Require Import Strings.Byte.

Open Scope Z_scope.

Section Slow.
Context `{ExternalsLaws}.

Lemma run_wire arrivals s : wire s `prefix_of` wire (snd (run arrivals s)).
Proof.
  destruct (run_loop_spec (S (pending arrivals s)) arrivals s ltac:(lia)) as [_ He].
  destruct (evolves_wire _ _ He) as [out Hw]. by exists out.
Qed.

Lemma flush_stuck flushed now w w' :
  (exists reply, w' = w ++ reply) -> flush_wait flushed now w w' = None ->
  exists reply, w' = w ++ reply /\ reply <> [] /\ flushed now (len (w ++ reply)) = None.
Proof.
  intros [reply ->]. unfold flush_wait. destruct (Z.leb_spec (len (w ++ reply)) (len w)) as [|Hl]; [done|].
  intros Hf. exists reply. split_and!; [done| |done]. intros ->. rewrite app_nil_r in Hl. lia.
Qed.

(** A connection that never returns is waiting for the socket to accept a reply of
    its own. *)
Lemma slow_loop_stuck flushed slowest n :
  flushes_within flushed slowest -> forall now ds s,
  0 <= read_timeout (config s) -> (pending (map arrival ds) s < n)%nat ->
  slow_loop flushed n now ds s = None ->
  exists k sent reply t, reply <> []
    /\ sent ++ reply `prefix_of` wire (snd (run (map arrival (take k ds)) s))
    /\ now <= t <= now + (read_timeout (config s) + slowest) * (1 + Z.of_nat (pending (map arrival ds) s))
    /\ flushed t (len (sent ++ reply)) = None.
Proof.
  intros Hf. pose proof (slowest_nonneg _ _ Hf) as H0'.
  induction n as [|n IH]; intros now ds s HT Hn; [lia|]. cbn [slow_loop].
  pose proof (timed_next_spec ds (now + read_timeout (config s)) now s ltac:(lia)) as Hs.
  destruct (timed_next _ _ _ _) as [[[next now1] ds1] s1]. destruct Hs as (Hnow & Hw & k & -> & Hk).
  destruct next as [frame| | | | |]; try done.
  unfold read_part in Hk. rewrite app_nil_r in Hk.
  pose proof (run_step _ _ _ _ _ (Hk (map arrival (drop k ds)))) as [Hp _].
  rewrite <- map_app, take_drop in Hp.
  pose proof (fun more => proj2 (run_step _ _ _ _ _ (Hk more))) as Hrun.
  pose proof (always_handle frame s1) as [_ He].
  assert (config s1 = config s) as Hc1.
  { pose proof (next_frame_spec (map arrival (take k ds) ++ []) s) as Hs. rewrite Hk in Hs.
    by destruct Hs as ([b ->] & _). }
  destruct (handle frame s1) as [r2 s2]. cbn [snd] in He.
  destruct (flush_wait _ _ _ _) as [t|] eqn:Et; cycle 1.
  - destruct (flush_stuck _ _ _ _ (evolves_wire _ _ He) Et) as (reply & Hreply & Hne & Hstuck). intros _.
    exists k, (wire s1), reply, now1. split_and!; [done| |lia|nia|done].
    rewrite <- Hreply, <- (app_nil_r (map _ _)), Hrun. destruct r2 as [[]| | |]; try done. apply run_wire.
  - apply (flush_wait_within _ _ Hf) in Et. destruct r2 as [[]|e| |]; try done. intros Hloop.
    assert (pending (map arrival (drop k ds)) s2 = pending (map arrival (drop k ds)) s1) as Hp2
      by (unfold pending; by rewrite (evolves_read _ _ He)).
    assert (config s2 = config s) as Hc2 by (by rewrite (evolves_config _ _ He)).
    specialize (IH t (drop k ds) s2). rewrite Hc2 in IH.
    destruct (IH HT ltac:(lia) Hloop) as (k2 & sent & reply & t2 & Hne & Hpre & Ht2 & Hstuck).
    exists (k + k2)%nat, sent, reply, t2. split_and!; [done| |nia|nia|done].
    by rewrite <- take_take_drop, map_app, Hrun.
Qed.

(** ** A peer that never reads *)

Lemma timed_loop_wire n : forall now ds s,
  match timed_loop n now ds s with (_, _, s') => exists out, wire s' = wire s ++ out end.
Proof.
  induction n as [|n IH]; intros now ds s; cbn [timed_loop]; [exists []; by rewrite app_nil_r|].
  destruct (timed_next_reads ds (now + read_timeout (config s)) now s) as (next & now1 & ds1 & b & ->).
  assert (exists out, wire (with_read_buffer b s) = wire s ++ out) as Hb
    by (exists []; by rewrite app_nil_r).
  destruct next as [frame| | | | |]; try done.
  pose proof (always_handle frame (with_read_buffer b s)) as [_ He].
  destruct (handle frame (with_read_buffer b s)) as [[[]|e| |] s2]; cbn [snd] in He;
    try exact (evolves_wire _ _ He).
  specialize (IH now1 ds1 s2). destruct (timed_loop n now1 ds1 s2) as [[r e] s'].
  destruct IH as [out2 ->], (evolves_wire _ _ He) as [out1 ->]. exists (out1 ++ out2).
  by rewrite <- app_assoc.
Qed.

Lemma slow_loop_unread capacity n : forall now ds s,
  len (wire s) <= capacity ->
  slow_loop (unread capacity) n now ds s
  = let '(r, e, s') := timed_loop n now ds s in
    if len (wire s') <=? capacity then Some (r, e, s') else None.
Proof.
  induction n as [|n IH]; intros now ds s Hroom; cbn [slow_loop timed_loop]; [by rewrite (proj2 (Z.leb_le _ _))|].
  destruct (timed_next_reads ds (now + read_timeout (config s)) now s) as (next & now1 & ds1 & b & ->).
  destruct next as [frame| | | | |]; try (cbn [wire with_read_buffer]; by rewrite (proj2 (Z.leb_le _ _))).
  pose proof (always_handle frame (with_read_buffer b s)) as [_ He].
  destruct (handle frame (with_read_buffer b s)) as [r2 s2]. cbn [snd] in He.
  destruct (evolves_wire _ _ He) as [out Hw]. change (wire (with_read_buffer b s)) with (wire s) in *.
  pose proof (timed_loop_wire n now1 ds1 s2) as Hl. specialize (IH now1 ds1 s2).
  assert (flush_wait (unread capacity) now1 (wire s) (wire s2)
    = if len (wire s2) <=? capacity then Some now1 else None) as ->.
  { unfold flush_wait, unread. destruct (Z.leb_spec (len (wire s2)) (len (wire s))); [|done].
    by rewrite (proj2 (Z.leb_le _ _)) by lia. }
  destruct (Z.leb_spec (len (wire s2)) capacity) as [Hfit|Hfull].
  - destruct r2 as [[]| | |]; try (by rewrite (proj2 (Z.leb_le _ _))). by apply IH.
  - destruct r2 as [[]| | |]; try (by rewrite (proj2 (Z.leb_gt _ _))).
    destruct (timed_loop n now1 ds1 s2) as [[r e] s']. destruct Hl as [more Hl].
    rewrite (proj2 (Z.leb_gt _ _)); [done|]. rewrite Hl, len_app. pose proof (len_nonneg more). lia.
Qed.

(** What has been delivered already is read before the deadline, and then the
    timeout elapses. *)
Definition delivered (now : Z) (ds : list (Z * Delivery)) : Prop := Forall (fun d => fst d <= now) ds.

Lemma timed_next_delivered deadline now ds : forall s,
  delivered now ds -> now <= deadline ->
  match next_frame (map arrival ds) s with
  | (Next_waiting, _, s1) => timed_next deadline now ds s = (Next_timeout, deadline, [], s1)
  | (next, more, s1) => exists ds1, more = map arrival ds1 /\ delivered now ds1
                         /\ timed_next deadline now ds s = (next, now, ds1, s1)
  end.
Proof.
  induction ds as [|[t d] ds IH]; intros s Hall Hnow; cbn [timed_next next_frame map];
    destruct (decode inflate (codec s) (read_buffer s)) as [[[frame|]|e| |] buffer];
    try done; try (by exists []); try (by exists ((t, d) :: ds)).
  apply Forall_cons in Hall as [Ht Hall]. cbn [fst] in Ht.
  replace (deadline <? t) with false by (symmetry; apply Z.ltb_ge; lia).
  rewrite (Z.max_l now t) by done. destruct d as [bs| |reason]; cbn [arrival snd]; [by apply IH| |by exists ds].
  destruct (len (contents buffer) =? 0); by exists ds.
Qed.

Lemma timed_loop_delivered n now : forall ds s s',
  0 <= read_timeout (config s) -> delivered now ds ->
  run_loop n (map arrival ds) s = (Ok false, s') ->
  timed_loop n now ds s = (Err NetError_Timeout, now + read_timeout (config s), s').
Proof.
  induction n as [|n IH]; intros ds s s' HT Hall; cbn [run_loop timed_loop]; [done|].
  pose proof (timed_next_delivered (now + read_timeout (config s)) now ds s Hall ltac:(lia)) as Hn.
  pose proof (next_frame_spec (map arrival ds) s) as Hs.
  destruct (next_frame (map arrival ds) s) as [[next more] s1]. destruct Hs as ([b ->] & _ & _).
  destruct next as [frame| |e| | |]; try done; [|rewrite Hn; by intros [= <-]].
  destruct Hn as (ds1 & -> & Hall1 & ->). unfold bind.
  pose proof (always_handle frame (with_read_buffer b s)) as [_ He].
  destruct (handle frame (with_read_buffer b s)) as [[[]|e| |] s2]; try done. cbn [snd] in He.
  pose proof (evolves_config _ _ He) as Hc. change (config (with_read_buffer b s)) with (config s) in Hc.
  intros Hr. rewrite (IH ds1 s2 s'); by rewrite ?Hc.
Qed.

Lemma slow_run_unread cfg capacity now ds s' :
  0 <= read_timeout cfg -> 0 <= capacity -> delivered now ds ->
  run (map arrival ds) (connection_new cfg) = (Ok false, s') ->
  slow_run (unread capacity) now ds (connection_new cfg)
  = if len (wire s') <=? capacity
    then Some (Err NetError_Timeout, now + read_timeout cfg, s') else None.
Proof.
  intros HT Hcap Hall Hr. unfold slow_run. rewrite slow_loop_unread by exact Hcap.
  by rewrite (timed_loop_delivered _ now ds (connection_new cfg) s' HT Hall Hr).
Qed.

Lemma len_copies n (l : list byte) : len (copies n l) = Z.of_nat n * len l.
Proof. induction n as [|n IH]; cbn [copies]; [done|]. rewrite len_app, IH. lia. Qed.

Lemma len_enc_frame l : 1 <= len (enc_frame l).
Proof. unfold enc_frame. rewrite len_app. pose proof (len_enc_varint_bound (len l)). pose proof (len_nonneg l). lia. Qed.
End Slow.

(** ** Properties *)

(** C19: What a slow peer can do.  If the socket accepts whatever it accepts within
    [slowest], a connection that returns ends as [run] ends on a prefix of what was
    delivered, with a result or an error, within a read timeout and a flush for
    every byte delivered and one more; unless it got as far as a login, it is over
    within three read timeouts and three flushes.  One that never returns waits,
    from some time on within the same bound, for the socket to accept a reply of
    its own, which is not empty and which [run] sends on a prefix of what was
    delivered; and the socket never accepts it. *)
Theorem slow_peers_spec `{ExternalsLaws} (flushed : Z -> Z -> option Z) (slowest : Z)
    (cfg : ServerConfig) (now : Z) (deliveries : list (Z * Delivery))
    (HT : 0 <= read_timeout cfg) (Hflushed : flushes_within flushed slowest) :
  let latest := now + (read_timeout cfg + slowest)
    * (1 + Z.of_nat (pending (map arrival deliveries) (connection_new cfg))) in
  match slow_run flushed now deliveries (connection_new cfg) with
  | Some (r, e, s') =>
      (exists k last, (last = [] \/ last = [Arrival_timeout])
         /\ run (map arrival (take k deliveries) ++ last) (connection_new cfg) = (returned r, s'))
      /\ returns r
      /\ now <= e <= latest
      /\ (logging_in (current (state s')) = true \/ e <= now + 3 * (read_timeout cfg + slowest))
  | None =>
      exists k sent reply t, reply <> []
        /\ sent ++ reply `prefix_of` wire (snd (run (map arrival (take k deliveries)) (connection_new cfg)))
        /\ now <= t <= latest
        /\ flushed t (len (sent ++ reply)) = None
  end.
Proof.
  cbv zeta. pose proof (slow_run_is_run flushed slowest cfg now deliveries HT Hflushed) as Hr.
  pose proof (slow_run_brief flushed slowest cfg now deliveries HT Hflushed) as Hb.
  pose proof (slow_loop_stuck flushed slowest (S (pending (map arrival deliveries) (connection_new cfg)))
    Hflushed now deliveries (connection_new cfg) HT ltac:(lia)) as Hs.
  unfold slow_run in *. destruct (slow_loop _ _ _ _ _) as [[[r e] s']|]; [|by apply Hs].
  by destruct Hr as (? & ? & ?).
Qed.

(** C20: The read timeout does not cover replies.  A client that has sent its
    handshake and its Login Start, with the Login Start repeated [n] times, and
    that never reads, keeps its connection, and the task and permit with it, for
    ever and whatever the read timeout, as soon as the replies exceed the
    [capacity] of its socket buffer; and every capacity is exceeded by enough
    repeats.  As long as the replies fit, they are all sent and the connection
    ends with the read timeout. *)
Theorem unread_reply_holds `{ExternalsLaws} (cfg : ServerConfig) (h : Handshake) (start : LoginStart)
    (t : Z) (again announcement success : list byte) (n : nat) (capacity now : Z)
    (deliveries : list (Z * Delivery))
    (Hok : packet_ok h = true) (Hnext : next_state h <> NextState_Status)
    (Hstart : packet_ok start = true) (Hname : validate_username (name start) = Ok tt)
    (Hconfig : config_threshold cfg = Some t) (Ht : 0 <= t < 2 ^ 31)
    (Hflush : forall bs, flush_error bs = None)
    (Hagain : frame_payload deflate (Some t) (raw_payload start) = Ok again)
    (Hlen : len again <= MAX_PACKET_SIZE)
    (Hannounce : frame_payload deflate (Some t) (raw_payload (mkSetCompression t)) = Ok announcement)
    (Hsuccess : frame_payload deflate (Some t) (raw_payload (login_success (name start))) = Ok success)
    (HT : 0 <= read_timeout cfg) (Hcapacity : 0 <= capacity)
    (Hdelivered : delivered now deliveries)
    (Hstream : stream (map arrival deliveries)
      = (enc_frame (raw_payload h) ++ enc_frame (raw_payload start) ++ copies n (enc_frame again), None)) :
  let replies := enc_frame (raw_payload (mkSetCompression t)) ++ enc_frame success
                 ++ copies n (enc_frame announcement ++ enc_frame success) in
  let held := slow_run (unread capacity) now deliveries (connection_new cfg) in
  (capacity < len replies -> held = None)
  /\ (capacity < Z.of_nat n -> held = None)
  /\ (len replies <= capacity -> exists s',
       held = Some (Err NetError_Timeout, now + read_timeout cfg, s') /\ wire s' = replies).
Proof.
  cbv zeta. destruct (run_again cfg h start t again announcement success n (map arrival deliveries))
    as (s' & Hr & Hw & _); try done.
  rewrite (slow_run_unread cfg capacity now deliveries s' HT Hcapacity Hdelivered Hr), Hw.
  split_and!; intros Hc.
  - by rewrite (proj2 (Z.leb_gt _ _)).
  - rewrite (proj2 (Z.leb_gt _ _)); [done|]. rewrite !len_app, len_copies, len_app.
    pose proof (len_enc_frame announcement). pose proof (len_enc_frame success).
    pose proof (len_nonneg (enc_frame (raw_payload (mkSetCompression t)))). nia.
  - rewrite (proj2 (Z.leb_le _ _)) by done. by exists s'.
Qed.

(** ** Witnesses *)

#[local] Existing Instance stored_externals.
#[local] Existing Instance stored_laws.

(** A status request all at once, over a socket that accepts ten bytes a second. *)
Definition ten_a_second (now n : Z) : option Z := Some (now + Z.min 20 (Z.max 0 n / 10)).
Definition asking : list (Z * Delivery) := [(1, Deliver_bytes (status_bytes sample_handshake 7))].

Example a_reply_takes_its_time :
  match slow_run ten_a_second 0 asking (connection_new server_config_default),
        slow_run at_once 0 asking (connection_new server_config_default) with
  | Some (r, e, _), Some (r', e', _) => r = Ok tt /\ r' = Ok tt /\ e' = 1 /\ 1 < e
  | _, _ => False
  end.
Proof. vm_compute. done. Qed.

(** A socket buffer of a kilobyte takes the answer to a status request, whether it
    is read or not; one of ten bytes does not. *)
Example a_reply_that_fits :
  slow_run (unread 1024) 0 asking (connection_new server_config_default)
  = slow_run at_once 0 asking (connection_new server_config_default)
  /\ slow_run (unread 10) 0 asking (connection_new server_config_default) = None
  /\ slow_run (unread 0) 0 dripping (connection_new server_config_default) <> None.
Proof. by vm_compute. Qed.

Lemma slow_peers_spec_witness :
  let latest := 0 + (30 + 20)
    * (1 + Z.of_nat (pending (map arrival asking) (connection_new server_config_default))) in
  match slow_run ten_a_second 0 asking (connection_new server_config_default) with
  | Some (r, e, s') =>
      (exists k last, (last = [] \/ last = [Arrival_timeout])
         /\ run (map arrival (take k asking) ++ last) (connection_new server_config_default)
            = (returned r, s'))
      /\ returns r
      /\ 0 <= e <= latest
      /\ (logging_in (current (state s')) = true \/ e <= 0 + 3 * (30 + 20))
  | None =>
      exists k sent reply t, reply <> []
        /\ sent ++ reply
           `prefix_of` wire (snd (run (map arrival (take k asking)) (connection_new server_config_default)))
        /\ 0 <= t <= latest
        /\ ten_a_second t (len (sent ++ reply)) = None
  end.
Proof.
  apply (slow_peers_spec ten_a_second 20 server_config_default 0 asking); [discriminate|].
  split; [discriminate|]. intros now n t [= <-].
  pose proof (Z.div_pos (Z.max 0 n) 10). lia.
Defined.

(** Three repeats of a Login Start, and a socket buffer of a hundred bytes. *)
Definition repeating : list (Z * Delivery) :=
  [(0, Deliver_bytes (enc_frame (raw_payload login_handshake)));
   (1, Deliver_bytes (enc_frame (raw_payload login_start) ++ copies 3 (enc_frame start_again)))].

Lemma unread_reply_holds_witness :
  let replies := enc_frame (raw_payload (mkSetCompression 256)) ++ enc_frame success_payload
                 ++ copies 3 (enc_frame announce_again ++ enc_frame success_payload) in
  let held := slow_run (unread 100) 1 repeating (connection_new server_config_default) in
  100 < len replies /\ held = None.
Proof.
  cbv zeta. assert (100 < len (enc_frame (raw_payload (mkSetCompression 256)) ++ enc_frame success_payload
    ++ copies 3 (enc_frame announce_again ++ enc_frame success_payload))) as Hfull by reflexivity.
  split; [exact Hfull|]. revert Hfull.
  apply (unread_reply_holds server_config_default login_handshake login_start 256 start_again
    announce_again success_payload 3 100 1 repeating); try reflexivity; try discriminate.
  - split; [discriminate|reflexivity].
  - repeat constructor; discriminate.
Defined.
