(* ===== verification/Server.v ===== *)
(** * The accept loop ([crates/net/src/server.rs]).

    Admission control and draining, as a machine driven by events: a socket
    accepted, an accept that failed, a task that drops its permit, a task that
    ends.  The scheduler decides the order of events; every order is covered. *)

From S2P Require Import Prelude.
From stdpp Require Import base list numbers.

Open Scope Z_scope.

Record ServeOptions := mkServeOptions { max_connections : Z; shutdown_grace : Z }.

Definition serve_options_default : ServeOptions := mkServeOptions 1000 5.

Record ServeOutcome := mkServeOutcome {
  outcome_accepted : Z;
  outcome_refused : Z;
  drained : bool;
  abandoned : Z;
}.

(** A task of the [JoinSet]: serving its connection with its permit, past the
    [drop(permit)] that ends [run_connection], or ended and not yet joined. *)
Inductive Task := Task_running | Task_released | Task_done.

#[export] Instance Task_eq_dec : EqDecision Task.
Proof. solve_decision. Defined.

(** The variables of [serve]; the counters are [u64]. *)
Record Server := mkServer {
  permits : Z;
  connections : list Task;
  accepted : Z;
  refused : Z;
}.

Definition server_start (options : ServeOptions) : Server :=
  mkServer (max_connections options) [] 0 0.

(** [while connections.try_join_next().is_some() {}]. *)
Definition reap (ts : list Task) : list Task := filter (fun t => t <> Task_done) ts.

(** The [Ok] arm of [listener.accept()]. *)
Definition accept (s : Server) : Server :=
  let ts := reap (connections s) in
  if permits s <=? 0
  then mkServer (permits s) ts (accepted s) (wrap 64 (refused s + 1))
  else mkServer (permits s - 1) (ts ++ [Task_running]) (wrap 64 (accepted s + 1)) (refused s).

(** [drop(permit)] at the end of [run_connection], and the end of the task. *)
Definition release (i : nat) (s : Server) : option Server :=
  match connections s !! i with
  | Some Task_running =>
      Some (mkServer (permits s + 1) (<[i:=Task_released]> (connections s)) (accepted s) (refused s))
  | _ => None
  end.

Definition finish (i : nat) (s : Server) : option Server :=
  match connections s !! i with
  | Some Task_released =>
      Some (mkServer (permits s) (<[i:=Task_done]> (connections s)) (accepted s) (refused s))
  | _ => None
  end.

(** What can happen while the loop runs. *)
Inductive Event :=
  | Event_accept
  | Event_accept_error
  | Event_release (i : nat)
  | Event_finish (i : nat).

Definition apply_event (e : Event) (s : Server) : option Server :=
  match e with
  | Event_accept => Some (accept s)
  | Event_accept_error => Some s
  | Event_release i => release i s
  | Event_finish i => finish i s
  end.

Fixpoint serve_loop (events : list Event) (s : Server) : option Server :=
  match events with
  | [] => Some s
  | e :: es => match apply_event e s with Some s' => serve_loop es s' | None => None end
  end.

(** One turn of [join_next]: a task that has ended leaves the set. *)
Definition join (i : nat) (s : Server) : option Server :=
  match connections s !! i with
  | Some Task_done => Some (mkServer (permits s) (delete i (connections s)) (accepted s) (refused s))
  | _ => None
  end.

Inductive DrainEvent :=
  | Drain_release (i : nat)
  | Drain_finish (i : nat)
  | Drain_join (i : nat).

Definition apply_drain (e : DrainEvent) (s : Server) : option Server :=
  match e with
  | Drain_release i => release i s
  | Drain_finish i => finish i s
  | Drain_join i => join i s
  end.

Fixpoint drain_loop (events : list DrainEvent) (s : Server) : option Server :=
  match events with
  | [] => Some s
  | e :: es => match apply_drain e s with Some s' => drain_loop es s' | None => None end
  end.

(** [drain]: [expired] tells whether the grace period ran out first; joining to
    the end is only possible once the set is empty. *)
Definition drain (events : list DrainEvent) (expired : bool) (s : Server) : option (bool * Z) :=
  let s := mkServer (permits s) (reap (connections s)) (accepted s) (refused s) in
  match connections s with
  | [] => Some (true, 0)
  | _ =>
    match drain_loop events s with
    | None => None
    | Some s' =>
      if expired then Some (false, len (connections s'))
      else match connections s' with [] => Some (true, 0) | _ => None end
    end
  end.

(** [serve]: the loop until the shutdown future completes, then [drain]. *)
Definition serve (options : ServeOptions) (events : list Event) (drain_events : list DrainEvent)
    (expired : bool) : option ServeOutcome :=
  match serve_loop events (server_start options) with
  | None => None
  | Some s =>
    match drain drain_events expired s with
    | None => None
    | Some (drained, abandoned) => Some (mkServeOutcome (accepted s) (refused s) drained abandoned)
    end
  end.

(** ** The invariant *)

Definition running (ts : list Task) : Z := len (filter (fun t => t = Task_running) ts).

(** Every permit is either free or held by a running task. *)
Definition server_inv (options : ServeOptions) (s : Server) : Prop :=
  0 <= permits s /\ permits s + running (connections s) = max_connections options.

Fixpoint accepts (events : list Event) : Z :=
  match events with
  | [] => 0
  | Event_accept :: es => 1 + accepts es
  | _ :: es => accepts es
  end.

(** ** Lemmas *)

Lemma running_cons t ts : running (t :: ts) = (if decide (t = Task_running) then 1 else 0) + running ts.
Proof. unfold running. rewrite filter_cons. case_decide; rewrite ?len_cons; lia. Qed.

Lemma running_app ts ts' : running (ts ++ ts') = running ts + running ts'.
Proof. unfold running. by rewrite list.filter_app, len_app. Qed.

Lemma running_nonneg ts : 0 <= running ts.
Proof. apply len_nonneg. Qed.

Lemma running_reap ts : running (reap ts) = running ts.
Proof.
  induction ts as [|[] ts IH]; [done|..].
  - change (reap (Task_running :: ts)) with (Task_running :: reap ts). by rewrite !running_cons, IH.
  - change (reap (Task_released :: ts)) with (Task_released :: reap ts). by rewrite !running_cons, IH.
  - change (reap (Task_done :: ts)) with (reap ts). by rewrite running_cons, IH.
Qed.

Lemma running_insert ts i t t' :
  ts !! i = Some t ->
  running (<[i:=t']> ts) = running ts - (if decide (t = Task_running) then 1 else 0)
    + (if decide (t' = Task_running) then 1 else 0).
Proof.
  revert i. induction ts as [|u ts IH]; intros [|i] Hi; try done; cbn in Hi.
  - simplify_eq. change (<[0%nat:=t']> (t :: ts)) with (t' :: ts). rewrite !running_cons. lia.
  - change (<[S i:=t']> (u :: ts)) with (u :: <[i:=t']> ts). rewrite !running_cons, (IH _ Hi). lia.
Qed.

Lemma running_le ts : running ts <= len ts.
Proof. unfold running, len. apply inj_le, length_filter. Qed.

Lemma server_inv_accept options s : server_inv options s -> server_inv options (accept s).
Proof.
  intros [Hp Hr]. unfold accept, server_inv. destruct (Z.leb_spec (permits s) 0); cbn.
  - by rewrite running_reap.
  - rewrite running_app, running_reap, running_cons, decide_True by done.
    change (running []) with 0. lia.
Qed.

Lemma release_spec i s s' :
  release i s = Some s' ->
  permits s' + running (connections s') = permits s + running (connections s)
  /\ permits s < permits s' /\ accepted s' = accepted s /\ refused s' = refused s
  /\ length (connections s') = length (connections s).
Proof.
  unfold release. destruct (connections s !! i) as [[]|] eqn:E; try done. intros [= <-].
  cbn [permits connections accepted refused]. rewrite (running_insert _ _ _ _ E), length_insert.
  rewrite decide_True, decide_False by done. split_and!; lia.
Qed.

Lemma finish_spec i s s' :
  finish i s = Some s' ->
  permits s' = permits s /\ running (connections s') = running (connections s)
  /\ accepted s' = accepted s /\ refused s' = refused s
  /\ length (connections s') = length (connections s).
Proof.
  unfold finish. destruct (connections s !! i) as [[]|] eqn:E; try done. intros [= <-].
  cbn [permits connections accepted refused]. rewrite (running_insert _ _ _ _ E), length_insert.
  rewrite !decide_False by done. split_and!; lia.
Qed.

Lemma server_inv_event options e s s' :
  apply_event e s = Some s' -> server_inv options s -> server_inv options s'.
Proof.
  intros He Hinv. destruct e as [| |i|i]; cbn in He; simplify_eq; try done.
  - by apply server_inv_accept.
  - apply release_spec in He as (? & ? & _). unfold server_inv in *. lia.
  - apply finish_spec in He as (? & ? & _). unfold server_inv in *. lia.
Qed.

Lemma serve_loop_inv options events : forall s s',
  serve_loop events s = Some s' -> server_inv options s -> server_inv options s'.
Proof.
  induction events as [|e es IH]; intros s s' Hl Hinv; cbn in Hl; [by simplify_eq|].
  destruct (apply_event e s) as [s1|] eqn:E; [|done]. eapply IH; [exact Hl|].
  by eapply server_inv_event.
Qed.

Lemma running_delete ts i t :
  ts !! i = Some t -> running (delete i ts) = running ts - (if decide (t = Task_running) then 1 else 0).
Proof.
  revert i. induction ts as [|u ts IH]; intros [|i] Hi; try done; cbn in Hi.
  - simplify_eq. change (delete 0%nat (t :: ts)) with ts. rewrite running_cons. lia.
  - change (delete (S i) (u :: ts)) with (u :: delete i ts). rewrite !running_cons, (IH _ Hi). lia.
Qed.

Lemma server_inv_drain options events : forall s s',
  drain_loop events s = Some s' -> server_inv options s -> server_inv options s'.
Proof.
  induction events as [|e es IH]; intros s s' Hl Hinv; cbn in Hl; [by simplify_eq|].
  destruct (apply_drain e s) as [s1|] eqn:E; [|done]. apply (IH _ _ Hl).
  destruct e as [i|i|i]; cbn in E.
  - by apply (server_inv_event options (Event_release i) s).
  - by apply (server_inv_event options (Event_finish i) s).
  - unfold join in E. destruct (connections s !! i) as [[]|] eqn:Ei; try done. simplify_eq.
    unfold server_inv in *. cbn [permits connections]. rewrite (running_delete _ _ _ Ei).
    rewrite decide_False by done. lia.
Qed.

Lemma reap_length ts : (length (reap ts) <= length ts)%nat.
Proof. apply length_filter. Qed.

Lemma drain_loop_length events : forall s s',
  drain_loop events s = Some s' -> (length (connections s') <= length (connections s))%nat.
Proof.
  induction events as [|e es IH]; intros s s' Hl; cbn in Hl; [by simplify_eq|].
  destruct (apply_drain e s) as [s1|] eqn:E; [|done]. apply IH in Hl.
  destruct e as [i|i|i]; cbn in E.
  - apply release_spec in E. lia.
  - apply finish_spec in E. lia.
  - unfold join in E. destruct (connections s !! i) as [[]|] eqn:Ei; try done. simplify_eq. cbn in *.
    pose proof (length_delete (connections s) i ltac:(by eexists)). lia.
Qed.

Lemma accepts_nonneg events : 0 <= accepts events.
Proof. induction events as [|[] es]; cbn; lia. Qed.

(** The counters, as long as they do not overflow. *)
Lemma serve_loop_counts events : forall s s' n,
  serve_loop events s = Some s' ->
  0 <= accepted s -> 0 <= refused s -> accepted s + refused s = n -> n + accepts events < 2 ^ 64 ->
  len (connections s) <= accepted s ->
  accepted s' + refused s' = n + accepts events /\ 0 <= accepted s' /\ 0 <= refused s'
  /\ len (connections s') <= accepted s'.
Proof.
  induction events as [|e es IH]; intros s s' n Hl Ha Hr Hn Hb Hc; cbn in Hl.
  - simplify_eq. change (accepts []) with 0. split_and!; lia.
  - destruct (apply_event e s) as [s1|] eqn:E; [|done]. pose proof (accepts_nonneg es).
    destruct e as [| |i|i]; cbn in E; cbn [accepts] in *.
    + simplify_eq.
      assert (accepted (accept s) + refused (accept s) = accepted s + refused s + 1
        /\ 0 <= accepted (accept s) /\ 0 <= refused (accept s)
        /\ len (connections (accept s)) <= accepted (accept s)) as (? & ? & ? & ?).
      { unfold accept. pose proof (reap_length (connections s)) as Hl'. unfold len in *.
        case_match; cbn; unfold wrap; rewrite Z.mod_small by lia; rewrite ?length_app; cbn; lia. }
      destruct (IH _ _ (accepted s + refused s + 1) Hl) as (? & ? & ? & ?); try lia.
    + simplify_eq. by apply (IH s1 s').
    + apply release_spec in E as (_ & _ & E1 & E2 & E3).
      unfold len in *. apply (IH s1 s'); try done; lia.
    + apply finish_spec in E as (_ & _ & E1 & E2 & E3).
      unfold len in *. apply (IH s1 s'); try done; lia.
Qed.

Lemma serve_counts (options : ServeOptions) (events : list Event)
    (drain_events : list DrainEvent) (expired : bool) (o : ServeOutcome) :
  0 <= max_connections options -> accepts events < 2 ^ 64 ->
  serve options events drain_events expired = Some o ->
  outcome_accepted o + outcome_refused o = accepts events
  /\ 0 <= outcome_accepted o /\ 0 <= outcome_refused o
  /\ (drained o = true -> abandoned o = 0)
  /\ 0 <= abandoned o <= outcome_accepted o.
Proof.
  intros Hmax Hcount Hserve. unfold serve in Hserve. destruct (serve_loop events (server_start options)) as [s|] eqn:E; [|done].
  destruct (serve_loop_counts events (server_start options) s 0 E) as (Ha & Hb & Hc & Hd);
    try (cbn; lia); [done|].
  destruct (drain drain_events expired s) as [[d a]|] eqn:Ed; [|done]. simplify_eq. cbn.
  unfold drain in Ed. cbn [connections permits accepted refused] in Ed.
  pose proof (reap_length (connections s)) as Hl.
  destruct (reap (connections s)) as [|t ts] eqn:Er; [injection Ed as <- <-; split_and!; lia || done|].
  destruct (drain_loop _ _) as [s'|] eqn:El; [|done].
  apply drain_loop_length in El. cbn [connections] in El.
  destruct expired.
  - injection Ed as <- <-. unfold len in *. split_and!; lia || done.
  - destruct (connections s'); [|done]. injection Ed as <- <-. split_and!; lia || done.
Qed.

(** ** Properties *)

(** C29: admission control: however connections arrive and end, permits are
    never lost nor created.  The free permits and the connections being served
    add up to the configured maximum, so no more than that many are ever served
    at once, and once all have ended every permit is back. *)
Theorem permits_conserved (options : ServeOptions) (events : list Event) (s : Server)
    (Hmax : 0 <= max_connections options)
    (Hrun : serve_loop events (server_start options) = Some s) :
  permits s + running (connections s) = max_connections options
  /\ running (connections s) <= max_connections options
  /\ (running (connections s) = 0 -> permits s = max_connections options).
Proof.
  assert (server_inv options (server_start options)) as Hi
    by (split; cbn; [done|change (running []) with 0; lia]).
  destruct (serve_loop_inv _ _ _ _ Hrun Hi) as [Hp Hr]. split_and!; lia.
Qed.

(** A connection is refused exactly when the cap is reached: accepting at
    the cap counts a refusal, starts no task and takes no permit; accepting
    below it starts one task holding one permit and refuses nothing. *)
Theorem accept_spec (options : ServeOptions) (s : Server) (Hinv : server_inv options s) :
  (running (connections s) = max_connections options ->
    accept s = mkServer (permits s) (reap (connections s)) (accepted s) (wrap 64 (refused s + 1)))
  /\ (running (connections s) < max_connections options ->
    accept s = mkServer (permits s - 1) (reap (connections s) ++ [Task_running])
      (wrap 64 (accepted s + 1)) (refused s)
    /\ running (connections (accept s)) = running (connections s) + 1).
Proof.
  destruct Hinv as [Hp Hr]. unfold accept. split; intros Hn.
  - by rewrite (proj2 (Z.leb_le _ _)) by lia.
  - rewrite (proj2 (Z.leb_gt _ _)) by lia. split; [done|]. cbn.
    rewrite running_app, running_reap, running_cons, decide_True by done.
    change (running []) with 0. lia.
Qed.

(** The outcome of a run is truthful: every accepted socket was counted
    once, as admitted or as refused; a run reported as drained left nothing
    behind; and no more connections are reported abandoned than were ever
    admitted. *)
Theorem serve_outcome_spec (options : ServeOptions) (events : list Event)
    (drain_events : list DrainEvent) (expired : bool) (o : ServeOutcome)
    (Hmax : 0 <= max_connections options) (Hcount : accepts events < 2 ^ 64)
    (Hserve : serve options events drain_events expired = Some o) :
  outcome_accepted o + outcome_refused o = accepts events
  /\ 0 <= outcome_accepted o /\ 0 <= outcome_refused o
  /\ (drained o = true -> abandoned o = 0)
  /\ 0 <= abandoned o <= outcome_accepted o.
Proof. by apply (serve_counts options events drain_events expired). Qed.

(** ** Witnesses *)

Definition one_slot : ServeOptions := mkServeOptions 1 5.

(** One client served, a second refused, a third admitted after the first. *)
Definition sample_events : list Event :=
  [Event_accept; Event_accept; Event_accept_error; Event_release 0; Event_finish 0; Event_accept].

Lemma permits_conserved_witness :
  0 + 1 = 1 /\ 1 <= 1 /\ (1 = 0 -> 0 = 1).
Proof.
  apply (permits_conserved one_slot sample_events (mkServer 0 [Task_running] 2 1));
    [discriminate|reflexivity].
Defined.

Lemma accept_spec_witness :
  (1 = 1 -> accept (mkServer 0 [Task_running] 1 0) = mkServer 0 [Task_running] 1 1)
  /\ (1 < 1 -> accept (mkServer 0 [Task_running] 1 0) = mkServer (-1) [Task_running; Task_running] 2 0
      /\ running (connections (accept (mkServer 0 [Task_running] 1 0))) = 1 + 1).
Proof.
  apply (accept_spec one_slot (mkServer 0 [Task_running] 1 0)). split; [discriminate|reflexivity].
Defined.

Lemma serve_outcome_spec_witness :
  2 + 1 = 3 /\ 0 <= 2 /\ 0 <= 1 /\ (false = true -> 1 = 0) /\ 0 <= 1 <= 2.
Proof.
  apply (serve_outcome_spec one_slot sample_events [] true (mkServeOutcome 2 1 false 1));
    [discriminate|reflexivity|reflexivity].
Defined.

(** The same run, given time to drain. *)
Example serve_drains :
  serve one_slot sample_events [Drain_release 0; Drain_finish 0; Drain_join 0] false
  = Some (mkServeOutcome 2 1 true 0).
Proof. reflexivity. Qed.
