(* ===== verification/Host.v ===== *)
(** * The accept loop with its connections ([crates/net/src/server.rs]).

    [Server] models a task as one bit of state; here a task is a connection and
    what its peer is still to send, and it runs in turns that the scheduler
    interleaves with those of every other task.  The file relates the two, and
    shows that connections do not disturb one another, that none of them can bring
    the server down, and that draining ends. *)

From S2P Require Import Prelude Utf8 Buffers ProtocolError Varint Fields Packets Codec ConnState Offline Connection Session Server.
From stdpp Require Import base list numbers strings relations.
From Stdlib Require Import Strings.Byte.

Open Scope Z_scope.

(** ** One turn of a connection *)

Section Turn.
Context `{Externals}.

(** One iteration of the loop of [Connection::run]: [None] when the peer has
    to send more first; otherwise what [run] returned, if it did, what the peer
    is still to send, and the connection. *)
Definition turn (arrivals : list Arrival) (s : Connection) :
    option (option (outcome NetError unit) * list Arrival * Connection) :=
  let '(next, arrivals', s') := next_frame arrivals s in
  match next with
  | Next_waiting => None
  | Next_timeout => Some (Some (Err NetError_Timeout), arrivals', s')
  | Next_closed => Some (Some (Ok tt), arrivals', s')
  | Next_error e => Some (Some (Err (NetError_Protocol e)), arrivals', s')
  | Next_panic => Some (Some Panic, arrivals', s')
  | Next_frame frame =>
    let (r, s'') := handle frame s' in
    Some (match r with
          | Ok Flow_Close => Some (Ok tt)
          | Ok Flow_Continue => None
          | Err e => Some (Err e)
          | Panic => Some Panic
          | Diverge => Some Diverge
          end, arrivals', s'')
  end.
End Turn.

(** ** The host: the variables of [serve], tasks with their connections *)

Inductive LogLevel := Level_debug | Level_warn.

(** What [run_connection] logs when [run] has returned. *)
Definition log_line (r : outcome NetError unit) : list (LogLevel * NetError) :=
  match r with
  | Err error => [(if is_transport_noise error then Level_debug else Level_warn, error)]
  | _ => []
  end.

(** A task of the [JoinSet]; [peer] is everything its socket ever delivers. *)
Inductive HostTask :=
  | Host_serving (peer rest : list Arrival) (c : Connection)
  | Host_released (peer : list Arrival) (r : outcome NetError unit) (c : Connection)
  | Host_ended (peer : list Arrival) (r : outcome NetError unit) (c : Connection).

Definition has_ended (t : HostTask) : bool :=
  match t with Host_ended _ _ _ => true | _ => false end.

Record Host := mkHost {
  host_permits : Z;
  tasks : list HostTask;
  host_accepted : Z;
  host_refused : Z;
  log : list (LogLevel * NetError);
}.

Definition host_start (options : ServeOptions) : Host := mkHost (max_connections options) [] 0 0 [].

(** [while connections.try_join_next().is_some() {}]. *)
Definition host_reap (ts : list HostTask) : list HostTask := filter (fun t => has_ended t = false) ts.

Inductive HostEvent :=
  | Host_accept (peer : list Arrival)
  | Host_accept_error
  | Host_turn (i : nat)
  | Host_finish (i : nat)
  | Host_join (i : nat).

Section Host.
Context `{Externals} (cfg : ServerConfig).

(** The [Ok] arm of [listener.accept()]. *)
Definition host_accept (peer : list Arrival) (h : Host) : Host :=
  let ts := host_reap (tasks h) in
  if host_permits h <=? 0
  then mkHost (host_permits h) ts (host_accepted h) (wrap 64 (host_refused h + 1)) (log h)
  else mkHost (host_permits h - 1) (ts ++ [Host_serving peer peer (connection_new cfg)])
         (wrap 64 (host_accepted h + 1)) (host_refused h) (log h).

(** A task runs until it waits again: one turn, and if that ended [run], the
    rest of [run_connection], down to [drop(permit)]. *)
Definition host_turn (i : nat) (h : Host) : option Host :=
  match tasks h !! i with
  | Some (Host_serving peer rest c) =>
    match turn rest c with
    | None => None
    | Some (None, rest', c') =>
      Some (mkHost (host_permits h) (<[i := Host_serving peer rest' c']> (tasks h))
              (host_accepted h) (host_refused h) (log h))
    | Some (Some r, _, c') =>
      Some (mkHost (host_permits h + 1) (<[i := Host_released peer r c']> (tasks h))
              (host_accepted h) (host_refused h) (log h ++ log_line r))
    end
  | _ => None
  end.

Definition host_finish (i : nat) (h : Host) : option Host :=
  match tasks h !! i with
  | Some (Host_released peer r c) =>
    Some (mkHost (host_permits h) (<[i := Host_ended peer r c]> (tasks h))
            (host_accepted h) (host_refused h) (log h))
  | _ => None
  end.

(** One turn of [join_next]. *)
Definition host_join (i : nat) (h : Host) : option Host :=
  match tasks h !! i with
  | Some (Host_ended _ _ _) =>
    Some (mkHost (host_permits h) (delete i (tasks h)) (host_accepted h) (host_refused h) (log h))
  | _ => None
  end.

(** What can happen in the accept loop, and what can happen while draining. *)
Definition host_event (e : HostEvent) (h : Host) : option Host :=
  match e with
  | Host_accept peer => Some (host_accept peer h)
  | Host_accept_error => Some h
  | Host_turn i => host_turn i h
  | Host_finish i => host_finish i h
  | Host_join _ => None
  end.

Definition host_drain_event (e : HostEvent) (h : Host) : option Host :=
  match e with
  | Host_turn i => host_turn i h
  | Host_finish i => host_finish i h
  | Host_join i => host_join i h
  | _ => None
  end.

Fixpoint host_steps (step : HostEvent -> Host -> option Host) (events : list HostEvent) (h : Host) :
    option Host :=
  match events with
  | [] => Some h
  | e :: es => match step e h with Some h' => host_steps step es h' | None => None end
  end.

Definition host_loop : list HostEvent -> Host -> option Host := host_steps host_event.
Definition host_drain_loop : list HostEvent -> Host -> option Host := host_steps host_drain_event.

(** [drain] reaps first, so that it counts live connections. *)
Definition host_reaped (h : Host) : Host :=
  mkHost (host_permits h) (host_reap (tasks h)) (host_accepted h) (host_refused h) (log h).

Definition host_drain (events : list HostEvent) (expired : bool) (h : Host) : option (bool * Z) :=
  let h := host_reaped h in
  match tasks h with
  | [] => Some (true, 0)
  | _ =>
    match host_drain_loop events h with
    | None => None
    | Some h' =>
      if expired then Some (false, len (tasks h'))
      else match tasks h' with [] => Some (true, 0) | _ => None end
    end
  end.

Definition host_serve (options : ServeOptions) (events drain_events : list HostEvent)
    (expired : bool) : option ServeOutcome :=
  match host_loop events (host_start options) with
  | None => None
  | Some h =>
    match host_drain drain_events expired h with
    | None => None
    | Some (drained, abandoned) =>
      Some (mkServeOutcome (host_accepted h) (host_refused h) drained abandoned)
    end
  end.
End Host.

(** ** A connection in turns is [run] *)

Section Turns.
Context `{ExternalsLaws}.

Lemma run_turn arrivals s :
  match turn arrivals s with
  | None => fst (run arrivals s) = Ok false
  | Some (Some r, _, s') => run arrivals s = (returned r, s')
  | Some (None, arrivals', s') => run arrivals s = run arrivals' s'
      /\ (pending arrivals' s' < pending arrivals s)%nat
  end.
Proof.
  change (run arrivals s) with (run_loop (S (pending arrivals s)) arrivals s).
  unfold turn. cbn [run_loop]. pose proof (next_frame_spec arrivals s) as Hs.
  destruct (next_frame arrivals s) as [[next arrivals'] s']. destruct Hs as (_ & _ & Hdec).
  destruct next as [frame| | | | |]; try done. specialize (Hdec frame eq_refl).
  pose proof (always_handle frame s') as [_ He]. unfold bind.
  destruct (handle frame s') as [[[]|e| |] s'']; try done. cbn [snd] in He.
  pose proof (evolves_read _ _ He) as Hr.
  assert (pending arrivals' s'' = pending arrivals' s') as Hp by (unfold pending; by rewrite Hr).
  split; [apply run_loop_fuel; lia|lia].
Qed.

(** A peer whose transmissions end in a definite way: it hangs up, its socket
    fails, or it falls silent past the timeout. *)
Definition complete (arrivals : list Arrival) : Prop := snd (stream arrivals) <> None.

(** Such a peer never leaves a connection waiting, and stays such. *)
Lemma turn_complete arrivals s :
  complete arrivals ->
  match turn arrivals s with
  | None => False
  | Some (None, arrivals', _) => complete arrivals'
  | Some (Some _, _, _) => True
  end.
Proof.
  unfold complete, turn. destruct (stream arrivals) as [l e] eqn:Hl. cbn [snd]. intros He.
  pose proof (next_frame_stream arrivals s l e Hl) as Hn.
  assert (forall bs, e <> Some (Arrival_bytes bs)) as Hb.
  { clear -Hl. revert l e Hl. induction arrivals as [|[bs| |r|] arrivals IH]; cbn; intros l e Hl bs';
      simplify_eq; try done. destruct (stream arrivals) as [l' e']. simplify_eq. by eapply IH. }
  destruct (next_frame arrivals s) as [[next arrivals'] s'].
  destruct (front _) as [reason|missing|frame rest].
  - by subst next.
  - subst next. destruct e as [[bs| |reason|]|]; try done; try (by destruct (_ =? 0)).
    by destruct (Hb bs).
  - destruct (open_frame _ _ _) as [packet|reason| |]; try by subst next.
    destruct Hn as [-> (l' & Hl' & _)]. destruct (handle packet s') as [[[]|e'| |] s'']; try done.
    by rewrite Hl'.
Qed.
End Turns.

(** ** The host refines the accept loop of [Server] *)

(** A task as [Server] sees it. *)
Definition forget (t : HostTask) : Task :=
  match t with
  | Host_serving _ _ _ => Task_running
  | Host_released _ _ _ => Task_released
  | Host_ended _ _ _ => Task_done
  end.

Definition server_of (h : Host) : Server :=
  mkServer (host_permits h) (map forget (tasks h)) (host_accepted h) (host_refused h).

(** The sockets accepted by a run of the loop. *)
Fixpoint host_accepts (events : list HostEvent) : Z :=
  match events with
  | [] => 0
  | Host_accept _ :: es => 1 + host_accepts es
  | _ :: es => host_accepts es
  end.

Lemma forget_reap ts : map forget (host_reap ts) = reap (map forget ts).
Proof.
  induction ts as [|[p r c|p r c|p r c] ts IH]; [done|..].
  - change (host_reap (Host_serving p r c :: ts)) with (Host_serving p r c :: host_reap ts).
    change (reap (map forget (Host_serving p r c :: ts))) with (Task_running :: reap (map forget ts)).
    cbn [map forget]. by rewrite IH.
  - change (host_reap (Host_released p r c :: ts)) with (Host_released p r c :: host_reap ts).
    change (reap (map forget (Host_released p r c :: ts))) with (Task_released :: reap (map forget ts)).
    cbn [map forget]. by rewrite IH.
  - exact IH.
Qed.

Lemma forget_insert ts i t : map forget (<[i := t]> ts) = <[i := forget t]> (map forget ts).
Proof. apply (list_fmap_insert forget). Qed.

Lemma forget_lookup ts i t : ts !! i = Some t -> map forget ts !! i = Some (forget t).
Proof. intros Hi. pose proof (list_lookup_fmap forget ts i) as Hm. rewrite Hi in Hm. exact Hm. Qed.

Lemma forget_delete ts i : map forget (delete i ts) = delete i (map forget ts).
Proof. apply (list_fmap_delete forget). Qed.

Section Refines.
Context `{Externals} (cfg : ServerConfig).

Lemma host_accept_refines peer h : server_of (host_accept cfg peer h) = accept (server_of h).
Proof.
  unfold host_accept, accept. cbn [permits server_of connections accepted refused].
  rewrite <- forget_reap. destruct (host_permits h <=? 0); [done|].
  unfold server_of. cbn. by rewrite map_app.
Qed.

(** A turn that does not end its connection does not show. *)
Lemma host_turn_refines i h h' :
  host_turn i h = Some h' ->
  server_of h' = server_of h \/ release i (server_of h) = Some (server_of h').
Proof.
  unfold host_turn, release. destruct (tasks h !! i) as [[p r c| |]|] eqn:E; try done.
  apply forget_lookup in E as E'. cbn [connections server_of]. rewrite E'. cbn [forget].
  destruct (turn r c) as [[[[res|] rest] c']|]; intros [= <-]; unfold server_of; cbn.
  - right. by rewrite forget_insert.
  - left. rewrite forget_insert. cbn [forget]. by rewrite list_insert_id.
Qed.

Lemma host_finish_refines i h h' :
  host_finish i h = Some h' -> finish i (server_of h) = Some (server_of h').
Proof.
  unfold host_finish, finish. destruct (tasks h !! i) as [[|p r c|]|] eqn:E; try done.
  apply forget_lookup in E. cbn [connections server_of]. rewrite E. cbn [forget].
  intros [= <-]. unfold server_of. cbn. by rewrite forget_insert.
Qed.

Lemma host_join_refines i h h' :
  host_join i h = Some h' -> Server.join i (server_of h) = Some (server_of h').
Proof.
  unfold host_join, Server.join. destruct (tasks h !! i) as [[| |p r c]|] eqn:E; try done.
  apply forget_lookup in E. cbn [connections server_of]. rewrite E. cbn [forget].
  intros [= <-]. unfold server_of. cbn. by rewrite forget_delete.
Qed.

Lemma host_loop_refines events : forall h h',
  host_loop cfg events h = Some h' ->
  exists es, serve_loop es (server_of h) = Some (server_of h') /\ accepts es = host_accepts events.
Proof.
  induction events as [|e events IH]; intros h h' Hl; cbn in Hl; [simplify_eq; by exists []|].
  destruct (host_event cfg e h) as [h1|] eqn:E; [|done].
  destruct (IH _ _ Hl) as (es & Hes & Ha). destruct e as [peer| |i|i|i]; cbn in E.
  - simplify_eq. exists (Event_accept :: es). cbn. by rewrite <- (host_accept_refines peer), Ha.
  - simplify_eq. exists (Event_accept_error :: es). by cbn.
  - apply host_turn_refines in E as [E|E]; [rewrite <- E; by exists es|].
    exists (Event_release i :: es). cbn. by rewrite E.
  - apply host_finish_refines in E. exists (Event_finish i :: es). cbn. by rewrite E.
  - done.
Qed.

Lemma host_drain_loop_refines events : forall h h',
  host_drain_loop events h = Some h' ->
  exists es, drain_loop es (server_of h) = Some (server_of h').
Proof.
  induction events as [|e events IH]; intros h h' Hl; cbn in Hl; [simplify_eq; by exists []|].
  destruct (host_drain_event e h) as [h1|] eqn:E; [|done].
  destruct (IH _ _ Hl) as (es & Hes). destruct e as [peer| |i|i|i]; cbn in E; try done.
  - apply host_turn_refines in E as [E|E]; [rewrite <- E; by exists es|].
    exists (Drain_release i :: es). cbn. by rewrite E.
  - apply host_finish_refines in E. exists (Drain_finish i :: es). cbn. by rewrite E.
  - apply host_join_refines in E. exists (Drain_join i :: es). cbn. by rewrite E.
Qed.

Lemma host_drain_refines events expired h r :
  host_drain events expired h = Some r ->
  exists es, drain es expired (server_of h) = Some r.
Proof.
  unfold host_drain, host_reaped, drain. cbn [connections server_of tasks]. rewrite <- forget_reap.
  destruct (host_reap (tasks h)) as [|t ts] eqn:Er; cbn [map].
  { intros [= <-]. by exists []. }
  destruct (host_drain_loop _ _) as [h'|] eqn:El; [|done].
  apply host_drain_loop_refines in El as [es Hes]. intros Hd. exists es.
  unfold server_of at 1 in Hes. cbn [host_permits tasks host_accepted host_refused map] in Hes.
  cbn [permits accepted refused server_of]. rewrite Hes. cbn [connections server_of].
  destruct expired; [|by destruct (tasks h')]. rewrite <- Hd. unfold len. by rewrite length_map.
Qed.
End Refines.

(** ** What holds of every task *)

Definition accepted_peers (events : list HostEvent) : list (list Arrival) :=
  omap (fun e => match e with Host_accept peer => Some peer | _ => None end) events.

(** A predicate of tasks that new connections meet, and that turns and releases
    keep, holds of every task at any time. *)
Section EveryTask.
Context `{Externals} (cfg : ServerConfig) (P : HostTask -> Prop) (peers : list (list Arrival)).

Hypothesis every_accept : forall peer, peer ∈ peers -> P (Host_serving peer peer (connection_new cfg)).
Hypothesis every_turn : forall peer rest c, P (Host_serving peer rest c) ->
  match turn rest c with
  | Some (None, rest', c') => P (Host_serving peer rest' c')
  | Some (Some r, _, c') => P (Host_released peer r c')
  | None => True
  end.
Hypothesis every_finish : forall peer r c, P (Host_released peer r c) -> P (Host_ended peer r c).

Lemma Forall_reap ts : Forall P ts -> Forall P (host_reap ts).
Proof.
  rewrite !Forall_forall. intros Hts t [_ Ht]%list_elem_of_filter. by apply Hts.
Qed.

Lemma every_host_accept peer h :
  peer ∈ peers -> Forall P (tasks h) -> Forall P (tasks (host_accept cfg peer h)).
Proof.
  intros Hp Ht. unfold host_accept. destruct (host_permits h <=? 0); cbn; [by apply Forall_reap|].
  apply Forall_app. split; [by apply Forall_reap|]. constructor; [by apply every_accept|done].
Qed.

Lemma every_host_turn i h h' :
  host_turn i h = Some h' -> Forall P (tasks h) -> Forall P (tasks h').
Proof.
  unfold host_turn. destruct (tasks h !! i) as [[p rest c| |]|] eqn:Ei; try done. intros E Ht.
  pose proof (every_turn _ _ _ (Forall_lookup_1 _ _ _ _ Ht Ei)) as Hturn.
  destruct (turn rest c) as [[[[r|] rest'] c']|]; simplify_eq; by apply Forall_insert.
Qed.

Lemma every_host_finish i h h' :
  host_finish i h = Some h' -> Forall P (tasks h) -> Forall P (tasks h').
Proof.
  unfold host_finish. destruct (tasks h !! i) as [[|p r c|]|] eqn:Ei; try done. intros E Ht.
  simplify_eq. apply Forall_insert; [done|]. apply every_finish. exact (Forall_lookup_1 _ _ _ _ Ht Ei).
Qed.

Lemma every_host_join i h h' :
  host_join i h = Some h' -> Forall P (tasks h) -> Forall P (tasks h').
Proof.
  unfold host_join. destruct (tasks h !! i) as [[| |p r c]|] eqn:Ei; try done. intros E Ht.
  simplify_eq. by apply Forall_delete.
Qed.

Lemma every_host_event e h h' :
  host_event cfg e h = Some h' -> (forall peer, e = Host_accept peer -> peer ∈ peers) ->
  Forall P (tasks h) -> Forall P (tasks h').
Proof.
  destruct e as [peer| |i|i|i]; cbn; intros E Hp; simplify_eq; try done.
  - apply every_host_accept. by apply Hp.
  - by apply every_host_turn with i.
  - by apply every_host_finish with i.
Qed.

Lemma every_host_drain_event e h h' :
  host_drain_event e h = Some h' -> Forall P (tasks h) -> Forall P (tasks h').
Proof.
  destruct e as [peer| |i|i|i]; cbn; try done;
    [apply every_host_turn|apply every_host_finish|apply every_host_join].
Qed.
Lemma every_host_loop events : forall h h',
  host_loop cfg events h = Some h' -> (forall peer, peer ∈ accepted_peers events -> peer ∈ peers) ->
  Forall P (tasks h) -> Forall P (tasks h').
Proof.
  induction events as [|e events IH]; intros h h' Hl Hp Ht; cbn in Hl; [by simplify_eq|].
  destruct (host_event cfg e h) as [h1|] eqn:E; [|done]. apply (IH h1 h' Hl).
  - intros peer Hin. apply Hp. destruct e; cbn; try done. by right.
  - eapply every_host_event; [exact E| |done]. intros peer ->. apply Hp. cbn. by left.
Qed.

Lemma every_host_drain_loop events : forall h h',
  host_drain_loop events h = Some h' -> Forall P (tasks h) -> Forall P (tasks h').
Proof.
  induction events as [|e events IH]; intros h h' Hl Ht; cbn in Hl; [by simplify_eq|].
  destruct (host_drain_event e h) as [h1|] eqn:E; [|done]. apply (IH h1 h' Hl).
  by eapply every_host_drain_event.
Qed.
End EveryTask.

(** ** The permits, seen through [Server] *)

Lemma server_inv_reaped options h :
  server_inv options (server_of h) -> server_inv options (server_of (host_reaped h)).
Proof.
  intros [Hp Hr]. split; [done|]. unfold server_of, host_reaped.
  cbn [permits connections host_permits tasks]. rewrite forget_reap, running_reap. exact Hr.
Qed.

Lemma host_loop_inv `{Externals} cfg options events h :
  0 <= max_connections options -> host_loop cfg events (host_start options) = Some h ->
  server_inv options (server_of h) /\ server_inv options (server_of (host_reaped h)).
Proof.
  intros Hmax (es & Hes & _)%host_loop_refines.
  assert (server_inv options (server_of h)) as Hi.
  { apply (serve_loop_inv options _ _ _ Hes). split; [done|]. change (running _) with 0. cbn. lia. }
  split; [done|by apply server_inv_reaped].
Qed.

Lemma host_drain_loop_inv `{Externals} options events h h' :
  server_inv options (server_of h) -> host_drain_loop events h = Some h' ->
  server_inv options (server_of h').
Proof. intros Hi [ds Hds]%host_drain_loop_refines. exact (server_inv_drain options _ _ _ Hds Hi). Qed.

(** ** Every connection is on its own *)

Section Isolation.
Context `{ExternalsLaws} (cfg : ServerConfig).

Definition peer_of (t : HostTask) : list Arrival :=
  match t with Host_serving p _ _ | Host_released p _ _ | Host_ended p _ _ => p end.

(** What a task has come to is what [run] alone comes to on its socket. *)
Definition alone (t : HostTask) : Prop :=
  match t with
  | Host_serving peer rest c => run rest c = run peer (connection_new cfg)
  | Host_released peer r c | Host_ended peer r c =>
      run peer (connection_new cfg) = (returned r, c)
  end.

(** A line of the log is the error one of the accepted peers ended with. *)
Definition explained (peers : list (list Arrival)) (line : LogLevel * NetError) : Prop :=
  exists peer, peer ∈ peers /\ fst (run peer (connection_new cfg)) = Err (snd line)
    /\ fst line = (if is_transport_noise (snd line) then Level_debug else Level_warn).

Record isolated (peers : list (list Arrival)) (h : Host) : Prop := mkIsolated {
  isolated_tasks : Forall (fun t => alone t /\ peer_of t ∈ peers) (tasks h);
  isolated_log : Forall (explained peers) (log h);
}.

Definition alone_of (peers : list (list Arrival)) (t : HostTask) : Prop :=
  alone t /\ peer_of t ∈ peers.

Lemma alone_turn peers peer rest c :
  alone_of peers (Host_serving peer rest c) ->
  match turn rest c with
  | Some (None, rest', c') => alone_of peers (Host_serving peer rest' c')
  | Some (Some r, _, c') => alone_of peers (Host_released peer r c')
  | None => True
  end.
Proof.
  intros [Ha Hp]. unfold alone_of. cbn [alone peer_of] in *. pose proof (run_turn rest c) as Hrun.
  destruct (turn rest c) as [[[[r|] rest'] c']|]; [|destruct Hrun|done]; (split; [congruence|done]).
Qed.

Lemma explained_line peers peer r c :
  peer ∈ peers -> run peer (connection_new cfg) = (returned r, c) ->
  Forall (explained peers) (log_line r).
Proof.
  intros Hp Hr. destruct r as [[]|e| |]; cbn; constructor; try done.
  exists peer. by rewrite Hr.
Qed.

(** The log grows when a turn ends a connection, by its line. *)
Lemma explained_turn peers i h h' :
  host_turn i h = Some h' -> isolated peers h -> Forall (explained peers) (log h').
Proof.
  intros E [Ht Hl]. unfold host_turn in E.
  destruct (tasks h !! i) as [[p rest c| |]|] eqn:Ei; try done.
  pose proof (Forall_lookup_1 _ _ _ _ Ht Ei) as [Ha Hp]. cbn [alone peer_of] in *.
  pose proof (run_turn rest c) as Hrun.
  destruct (turn rest c) as [[[[r|] rest'] c']|]; simplify_eq; cbn; try done.
  apply Forall_app. split; [done|]. eapply explained_line; [done|]. rewrite <- Ha. exact Hrun.
Qed.

Lemma isolated_event peers e h h' :
  host_event cfg e h = Some h' -> (forall peer, e = Host_accept peer -> peer ∈ peers) ->
  isolated peers h -> isolated peers h'.
Proof.
  intros E Hp Hi. split.
  - eapply (every_host_event cfg (alone_of peers) peers);
      [by split|by apply alone_turn|done|exact E|done|apply Hi].
  - destruct e as [peer| |i|i|i]; cbn in E; simplify_eq; try apply Hi.
    + unfold host_accept. destruct (_ <=? 0); apply Hi.
    + by eapply explained_turn.
    + unfold host_finish in E. repeat case_match; simplify_eq. apply Hi.
Qed.

Lemma isolated_loop peers events : forall h h',
  host_loop cfg events h = Some h' -> isolated peers h ->
  (forall peer, peer ∈ accepted_peers events -> peer ∈ peers) -> isolated peers h'.
Proof.
  induction events as [|e events IH]; intros h h' Hl Hi Hp; cbn in Hl; [by simplify_eq|].
  destruct (host_event cfg e h) as [h1|] eqn:E; [|done]. apply (IH h1 h' Hl).
  - eapply isolated_event; [exact E| |done]. intros peer ->. apply Hp. cbn. by left.
  - intros peer Hin. apply Hp. destruct e; cbn; try done. by right.
Qed.

Lemma isolated_drain_event peers e h h' :
  host_drain_event e h = Some h' -> isolated peers h -> isolated peers h'.
Proof.
  intros E Hi. split.
  - eapply (every_host_drain_event (alone_of peers)); [by apply alone_turn|done|exact E|apply Hi].
  - destruct e as [peer| |i|i|i]; cbn in E; try done; [by eapply explained_turn|..].
    + unfold host_finish in E. repeat case_match; simplify_eq. apply Hi.
    + unfold host_join in E. repeat case_match; simplify_eq. apply Hi.
Qed.

Lemma isolated_drain peers events : forall h h',
  host_drain_loop events h = Some h' -> isolated peers h -> isolated peers h'.
Proof.
  induction events as [|e events IH]; intros h h' Hl Hi; cbn in Hl; [by simplify_eq|].
  destruct (host_drain_event e h) as [h1|] eqn:E; [|done]. apply (IH h1 h' Hl).
  by eapply isolated_drain_event.
Qed.

Lemma isolated_returns peers h :
  isolated peers h ->
  Forall (fun t => match t with
    | Host_serving _ rest c => returns (fst (run rest c))
    | Host_released _ r _ | Host_ended _ r _ => returns r
    end) (tasks h).
Proof.
  intros [Ht _]. eapply Forall_impl; [exact Ht|]. intros t [Ha _].
  assert (returns (fst (run (peer_of t) (connection_new cfg)))) as Hr by apply run_returns.
  destruct t as [p rest c|p r c|p r c]; cbn [alone peer_of] in *; rewrite ?Ha in *; [done|..];
    by destruct r.
Qed.
End Isolation.

(** ** Draining ends *)

(** The steps a task can still take: a turn for every byte still to come and
    one to end, the release and the join. *)
Definition task_work (t : HostTask) : nat :=
  match t with
  | Host_serving _ rest c => pending rest c + 3
  | Host_released _ _ _ => 2
  | Host_ended _ _ _ => 1
  end.

Definition work (h : Host) : nat := sum_list_with task_work (tasks h).

Definition task_complete (t : HostTask) : Prop :=
  match t with Host_serving _ rest _ => complete rest | _ => True end.

Lemma work_insert ts i t t' :
  ts !! i = Some t ->
  (sum_list_with task_work (<[i := t']> ts) + task_work t
   = sum_list_with task_work ts + task_work t')%nat.
Proof.
  revert i. induction ts as [|u ts IH]; intros [|i] Hi; try done; cbn in Hi.
  - simplify_eq. change (<[0%nat:=t']> (t :: ts)) with (t' :: ts). cbn [sum_list_with]. lia.
  - change (<[S i:=t']> (u :: ts)) with (u :: <[i:=t']> ts). specialize (IH _ Hi).
    cbn [sum_list_with]. lia.
Qed.

Lemma work_delete ts i t :
  ts !! i = Some t ->
  (sum_list_with task_work (delete i ts) + task_work t = sum_list_with task_work ts)%nat.
Proof.
  revert i. induction ts as [|u ts IH]; intros [|i] Hi; try done; cbn in Hi.
  - simplify_eq. change (delete 0%nat (t :: ts)) with ts. cbn [sum_list_with]. lia.
  - change (delete (S i) (u :: ts)) with (u :: delete i ts). specialize (IH _ Hi).
    cbn [sum_list_with]. lia.
Qed.

Section Draining.
Context `{ExternalsLaws}.

(** Every step of a drain is progress, and leaves complete peers complete. *)
Lemma host_drain_event_work e h h' :
  host_drain_event e h = Some h' -> (work h' < work h)%nat.
Proof.
  unfold work. destruct e as [peer| |i|i|i]; cbn; try done.
  - unfold host_turn. destruct (tasks h !! i) as [[p rest c| |]|] eqn:Ei; try done.
    pose proof (run_turn rest c) as Hrun.
    destruct (turn rest c) as [[[[r|] rest'] c']|]; intros [= <-]; cbn [tasks].
    + pose proof (work_insert _ _ _ (Host_released p r c') Ei) as Hw. cbn [task_work] in Hw. lia.
    + pose proof (work_insert _ _ _ (Host_serving p rest' c') Ei) as Hw. cbn [task_work] in Hw.
      destruct Hrun as [_ Hp]. lia.
  - unfold host_finish. destruct (tasks h !! i) as [[|p r c|]|] eqn:Ei; try done. intros [= <-].
    pose proof (work_insert _ _ _ (Host_ended p r c) Ei) as Hw. cbn [task_work tasks] in *. lia.
  - unfold host_join. destruct (tasks h !! i) as [[| |p r c]|] eqn:Ei; try done. intros [= <-].
    pose proof (work_delete _ _ _ Ei) as Hw. cbn [task_work tasks] in *. lia.
Qed.

Lemma task_complete_turn (peer rest : list Arrival) (c : Connection) :
  task_complete (Host_serving peer rest c) ->
  match turn rest c with
  | Some (None, rest', c') => task_complete (Host_serving peer rest' c')
  | Some (Some r, _, c') => task_complete (Host_released peer r c')
  | None => True
  end.
Proof.
  intros Hc. cbn [task_complete] in *. pose proof (turn_complete rest c Hc) as Ht.
  by destruct (turn rest c) as [[[[r|] rest'] c']|].
Qed.

Lemma host_loop_complete cfg events h h' :
  host_loop cfg events h = Some h' -> Forall complete (accepted_peers events) ->
  Forall task_complete (tasks h) -> Forall task_complete (tasks h').
Proof.
  intros Hl Hp. eapply (every_host_loop cfg task_complete (accepted_peers events));
    [|by apply task_complete_turn|done|exact Hl|done].
  intros peer Hin. cbn [task_complete]. by eapply Forall_forall in Hin.
Qed.

Lemma host_drain_loop_work events : forall h h',
  host_drain_loop events h = Some h' ->
  (length events + work h' <= work h)%nat
  /\ (Forall task_complete (tasks h) -> Forall task_complete (tasks h')).
Proof.
  intros h h' Hl. split.
  - revert h h' Hl. induction events as [|e events IH]; intros h h' Hl; cbn in Hl; [by simplify_eq|].
    destruct (host_drain_event e h) as [h1|] eqn:E; [|done]. specialize (IH _ _ Hl).
    pose proof (host_drain_event_work _ _ _ E). cbn. lia.
  - by eapply (every_host_drain_loop task_complete); [apply task_complete_turn| |exact Hl].
Qed.

(** As long as a task is left, something can happen. *)
Lemma host_drain_progress h :
  Forall task_complete (tasks h) -> tasks h <> [] -> exists e h', host_drain_event e h = Some h'.
Proof.
  intros Ht Hne. destruct (tasks h) as [|t ts] eqn:Ets; [done|]. apply Forall_cons in Ht as [Ht _].
  assert (tasks h !! 0%nat = Some t) as Hfirst by (by rewrite Ets). destruct t as [p rest c|p r c|p r c].
  - exists (Host_turn 0). cbn. unfold host_turn. rewrite Hfirst. pose proof (turn_complete rest c Ht).
    destruct (turn rest c) as [[[[r|] rest'] c']|]; [by eexists..|done].
  - exists (Host_finish 0). cbn. unfold host_finish. rewrite Hfirst. by eexists.
  - exists (Host_join 0). cbn. unfold host_join. rewrite Hfirst. by eexists.
Qed.
End Draining.

Lemma host_serve_refines `{Externals} cfg options events drain_events expired o :
  host_serve cfg options events drain_events expired = Some o ->
  exists es ds, serve options es ds expired = Some o /\ accepts es = host_accepts events.
Proof.
  intros Hserve. unfold host_serve in Hserve. destruct (host_loop _ _ _) as [h|] eqn:El; [|done].
  apply host_loop_refines in El as (es & Hes & Ha).
  destruct (host_drain _ _ _) as [r|] eqn:Ed; [|done].
  apply host_drain_refines in Ed as [ds Hds]. exists es, ds. split; [|done]. unfold serve.
  change (server_of (host_start options)) with (server_start options) in Hes. rewrite Hes, Hds.
  destruct r. exact Hserve.
Qed.

(** ** Properties *)

(** C11: The accept loop with its connections refines the accept loop of [Server]:
    every run of it, whatever its peers send and however the turns of its
    connections interleave, is a run of [serve] that accepts as many sockets and
    has the same outcome.  A connection's turns show only when one ends it and
    gives its permit back. *)
Theorem host_refines_server `{Externals} (cfg : ServerConfig) (options : ServeOptions)
    (events drain_events : list HostEvent) (expired : bool) (o : ServeOutcome)
    (Hserve : host_serve cfg options events drain_events expired = Some o) :
  exists es ds, serve options es ds expired = Some o /\ accepts es = host_accepts events.
Proof. by eapply host_serve_refines. Qed.

(** C8: Connections are isolated: whatever the other peers do and however the
    scheduler interleaves the turns, each connection is where [run] alone would
    be on its own socket.  One that is still served has only to run on, one that
    has ended ended as [run] alone ends, and the log holds nothing but the errors
    the accepted peers ended with, each at the level its kind asks for. *)
Theorem connections_isolated `{ExternalsLaws} (cfg : ServerConfig) (options : ServeOptions)
    (events : list HostEvent) (h : Host)
    (Hrun : host_loop cfg events (host_start options) = Some h) :
  Forall (fun t => alone cfg t /\ peer_of t ∈ accepted_peers events) (tasks h)
  /\ Forall (explained cfg (accepted_peers events)) (log h).
Proof.
  destruct (isolated_loop cfg (accepted_peers events) events _ _ Hrun) as [Ht Hl]; [|done|done].
  by split.
Qed.

(** C9: Draining ends, whoever is connected and whatever the scheduler does: when
    every peer sooner or later hangs up, fails or falls silent, a drain is at most
    as long as the work at hand, something can happen as long as a connection is
    left, and when nothing can the set is empty and every permit is back. *)
Theorem drain_completes `{ExternalsLaws} (cfg : ServerConfig) (options : ServeOptions)
    (events drain_events : list HostEvent) (h h' : Host)
    (Hmax : 0 <= max_connections options)
    (Hpeers : Forall complete (accepted_peers events))
    (Hrun : host_loop cfg events (host_start options) = Some h)
    (Hdrain : host_drain_loop drain_events (host_reaped h) = Some h') :
  (length drain_events <= work (host_reaped h))%nat
  /\ ((forall e, host_drain_event e h' = None) ->
      tasks h' = [] /\ host_permits h' = max_connections options).
Proof.
  destruct (host_drain_loop_work _ _ _ Hdrain) as [Hw Hc]. split; [lia|]. intros Hstuck.
  assert (Forall task_complete (tasks h')) as Ht.
  { apply Hc, Forall_reap. by eapply host_loop_complete; [exact Hrun|done|]. }
  assert (tasks h' = []) as Hnil.
  { destruct (tasks h') as [|t ts] eqn:E; [done|].
    destruct (host_drain_progress h') as (e & h'' & He); [by rewrite E..|].
    by rewrite Hstuck in He. }
  split; [done|]. destruct (host_loop_inv cfg options events h Hmax Hrun) as [_ Hr].
  destruct (host_drain_loop_inv options drain_events _ h' Hr Hdrain) as [_ Hr'].
  unfold server_of in Hr'. cbn in Hr'. rewrite Hnil in Hr'. change (running (map forget [])) with 0 in Hr'. lia.
Qed.

(** C38: A peer that never completes a packet is noise: however long what it sends,
    whether it then hangs up, fails, or falls silent, it is sent nothing, and the
    error its connection ends with, if any, is logged at the debug level only. *)
Theorem silent_peer_is_noise `{ExternalsLaws} (cfg : ServerConfig) (arrivals : list Arrival)
    (missing : Z) (Hpartial : front (fst (stream arrivals)) = Front_partial missing) :
  let (r, s') := run arrivals (connection_new cfg) in
  wire s' = [] /\ forall e, r = Err e -> log_line (Err e) = [(Level_debug, e)].
Proof.
  destruct (stream arrivals) as [l e] eqn:Hl. cbn [fst] in Hpartial.
  destruct (run_alike arrivals (connection_new cfg) l e Hl) as [Hr Hs].
  cbn [contents read_buffer connection_new bytes_mut_new app] in Hr, Hs.
  unfold conversation in Hr, Hs. cbn [converse] in Hr, Hs. rewrite Hpartial in Hr, Hs.
  destruct (run arrivals (connection_new cfg)) as [r s']. cbn [fst snd] in Hr, Hs. subst r.
  destruct e as [[bs| |reason|]|]; cbn [at_end] in *; try destruct (len l =? 0);
    same_fields Hs; (split; [done|]); intros e0; cbn; by intros [= <-].
Qed.

(** C6: No peer can bring the server down.  A panic in any task aborts the whole
    process; but under every schedule, of the accept loop and of the drain after
    it, each connection that has ended ended with a result or an error, and each
    that is still served will, whatever its peer sends. *)
Theorem server_never_aborts `{ExternalsLaws} (cfg : ServerConfig) (options : ServeOptions)
    (events drain_events : list HostEvent) (h h' : Host)
    (Hrun : host_loop cfg events (host_start options) = Some h)
    (Hdrain : host_drain_loop drain_events (host_reaped h) = Some h') :
  Forall (fun t => match t with
    | Host_serving _ rest c => returns (fst (run rest c))
    | Host_released _ r _ | Host_ended _ r _ => returns r
    end) (tasks h ++ tasks h').
Proof.
  assert (isolated cfg (accepted_peers events) h) as Hi by (by eapply isolated_loop).
  assert (isolated cfg (accepted_peers events) h') as Hi'.
  { eapply isolated_drain; [exact Hdrain|]. destruct Hi as [Ht Hl]. split; [|exact Hl].
    by apply Forall_reap. }
  apply Forall_app. split; by eapply isolated_returns.
Qed.

(** ** Witnesses *)

#[local] Existing Instance stored_externals.
#[local] Existing Instance stored_laws.

Definition two_slots : ServeOptions := mkServeOptions 2 5.

(** One client lists the server, cut into two reads; one connects and says
    nothing; a third finds the server full. *)
Definition pinging : list Arrival :=
  [Arrival_bytes (take 9 (status_bytes sample_handshake 7));
   Arrival_bytes (drop 9 (status_bytes sample_handshake 7)); Arrival_eof].
Definition silent : list Arrival := [Arrival_timeout].

Definition busy_events : list HostEvent :=
  [Host_accept pinging; Host_accept silent; Host_turn 0; Host_accept pinging; Host_turn 1;
   Host_turn 0; Host_finish 1].

Definition drain_events : list HostEvent := [Host_turn 0; Host_finish 0; Host_join 0].

Example busy_host_drains :
  host_serve server_config_default two_slots busy_events drain_events false
  = Some (mkServeOutcome 2 1 true 0).
Proof. vm_compute. reflexivity. Qed.

Definition busy_host : Host :=
  default (host_start two_slots) (host_loop server_config_default busy_events (host_start two_slots)).
Definition drained_host : Host :=
  default busy_host (host_drain_loop drain_events (host_reaped busy_host)).

Lemma host_refines_server_witness :
  exists es ds, serve two_slots es ds false = Some (mkServeOutcome 2 1 true 0)
    /\ accepts es = host_accepts busy_events.
Proof.
  apply (host_refines_server server_config_default two_slots busy_events drain_events false).
  vm_compute. reflexivity.
Defined.

Lemma connections_isolated_witness :
  Forall (fun t => alone server_config_default t /\ peer_of t ∈ accepted_peers busy_events)
    (tasks busy_host)
  /\ Forall (explained server_config_default (accepted_peers busy_events)) (log busy_host).
Proof.
  apply (connections_isolated server_config_default two_slots busy_events busy_host).
  vm_compute. reflexivity.
Defined.

Lemma drain_completes_witness :
  (length drain_events <= work (host_reaped busy_host))%nat
  /\ ((forall e, host_drain_event e drained_host = None) ->
      tasks drained_host = [] /\ host_permits drained_host = max_connections two_slots).
Proof.
  apply (drain_completes server_config_default two_slots busy_events drain_events busy_host
    drained_host).
  - discriminate.
  - repeat constructor; discriminate.
  - vm_compute. reflexivity.
  - vm_compute. reflexivity.
Defined.

Lemma server_never_aborts_witness :
  Forall (fun t => match t with
    | Host_serving _ rest c => returns (fst (run rest c))
    | Host_released _ r _ | Host_ended _ r _ => returns r
    end) (tasks busy_host ++ tasks drained_host).
Proof.
  apply (server_never_aborts server_config_default two_slots busy_events drain_events busy_host
    drained_host); vm_compute; reflexivity.
Defined.

Lemma silent_peer_is_noise_witness :
  let (r, s') := run [Arrival_bytes [x05; x00]; Arrival_timeout] (connection_new server_config_default) in
  wire s' = [] /\ forall e, r = Err e -> log_line (Err e) = [(Level_debug, e)].
Proof.
  apply (silent_peer_is_noise server_config_default [Arrival_bytes [x05; x00]; Arrival_timeout] 4).
  reflexivity.
Defined.
