(* ===== verification/Footprint.v ===== *)
(** * What the peers can make the server hold ([crates/net/src/server.rs], [connection.rs]).

    [ServeOptions] calls [max_connections] the ceiling on what a client population
    can make the server allocate.  Here is that ceiling, in bytes: whatever the
    peers send and however the scheduler runs the tasks, the connections being
    served hold no more than a frame and a read each, and have nothing left to
    flush. *)

From S2P Require Import Prelude Utf8 Buffers ProtocolError Varint Fields Packets Codec ConnState Offline Connection Session Server Host.
From stdpp Require Import base list numbers strings relations.
From Stdlib Require Import Strings.Byte.

Open Scope Z_scope.

(** ** One frame *)

Lemma scan_partial_short n l : scan n l = Scan_partial -> (length l < n)%nat.
Proof.
  revert l. induction n as [|n IH]; intros [|b l]; cbn [scan length]; try done; [lia|].
  destruct (byte_val b <? 128); [done|]. destruct (scan n l) eqn:E; try done. apply IH in E. lia.
Qed.

(** A decoder that waits holds less than a length prefix and a frame. *)
Lemma front_partial_short l missing :
  front l = Front_partial missing -> len l < MAX_VARINT_LEN + MAX_PACKET_SIZE.
Proof.
  unfold front, len, MAX_VARINT_LEN. destruct (scan 5 l) as [u k| |] eqn:E; [|intros _|done].
  - pose proof (scan_done _ _ _ _ E) as (_ & Hk & _). cbv zeta.
    destruct (sign 32 u <? 0); [done|]. destruct (Z.gtb_spec (sign 32 u) MAX_PACKET_SIZE); [done|].
    destruct (Z.ltb_spec (Z.of_nat (length l)) (Z.of_nat k + sign 32 u)) as [Hl|]; [|done].
    lia.
  - apply scan_partial_short in E. unfold MAX_PACKET_SIZE. lia.
Qed.

Section Reads.
(** The most one read of the transport delivers. *)
Variable read_size : Z.

Definition bounded_reads (arrivals : list Arrival) : Prop :=
  Forall (fun a => match a with Arrival_bytes bs => len bs <= read_size | _ => True end) arrivals.

(** The most a read buffer holds while its connection waits for its peer. *)
Definition read_ceiling : Z := MAX_VARINT_LEN + MAX_PACKET_SIZE + read_size.

Lemma next_frame_ceiling `{Externals} arrivals : forall s,
  bounded_reads arrivals -> len (contents (read_buffer s)) <= read_ceiling ->
  match next_frame arrivals s with
  | (_, arrivals', s') => bounded_reads arrivals' /\ len (contents (read_buffer s')) <= read_ceiling
  end.
Proof.
  unfold read_ceiling. induction arrivals as [|a arrivals IH]; intros s Ha Hs; cbn [next_frame];
    rewrite decode_front; destruct (front (contents (read_buffer s))) as [e|missing|frame rest] eqn:Ef;
    try done;
    try (apply front_frame_shorter in Ef; unfold len in *;
         destruct (open_frame _ _ _); cbn; (split; [done|lia])).
  - by destruct (missing =? 0).
  - set (buffer := if missing =? 0 then _ else _).
    assert (contents buffer = contents (read_buffer s)) as Hb
      by (subst buffer; by destruct (missing =? 0)).
    apply Forall_cons in Ha as [Ha Hrest]. apply front_partial_short in Ef.
    destruct a as [bs| |reason|]; [|rewrite <- Hb in Hs; by split..]. apply IH; [done|].
    cbn [contents read_buffer with_read_buffer]. rewrite Hb, len_app. lia.
Qed.
End Reads.

(** ** What is sent is flushed *)

(** [m] leaves nothing to flush, unless it fails. *)
Definition flushes {E A} (m : M Connection E A) : Prop :=
  forall s, contents (write_buffer s) = [] ->
    match m s with (Ok _, s') => contents (write_buffer s') = [] | _ => True end.

Create HintDb flushes.

Section Flushes.
Context `{ExternalsLaws}.

Lemma flushes_ret {E A} (a : A) : flushes (ret (E:=E) a).
Proof. by intros s. Qed.
Lemma flushes_throw {E A} (e : E) : flushes (throw (A:=A) e).
Proof. by intros s. Qed.
Lemma flushes_lift {E A} (r : outcome E A) : flushes (lift r).
Proof. intros s Hs. unfold lift. by destruct r. Qed.
Lemma flushes_get : flushes get_connection.
Proof. by intros s. Qed.
Lemma flushes_switch t : flushes (switch_compression t).
Proof. by intros s. Qed.
Lemma flushes_on_state {A} (m : M ConnectionState NetError A) : flushes (on_state m).
Proof. intros s Hs. unfold on_state, zoom. by destruct (m (state s)) as [[] ?]. Qed.

Lemma flushes_map_err {E E' A} (f : E' -> E) (m : M Connection E' A) :
  flushes m -> flushes (map_err f m).
Proof. intros Hm s Hs. specialize (Hm s Hs). unfold map_err. by destruct (m s) as [[] ?]. Qed.

Lemma flushes_bind {E A B} (m : M Connection E A) (k : A -> M Connection E B) :
  flushes m -> (forall a, flushes (k a)) -> flushes (bind m k).
Proof.
  intros Hm Hk s Hs. specialize (Hm s Hs). unfold bind. destruct (m s) as [[a|e| |] s']; try done.
  by apply Hk.
Qed.

Lemma flushes_send {P} `{PacketLaws P} (item : P) : flushes (send item).
Proof.
  intros s _. pose proof (send_cases item s) as Hc. destruct (send item s) as [[[]|e| |] s']; try done.
  by destruct Hc as (payload & _ & _ & _ & Hq & _).
Qed.

Hint Resolve flushes_ret flushes_throw flushes_lift flushes_get flushes_switch flushes_on_state
  flushes_map_err : flushes.
Hint Extern 1 (flushes (send _)) => apply flushes_send; apply _ : flushes.
Hint Extern 1 (flushes panic) => by intros ? ? : flushes.
Hint Extern 1 (flushes diverge) => by intros ? ? : flushes.

Lemma flushes_handle frame : flushes (handle frame).
Proof.
  unfold handle, handle_handshake, handle_login_start, handle_login_acknowledged,
    handle_status_request, handle_ping.
  repeat match goal with
  | |- flushes (bind _ _) => apply flushes_bind; [|intros ?]
  | |- flushes (if ?c then _ else _) => destruct c
  | |- flushes (match ?x with _ => _ end) => destruct x
  | |- flushes _ => solve [eauto with flushes]
  end.
Qed.

(** ** The tasks *)

(** What a connection holds of its peer's bytes, and of its own for the peer. *)
Definition held (c : Connection) : Z :=
  len (contents (read_buffer c)) + len (contents (write_buffer c)).

Definition task_held (t : HostTask) : Z :=
  match t with Host_serving _ _ c => held c | _ => 0 end.

(** All the connections being served hold together. *)
Definition host_held (h : Host) : Z := foldr (fun t n => task_held t + n) 0 (tasks h).

Definition frugal (read_size : Z) (t : HostTask) : Prop :=
  match t with
  | Host_serving _ rest c => bounded_reads read_size rest
      /\ len (contents (read_buffer c)) <= read_ceiling read_size /\ contents (write_buffer c) = []
  | _ => True
  end.

Lemma frugal_turn read_size peer rest c :
  frugal read_size (Host_serving peer rest c) ->
  match turn rest c with
  | Some (None, rest', c') => frugal read_size (Host_serving peer rest' c')
  | Some (Some r, _, c') => frugal read_size (Host_released peer r c')
  | None => True
  end.
Proof.
  intros (Hr & Hc & Hw). unfold turn. pose proof (next_frame_ceiling read_size rest c Hr Hc) as Hn.
  pose proof (next_frame_spec rest c) as Hs. destruct (next_frame rest c) as [[next rest'] c1].
  destruct Hs as ([b ->] & _), Hn as [Hr' Hb], next as [frame| |e| | |]; try done.
  pose proof (flushes_handle frame (with_read_buffer b c) Hw) as Hf.
  pose proof (always_handle frame (with_read_buffer b c)) as [_ He].
  destruct (handle frame (with_read_buffer b c)) as [[[]|e| |] c2]; try done.
  cbn [snd] in He. split_and!; [done| |done]. by rewrite (evolves_read _ _ He).
Qed.

Lemma frugal_held read_size ts :
  0 <= read_size -> Forall (frugal read_size) ts ->
  foldr (fun t n => task_held t + n) 0 ts <= running (map forget ts) * read_ceiling read_size.
Proof.
  intros Hr. induction 1 as [|t ts Ht _ IH]; [done|]. cbn [foldr map]. rewrite running_cons.
  destruct t as [p rest c|p r c|p r c]; cbn [forget task_held];
    rewrite ?decide_True, ?decide_False by done; [|lia..].
  destruct Ht as (_ & Hb & Hw). unfold held. rewrite Hw, len_nil. lia.
Qed.

Lemma frugal_new cfg read_size peer :
  0 <= read_size -> bounded_reads read_size peer ->
  frugal read_size (Host_serving peer peer (connection_new cfg)).
Proof.
  intros Hr Hp. split_and!; [done| |done]. change (0 <= read_ceiling read_size).
  unfold read_ceiling, MAX_VARINT_LEN, MAX_PACKET_SIZE. lia.
Qed.

(** The permits bound the connections, and each of them is frugal. *)
Lemma host_held_bounded options read_size h :
  0 <= read_size -> server_inv options (server_of h) -> Forall (frugal read_size) (tasks h) ->
  host_held h <= max_connections options * read_ceiling read_size.
Proof.
  intros Hr [Hp Hi] Ht. pose proof (frugal_held read_size (tasks h) Hr Ht) as Hh.
  cbn [permits connections server_of] in Hp, Hi.
  etrans; [exact Hh|]. apply Z.mul_le_mono_nonneg_r; [|lia].
  unfold read_ceiling, MAX_VARINT_LEN, MAX_PACKET_SIZE. lia.
Qed.
End Flushes.

(** ** Properties *)

(** C10: The peers cannot make the server hold more than it provides for: however
    many sockets they open, whatever they send and however the scheduler runs the
    tasks, while serving and while draining, the connections being served hold
    between them at most [max_connections] times one length prefix, one frame
    and one read; nothing that was sent waits to be flushed. *)
Theorem server_footprint_bounded `{ExternalsLaws} (cfg : ServerConfig) (options : ServeOptions)
    (read_size : Z) (events drain_events : list HostEvent) (h h' : Host)
    (Hmax : 0 <= max_connections options) (Hsize : 0 <= read_size)
    (Hreads : Forall (bounded_reads read_size) (accepted_peers events))
    (Hrun : host_loop cfg events (host_start options) = Some h)
    (Hdrain : host_drain_loop drain_events (host_reaped h) = Some h') :
  host_held h <= max_connections options * read_ceiling read_size
  /\ host_held h' <= max_connections options * read_ceiling read_size
  /\ Forall (fun t => match t with
       | Host_serving _ _ c => contents (write_buffer c) = []
       | _ => True
       end) (tasks h ++ tasks h').
Proof.
  assert (Forall (frugal read_size) (tasks h)) as Ht.
  { eapply (every_host_loop cfg (frugal read_size) (accepted_peers events));
      [|by apply frugal_turn|done|exact Hrun|done|done].
    intros peer Hin. apply frugal_new; [done|]. by eapply Forall_forall in Hin. }
  assert (Forall (frugal read_size) (tasks h')) as Ht'.
  { eapply (every_host_drain_loop (frugal read_size));
      [by apply frugal_turn|done|exact Hdrain|by apply Forall_reap]. }
  destruct (host_loop_inv cfg options events h Hmax Hrun) as [Hi Hr].
  pose proof (host_drain_loop_inv options drain_events _ h' Hr Hdrain) as Hi'.
  split_and!; [by apply host_held_bounded..|].
  apply Forall_app; split; (eapply Forall_impl; [eassumption|]); intros [] Hf; try done; by apply Hf.
Qed.

(** ** Witness *)

#[local] Existing Instance stored_externals.
#[local] Existing Instance stored_laws.

Lemma server_footprint_bounded_witness :
  host_held busy_host <= 2 * read_ceiling 4096
  /\ host_held drained_host <= 2 * read_ceiling 4096
  /\ Forall (fun t => match t with
       | Host_serving _ _ c => contents (write_buffer c) = []
       | _ => True
       end) (tasks busy_host ++ tasks drained_host).
Proof.
  apply (server_footprint_bounded server_config_default two_slots 4096 busy_events drain_events
    busy_host drained_host); try (vm_compute; reflexivity); try discriminate.
  repeat constructor; vm_compute; discriminate.
Defined.
