(* ===== verification/Clock.v ===== *)
(** * The accept loop on a clock ([crates/net/src/server.rs])

    [Host] leaves the order of events to the scheduler.  Here every socket has the
    time it was opened and its connection ends when [Timed] says: the loop admits a
    socket when fewer than [max_connections] connections are then under way.  As in
    [Timed], a reply does not wait for its socket.  The file shows that this is one of
    the runs of [Host], and when a newcomer is let in. *)

From S2P Require Import Prelude Utf8 Buffers ProtocolError Varint Fields Packets Codec ConnState Offline Connection Session Lifetime Timed Server Host.
From stdpp Require Import base list numbers strings relations.
From Stdlib Require Import Strings.Byte.

Open Scope Z_scope.

(** ** The loop *)

(** A socket: when it is opened, and what it delivers. *)
Record Socket := mkSocket { opened : Z; deliveries : list (Z * Delivery) }.

(** A connection that was admitted: its socket and how it ends. *)
Record Visit := mkVisit {
  socket : Socket;
  verdict : outcome NetError unit;
  left_at : Z;
  left_as : Connection;
}.

(** The variables of [serve], with the connections under way. *)
Record Timeline := mkTimeline { visits : list Visit; admitted : Z; turned_away : Z }.

Definition timeline_start : Timeline := mkTimeline [] 0 0.

Section Clock.
Context `{Externals} (cfg : ServerConfig) (options : ServeOptions).

Definition visit (s : Socket) : Visit :=
  let '(r, e, c) := timed_run (opened s) (deliveries s) (connection_new cfg) in mkVisit s r e c.

(** The connections that have not ended at time [t]. *)
Definition under_way (t : Z) (vs : list Visit) : list Visit := filter (fun v => t < left_at v) vs.

(** The [Ok] arm of [listener.accept()], at the time the socket is opened. *)
Definition admit_socket (tl : Timeline) (s : Socket) : Timeline :=
  let vs := under_way (opened s) (visits tl) in
  if max_connections options - len vs <=? 0
  then mkTimeline vs (admitted tl) (wrap 64 (turned_away tl + 1))
  else mkTimeline (vs ++ [visit s]) (wrap 64 (admitted tl + 1)) (turned_away tl).

Definition timeline (sockets : list Socket) : Timeline := foldl admit_socket timeline_start sockets.
End Clock.

(** ** It is a run of the host *)

Section Refinement.
Context `{ExternalsLaws} (cfg : ServerConfig) (options : ServeOptions).

(** While serving and while draining, tasks run and finish alike. *)
Definition runs_tasks (step : HostEvent -> Host -> option Host) : Prop :=
  (forall i, step (Host_turn i) = host_turn i) /\ (forall i, step (Host_finish i) = host_finish i).

Lemma loop_runs_tasks : runs_tasks (host_event cfg).
Proof. done. Qed.
Lemma drain_runs_tasks : runs_tasks host_drain_event.
Proof. done. Qed.

Lemma host_steps_app step es1 : forall es2 h,
  host_steps step (es1 ++ es2) h
  = match host_steps step es1 h with Some h' => host_steps step es2 h' | None => None end.
Proof.
  induction es1 as [|e es1 IH]; intros es2 h; [done|]. cbn.
  destruct (step e h) as [h1|]; [apply IH|done].
Qed.

Definition with_task (i : nat) (t : HostTask) (permits : Z) (lines : list (LogLevel * NetError)) (h : Host) : Host :=
  mkHost permits (<[i := t]> (tasks h)) (host_accepted h) (host_refused h) (log h ++ lines).

(** A connection that ends takes as many turns as it needs, and then finishes. *)
Lemma host_ends step n : forall i h peer rest c r c', runs_tasks step ->
  (pending rest c < n)%nat -> tasks h !! i = Some (Host_serving peer rest c) ->
  run rest c = (returned r, c') ->
  exists es lines, accepted_peers es = [] /\ host_steps step es h
    = Some (with_task i (Host_ended peer r c') (host_permits h + 1) lines h).
Proof.
  induction n as [|n IH]; intros i h peer rest c r c' Hs Hn Hi Hr; [lia|].
  pose proof Hs as [Hturn Hfinish].
  pose proof (run_turn rest c) as Ht. destruct (turn rest c) as [[[[r1|] rest1] c1]|] eqn:E.
  - rewrite Hr in Ht. injection Ht as Hreturned <-.
    assert (r1 = r) as -> by (by destruct r as [[]| | |], r1 as [[]| | |]; simplify_eq).
    exists [Host_turn i; Host_finish i], (log_line r). split; [done|]. cbn. rewrite Hturn. unfold host_turn.
    rewrite Hi, E, Hfinish. unfold host_finish. cbn [tasks]. rewrite list_lookup_insert_eq by (by eapply lookup_lt_Some).
    cbn. unfold with_task. by rewrite list_insert_insert_eq.
  - destruct Ht as [Hr1 Hp]. rewrite Hr1 in Hr.
    set (h1 := with_task i (Host_serving peer rest1 c1) (host_permits h) [] h).
    destruct (IH i h1 peer rest1 c1 r c') as (es & lines & Hacc & Hes); [done|lia| |done|].
    { cbn. apply list_lookup_insert_eq. by eapply lookup_lt_Some. }
    exists (Host_turn i :: es), lines. split; [done|]. change (Host_turn i :: es) with ([Host_turn i] ++ es).
    rewrite host_steps_app. cbn. rewrite Hturn. unfold host_turn. rewrite Hi, E.
    assert (mkHost (host_permits h) (<[i := Host_serving peer rest1 c1]> (tasks h)) (host_accepted h)
      (host_refused h) (log h) = h1) as -> by (unfold h1, with_task; by rewrite app_nil_r).
    rewrite Hes. unfold with_task. cbn. by rewrite list_insert_insert_eq, app_nil_r.
  - rewrite Hr in Ht. by destruct r.
Qed.

(** What a connection of the host hears of a socket: its deliveries up to some
    point, and then perhaps nothing until the timeout. *)
Definition heard (s : Socket) (peer : list Arrival) : Prop :=
  exists k last, (last = [] \/ last = [Arrival_timeout])
    /\ peer = map arrival (take k (deliveries s)) ++ last.

(** The tasks of the connections that are under way have not run yet. *)
Definition waiting (v : Visit) (t : HostTask) : Prop :=
  exists peer, t = Host_serving peer peer (connection_new cfg) /\ heard (socket v) peer
    /\ run peer (connection_new cfg) = (returned (verdict v), left_as v).

(** When time [t] has come: those that have ended by then have run. *)
Definition settled (t : Z) (v : Visit) (task : HostTask) : Prop :=
  if decide (t < left_at v) then waiting v task else has_ended task = true.

Lemma host_settles step t vs : runs_tasks step -> forall h before ts,
  tasks h = before ++ ts -> Forall2 waiting vs ts ->
  exists es lines ts', accepted_peers es = [] /\ host_steps step es h
      = Some (mkHost (host_permits h + (len vs - len (under_way t vs))) (before ++ ts')
                (host_accepted h) (host_refused h) (log h ++ lines))
    /\ Forall2 (settled t) vs ts'.
Proof.
  intros Hs. induction vs as [|v vs IH]; intros h before ts Hts Hall.
  { apply Forall2_nil_inv_l in Hall as ->. exists [], [], []. split; [done|]. split; [|by constructor].
    destruct h; cbn in *; subst. change (len []) with 0. by rewrite !app_nil_r, Z.add_0_r. }
  apply Forall2_cons_inv_l in Hall as (task & ts' & Hw & Hall & ->).
  unfold under_way. rewrite filter_cons. fold (under_way t vs).
  destruct (decide (t < left_at v)) as [Ht|Ht].
  - destruct (IH h (before ++ [task]) ts') as (es & lines & ts2 & Hacc & Hes & Hset);
      [by rewrite Hts, <- app_assoc|done|].
    exists es, lines, (task :: ts2). split; [done|]. split.
    + rewrite Hes, <- app_assoc, !len_cons. do 2 f_equal. lia.
    + constructor; [by unfold settled; rewrite decide_True|done].
  - destruct Hw as (peer & -> & _ & Hr).
    assert (tasks h !! length before = Some (Host_serving peer peer (connection_new cfg))) as Hi
      by (rewrite Hts, lookup_app_r, Nat.sub_diag by lia; done).
    destruct (host_ends step _ (length before) h peer peer _ _ _ Hs (Nat.lt_succ_diag_r _) Hi Hr)
      as (es1 & lines1 & Hacc1 & Hes1).
    set (ended := Host_ended peer (verdict v) (left_as v)) in *.
    set (h1 := with_task _ ended _ lines1 h) in *.
    destruct (IH h1 (before ++ [ended]) ts') as (es2 & lines2 & ts2 & Hacc2 & Hes2 & Hset).
    { cbn. rewrite Hts, insert_app_r_alt, Nat.sub_diag by lia. by rewrite <- app_assoc. }
    { done. }
    exists (es1 ++ es2), (lines1 ++ lines2), (ended :: ts2). split.
    { unfold accepted_peers in *. by rewrite omap_app, Hacc1, Hacc2. }
    split.
    + rewrite host_steps_app, Hes1, Hes2. cbn [h1 with_task host_permits host_accepted host_refused log].
      rewrite <- !app_assoc, len_cons. do 2 f_equal. lia.
    + constructor; [by unfold settled; rewrite decide_False|done].
Qed.

(** Reaping keeps the tasks of the connections under way. *)
Lemma reap_settled t vs ts :
  Forall2 (settled t) vs ts -> Forall2 waiting (under_way t vs) (host_reap ts).
Proof.
  induction 1 as [|v task vs ts Hv _ IH]; [done|]. unfold under_way, host_reap, settled in *.
  rewrite !filter_cons. destruct (decide (t < left_at v)).
  - destruct Hv as (peer & -> & Hh & Hr). rewrite decide_True by done. constructor; [by exists peer|done].
  - by rewrite decide_False by (rewrite Hv; done).
Qed.

(** The host is where the timeline is: the same connections under way, the same
    counters. *)
Record follows (tl : Timeline) (h : Host) : Prop := mkFollows {
  follows_tasks : Forall2 waiting (visits tl) (tasks h);
  follows_permits : host_permits h + len (visits tl) = max_connections options;
  follows_accepted : host_accepted h = admitted tl;
  follows_refused : host_refused h = turned_away tl;
}.

Lemma visit_is_a_run s :
  0 <= read_timeout cfg ->
  exists peer, heard s peer /\ waiting (visit cfg s) (Host_serving peer peer (connection_new cfg)).
Proof.
  intros HT. unfold visit. pose proof (timed_run_is_run cfg (opened s) (deliveries s) HT) as Hr.
  destruct (timed_run _ _ _) as [[r e] c]. destruct Hr as [(k & last & Hl & Hr) _].
  assert (heard s (map arrival (take k (deliveries s)) ++ last)) as Hh by (by exists k, last).
  eexists. split; [exact Hh|]. by eexists.
Qed.

Lemma host_admits tl h s :
  0 <= read_timeout cfg -> follows tl h ->
  exists es peer h', accepted_peers es = [peer] /\ heard s peer
    /\ host_loop cfg es h = Some h' /\ follows (admit_socket cfg options tl s) h'.
Proof.
  intros HT [Ht Hp Ha Hr]. destruct (host_settles _ (opened s) (visits tl) loop_runs_tasks h [] (tasks h) eq_refl Ht)
    as (es & lines & ts & Hacc & Hes & Hset).
  destruct (visit_is_a_run s HT) as (peer & Hh & Hpeer).
  set (h1 := mkHost _ _ _ _ _) in Hes. exists (es ++ [Host_accept peer]), peer, (host_accept cfg peer h1).
  split; [unfold accepted_peers in *; by rewrite omap_app, Hacc|]. split; [done|].
  split; [by unfold host_loop; rewrite host_steps_app, Hes|].
  apply reap_settled in Hset. unfold admit_socket, host_accept.
  assert (host_permits h1 = max_connections options - len (under_way (opened s) (visits tl))) as ->
    by (cbn; lia).
  destruct (Z.leb_spec (max_connections options - len (under_way (opened s) (visits tl))) 0);
    (split; cbn [visits tasks host_permits admitted turned_away host_accepted host_refused h1 app]).
  1-4: try done; try lia; congruence.
  - by apply Forall2_app, Forall2_cons.
  - rewrite len_app. change (len [visit cfg s]) with 1. lia.
  - congruence.
  - congruence.
Qed.

Lemma host_follows sockets : forall tl h,
  0 <= read_timeout cfg -> follows tl h ->
  exists es h', Forall2 heard sockets (accepted_peers es)
    /\ host_loop cfg es h = Some h' /\ follows (foldl (admit_socket cfg options) tl sockets) h'.
Proof.
  induction sockets as [|s sockets IH]; intros tl h HT Hf; [by exists [], h|].
  destruct (host_admits tl h s HT Hf) as (es1 & peer & h1 & Ha1 & Hh & H1 & Hf1).
  destruct (IH _ h1 HT Hf1) as (es2 & h2 & Ha2 & H2 & Hf2). exists (es1 ++ es2), h2.
  split; [unfold accepted_peers in *; rewrite omap_app, Ha1; by constructor|]. split; [|done]. unfold host_loop in *. by rewrite host_steps_app, H1.
Qed.
End Refinement.

(** ** Who can hold a place *)

Section Places.
Context `{ExternalsLaws} (cfg : ServerConfig) (options : ServeOptions).

(** A connection that asked to log in, or that was opened within the last three
    read timeouts. *)
Definition holds_a_place (t : Z) (v : Visit) : Prop :=
  logging_in (current (state (left_as v))) = true
  \/ t < opened (socket v) + 3 * read_timeout cfg.

#[global] Instance holds_a_place_dec t v : Decision (holds_a_place t v).
Proof. unfold holds_a_place. apply _. Defined.

Lemma visit_socket s : socket (visit cfg s) = s.
Proof. unfold visit. by destruct (timed_run _ _ _) as [[r e] c]. Qed.

Lemma timeline_visits sockets : forall tl,
  Forall (fun v => v = visit cfg (socket v)) (visits tl) ->
  Forall (fun v => v = visit cfg (socket v)) (visits (foldl (admit_socket cfg options) tl sockets)).
Proof.
  induction sockets as [|s sockets IH]; intros tl Htl; [done|]. apply IH. unfold admit_socket.
  assert (Forall (fun v => v = visit cfg (socket v)) (under_way (opened s) (visits tl))) as Hw.
  { apply Forall_forall. intros v [_ Hv]%list_elem_of_filter. by eapply Forall_forall in Htl. }
  destruct (_ <=? 0); [done|]. apply Forall_app. split; [done|]. constructor; [|done].
  by rewrite visit_socket.
Qed.

Lemma under_way_sublist t vs : under_way t vs `sublist_of` vs.
Proof.
  unfold under_way. induction vs as [|v vs IH]; [done|]. rewrite filter_cons.
  case_decide; by constructor.
Qed.

(** Every connection under way was opened by one of the sockets, in their order. *)
Lemma timeline_sockets sockets : forall tl seen,
  map socket (visits tl) `sublist_of` seen ->
  map socket (visits (foldl (admit_socket cfg options) tl sockets)) `sublist_of` seen ++ sockets.
Proof.
  induction sockets as [|s sockets IH]; intros tl seen Htl; [by rewrite app_nil_r|]. cbn [foldl].
  replace (seen ++ s :: sockets) with ((seen ++ [s]) ++ sockets) by (by rewrite <- app_assoc).
  apply IH. unfold admit_socket.
  assert (map socket (under_way (opened s) (visits tl)) `sublist_of` seen) as Hw.
  { etrans; [|exact Htl]. apply fmap_sublist, under_way_sublist. }
  destruct (_ <=? 0); cbn [visits].
  - by apply sublist_inserts_r.
  - rewrite map_app. cbn. rewrite visit_socket. by apply sublist_app.
Qed.

(** A connection under way holds a place. *)
Lemma under_way_holds t v :
  0 <= read_timeout cfg -> v = visit cfg (socket v) -> t < left_at v -> holds_a_place t v.
Proof.
  intros HT Hv Ht. unfold holds_a_place.
  pose proof (f_equal left_at Hv) as He. pose proof (f_equal left_as Hv) as Hc. clear Hv. unfold visit in *.
  pose proof (timed_run_brief cfg (opened (socket v)) (deliveries (socket v)) HT) as Hb.
  destruct (timed_run _ _ _) as [[r e] c]. cbn [left_at left_as] in *. subst c.
  destruct Hb; [by left|right; lia].
Qed.

Lemma filter_weaken {A} (P Q : A -> Prop) `{!forall a, Decision (P a), !forall a, Decision (Q a)} l :
  Forall (fun a => P a -> Q a) l -> len (filter P l) <= len (filter Q l).
Proof.
  induction 1 as [|a l Ha _ IH]; [done|]. rewrite !filter_cons.
  destruct (decide (P a)), (decide (Q a)); rewrite ?len_cons; try lia. exfalso; auto.
Qed.
End Places.

(** ** Properties *)

(** C21: The accept loop on a clock is one of the runs of the host.  The host
    accepts the sockets in order, each of its connections hearing what its socket
    delivers, up to some point, and perhaps the timeout.  Then the connections under
    way are, one by one, the tasks being served: each was opened by one of the
    sockets, its task hears what that socket delivers, and [run] on what the task
    hears ends as the timeline has it; each has its permit, and the sockets admitted
    and turned away are as many as the host accepts and refuses. *)
Theorem timeline_is_a_host_run `{ExternalsLaws} (cfg : ServerConfig) (options : ServeOptions)
    (sockets : list Socket) (HT : 0 <= read_timeout cfg) :
  let tl := timeline cfg options sockets in
  exists events h, host_loop cfg events (host_start options) = Some h
    /\ Forall2 heard sockets (accepted_peers events)
    /\ Forall2 (fun v task => exists peer, task = Host_serving peer peer (connection_new cfg)
         /\ heard (socket v) peer
         /\ run peer (connection_new cfg) = (returned (verdict v), left_as v))
         (visits tl) (tasks h)
    /\ map socket (visits tl) `sublist_of` sockets
    /\ Forall (fun v => v = visit cfg (socket v)) (visits tl)
    /\ host_permits h + len (visits tl) = max_connections options
    /\ host_accepted h = admitted tl /\ host_refused h = turned_away tl.
Proof.
  cbv zeta. destruct (host_follows cfg options sockets timeline_start (host_start options) HT)
    as (es & h & Hacc & Hes & [Ht Hp Ha Hr]).
  { split; try done. change (len (visits timeline_start)) with 0. cbn. lia. }
  exists es, h. split_and!; try done.
  - by apply (timeline_sockets cfg options sockets timeline_start []).
  - by apply (timeline_visits cfg options sockets timeline_start).
Qed.

(** C13: The cap cannot be held by clients that never log in: a socket is let in
    whenever fewer than [max_connections] of the connections before it have asked
    to log in or were opened within the last three read timeouts, however the
    others behave and however many there were. *)
Theorem newcomer_admitted `{ExternalsLaws} (cfg : ServerConfig) (options : ServeOptions)
    (sockets : list Socket) (s : Socket) (HT : 0 <= read_timeout cfg)
    (Hfew : len (filter (holds_a_place cfg (opened s)) (visits (timeline cfg options sockets)))
      < max_connections options) :
  let tl := timeline cfg options sockets in
  timeline cfg options (sockets ++ [s])
  = mkTimeline (under_way (opened s) (visits tl) ++ [visit cfg s]) (wrap 64 (admitted tl + 1))
      (turned_away tl).
Proof.
  cbv zeta. unfold timeline. rewrite foldl_app. cbn [foldl]. fold (timeline cfg options sockets).
  set (tl := timeline cfg options sockets) in *. unfold admit_socket.
  assert (len (under_way (opened s) (visits tl)) <= len (filter (holds_a_place cfg (opened s)) (visits tl)))
    as Hle.
  { apply filter_weaken. eapply Forall_impl.
    - apply (timeline_visits cfg options sockets timeline_start). constructor.
    - intros v Hv Ht. by apply under_way_holds. }
  by rewrite (proj2 (Z.leb_gt _ _)) by lia.
Qed.

(** ** Witnesses *)

#[local] Existing Instance stored_externals.
#[local] Existing Instance stored_laws.

(** Two idle sockets take the two places; a third, a second later, finds them
    taken, and one that comes after the read timeout does not. *)
Definition idle_sockets : list Socket := [mkSocket 0 dripping; mkSocket 5 []; mkSocket 6 []].
Definition latecomer : Socket := mkSocket 100 (drip 101 1 (status_bytes sample_handshake 7)).

Example idle_sockets_fill_the_server :
  let tl := timeline server_config_default two_slots idle_sockets in
  map left_at (visits tl) = [30; 35] /\ admitted tl = 2 /\ turned_away tl = 1.
Proof. vm_compute. done. Qed.

Lemma timeline_is_a_host_run_witness :
  let tl := timeline server_config_default two_slots idle_sockets in
  exists events h, host_loop server_config_default events (host_start two_slots) = Some h
    /\ Forall2 heard idle_sockets (accepted_peers events)
    /\ Forall2 (fun v task =>
         exists peer, task = Host_serving peer peer (connection_new server_config_default)
         /\ heard (socket v) peer
         /\ run peer (connection_new server_config_default) = (returned (verdict v), left_as v))
         (visits tl) (tasks h)
    /\ map socket (visits tl) `sublist_of` idle_sockets
    /\ Forall (fun v => v = visit server_config_default (socket v)) (visits tl)
    /\ host_permits h + len (visits tl) = max_connections two_slots
    /\ host_accepted h = admitted tl /\ host_refused h = turned_away tl.
Proof. apply (timeline_is_a_host_run server_config_default two_slots idle_sockets). discriminate. Defined.

Lemma newcomer_admitted_witness :
  let tl := timeline server_config_default two_slots idle_sockets in
  timeline server_config_default two_slots (idle_sockets ++ [latecomer])
  = mkTimeline (under_way 100 (visits tl) ++ [visit server_config_default latecomer])
      (wrap 64 (admitted tl + 1)) (turned_away tl).
Proof.
  apply (newcomer_admitted server_config_default two_slots idle_sockets latecomer); [discriminate|].
  vm_compute. reflexivity.
Defined.
