(* ===== verification/Shutdown.v ===== *)
(** * A shutdown on a clock ([serve] and [drain] of [crates/net/src/server.rs])

    [Host] draws a drain as turns and joins with the grace period expiring when the
    environment says so.  Here the shutdown signal comes at a time, the connections
    end when [Timed] says, and [tokio::time::timeout] compares the two: the file
    shows that this is one of the runs of [Host], when [serve] returns, and which
    connections it abandons. *)

From S2P Require Import Prelude Utf8 Buffers ProtocolError Varint Fields Packets Codec ConnState Offline Connection Session Lifetime Timed Server Host Clock.
From stdpp Require Import base list numbers strings relations.
From Stdlib Require Import Strings.Byte.

Open Scope Z_scope.

(** ** The drain and the loop before it *)

Section Shutdown.
Context `{Externals} (cfg : ServerConfig) (options : ServeOptions).

(** [tokio::time::timeout(grace, ..)] around the joins of the connections [vs],
    none of which has ended at [now]: whether all were joined, how many were
    not, and the time.  The timeout looks at the joins before it looks at the
    clock, so what ends at the deadline is joined. *)
Definition timed_drain (now : Z) (vs : list Visit) : bool * Z * Z :=
  match vs with
  | [] => (true, 0, now)
  | _ =>
    let deadline := now + shutdown_grace options in
    match under_way deadline vs with
    | [] => (true, 0, foldr Z.max now (map left_at vs))
    | remaining => (false, len remaining, deadline)
    end
  end.

(** The sockets the loop sees before the shutdown signal ends it at [now]. *)
Definition before_signal (now : Z) (sockets : list Socket) : list Socket :=
  filter (fun s => opened s <= now) sockets.

(** [serve], with the signal at [now]: its outcome, and when it returns. *)
Definition timed_serve (sockets : list Socket) (now : Z) : ServeOutcome * Z :=
  let tl := timeline cfg options (before_signal now sockets) in
  let '(drained, abandoned, finished) := timed_drain now (under_way now (visits tl)) in
  (mkServeOutcome (admitted tl) (turned_away tl) drained abandoned, finished).
End Shutdown.

(** ** It is a run of the host *)

Section Refinement.
Context `{ExternalsLaws} (cfg : ServerConfig) (options : ServeOptions).

Definition with_tasks (ts : list HostTask) (h : Host) : Host :=
  mkHost (host_permits h) ts (host_accepted h) (host_refused h) (log h).

(** Every task that has ended can be joined. *)
Lemma host_joins ts : forall h before,
  tasks h = before ++ ts ->
  exists es, host_drain_loop es h = Some (with_tasks (before ++ host_reap ts) h).
Proof.
  induction ts as [|t ts IH]; intros h before Hts.
  { exists []. cbn. destruct h; cbn in *. by subst. }
  unfold host_reap. rewrite filter_cons. fold (host_reap ts).
  destruct (has_ended t) eqn:Et.
  - rewrite decide_False by done. destruct t as [| |peer r c]; try done.
    destruct (IH (with_tasks (before ++ ts) h) before eq_refl) as (es & Hes).
    exists (Host_join (length before) :: es). unfold host_drain_loop in *. cbn.
    unfold host_join. rewrite Hts, lookup_app_r, Nat.sub_diag by lia. cbn [lookup list_lookup].
    by rewrite delete_middle.
  - rewrite decide_True by done.
    destruct (IH h (before ++ [t])) as (es & Hes); [by rewrite Hts, <- app_assoc|].
    exists es. by rewrite Hes, <- app_assoc.
Qed.

Lemma under_way_later t t' vs : t <= t' -> under_way t' (under_way t vs) = under_way t' vs.
Proof.
  intros Ht. unfold under_way. induction vs as [|v vs IH]; [done|]. rewrite !filter_cons.
  destruct (decide (t < left_at v)); rewrite ?filter_cons; repeat case_decide; try lia; by rewrite IH.
Qed.

(** Draining for any while: the connections that have not ended by then are left. *)
Lemma host_drains t vs h :
  Forall2 (waiting cfg) vs (tasks h) ->
  exists es h', host_drain_loop es h = Some h' /\ Forall2 (waiting cfg) (under_way t vs) (tasks h').
Proof.
  intros Hw. destruct (host_settles cfg _ t vs drain_runs_tasks h [] (tasks h) eq_refl Hw)
    as (es1 & lines & ts & _ & H1 & Hset).
  set (h1 := mkHost _ _ _ _ _) in H1. destruct (host_joins ts h1 [] eq_refl) as (es2 & H2).
  exists (es1 ++ es2). eexists. split.
  - unfold host_drain_loop in *. rewrite host_steps_app, H1. exact H2.
  - cbn. by apply reap_settled.
Qed.
Lemma waiting_len vs ts : Forall2 (waiting cfg) vs ts -> len ts = len vs.
Proof. intros Hw. unfold len. f_equal. symmetry. exact (Forall2_length _ _ _ Hw). Qed.

Lemma host_drain_follows now vs h :
  Forall2 (waiting cfg) vs (host_reap (tasks h)) ->
  let '(drained, abandoned, _) := timed_drain options now vs in
  exists es, host_drain es (negb drained) h = Some (drained, abandoned).
Proof.
  intros Hw. unfold timed_drain, host_drain. destruct vs as [|v vs].
  { apply Forall2_nil_inv_l in Hw. exists []. cbn. by rewrite Hw. }
  destruct (host_drains (now + shutdown_grace options) _ (host_reaped h) Hw) as (es & h' & Hes & Hleft).
  cbn [host_reaped tasks] in *.
  assert (exists t ts, host_reap (tasks h) = t :: ts) as (t & ts & Ets).
  { apply Forall2_cons_inv_l in Hw as (t & ts & _ & _ & Ets). by exists t, ts. }
  pose proof (waiting_len _ _ Hleft) as Hlen.
  destruct (under_way _ (v :: vs)) as [|v' vs'] eqn:El; exists es; rewrite Ets, Hes; cbn [negb].
  - apply Forall2_nil_inv_l in Hleft. by rewrite Hleft.
  - by rewrite Hlen.
Qed.

Lemma timed_serve_is_a_host_run sockets now : 0 <= read_timeout cfg ->
  let '(o, _) := timed_serve cfg options sockets now in
  exists events drain_events, host_serve cfg options events drain_events (negb (drained o)) = Some o.
Proof.
  intros HT. unfold timed_serve. set (seen := before_signal now sockets).
  destruct (host_follows cfg options seen timeline_start (host_start options) HT)
    as (es1 & h1 & _ & H1 & [Ht Hp Ha Hr]).
  { split; try done. change (len (visits timeline_start)) with 0. cbn. lia. }
  fold (timeline cfg options seen) in *. set (tl := timeline cfg options seen) in *.
  destruct (host_settles cfg _ now (visits tl) (loop_runs_tasks cfg) h1 [] (tasks h1) eq_refl Ht)
    as (es2 & lines & ts & _ & H2 & Hset).
  set (h2 := mkHost _ _ _ _ _) in H2.
  pose proof (host_drain_follows now (under_way now (visits tl)) h2 (reap_settled _ _ _ _ Hset)) as Hd.
  destruct (timed_drain _ _ _) as [[drained abandoned] finished]. destruct Hd as (es3 & H3).
  exists (es1 ++ es2), es3. unfold host_serve, host_loop in *. rewrite host_steps_app, H1, H2.
  cbn [Server.drained]. rewrite H3. cbn. by rewrite Ha, Hr.
Qed.
End Refinement.

(** ** When it returns, and what it leaves behind *)

Section Grace.
Context `{ExternalsLaws} (cfg : ServerConfig) (options : ServeOptions).

Lemma last_to_leave deadline vs : forall now, now <= deadline -> under_way deadline vs = [] ->
  now <= foldr Z.max now (map left_at vs) <= deadline.
Proof.
  intros now Hn. unfold under_way. induction vs as [|v vs IH]; [cbn; lia|]. rewrite filter_cons.
  case_decide; [done|]. intros Hvs. specialize (IH Hvs). cbn. lia.
Qed.

Lemma timed_drain_spec now vs : 0 <= shutdown_grace options ->
  let '(drained, abandoned, finished) := timed_drain options now vs in
  now <= finished <= now + shutdown_grace options
  /\ abandoned = len (under_way (now + shutdown_grace options) vs)
  /\ drained = (abandoned =? 0).
Proof.
  intros Hg. unfold timed_drain. destruct vs as [|v vs].
  { change (under_way _ []) with (@nil Visit). split_and!; (done || lia). }
  destruct (under_way _ (v :: vs)) as [|v' vs'] eqn:El.
  - pose proof (last_to_leave (now + shutdown_grace options) (v :: vs) now ltac:(lia) El).
    split_and!; (done || lia).
  - rewrite len_cons. pose proof (len_nonneg vs'). split_and!; (done || lia).
Qed.
End Grace.

(** ** Property *)

(** C14: A shutdown is prompt and truthful.  On a clock, [serve] returns between the
    signal and the end of the grace period, with an outcome some run of the host
    has; it abandons exactly the connections that have not ended when the grace
    period has, and says that it drained when there are none; and each connection
    it abandons had asked to log in, or was opened less than three read timeouts
    before that. *)
Theorem timed_serve_spec `{ExternalsLaws} (cfg : ServerConfig) (options : ServeOptions)
    (sockets : list Socket) (now : Z)
    (HT : 0 <= read_timeout cfg) (Hgrace : 0 <= shutdown_grace options) :
  let '(o, finished) := timed_serve cfg options sockets now in
  let deadline := now + shutdown_grace options in
  let late := under_way deadline (visits (timeline cfg options (before_signal now sockets))) in
  now <= finished <= deadline
  /\ (exists events drain_events,
       host_serve cfg options events drain_events (negb (drained o)) = Some o)
  /\ abandoned o = len late
  /\ drained o = (len late =? 0)
  /\ Forall (holds_a_place cfg deadline) late.
Proof.
  pose proof (timed_serve_is_a_host_run cfg options sockets now HT) as Hrun. unfold timed_serve in *.
  set (tl := timeline _ _ _) in *.
  pose proof (timed_drain_spec options now (under_way now (visits tl)) Hgrace) as Hd.
  rewrite under_way_later in Hd by lia.
  destruct (timed_drain _ _ _) as [[d a] finished]. destruct Hd as (Hf & -> & ->).
  split_and!; try done; [apply Hf..|]. apply Forall_forall.
  intros v [Ht Hv]%list_elem_of_filter. apply under_way_holds; [done| |done].
  pose proof (timeline_visits cfg options (before_signal now sockets) timeline_start) as Hall.
  by eapply Forall_forall in Hall; [|constructor|exact Hv].
Qed.

(** ** Witness *)

#[local] Existing Instance stored_externals.
#[local] Existing Instance stored_laws.

(** Two idle sockets: a signal at 28 leaves time for the first to run out, and not
    for the second; one at 31 leaves time for both. *)
Example idle_sockets_at_shutdown :
  timed_serve server_config_default two_slots idle_sockets 28 = (mkServeOutcome 2 1 false 1, 33)
  /\ timed_serve server_config_default two_slots idle_sockets 31 = (mkServeOutcome 2 1 true 0, 35).
Proof. vm_compute. done. Qed.

Lemma timed_serve_spec_witness :
  let '(o, finished) := timed_serve server_config_default two_slots idle_sockets 28 in
  let late := under_way 33
    (visits (timeline server_config_default two_slots (before_signal 28 idle_sockets))) in
  28 <= finished <= 33
  /\ (exists events drain_events,
       host_serve server_config_default two_slots events drain_events (negb (drained o)) = Some o)
  /\ abandoned o = len late
  /\ drained o = (len late =? 0)
  /\ Forall (holds_a_place server_config_default 33) late.
Proof. apply (timed_serve_spec server_config_default two_slots idle_sockets 28); discriminate. Defined.
