(* ===== verification/Main.v ===== *)
(** * The server executable ([crates/server/src/main.rs]).

    The command line, the refusal to listen publicly in offline mode, the
    configuration handed to the accept loop, and [main] as a whole, from its
    options to its last log line, over the accept loop of [Host].  Parsing by [clap] is described by
    the ranges it is asked to enforce. *)

From S2P Require Import Prelude Utf8 ProtocolError Packets Codec ConnState Display Json Connection Session Server Host.
From stdpp Require Import base list numbers strings.
From Stdlib Require Import Strings.Byte.

Open Scope Z_scope.

(** [std::net::SocketAddr]: a v4 address as four octets, a v6 one as its bits. *)
Inductive IpAddr := IpAddr_V4 (a b c d : Z) | IpAddr_V6 (bits : Z).

Record SocketAddr := mkSocketAddr { ip : IpAddr; port : Z }.

(** [IpAddr::is_loopback]: 127.0.0.0/8, or ::1. *)
Definition is_loopback (a : IpAddr) : bool :=
  match a with
  | IpAddr_V4 a _ _ _ => a =? 127
  | IpAddr_V6 bits => bits =? 1
  end.

Record Args := mkArgs {
  bind_addr : SocketAddr;
  args_motd : list byte;
  args_max_players : Z;
  args_read_timeout : Z;
  args_max_connections : Z;
  args_shutdown_grace : Z;
  args_compression_threshold : Z;
  insecure_offline_mode : bool;
}.

(** The defaults of every option. *)
Definition args_default : Args :=
  mkArgs (mkSocketAddr (IpAddr_V4 0 0 0 0) 25565) (bytes_of "A Pyrite Server") 20 30 1000 5 256 false.

(** What the option types and the [value_parser] ranges admit; [max_permits]
    is [Semaphore::MAX_PERMITS]. *)
Definition args_accepted (max_permits : Z) (args : Args) : bool :=
  in_signed 32 (args_max_players args)
  && (1 <=? args_read_timeout args) && in_unsigned 64 (args_read_timeout args)
  && (1 <=? args_max_connections args) && (args_max_connections args <=? max_permits)
  && in_unsigned 64 (args_shutdown_grace args)
  && in_signed 32 (args_compression_threshold args).

Section Startup.
(** [impl Display for SocketAddr] of the standard library. *)
Variable display : SocketAddr -> list byte.

Definition check_bind_safety (addr : SocketAddr) (insecure_offline_mode : bool) :
    outcome (list byte) unit :=
  if insecure_offline_mode || is_loopback (ip addr) then Ok tt
  else Err (bytes_of "refusing to bind " ++ display addr
    ++ bytes_of ": this server runs in offline mode, so any client could join under any username, including one holding operator rights. Bind a loopback address such as 127.0.0.1:"
    ++ decimal (port addr)
    ++ bytes_of " instead, or pass --insecure-offline-mode if you genuinely intend to expose it.").

Definition config_of (args : Args) : ServerConfig :=
  mkServerConfig (text_component_new (args_motd args)) (args_max_players args)
    (args_read_timeout args)
    (if args_compression_threshold args >=? 0 then Some (args_compression_threshold args) else None).

Definition options_of (args : Args) : ServeOptions :=
  mkServeOptions (wrap usize_bits (args_max_connections args)) (args_shutdown_grace args).

(** How [main] gets as far as listening: it exits with a message, or it
    listens, having warned or not, and serves. *)
Inductive Startup :=
  | Startup_exit (message : list byte)
  | Startup_listen (addr : SocketAddr) (warned : bool) (config : ServerConfig) (options : ServeOptions).

Definition startup (args : Args) : Startup :=
  match check_bind_safety (bind_addr args) (insecure_offline_mode args) with
  | Err message => Startup_exit message
  | _ =>
    Startup_listen (bind_addr args)
      (insecure_offline_mode args && negb (is_loopback (ip (bind_addr args))))
      (config_of args) (options_of args)
  end.
End Startup.

(** ** The whole program *)

(** The lines [main] itself logs; the connections' are in the [log] of [Host]. *)
Inductive Line :=
  | Line_refusing (message : list byte)
  | Line_public (addr : SocketAddr)
  | Line_listening (addr : SocketAddr)
  | Line_no_signal (error : list byte)
  | Line_stopped (accepted refused : Z) (drained : bool).

(** [std::process::exit(code)], [Err] from [main], [Ok(())] from [main]. *)
Inductive Exit :=
  | Exit_code (code : Z)
  | Exit_error (error : list byte)
  | Exit_ok.

Section Program.
Context `{Externals}.
Variable display : SocketAddr -> list byte.

(** [bind] is [TcpListener::bind], [signal] what [ctrl_c] returns; the rest is the
    schedule of [serve].  [None]: no such schedule. *)
Definition main (args : Args) (bind : SocketAddr -> outcome (list byte) unit)
    (signal : outcome (list byte) unit) (events drain_events : list HostEvent) (expired : bool) :
    option (list Line * Exit) :=
  match startup display args with
  | Startup_exit message => Some ([Line_refusing message], Exit_code 1)
  | Startup_listen addr warned config options =>
    let warning := if warned then [Line_public addr] else [] in
    match bind addr with
    | Err e => Some (warning, Exit_error e)
    | _ =>
      match host_serve config options events drain_events expired with
      | None => None
      | Some outcome =>
        Some (warning ++ [Line_listening addr]
              ++ match signal with Err e => [Line_no_signal e] | _ => [] end
              ++ [Line_stopped (outcome_accepted outcome) (outcome_refused outcome) (drained outcome)],
              Exit_ok)
      end
    end
  end.
End Program.

Lemma main_counts `{Externals} args events drain_events expired o :
  host_accepts events < 2 ^ 64 ->
  host_serve (config_of args) (options_of args) events drain_events expired = Some o ->
  outcome_accepted o + outcome_refused o = host_accepts events
  /\ 0 <= outcome_accepted o /\ 0 <= outcome_refused o.
Proof.
  intros Hcount (es & ds & Hs & Ha)%host_serve_refines. rewrite <- Ha in *.
  apply serve_counts in Hs as (? & ? & ? & _); [done| |done].
  apply (wrap_range usize_bits). done.
Qed.

(** ** Properties *)

(** The server never listens publicly by accident: it listens only on the
    address it was given, and only when that is a loopback address or the
    operator passed the insecure flag, in which case a public address is
    announced with a warning.  Otherwise it exits. *)
Theorem startup_safe (display : SocketAddr -> list byte) (args : Args) :
  match startup display args with
  | Startup_listen addr warned _ _ => addr = bind_addr args
      /\ (is_loopback (ip addr) = true \/ (insecure_offline_mode args = true /\ warned = true))
  | Startup_exit _ => is_loopback (ip (bind_addr args)) = false /\ insecure_offline_mode args = false
  end.
Proof.
  unfold startup, check_bind_safety.
  destruct (insecure_offline_mode args), (is_loopback (ip (bind_addr args))) eqn:E; cbn; auto.
Qed.

(** C40: a run of the whole program, from its options to its last line.  It ends
    in one of three ways.  Refused, it exits with code 1, having logged only the
    refusal, and the address was public without the insecure flag.  Unable to
    bind, it fails with that error before announcing anything but the warning.
    Otherwise it listened on a safe address, said so once, after the warning a
    public address calls for, and its last line accounts for every socket the
    listener accepted, each as admitted or refused. *)
Theorem main_spec `{Externals} (display : SocketAddr -> list byte) (args : Args)
    (bind : SocketAddr -> outcome (list byte) unit) (signal : outcome (list byte) unit)
    (events drain_events : list HostEvent) (expired : bool) (lines : list Line) (e : Exit)
    (Hcount : host_accepts events < 2 ^ 64)
    (Hmain : main display args bind signal events drain_events expired = Some (lines, e)) :
  let public := negb (is_loopback (ip (bind_addr args))) in
  match e with
  | Exit_code code =>
      code = 1 /\ public = true /\ insecure_offline_mode args = false
      /\ exists message, lines = [Line_refusing message]
  | Exit_error error =>
      bind (bind_addr args) = Err error /\ (public = true -> insecure_offline_mode args = true)
      /\ lines = (if public then [Line_public (bind_addr args)] else [])
  | Exit_ok =>
      (public = true -> insecure_offline_mode args = true)
      /\ exists middle accepted refused drained,
        lines = (if public then [Line_public (bind_addr args)] else [])
                ++ [Line_listening (bind_addr args)] ++ middle ++ [Line_stopped accepted refused drained]
        /\ (middle = [] \/ exists error, signal = Err error /\ middle = [Line_no_signal error])
        /\ accepted + refused = host_accepts events /\ 0 <= accepted /\ 0 <= refused
  end.
Proof.
  cbn zeta. unfold main, startup, check_bind_safety in Hmain.
  destruct (is_loopback (ip (bind_addr args))) eqn:El, (insecure_offline_mode args) eqn:Ei;
    cbn [orb andb negb] in *; try (simplify_eq; split_and!; by eauto);
    (destruct (bind (bind_addr args)) as [[]|error| |]; [|simplify_eq; by split_and!|..]);
    (destruct (host_serve _ _ _ _ _) as [o|] eqn:Es; [|done]); simplify_eq;
    apply main_counts in Es as (Hsum & Ha & Hr); try done;
    (split; [done|]); eexists _, _, _, _; (split; [reflexivity|]);
    (split; [destruct signal; eauto|done]).
Qed.

(** The configuration a started server runs with is in range: a compression
    threshold is present exactly when the option is not negative and is a valid
    threshold, the read timeout is not zero, and the connection cap is the one
    asked for, at least one and at most what the semaphore takes. *)
Theorem startup_configured (display : SocketAddr -> list byte) (max_permits : Z) (args : Args)
    (addr : SocketAddr) (warned : bool) (cfg : ServerConfig) (options : ServeOptions)
    (Hargs : args_accepted max_permits args = true) (Hpermits : max_permits < 2 ^ usize_bits)
    (Hstart : startup display args = Startup_listen addr warned cfg options) :
  (config_threshold cfg = None <-> args_compression_threshold args < 0)
  /\ (forall t, config_threshold cfg = Some t -> t = args_compression_threshold args /\ 0 <= t < 2 ^ 31)
  /\ 1 <= read_timeout cfg
  /\ max_connections options = args_max_connections args
  /\ 1 <= max_connections options <= max_permits.
Proof.
  unfold startup in Hstart. destruct (check_bind_safety _ _ _); try done;
    injection Hstart as _ _ <- <-; unfold args_accepted in Hargs;
    repeat (apply andb_prop in Hargs as [Hargs ?]);
    cbn [config_threshold read_timeout max_connections config_of options_of];
    unfold wrap, usize_bits in *; rewrite Z.mod_small by lia;
    match goal with H : in_signed 32 (args_compression_threshold args) = true |- _ =>
      apply in_signed_spec in H; change (2 ^ (32 - 1)) with (2 ^ 31) in H end;
    rewrite Z.geb_leb; destruct (Z.leb_spec 0 (args_compression_threshold args));
    split_and!; try lia; try (intros ? [= <-]; lia); try done; split; intros; done || lia.
Qed.

(** The default invocation does not start: with every option at its default
    the server exits, because the default bind address is not loopback. *)
Theorem default_refuses (display : SocketAddr -> list byte) :
  exists message, startup display args_default = Startup_exit message.
Proof. by eexists. Qed.

(** ** Witness *)

Definition loopback_args : Args :=
  mkArgs (mkSocketAddr (IpAddr_V4 127 0 0 1) 25565) [] 20 30 1000 5 (-1) false.

Lemma startup_configured_witness :
  (config_threshold (config_of loopback_args) = None <-> -1 < 0)
  /\ (forall t, config_threshold (config_of loopback_args) = Some t -> t = -1 /\ 0 <= t < 2 ^ 31)
  /\ 1 <= 30 /\ max_connections (options_of loopback_args) = 1000
  /\ 1 <= max_connections (options_of loopback_args) <= 2 ^ 61 - 1.
Proof.
  apply (startup_configured (fun _ => []) (2 ^ 61 - 1) loopback_args
    (mkSocketAddr (IpAddr_V4 127 0 0 1) 25565) false); vm_compute; reflexivity.
Defined.

#[local] Existing Instance stored_externals.

(** A public address on purpose, two slots, and the busy schedule of [Host]. *)
Definition public_args : Args :=
  mkArgs (mkSocketAddr (IpAddr_V4 0 0 0 0) 25565) (bytes_of "A Pyrite Server") 20 30 2 5 256 true.

Definition busy_run : option (list Line * Exit) :=
  main (fun _ => []) public_args (fun _ => Ok tt) (Ok tt) busy_events drain_events false.

Example busy_run_lines :
  busy_run = Some ([Line_public (bind_addr public_args); Line_listening (bind_addr public_args);
                    Line_stopped 2 1 true], Exit_ok).
Proof. vm_compute. reflexivity. Qed.

Lemma main_spec_witness :
  (true = true -> insecure_offline_mode public_args = true)
  /\ exists middle accepted refused drained,
    [Line_public (bind_addr public_args); Line_listening (bind_addr public_args); Line_stopped 2 1 true]
    = [Line_public (bind_addr public_args)] ++ [Line_listening (bind_addr public_args)] ++ middle
      ++ [Line_stopped accepted refused drained]
    /\ (middle = [] \/ exists error, @Ok (list byte) unit tt = Err error /\ middle = [Line_no_signal error])
    /\ accepted + refused = host_accepts busy_events /\ 0 <= accepted /\ 0 <= refused.
Proof.
  apply (main_spec (fun _ => []) public_args (fun _ => Ok tt) (Ok tt) busy_events drain_events false
    _ Exit_ok).
  - reflexivity.
  - vm_compute. reflexivity.
Defined.
