(* ===== verification/NetTests.v ===== *)
(** * The unit tests of the framing codec, of the [net] crate and of the
    executable, run on the model ([crates/protocol/src/codec.rs],
    [crates/net/src/error.rs], [state.rs], [offline.rs], [crates/server/src/main.rs]).

    zlib is a parameter of the codec: the tests that compress run with the
    identity in its place, and the one that asserts a compressed size with run
    lengths.  MD5 is the digest of [Md5]. *)

From S2P Require Import Prelude Utf8 Buffers Testing ProtocolError Varint Packets Codec ConnState Md5 Offline Main.
From stdpp Require Import base list numbers strings.
From Stdlib Require Import Strings.Byte.

Open Scope Z_scope.
Open Scope test_scope.

(** ** [codec.rs] *)

Module CodecTests.
Section Zlib.
Variable inflate : list byte -> list byte * option (list byte).
Variable deflate : list byte -> outcome (list byte) (list byte).

(** [codec.encode(item, &mut buf).unwrap()] into an empty buffer. *)
Definition encoded {P} `{Packet P} (codec : PacketCodec) (item : P) (k : PacketCodec -> BytesMut -> Prop) : Prop :=
  unwrapped_with (encode deflate item (codec, bytes_mut_new)) (fun _ '(codec, buf) => k codec buf).

(** [codec.decode(&mut buf).unwrap().unwrap()]. *)
Definition decoded (codec : PacketCodec) (buf : BytesMut) (k : RawPacket -> BytesMut -> Prop) : Prop :=
  unwrapped_with (decode inflate codec buf) (fun packet buf =>
    match packet with Some packet => k packet buf | None => False end).

(** [BytesMut::from(bytes)]. *)
Definition bytes_mut (bytes : list byte) : BytesMut := mkBytesMut bytes [].

Definition encoded_handshake (k : list byte -> Prop) : Prop :=
  encoded codec_new (mkHandshake 776 (bytes_of "localhost") 25565 NextState_Status)
    (fun _ buf => k (contents buf)).

Definition encoded_frame_is_length_then_id_then_body : Prop :=
  encoded_handshake (fun buf =>
    buf !! 0%nat = Some (byte_of 16) /\ buf !! 1%nat = Some x00 /\ len buf = 17).

Definition decodes_a_complete_frame : Prop :=
  encoded_handshake (fun buf =>
    decoded codec_new (bytes_mut buf) (fun packet buf =>
      id packet = 0x00
      /\ contents buf = []
      /\ unwrapped (decode_as Handshake packet) (fun handshake =>
           server_address handshake = bytes_of "localhost"
           /\ next_state handshake = NextState_Status))).

Definition returns_none_for_every_partial_prefix : Prop :=
  encoded_handshake (fun full =>
    for_all (fun split =>
      unwrapped_with (decode inflate codec_new (bytes_mut (take split full))) (fun packet partial =>
        option_map id packet = None /\ length (contents partial) = split))
      (seq 0 (length full))).

(** The buffer and the number of frames after feeding [bytes] one at a time. *)
Fixpoint feed_each (codec : PacketCodec) (bytes : list byte) (buf : BytesMut) (frames : list RawPacket) :
    outcome ProtocolError (list RawPacket) * BytesMut :=
  match bytes with
  | [] => (Ok frames, buf)
  | byte :: bytes =>
    let buf := snd (extend_from_slice (E := ProtocolError) [byte] buf) in
    match decode inflate codec buf with
    | (Ok (Some frame), buf) => feed_each codec bytes buf (frames ++ [frame])
    | (Ok None, buf) => feed_each codec bytes buf frames
    | (Err e, buf) => (Err e, buf)
    | (Panic, buf) => (Panic, buf)
    | (Diverge, buf) => (Diverge, buf)
    end
  end.

Definition feeding_one_byte_at_a_time_yields_exactly_one_frame : Prop :=
  encoded_handshake (fun full =>
    unwrapped_with (feed_each codec_new full bytes_mut_new []) (fun frames buf =>
      len frames = 1 /\ contents buf = [])).

Definition decodes_two_frames_from_one_buffer : Prop :=
  encoded_handshake (fun buf =>
  encoded_handshake (fun second =>
    decoded codec_new (bytes_mut (buf ++ second)) (fun _ buf =>
    decoded codec_new buf (fun _ buf =>
    unwrapped_with (decode inflate codec_new buf) (fun packet buf =>
      packet = None /\ contents buf = []))))).

Definition rejects_a_length_prefix_above_the_maximum : Prop :=
  buffer (write_varint (sign 32 (MAX_PACKET_SIZE + 1))) (fun buf =>
    fst (decode inflate codec_new (bytes_mut buf)) matches Err (ProtocolError_FrameTooLarge _ _)).

Definition rejects_a_negative_length_prefix : Prop :=
  buffer (write_varint (-1)) (fun buf =>
    fst (decode inflate codec_new (bytes_mut buf)) matches Err (ProtocolError_NegativeLength (-1))).

Definition round_trips_a_clientbound_packet : Prop :=
  encoded codec_new (mkStatusResponse (raw_string "{'text':'x'}")) (fun codec buf =>
    decoded codec buf (fun frame _ =>
      id frame = packet_id StatusResponse
      /\ unwrapped (decode_as StatusResponse frame) (fun decoded =>
           json decoded = raw_string "{'text':'x'}"))).

Definition decode_as_rejects_trailing_bytes : Prop :=
  encoded codec_new (mkPingRequest 7) (fun codec buf =>
    buffer (E := ProtocolError)
      (do! write_varint 10; do! put_slice (drop 1 (contents buf)); put_slice [xaa]) (fun tampered =>
      decoded codec (bytes_mut tampered) (fun frame _ =>
        decode_as PingRequest frame matches Err (ProtocolError_TrailingBytes 1)))).

Definition compressed_codec (threshold : Z) : PacketCodec := set_compression threshold codec_new.

Definition set_compression_treats_a_negative_threshold_as_disabled : Prop :=
  let codec := set_compression 256 codec_new in
  compression_threshold codec = Some 256
  /\ compression_threshold (set_compression (-1) codec) = None.

Definition a_small_packet_is_sent_uncompressed_with_a_zero_data_length : Prop :=
  encoded (compressed_codec 256) (mkPongResponse 7) (fun _ buf =>
    contents buf !! 0%nat = Some (byte_of 10)
    /\ contents buf !! 1%nat = Some x00
    /\ contents buf !! 2%nat = Some x01
    /\ len (contents buf) = 11).

Definition a_small_packet_round_trips_through_the_uncompressed_path : Prop :=
  encoded (compressed_codec 256) (mkPongResponse (-1)) (fun codec buf =>
    decoded codec buf (fun frame _ =>
      unwrapped (decode_as PongResponse frame) (fun decoded => pong_payload decoded = -1))).

Definition a_large_packet_is_compressed_and_round_trips : Prop :=
  let json_text := repeat x78 (Z.to_nat 4096) in
  encoded (compressed_codec 256) (mkStatusResponse json_text) (fun codec buf =>
    len (contents buf) < 512
    /\ decoded codec buf (fun frame buf =>
      id frame = packet_id StatusResponse
      /\ unwrapped (decode_as StatusResponse frame) (fun decoded => json decoded = json_text)
      /\ contents buf = [])).

Definition a_compressed_frame_fed_one_byte_at_a_time_yields_one_packet : Prop :=
  let json_text := repeat x79 (Z.to_nat 4096) in
  encoded (compressed_codec 256) (mkStatusResponse json_text) (fun _ full =>
    unwrapped_with (feed_each (compressed_codec 256) (contents full) bytes_mut_new []) (fun frames buf =>
      for_all (fun frame =>
        unwrapped (decode_as StatusResponse frame) (fun decoded => json decoded = json_text)) frames
      /\ len frames = 1
      /\ contents buf = [])).

(** A frame: the length of [body], then [body]. *)
Definition framed (body : list byte) (k : BytesMut -> Prop) : Prop :=
  buffer (E := ProtocolError) (do! write_varint (sign 32 (len body)); put_slice body)
    (fun buf => k (bytes_mut buf)).

Definition a_declared_inflated_size_above_the_maximum_is_rejected : Prop :=
  buffer (E := ProtocolError)
    (do! write_varint (sign 32 (MAX_PACKET_SIZE + 1)); put_slice (octets [0x78; 0x9c; 0x00]))
    (fun body => framed body (fun buf =>
      fst (decode inflate (compressed_codec 256) buf) matches Err (ProtocolError_FrameTooLarge _ _))).

Definition a_compressed_packet_below_the_threshold_is_rejected : Prop :=
  buffer (E := ProtocolError) (do! write_varint 10; put_slice (octets [0x78; 0x9c; 0x00]))
    (fun body => framed body (fun buf =>
      fst (decode inflate (compressed_codec 256) buf)
        matches Err (ProtocolError_CompressedBelowThreshold 10 256))).

Definition a_payload_that_inflates_to_the_wrong_size_is_rejected : Prop :=
  unwrapped (deflate (repeat x41 (Z.to_nat 1000))) (fun compressed =>
    buffer (E := ProtocolError) (do! write_varint 900; put_slice compressed)
      (fun body => framed body (fun buf =>
        fst (decode inflate (compressed_codec 256) buf)
          matches Err (ProtocolError_CompressedSizeMismatch 900 _)))).

Definition a_negative_data_length_is_rejected : Prop :=
  buffer (E := ProtocolError) (do! write_varint (-1); put_slice (octets [0x78; 0x9c; 0x00]))
    (fun body => framed body (fun buf =>
      fst (decode inflate (compressed_codec 256) buf) matches Err (ProtocolError_NegativeLength (-1)))).

Definition a_zero_threshold_compresses_everything : Prop :=
  encoded (compressed_codec 0) (mkPongResponse 1) (fun codec buf =>
    decoded codec buf (fun frame _ =>
      unwrapped (decode_as PongResponse frame) (fun decoded => pong_payload decoded = 1))).
End Zlib.

Example the_codec_tests_pass :
  encoded_frame_is_length_then_id_then_body stored_deflate
  /\ decodes_a_complete_frame stored_inflate stored_deflate
  /\ returns_none_for_every_partial_prefix stored_inflate stored_deflate
  /\ feeding_one_byte_at_a_time_yields_exactly_one_frame stored_inflate stored_deflate
  /\ decodes_two_frames_from_one_buffer stored_inflate stored_deflate
  /\ rejects_a_length_prefix_above_the_maximum stored_inflate
  /\ rejects_a_negative_length_prefix stored_inflate
  /\ round_trips_a_clientbound_packet stored_inflate stored_deflate
  /\ decode_as_rejects_trailing_bytes stored_inflate stored_deflate
  /\ set_compression_treats_a_negative_threshold_as_disabled
  /\ a_small_packet_is_sent_uncompressed_with_a_zero_data_length stored_deflate
  /\ a_small_packet_round_trips_through_the_uncompressed_path stored_inflate stored_deflate
  /\ a_large_packet_is_compressed_and_round_trips run_inflate run_deflate
  /\ a_compressed_frame_fed_one_byte_at_a_time_yields_one_packet stored_inflate stored_deflate
  /\ a_declared_inflated_size_above_the_maximum_is_rejected stored_inflate
  /\ a_compressed_packet_below_the_threshold_is_rejected stored_inflate
  /\ a_payload_that_inflates_to_the_wrong_size_is_rejected stored_inflate stored_deflate
  /\ a_negative_data_length_is_rejected stored_inflate
  /\ a_zero_threshold_compresses_everything stored_inflate stored_deflate.
Proof. run_tests. Qed.

End CodecTests.

(** ** [net/src/error.rs] *)

Module NetErrorTests.

(** An [io::Error] of any kind. *)
Definition genuine_transport_failures_are_noise : Prop :=
  let io := bytes_of "connection reset" in
  is_transport_noise (NetError_Protocol (ProtocolError_Io io)) = true
  /\ is_transport_noise NetError_Timeout = true.

Definition a_corrupt_compressed_payload_is_not_noise : Prop :=
  let error := NetError_Protocol (ProtocolError_Decompression (bytes_of "corrupt deflate stream")) in
  is_transport_noise error = false.

Definition protocol_violations_are_not_noise : Prop :=
  for_all (fun error => is_transport_noise error = false)
    [NetError_UnexpectedPacket State_Status 0x7f; NetError_DuplicateStatusRequest;
     NetError_InvalidUsername (bytes_of "has space")].

Example the_net_error_tests_pass :
  genuine_transport_failures_are_noise
  /\ a_corrupt_compressed_payload_is_not_noise
  /\ protocol_violations_are_not_noise.
Proof. run_tests. Qed.

End NetErrorTests.

(** ** [net/src/state.rs] *)

Module StateTests.

Definition connections_begin_in_handshaking : Prop :=
  current connection_state_new = State_Handshaking.

Definition handshaking_moves_to_status_or_login : Prop :=
  for_all (fun target =>
    unwrapped_with (transition target connection_state_new) (fun _ fsm => current fsm = target))
    [State_Status; State_Login].

Definition status_cannot_escalate_to_login : Prop :=
  unwrapped_with (transition State_Status connection_state_new) (fun _ fsm =>
    (fst (transition State_Login fsm) matches Err (NetError_IllegalTransition State_Status State_Login))
    /\ current (snd (transition State_Login fsm)) = State_Status).

Definition handshaking_cannot_skip_to_play_or_configuration : Prop :=
  for_all (fun target =>
    fst (transition target connection_state_new) matches Err (NetError_IllegalTransition _ _))
    [State_Play; State_Configuration; State_Handshaking].

Definition status_request_may_be_skipped_entirely : Prop :=
  unwrapped_with (transition State_Status connection_state_new) (fun _ fsm =>
    status_request_seen fsm = false).

Definition duplicate_status_requests_are_rejected : Prop :=
  unwrapped_with (transition State_Status connection_state_new) (fun _ fsm =>
  unwrapped_with (mark_status_request_seen fsm) (fun _ fsm =>
    status_request_seen fsm = true
    /\ (fst (mark_status_request_seen fsm) matches Err NetError_DuplicateStatusRequest))).

Definition login_may_advance_to_configuration : Prop :=
  unwrapped_with (transition State_Login connection_state_new) (fun _ fsm =>
  unwrapped_with (transition State_Configuration fsm) (fun _ fsm =>
    current fsm = State_Configuration)).

Definition configuration_is_terminal_in_this_milestone : Prop :=
  unwrapped_with (transition State_Login connection_state_new) (fun _ fsm =>
  unwrapped_with (transition State_Configuration fsm) (fun _ fsm =>
    fst (transition State_Play fsm) matches Err (NetError_IllegalTransition _ _))).

Example the_state_tests_pass :
  connections_begin_in_handshaking
  /\ handshaking_moves_to_status_or_login
  /\ status_cannot_escalate_to_login
  /\ handshaking_cannot_skip_to_play_or_configuration
  /\ status_request_may_be_skipped_entirely
  /\ duplicate_status_requests_are_rejected
  /\ login_may_advance_to_configuration
  /\ configuration_is_terminal_in_this_milestone.
Proof. run_tests. Qed.

End StateTests.

(** ** [net/src/offline.rs] *)

Module OfflineTests.
Section Digest.
Variable md5 : list byte -> list byte.

Definition uuid_of (name : String.string) : Z := offline_uuid md5 (bytes_of name).

Definition offline_uuid_is_stable_for_a_name : Prop := uuid_of "Notch" = uuid_of "Notch".

Definition offline_uuid_matches_the_documented_vanilla_values : Prop :=
  for_all (fun '(name, expected) => uuid_of name = expected)
    [("Notch"%string, 0xb50ad385829d3141a2167e7d7539ba7f);
     ("Steve"%string, 0x5627dd98e6be3c21b8a8e92344183641);
     ("jeb_"%string, 0xa762f5604fce3236812ab80efff0b62b)].

Definition offline_uuid_differs_between_names : Prop :=
  uuid_of "Notch" <> uuid_of "notch" /\ uuid_of "Notch" <> uuid_of "Steve".

(** [to_be_bytes()] of a [u128]: sixteen bytes. *)
Definition offline_uuid_has_version_3_and_rfc_4122_variant : Prop :=
  for_all (fun name =>
    let bytes := be_bytes 16 (uuid_of name) in
    Z.shiftr (byte_val (nth 6 bytes x00)) 4 = 0x3
    /\ Z.shiftr (byte_val (nth 8 bytes x00)) 6 = 2)
    ["Notch"; "Steve"; "a"; "_______________x"]%string.
End Digest.

Definition valid_usernames_are_accepted : Prop :=
  for_all (fun name => validate_username (bytes_of name) matches Ok _)
    ["a"; "Notch"; "Steve_123"; "________________"]%string.

Definition invalid_usernames_are_rejected : Prop :=
  for_all (fun name => validate_username name matches Err (NetError_InvalidUsername _))
    ([] :: map bytes_of ["seventeen_chars_x"; "has space"; "hy-phen"; "é"]%string).

Example the_offline_tests_pass :
  offline_uuid_is_stable_for_a_name rfc1321
  /\ offline_uuid_matches_the_documented_vanilla_values rfc1321
  /\ offline_uuid_differs_between_names rfc1321
  /\ offline_uuid_has_version_3_and_rfc_4122_variant rfc1321
  /\ valid_usernames_are_accepted
  /\ invalid_usernames_are_rejected.
Proof. run_tests. Qed.

End OfflineTests.

(** ** [server/src/main.rs] *)

Module MainTests.
Section Addresses.
(** [impl Display for SocketAddr]; the tests hold however it prints. *)
Variable display : SocketAddr -> list byte.

(** [text.parse()] of the addresses the tests use. *)
Definition v4 (a b c d port : Z) : SocketAddr := mkSocketAddr (IpAddr_V4 a b c d) port.
Definition v6 (bits port : Z) : SocketAddr := mkSocketAddr (IpAddr_V6 bits) port.

(** [message.contains(part)]. *)
Definition contains (message : list byte) (part : String.string) : Prop :=
  exists before after, message = before ++ bytes_of part ++ after.

Definition loopback_binds_need_no_flag : Prop :=
  (check_bind_safety display (v4 127 0 0 1 25565) false matches Ok _)
  /\ (check_bind_safety display (v6 1 25565) false matches Ok _).

Definition public_binds_are_refused_without_the_flag : Prop :=
  for_all (fun addr =>
    match check_bind_safety display addr false with
    | Err message => contains message "--insecure-offline-mode" /\ contains message "any username"
    | _ => False
    end)
    [v4 0 0 0 0 25565; v4 192 168 1 10 25565; v6 0 25565].

Definition public_binds_are_permitted_with_the_flag : Prop :=
  check_bind_safety display (v4 0 0 0 0 25565) true matches Ok _.
End Addresses.

(** A part of the fixed text after the address. *)
Lemma contains_after prefix (text : list byte) (part : String.string) n :
  take (length (bytes_of part)) (drop n text) = bytes_of part ->
  contains (prefix ++ text) part.
Proof.
  intros Hpart. exists (prefix ++ take n text), (drop (length (bytes_of part)) (drop n text)).
  rewrite <- app_assoc. f_equal. rewrite <- Hpart at 1. by rewrite !take_drop.
Qed.

Example the_main_tests_pass display :
  loopback_binds_need_no_flag display
  /\ public_binds_are_refused_without_the_flag display
  /\ public_binds_are_permitted_with_the_flag display.
Proof.
  split; [run_tests|split; [|exact I]].
  repeat split; rewrite app_assoc;
    (apply (contains_after _ _ _ 185) + apply (contains_after _ _ _ 67)); vm_compute; reflexivity.
Qed.

End MainTests.
