(* ===== verification/NetIntegration.v ===== *)
(** * The integration tests of the [net] crate, run on the model
    ([crates/net/tests/*.rs]).

    A client is its codec: what it sends is encoded into the stream the server
    reads, and what it receives is decoded from the server's wire.  [served] runs
    one connection on a stream, [ran] the accept loop under a schedule of its
    tasks.  zlib is the run-length coder of [Codec], JSON is written by
    [print_json] and read by [parse_json]. *)

From S2P Require Import Prelude Utf8 Buffers Testing ProtocolError Varint Packets Codec ConnState Md5 Offline Json JsonRead JsonParse Connection Session Server Host.
From stdpp Require Import base list numbers strings.
From Stdlib Require Import Strings.Byte.

Open Scope Z_scope.
Open Scope test_scope.

#[local] Instance test_externals : Externals := {|
  inflate := run_inflate;
  deflate := run_deflate;
  md5 := rfc1321;
  json_to_string := fun j => Ok (print_json j);
  flush_error := fun _ => None;
|}.

(** ** Clients *)

(** [ServerConfig { .. }] of the tests. *)
Definition test_config (read_timeout : Z) (threshold : option Z) : ServerConfig :=
  mkServerConfig (text_component_new (bytes_of "A Pyrite Server")) 100 read_timeout threshold.

Definition test_handshake (next : NextState) : Handshake :=
  mkHandshake PROTOCOL_VERSION (bytes_of "localhost") 25565 next.

(** [client.send(item)]: the bytes on their way to the server. *)
Definition sent (codec : PacketCodec) {P} `{Packet P} (item : P) : list byte :=
  match encode deflate item (codec, bytes_mut_new) with
  | (Ok _, (_, buf)) => contents buf
  | _ => []
  end.

(** [Connection::new(server, config).run()] on what the client does, with what it
    returned and what the client was sent. *)
Definition served (config : ServerConfig) (client : list Arrival)
    (k : outcome NetError bool -> list byte -> Prop) : Prop :=
  let (result, connection) := run client (connection_new config) in k result (wire connection).

(** [client.next().await.unwrap().unwrap()], and what the client has still to read. *)
Definition received (codec : PacketCodec) (from_server : list byte)
    (k : RawPacket -> list byte -> Prop) : Prop :=
  match decode inflate codec (mkBytesMut from_server []) with
  | (Ok (Some frame), buf) => k frame (contents buf)
  | _ => False
  end.

(** ** [tests/server_list_ping.rs] *)

Module PingTests.

Definition config : ServerConfig := test_config 5 None.

Definition full_server_list_ping_exchange : Prop :=
  let payload := 0x0123456789abcdef in
  served config
    [Arrival_bytes (sent codec_new (test_handshake NextState_Status));
     Arrival_bytes (sent codec_new mkStatusRequest);
     Arrival_bytes (sent codec_new (mkPingRequest payload))] (fun result wire =>
    received codec_new wire (fun frame wire =>
      id frame = packet_id StatusResponse
      /\ unwrapped (decode_as StatusResponse frame) (fun response =>
          match from_str (A := StatusResponseJson) parse_json (json response) with
          | Some status =>
            protocol (version status) = PROTOCOL_VERSION
            /\ version_name (version status) = VERSION_NAME
            /\ players_max (players status) = 100
            /\ players_online (players status) = 0
            /\ description status = text_component_new (bytes_of "A Pyrite Server")
          | None => False
          end)
      /\ received codec_new wire (fun frame wire =>
          id frame = packet_id PongResponse
          /\ unwrapped (decode_as PongResponse frame) (fun pong => pong_payload pong = payload)
          /\ wire = []))
    /\ result = Ok true).

Definition ping_without_a_status_request_is_accepted : Prop :=
  served config
    [Arrival_bytes (sent codec_new (test_handshake NextState_Status));
     Arrival_bytes (sent codec_new (mkPingRequest (-1)))] (fun result wire =>
    received codec_new wire (fun frame _ =>
      unwrapped (decode_as PongResponse frame) (fun pong => pong_payload pong = -1))
    /\ result = Ok true).

Definition an_unknown_packet_id_closes_the_connection : Prop :=
  served config
    [Arrival_bytes (sent codec_new (test_handshake NextState_Status));
     Arrival_bytes (octets [0x01; 0x7f])] (fun result wire =>
    wire = []
    /\ (result matches Err (NetError_UnexpectedPacket _ 0x7f))).

Definition a_client_disconnecting_immediately_is_not_an_error : Prop :=
  served config [Arrival_eof] (fun result _ => result = Ok true).

Example the_ping_tests_pass :
  full_server_list_ping_exchange
  /\ ping_without_a_status_request_is_accepted
  /\ an_unknown_packet_id_closes_the_connection
  /\ a_client_disconnecting_immediately_is_not_an_error.
Proof. run_tests. Qed.

End PingTests.

(** ** [tests/login.rs] *)

Module LoginFlowTests.

Definition config (threshold : option Z) : ServerConfig := test_config 5 threshold.
Definition handshake : list byte := sent codec_new (test_handshake NextState_Login).
Definition compressed : PacketCodec := set_compression 256 codec_new.

Definition a_full_login_reaches_configuration : Prop :=
  served (config (Some 256))
    [Arrival_bytes handshake;
     Arrival_bytes (sent codec_new (mkLoginStart (bytes_of "Notch") (2 ^ 128 - 1)));
     Arrival_bytes (sent compressed mkLoginAcknowledged);
     Arrival_timeout] (fun result wire =>
    received codec_new wire (fun frame wire =>
      id frame = packet_id SetCompression
      /\ unwrapped (decode_as SetCompression frame) (fun set =>
          threshold set = 256
          /\ received (set_compression (threshold set) codec_new) wire (fun frame _ =>
              id frame = packet_id LoginSuccess
              /\ unwrapped (decode_as LoginSuccess frame) (fun success =>
                  username (profile success) = bytes_of "Notch"
                  /\ profile_uuid (profile success) = offline_uuid rfc1321 (bytes_of "Notch")
                  /\ profile_uuid (profile success) <> 2 ^ 128 - 1
                  /\ properties (profile success) = []))))
    /\ (result matches Err NetError_Timeout)).

Definition login_without_compression_skips_set_compression : Prop :=
  served (config None)
    [Arrival_bytes handshake;
     Arrival_bytes (sent codec_new (mkLoginStart (bytes_of "Steve") 0));
     Arrival_bytes (sent codec_new mkLoginAcknowledged);
     Arrival_timeout] (fun result wire =>
    received codec_new wire (fun frame _ => id frame = packet_id LoginSuccess)
    /\ (result matches Err NetError_Timeout)).

Definition an_invalid_username_is_disconnected_without_a_login_success : Prop :=
  served (config (Some 256))
    [Arrival_bytes handshake;
     Arrival_bytes (sent codec_new (mkLoginStart (bytes_of "has space") 0))] (fun result wire =>
    received codec_new wire (fun frame wire =>
      id frame = packet_id LoginDisconnect
      /\ unwrapped (decode_as LoginDisconnect frame) (fun disconnect =>
          match parse_json (reason disconnect) with
          | Some reason =>
            match member (bytes_of "text") reason with
            | Some (Json_string text) =>
                slice 8 16 text = bytes_of "username"
            | _ => False
            end
          | None => False
          end)
      /\ wire = [])
    /\ (result matches Err (NetError_InvalidUsername _))).

Definition set_compression_is_itself_sent_uncompressed : Prop :=
  served (config (Some 256))
    [Arrival_bytes handshake;
     Arrival_bytes (sent codec_new (mkLoginStart (bytes_of "Notch") 0));
     Arrival_eof] (fun _ wire =>
    received codec_new wire (fun frame wire =>
      id frame = packet_id SetCompression
      /\ received compressed wire (fun frame _ => id frame = packet_id LoginSuccess))).

Example the_login_flow_tests_pass :
  a_full_login_reaches_configuration
  /\ login_without_compression_skips_set_compression
  /\ an_invalid_username_is_disconnected_without_a_login_success
  /\ set_compression_is_itself_sent_uncompressed.
Proof. run_tests. Qed.

End LoginFlowTests.

(** ** [tests/hostile_peer.rs] *)

Module HostilePeerTests.

Definition config : ServerConfig := test_config 30 None.

Definition an_idle_peer_is_dropped_when_the_read_timeout_elapses : Prop :=
  served config
    [Arrival_bytes (sent codec_new (test_handshake NextState_Status)); Arrival_timeout] (fun result _ =>
    result matches Err NetError_Timeout).

(** The capacity of a buffer is what it holds and what was reserved of it. *)
Definition a_declared_frame_the_peer_never_sends_does_not_allocate : Prop :=
  let lying_prefix := octets [0xff; 0xff; 0x7f] in
  let ceiling := 16 * 1024 in
  unwrapped_with (decode inflate codec_new (mkBytesMut lying_prefix [])) (fun frame src =>
    frame = None
    /\ len (contents src) = len lying_prefix
    /\ len (contents src) + foldr Z.add 0 (reserves src) <= ceiling).

(** [wire.chunks(n)]. *)
Fixpoint chunks (fuel n : nat) (l : list byte) : list (list byte) :=
  match fuel, l with
  | S fuel, _ :: _ => take n l :: chunks fuel n (drop n l)
  | _, _ => []
  end.

Fixpoint decode_chunks (chunks : list (list byte)) (src : BytesMut) (decoded : option RawPacket) :
    outcome ProtocolError (option RawPacket) * BytesMut :=
  match chunks with
  | [] => (Ok decoded, src)
  | chunk :: chunks =>
    match decode inflate codec_new (mkBytesMut (contents src ++ chunk) (reserves src)) with
    | (Ok (Some frame), src) => decode_chunks chunks src (Some frame)
    | (Ok None, src) => decode_chunks chunks src decoded
    | (Err e, src) => (Err e, src)
    | (Panic, src) => (Panic, src)
    | (Diverge, src) => (Diverge, src)
    end
  end.

Definition a_large_frame_still_decodes_when_the_peer_actually_sends_it : Prop :=
  let body_len := 64 * 1024 in
  buffer (E := ProtocolError)
    (do! write_varint 0x00; put_slice (repeat xab (Z.to_nat body_len))) (fun body =>
  buffer (E := ProtocolError) (do! write_varint (len body); put_slice body) (fun wire =>
    unwrapped_with (decode_chunks (chunks 100 1024 wire) bytes_mut_new None) (fun decoded src =>
      match decoded with
      | Some frame => id frame = 0x00 /\ len (Codec.body frame) = body_len /\ contents src = []
      | None => False
      end))).

Definition a_duplicate_status_request_is_rejected : Prop :=
  served config
    [Arrival_bytes (sent codec_new (test_handshake NextState_Status));
     Arrival_bytes (sent codec_new mkStatusRequest);
     Arrival_bytes (sent codec_new mkStatusRequest)] (fun result _ =>
    result matches Err NetError_DuplicateStatusRequest).

Example the_hostile_peer_tests_pass :
  an_idle_peer_is_dropped_when_the_read_timeout_elapses
  /\ a_declared_frame_the_peer_never_sends_does_not_allocate
  /\ a_large_frame_still_decodes_when_the_peer_actually_sends_it
  /\ a_duplicate_status_request_is_rejected.
Proof. run_tests. Qed.

End HostilePeerTests.

(** ** [tests/serve.rs] *)

Module ServeTests.

Definition config : ServerConfig := test_config 60 None.

(** [serve(listener, config, options, wait)]: what happens before the shutdown
    and while draining, and whether the grace period runs out. *)
Definition ran (options : ServeOptions) (events drain_events : list HostEvent) (expired : bool)
    (k : ServeOutcome -> Prop) : Prop :=
  match host_serve config options events drain_events expired with
  | Some outcome => k outcome
  | None => False
  end.

(** A client that connects and hangs up, and one that stays and says nothing. *)
Definition dropped : list Arrival := [Arrival_eof].
Definition held : list Arrival := [].

Definition connections_beyond_the_cap_are_refused : Prop :=
  ran (mkServeOptions 1 2)
    [Host_accept dropped; Host_accept held]
    [Host_turn 0; Host_finish 0; Host_join 0] false (fun outcome =>
    outcome_accepted outcome = 1 /\ outcome_refused outcome = 1).

(** The first probe comes too early, the second is admitted. *)
Definition a_permit_is_reclaimed_when_a_connection_ends : Prop :=
  ran (mkServeOptions 1 2)
    [Host_accept dropped; Host_accept dropped; Host_turn 0; Host_finish 0; Host_accept dropped]
    [Host_turn 0; Host_finish 0; Host_join 0] false (fun outcome =>
    outcome_accepted outcome >= 2).

Definition shutdown_drains_connections_that_finish : Prop :=
  for_all (fun '(events, drain_events) =>
    ran (mkServeOptions 10 5) events drain_events false (fun outcome =>
      drained outcome = true /\ abandoned outcome = 0))
    [([Host_accept dropped; Host_turn 0; Host_finish 0], []);
     ([Host_accept dropped; Host_turn 0], [Host_finish 0; Host_join 0]);
     ([Host_accept dropped], [Host_turn 0; Host_finish 0; Host_join 0])].

Definition shutdown_abandons_connections_that_outlive_the_grace : Prop :=
  ran (mkServeOptions 10 0) [Host_accept held] [] true (fun outcome =>
    drained outcome = false /\ abandoned outcome = 1).

Example the_serve_tests_pass :
  connections_beyond_the_cap_are_refused
  /\ a_permit_is_reclaimed_when_a_connection_ends
  /\ shutdown_drains_connections_that_finish
  /\ shutdown_abandons_connections_that_outlive_the_grace.
Proof. run_tests. Qed.

End ServeTests.
